(* ===== verification/_CoqProject ===== *)
-Q . S2P
Prelude.v
Word.v
Float64.v
FloatRound.v
Rng.v
Gaussian.v
GoSort.v
Book.v
BookSide.v
BookSpec.v
BookProps.v
Itch.v
ItchJson.v
Decoder.v
ItchProps.v
Simulator.v
SimFrame.v
SimWire.v
SimProps.v
SimInit.v
SimTheorems.v
PriceProps.v
Strconv.v
Calendar.v
Config.v
Symbols.v
Session.v
SessionProps.v
DecoderMain.v
Market.v
Stress.v
Snapshot.v
SnapshotProps.v
Trades.v
Retention.v
Archive.v
ArchiveProps.v
HistoryProps.v
Archiver.v
ArchiverProps.v
Lifecycle.v
DayWriter.v
Services.v
Feed.v
Schema.v
World.v
FeedProps.v
Process.v
RunnerProps.v
ProcessInv.v
ProcessProps.v
ProcessTrades.v
ProcessSnap.v
ProcessConn.v
ProcessInit.v
ProcessRestart.v
ProcessDemo.v
ClientDemo.v
EndToEnd.v
ProcessLives.v
Boot.v
Shutdown.v
Api.v
Routes.v
CandleProps.v
ApiProps.v
Whole.v
