(* ===== verification/Prelude.v ===== *)
(** * Verification of go-feed, a market feed simulator

    The program (src/go-feed) simulates a small stock exchange and serves its
    data: an ITCH 5.0 feed over WebSockets, a REST API, and trades kept in
    Postgres for some days and in compressed files after that.  This library
    models its Go code as functions and proves what each part promises.

    ** How the parts work together

    One runner per symbol (cmd/feedsim) repeats a tick: the price engine moves
    the symbol's price, the symbol's simulator performs a few random actions on
    its order book, the resulting messages are broadcast to the subscribed
    WebSocket clients, and the trades among them are queued for the database.
    The stress controller sets the pace of one symbol's runner.  A snapshot of
    books, prices, counters and generator is saved every few seconds and loaded
    at start.  Trades move from the trades table to day-files (the archiver),
    are pruned by age (retention), and are read back as one history by the API.

    ** Conventions

    A method that changes state is a function in the monad [go] below, from the
    state to a result and the next state; [None] is a run-time panic.  The
    mutexes of the source make each method atomic, so a method is one step;
    where goroutines interleave inside an operation the steps form an inductive
    relation ([conn_step] of Session, [pipe_step] of Feed, [day_step] of DayWriter,
    and [step] of Process for the whole).  A step of the process is one access to
    shared state; an action of a simulator counts as one, its draws from the shared
    generator taken together.  Integers are [Z]
    with the wrap-around of their width written out (Word), a float64 is the
    binary64 [spec_float] rounded after every operation (Float64), instants are
    nanoseconds since the epoch.  Definitions keep the source's names; a type
    whose field names recur has a Module of its own with the record [t].

    ** The files

    - Foundations: Prelude (this file), Word (fixed-width integers, bytes),
      Float64 (arithmetic and conversions), FloatRound (error of a rounded
      product), GoSort (sort.Slice), Strconv (Atoi, Split, Contains), Calendar
      (UTC dates and the paths of the day-files).
    - engine/random.go: Rng (the PCG generator, its full period and its saved
      form) and Gaussian (the polar method).  engine/market.go: Market.
      engine/stress.go: Stress.
    - orderbook/order.go, book.go: Book.  Orders live in a heap because the
      price levels and [orderMap] share them by pointer and [ReduceOrder]
      writes through one.  BookSide and BookSpec give the abstract book (two
      lists in price-time priority), the invariant [book_rep] and the
      abstraction [abs]; BookProps the refinement of every method.
    - orderbook/simulator.go: Simulator; SimProps defines [apply_msg], a
      consumer that rebuilds the book from the messages, and proves the actions
      against it; SimInit the seeding; SimTheorems the results.
    - itch: Itch (messages.go, binary.go), ItchJson (json.go), and the client's
      cmd/decoder in Decoder; ItchProps relates encoder and decoder, PriceProps
      the prices in both encodings.
    - symbol/symbol.go: Symbols.  config/config.go: Config.
    - session: Session (client.go, manager.go, handler.go), SessionProps.
    - persist: Trades (queries.go), Snapshot (snapshot.go) and SnapshotProps,
      Retention (size.go and the monitor of retention.go; [prune] is in
      Archiver, on the table it shares with the archiver).
    - archive: Archive (catalog.go, reader.go, candles.go, history.go),
      Archiver (archiver.go), with ArchiveProps, HistoryProps, CandleProps,
      ArchiverProps, and Lifecycle for the life of a trade across table,
      archive, pruning and history.  What history needs of the live store is
      the class [TradeReader] of Archive, with Postgres's queries as its instance.
    - archive, continued: DayWriter has a day's work of the archiver as the file and
      database operations it is; Services the loops of the archiver and the pruner.
    - api: Api and ApiProps; Routes has the routes, the mux and the CORS middleware.
    - cmd/feedsim: Feed and FeedProps have one iteration of each runner, the start
      and the trade pipeline, run alone.  Process is the running process: runners,
      trade writers, snapshotter and both pumps of every client, interleaved.
      SimFrame and World say what an action of one simulator leaves to the others on
      the shared heap; RunnerProps relates a runner's accesses to its iteration;
      ProcessInv and ProcessProps the invariant, ProcessTrades the match numbers and
      the table, ProcessSnap a snapshot taken while all run, ProcessConn the
      clients, ProcessInit and ProcessRestart the starts, ProcessLives any number of
      crashes and restarts, Boot main up to its server over the SQL tables, Shutdown
      its exit.  ProcessDemo and ClientDemo are concrete runs.  Whole is the process with
      the archiver and the pruner on one trades table.
    - persist/schema.go: Schema has the tables, an executable reading of the SQL the
      program writes with, and the statements of Save, SaveTrade and saveCursor.
    - cmd/decoder: DecoderMain has main's control messages, read loop and statistics;
      SimWire bounds the messages of the simulators by the wire's fields, and
      EndToEnd runs the decoder against the process.

    ** What the theorems show

    - The book: every method implements its operation on the abstract book, and
      every book reachable from the empty one by calls that give each order an unused
      ID and a numeric price is well formed (sorted, at most ten levels a side,
      [orderMap] and levels agree).
    - The simulator: no action panics; a trade happens unless a side has no price,
      takes from the best order and reports what it took; a consumer of the messages holds the simulator's
      book after any step, except for the orders a replace evicts, which
      [doReplace_loses_evictions] exhibits.
    - The wire: the decoder prints, for the bytes of any list of messages, their
      fields, and never panics on any input; prices of the simulator's grid
      survive both encodings exactly; a client receives, in order, what was
      queued for it, and every subscriber of a symbol is offered its messages.
    - Randomness: the generator has its full period; the polar method returns
      from every state; a price step is the formula's, snapped and floored, and
      the stress pace stays within its bounds.
    - Storage: whatever fails, the archiver loses no trade but by rotating its
      day-file out of a full archive; history is the page of one newest-first sequence
      over both stores; archived candles equal the SQL ones, for cursors at the start
      of a bucket; the catalog reads back exactly the file names the archiver
      writes, which sort by day; pages of candles without zero filling, followed by
      their cursor, tile the series; every trade put in the channel is accounted for;
      a snapshot restores the orders, prices, counters and generator; killed anywhere,
      the archiver leaves one of the outcomes of its one-step model; archiver and
      pruner side by side keep every trade that is not rotated out, under the right
      settings; the SQL of Save does to the tables what [Save] does to the state they
      stand for, within every constraint.
    - The process: in every interleaving the books stay well formed and apart, no
      runner panics, and each is sure to be back at the top of its loop after finitely
      many accesses, none of which waits; every symbol's published messages rebuild its
      book, match numbers are consecutive, the trades table is its start and a row for
      every save, a
      client's stream is a lossy FIFO of what it is offered, a subscriber is offered
      every message, a snapshot taken on the way can be restored, and all this again
      after any number of crashes; a decoder attached to it prints the lines of whole
      messages only.  With the archiver and the pruner at work too, every trade made is
      in a runner's hands, the channel, a writer's hands, the table or its day-file, or
      was refused, lost to an error or rotated out ([trade_life]).
    Where the code disagrees with its comments or the README, a theorem shows
    the disagreement on a concrete run (eviction on replace, hidden trades
    between archive and retention, reuse of match numbers after a crash, lost
    time priority on restart, a sold order in a snapshot, a day lost to a power
    failure or overwritten after a failed DELETE, an exit without its last snapshot or in the
    middle of one, a cursor no browser can read, a cursor inside a bucket, zero-filled
    pages that never end, and others).

    ** Fuel and bounds

    Every definition is executable.  Loops over slices are folds or structural
    recursion.  Three loops take fuel: [polar_loop], for which
    [Gaussian_terminates] shows that every generator has enough (it reaches
      every state, so also one that draws an accepted pair); [frames_loop],
    run with the length of the data, since each iteration consumes at least
    two bytes; and [cycle_loop], run with the number of days to the cutoff.
    Running out of fuel is a panic in the first two, and [Gaussian_terminates]
    and [decoder_total] exclude it.

    ** Arguments of the model

    Code outside the repository is an argument of the definitions that use it:
    math.Log, Exp and Sin; json.Marshal; the parsing and printing of RFC 3339
    times; flag.Parse; the database's size query; the WebSocket upgrade; whether
    closing the connection pool waits for its connections; the order of map
    iteration and of rows selected without ORDER BY; the size of a day-file, the other
    files a rotation finds beside them and those it cannot delete.  After a power failure a disk
    may hold any of its states since the last sync of what was synced ([d_kept] of
    DayWriter).  Hypotheses on them state documented
    behaviour and are met by concrete functions in the witnesses.

    ** Not modelled

    - gzip and the JSON of the day-files: a file is its path with the result of reading
      it, and, for rotation, its size.
    - The Postgres driver, its errors inside a query, and deadlocks or isolation
      between transactions: a statement of the program finds the tables as the last
      one left them.  The queries of the API are read relationally; rows that
      compare equal under ORDER BY come in the model's order.  A trade's time is cut
      to microseconds in Schema and exact elsewhere.
    - Cancellation of requests, timeouts and deadlines, pings, and the timers: a tick
      may come at any time.
    - In the process relation the archiver, the pruner and the API's readers have no
      steps: they share only the trades table with it, and have relations of their own.
      In Whole a cycle of the archiver is one step; DayWriter shows a day's work to be
      one although trades are saved meanwhile.
    - The text of log lines; dialling and the interrupt handler of the decoder; the
      JavaScript visualizer.

    ** Left to do

    The life of a trade over the SQL tables of Schema, and the deadlines of the
    WebSocket pumps. *)
From Stdlib Require Export ZArith Lia.
From stdpp Require Export base gmap sets strings numbers option list sorting.

(** ** Go computations

    A statement sequence over a mutable state [S] is a function from the state
    before to the value and state after; [None] is a run-time panic (index out
    of range, nil dereference, integer division by zero), which ends the
    goroutine. *)
Definition go (S A : Type) : Type := S → option (A * S).

Global Instance go_ret {S} : MRet (go S) := λ A a s, Some (a, s).
Global Instance go_bind {S} : MBind (go S) := λ A B k m s,
  match m s with
  | Some (a, s') => k a s'
  | None => None
  end.
Global Instance go_fmap {S} : FMap (go S) := λ A B f m s,
  match m s with
  | Some (a, s') => Some (f a, s')
  | None => None
  end.

Definition panic {S A} : go S A := λ _, None.
Definition get_state {S} : go S S := λ s, Some (s, s).
Definition put_state {S} (s' : S) : go S unit := λ _, Some (tt, s').
Definition gets {S A} (f : S → A) : go S A := λ s, Some (f s, s).

(** Run a computation on a component of the state. *)
Definition zoom {S T A} (get : S → T) (set : S → T → S) (m : go T A) : go S A := λ s,
  match m (get s) with
  | Some (a, t) => Some (a, set s t)
  | None => None
  end.

(** A Go [for] over the elements of a slice, with an accumulator. *)
Fixpoint go_fold {S A B} (f : B → A → go S B) (b : B) (l : list A) : go S B :=
  match l with
  | [] => mret b
  | a :: l' => b' ← f b a; go_fold f b' l'
  end.

Lemma go_bind_Some {S A B} (m : go S A) (k : A → go S B) s b s2 :
  (m ≫= k) s = Some (b, s2) ↔ ∃ a s1, m s = Some (a, s1) ∧ k a s1 = Some (b, s2).
Proof.
  unfold mbind, go_bind. split.
  - destruct (m s) as [[a s1]|]; [eauto|discriminate].
  - intros (a & s1 & -> & ->). done.
Qed.

Lemma go_bind_run {S A B} (m : go S A) (k : A → go S B) s a s' :
  m s = Some (a, s') → (m ≫= k) s = k a s'.
Proof. unfold mbind, go_bind. by intros ->. Qed.

Lemma zoom_run {S T A} (get : S → T) (set : S → T → S) (m : go T A) s a t :
  m (get s) = Some (a, t) → zoom get set m s = Some (a, set s t).
Proof. unfold zoom. by intros ->. Qed.

Lemma go_ret_Some {S A} (a : A) (s : S) b s2 :
  (mret a : go S A) s = Some (b, s2) ↔ a = b ∧ s = s2.
Proof. unfold mret, go_ret. split; [by intros [= -> ->]|by intros [-> ->]]. Qed.

Lemma gets_Some {S A} (f : S → A) s b s2 :
  gets f s = Some (b, s2) ↔ f s = b ∧ s = s2.
Proof. unfold gets. split; [by intros [= -> ->]|by intros [-> ->]]. Qed.

(** ** Total correctness

    [go_wp m Q s]: run from [s], [m] does not panic and ends in a value and a
    state that satisfy [Q]. *)
Definition go_wp {S A} (m : go S A) (Q : A → S → Prop) (s : S) : Prop :=
  match m s with Some (a, s') => Q a s' | None => False end.

Create HintDb go_wp.
Create Rewrite HintDb go_wp.

Lemma go_wp_iff {S A} (m : go S A) Q s : go_wp m Q s ↔ ∃ a s', m s = Some (a, s') ∧ Q a s'.
Proof.
  unfold go_wp. destruct (m s) as [[a s']|]; split; [eauto|by intros (? & ? & [= -> ->] & ?)|done|].
  by intros (? & ? & ? & ?).
Qed.

Lemma go_wp_ret {S A} (a : A) Q (s : S) : go_wp (mret a) Q s = Q a s.
Proof. done. Qed.

Lemma go_wp_gets {S A} (f : S → A) Q (s : S) : go_wp (gets f) Q s = Q (f s) s.
Proof. done. Qed.

Lemma go_wp_bind {S A B} (m : go S A) (k : A → go S B) Q s :
  go_wp (m ≫= k) Q s = go_wp m (λ a, go_wp (k a) Q) s.
Proof. unfold go_wp, mbind, go_bind. by destruct (m s) as [[a s']|]. Qed.

Lemma go_wp_zoom {S T A} (get : S → T) (set : S → T → S) (m : go T A) Q s :
  go_wp (zoom get set m) Q s = go_wp m (λ a t, Q a (set s t)) (get s).
Proof. unfold go_wp, zoom. by destruct (m (get s)) as [[a t]|]. Qed.

Lemma go_wp_run {S A} (m : go S A) Q s a s' : m s = Some (a, s') → Q a s' → go_wp m Q s.
Proof. unfold go_wp. by intros ->. Qed.

Lemma go_wp_mono {S A} (m : go S A) (Q Q' : A → S → Prop) s :
  go_wp m Q s → (∀ a s', Q a s' → Q' a s') → go_wp m Q' s.
Proof. unfold go_wp. destruct (m s) as [[a s']|]; [auto|done]. Qed.

Lemma go_wp_conj {S A} (m : go S A) (Q Q' : A → S → Prop) s :
  go_wp m Q s → go_wp m Q' s → go_wp m (λ a s', Q a s' ∧ Q' a s') s.
Proof. unfold go_wp. destruct (m s) as [[a s']|]; [auto|done]. Qed.

(** A loop, with an invariant on the elements still to come. *)
Lemma go_wp_fold {S A B} (f : B → A → go S B) (I : B → list A → S → Prop) b l s :
  I b l s → (∀ b a l s, I b (a :: l) s → go_wp (f b a) (λ b' s', I b' l s') s) →
  go_wp (go_fold f b l) (λ b' s', I b' [] s') s.
Proof.
  intros HI Hf. revert b s HI. induction l as [|a l IH]; intros b s HI; [done|].
  cbn [go_fold]. rewrite go_wp_bind. eapply go_wp_mono; [by apply Hf|]. cbn. auto.
Qed.

#[export] Hint Rewrite @go_wp_ret @go_wp_gets @go_wp_bind @go_wp_zoom : go_wp.

(** Push [go_wp] through the sequencing of a computation. *)
Ltac wp := autorewrite with go_wp.

(** ** Lists *)

Section lists.
Context {A : Type}.

Lemma ssorted_impl (R R' : A → A → Prop) (l : list A) :
  (∀ x y, R x y → R' x y) → StronglySorted R l → StronglySorted R' l.
Proof.
  intros H. induction 1 as [|x l _ IH Hx]; constructor; [done|]. eapply Forall_impl; [exact Hx|]. auto.
Qed.

Lemma fold_filter {B} (p : B → bool) (f : A → B → A) (l : list B) a :
  fold_left (λ a b, if p b then f a b else a) l a = fold_left f (List.filter p l) a.
Proof. revert a. induction l as [|b l IH]; intros a; [done|]. cbn. rewrite IH. by destruct (p b). Qed.

Lemma fold_map {B C} (g : C → B) (f : A → B → A) (l : list C) a :
  fold_left (λ a c, f a (g c)) l a = fold_left f (g <$> l) a.
Proof. revert a. induction l as [|b l IH]; intros a; [done|]. cbn. apply IH. Qed.

Lemma filter_concat (p : A → bool) (ls : list (list A)) :
  List.filter p (concat ls) = concat (List.filter p <$> ls).
Proof. induction ls as [|l ls IH]; [done|]. cbn. by rewrite List.filter_app, IH. Qed.

Lemma reverse_concat (ls : list (list A)) : reverse (concat ls) = concat (reverse <$> reverse ls).
Proof.
  induction ls as [|l ls IH]; [done|]. cbn [concat]. rewrite reverse_app, IH, reverse_cons, fmap_app.
  rewrite concat_app. cbn. by rewrite app_nil_r.
Qed.

Lemma filter_nil (p : A → bool) l : Forall (λ x, p x = false) l → List.filter p l = [].
Proof. induction 1 as [|x l Hx _ IH]; [done|]. cbn. by rewrite Hx. Qed.

Lemma filter_perm (p : A → bool) (l l' : list A) : l ≡ₚ l' → List.filter p l ≡ₚ List.filter p l'.
Proof.
  induction 1 as [|x l l' _ IH|x y l|l1 l2 l3 _ IH1 _ IH2]; cbn; [done| | |by etrans].
  - by destruct (p x); rewrite ?IH.
  - destruct (p x), (p y); try done. by apply Permutation_swap.
Qed.

Lemma filter_split (p : A → bool) (l : list A) : List.filter p l ++ List.filter (negb ∘ p) l ≡ₚ l.
Proof.
  induction l as [|x l IH]; [done|]. cbn. destruct (p x); cbn; [by rewrite IH|].
  by rewrite <- Permutation_middle, IH.
Qed.

Lemma ssorted_lookup (R : A → A → Prop) (l : list A) i j x y :
  StronglySorted R l → l !! i = Some x → l !! j = Some y → (i < j)%nat → R x y.
Proof.
  intros Hs. revert i j. induction Hs as [|z l Hs IH Hz]; intros i j Hi Hj Hij; [done|].
  destruct j as [|j]; [lia|]. destruct i as [|i]; cbn in Hi, Hj.
  - injection Hi as ->. rewrite Forall_forall in Hz. apply Hz. by eapply list_elem_of_lookup_2.
  - by apply (IH i j); [..|lia].
Qed.

Lemma take_take_app (n : nat) (l1 l2 : list A) :
  take n (l1 ++ l2) = take n l1 ++ take (n - length (take n l1)) l2.
Proof. rewrite take_app, length_take. do 2 f_equal. lia. Qed.

Lemma elem_of_concat (x : A) (ls : list (list A)) : x ∈ concat ls ↔ ∃ l, x ∈ l ∧ l ∈ ls.
Proof.
  rewrite list_elem_of_In, in_concat. split; intros (l & H1 & H2); exists l;
    by rewrite ?list_elem_of_In in *.
Qed.

End lists.
