(* ===== verification/Word.v ===== *)
(** * Go's fixed-width integers and bytes

    Go integers are modelled as [Z], with the wrap-around of the width written
    out at each operation that can overflow.  Unsigned values are kept in
    [0, 2^w) and signed ones in [-2^(w-1), 2^(w-1)).  A [byte] is a [Z] below
    256, a [[]byte] a list of them, and a Go string a Rocq [string]. *)
From Stdlib Require Import Ascii.
From S2P Require Import Prelude.

Local Open Scope Z_scope.

Create HintDb word.
Create Rewrite HintDb word.

(** ** Wrap-around *)

(** [uwrap w x] is the unsigned [w]-bit value congruent to [x]; [swrap] the
    two's complement one. *)
Definition uwrap (w x : Z) : Z := x mod 2 ^ w.
Definition swrap (w x : Z) : Z := (x + 2 ^ (w - 1)) mod 2 ^ w - 2 ^ (w - 1).

Abbreviation to_u8 := (uwrap 8).
Abbreviation to_u16 := (uwrap 16).
Abbreviation to_u32 := (uwrap 32).
Abbreviation to_u64 := (uwrap 64).
Abbreviation to_i16 := (swrap 16).
Abbreviation to_i32 := (swrap 32).
Abbreviation to_i64 := (swrap 64).

Definition is_u (w x : Z) : Prop := 0 ≤ x < 2 ^ w.
Definition is_s (w x : Z) : Prop := - 2 ^ (w - 1) ≤ x < 2 ^ (w - 1).

Lemma uwrap_range w x : 0 ≤ w → is_u w (uwrap w x).
Proof. intros ?. apply Z.mod_pos_bound. lia. Qed.

Lemma uwrap_id w x : is_u w x → uwrap w x = x.
Proof. apply Z.mod_small. Qed.

Lemma pow_half w : 0 < w → 2 ^ w = 2 * 2 ^ (w - 1).
Proof. intros ?. rewrite <- Z.pow_succ_r by lia. f_equal. lia. Qed.

Lemma swrap_range w x : 0 < w → is_s w (swrap w x).
Proof.
  intros Hw. unfold is_s, swrap. pose proof (pow_half w Hw).
  pose proof (Z.mod_pos_bound (x + 2 ^ (w - 1)) (2 ^ w) ltac:(lia)). lia.
Qed.

Lemma swrap_id w x : 0 < w → is_s w x → swrap w x = x.
Proof.
  intros Hw [??]. unfold swrap. pose proof (pow_half w Hw).
  rewrite Z.mod_small; lia.
Qed.

(** Converting a signed value to unsigned of the same width and back, as
    [int64(x)] of a [uint64] written to and read from a database column. *)
Lemma swrap_uwrap w x : 0 < w → is_u w x → uwrap w (swrap w x) = x.
Proof.
  intros ? Hx. unfold swrap, uwrap.
  rewrite Zminus_mod_idemp_l, Z.add_simpl_r. by apply Z.mod_small.
Qed.

Lemma uwrap_swrap w x : 0 < w → is_s w x → swrap w (uwrap w x) = x.
Proof.
  intros ? Hx. unfold uwrap. unfold swrap at 1.
  rewrite Zplus_mod_idemp_l. by apply swrap_id.
Qed.

Lemma swrap_add_l w a b : 0 < w → swrap w (swrap w a + b) = swrap w (a + b).
Proof.
  intros Hw. unfold swrap.
  replace ((a + 2 ^ (w - 1)) mod 2 ^ w - 2 ^ (w - 1) + b + 2 ^ (w - 1))
    with ((a + 2 ^ (w - 1)) mod 2 ^ w + b) by lia.
  rewrite Zplus_mod_idemp_l. do 2 f_equal. lia.
Qed.

(** ** Big-endian byte strings

    [put_uint n v] are the [n] bytes [binary.BigEndian.PutUint16/32/64] write;
    [get_uint] the value [Uint16/32/64] reads back. *)
Fixpoint put_uint (n : nat) (v : Z) : list Z :=
  match n with
  | O => []
  | S n' => to_u8 (Z.shiftr v (8 * Z.of_nat n')) :: put_uint n' v
  end.

Fixpoint get_uint (bs : list Z) : Z :=
  match bs with
  | [] => 0
  | b :: bs' => Z.lor (Z.shiftl b (8 * Z.of_nat (length bs'))) (get_uint bs')
  end.

Definition bytes_ok (bs : list Z) : Prop := Forall (is_u 8) bs.

Lemma length_put_uint n v : length (put_uint n v) = n.
Proof. induction n; simpl; congruence. Qed.

Lemma put_uint_bytes n v : bytes_ok (put_uint n v).
Proof. induction n; constructor; [by apply uwrap_range|done]. Qed.

(** Shifted-in high bits and a value below the shift do not overlap, so the
    bitwise or of the code is an addition. *)
Lemma land_shiftl_small a b k : 0 ≤ k → 0 ≤ b < 2 ^ k → Z.land (Z.shiftl a k) b = 0.
Proof.
  intros ??. apply Z.bits_inj'. intros i ?.
  rewrite Z.land_spec, Z.bits_0, Z.shiftl_spec by lia.
  destruct (decide (i < k)) as [|]; [by rewrite Z.testbit_neg_r by lia|].
  destruct (decide (b = 0)) as [->|]; [by rewrite Z.bits_0, andb_false_r|].
  rewrite (Z.bits_above_log2 b i), andb_false_r; [done|lia|].
  apply Z.log2_lt_pow2; [lia|]. apply Z.lt_le_trans with (2 ^ k); [lia|].
  apply Z.pow_le_mono_r; lia.
Qed.

Lemma lor_disjoint a b k : 0 ≤ k → 0 ≤ b < 2 ^ k → Z.lor (Z.shiftl a k) b = a * 2 ^ k + b.
Proof.
  intros ??. pose proof (land_shiftl_small a b k ltac:(done) ltac:(done)) as Hl.
  rewrite <- Z.lxor_lor by done. rewrite <- Z.add_nocarry_lxor by done.
  by rewrite Z.shiftl_mul_pow2 by lia.
Qed.

Lemma lor_range w a b : 0 ≤ w → is_u w a → is_u w b → is_u w (Z.lor a b).
Proof.
  intros Hw [? Ha] [? Hb].
  assert (Hz : ∀ x, 0 ≤ x → x < 2 ^ w ↔ Z.shiftr x w = 0).
  { intros x Hx. rewrite Z.shiftr_div_pow2 by lia. rewrite Z.div_small_iff by lia. lia. }
  assert (0 ≤ Z.lor a b) by (by apply Z.lor_nonneg).
  split; [done|]. apply Hz; [done|].
  apply Hz in Ha, Hb; [|done..]. by rewrite Z.shiftr_lor, Ha, Hb.
Qed.

Lemma shiftr_range w a k : 0 ≤ k → is_u w a → is_u w (Z.shiftr a k).
Proof.
  intros ? [? ?]. rewrite Z.shiftr_div_pow2 by lia. split; [by apply Z.div_pos; lia|].
  apply Z.le_lt_trans with a; [|done]. apply Z.div_le_upper_bound; nia.
Qed.

Lemma get_uint_range bs : bytes_ok bs → 0 ≤ get_uint bs < 2 ^ (8 * Z.of_nat (length bs)).
Proof.
  induction 1 as [|b bs Hb _ IH]; [simpl; lia|].
  cbn [get_uint length]. rewrite lor_disjoint by lia.
  rewrite Nat2Z.inj_succ, Z.mul_succ_r, Z.pow_add_r by lia.
  unfold is_u in Hb. nia.
Qed.

Lemma get_put_uint n v : get_uint (put_uint n v) = v mod 2 ^ (8 * Z.of_nat n).
Proof.
  induction n as [|n IH]; [by rewrite Z.mod_1_r|].
  cbn [put_uint get_uint]. rewrite IH, length_put_uint.
  rewrite lor_disjoint by (try apply Z.mod_pos_bound; lia).
  rewrite Z.shiftr_div_pow2 by lia.
  rewrite Nat2Z.inj_succ, Z.mul_succ_r, Z.pow_add_r by lia.
  rewrite Z.rem_mul_r by lia. unfold uwrap. lia.
Qed.

Lemma get_put_uint_id n v : is_u (8 * Z.of_nat n) v → get_uint (put_uint n v) = v.
Proof. intros ?. rewrite get_put_uint. by apply Z.mod_small. Qed.

Lemma put_get_uint bs : bytes_ok bs → put_uint (length bs) (get_uint bs) = bs.
Proof.
  intros Hbs.
  assert (Hgen : ∀ a, put_uint (length bs) (a * 2 ^ (8 * Z.of_nat (length bs)) + get_uint bs) = bs).
  { induction Hbs as [|b bs Hb Hbs IH]; intros a; [done|].
    pose proof (get_uint_range bs Hbs).
    cbn [length get_uint put_uint]. rewrite lor_disjoint by lia.
    rewrite Nat2Z.inj_succ, Z.mul_succ_r, Z.pow_add_r by lia.
    set (K := 2 ^ (8 * Z.of_nat (length bs))) in *.
    f_equal.
    - rewrite Z.shiftr_div_pow2 by lia. fold K.
      replace (a * (K * 2 ^ 8) + (b * K + get_uint bs))
        with (get_uint bs + (a * 2 ^ 8 + b) * K) by ring.
      rewrite Z.div_add, Z.div_small by lia. unfold uwrap.
      rewrite Z.add_0_l, Z.add_comm, Z.mod_add by lia. by apply Z.mod_small.
    - replace (a * (K * 2 ^ 8) + (b * K + get_uint bs))
        with ((a * 2 ^ 8 + b) * K + get_uint bs) by ring. apply IH. }
  specialize (Hgen 0). by rewrite Z.mul_0_l in Hgen.
Qed.

(** ** Strings as bytes *)

Definition byte_of_ascii (c : ascii) : Z := Z.of_N (N_of_ascii c).
Definition ascii_of_byte (b : Z) : ascii := ascii_of_N (Z.to_N b).

(** [[]byte(s)] and [string(bs)]. *)
Definition bytes_of_string (s : string) : list Z := byte_of_ascii <$> String.list_ascii_of_string s.
Definition string_of_bytes (bs : list Z) : string := String.string_of_list_ascii (ascii_of_byte <$> bs).

Lemma byte_of_ascii_range c : is_u 8 (byte_of_ascii c).
Proof. destruct c as [[] [] [] [] [] [] [] []]; unfold is_u; vm_compute; intuition discriminate. Qed.

Lemma ascii_of_byte_of_ascii c : ascii_of_byte (byte_of_ascii c) = c.
Proof. unfold ascii_of_byte, byte_of_ascii. by rewrite N2Z.id, ascii_N_embedding. Qed.

Lemma bytes_of_string_ok s : bytes_ok (bytes_of_string s).
Proof. unfold bytes_ok, bytes_of_string. apply Forall_fmap, Forall_true. apply byte_of_ascii_range. Qed.

Lemma string_of_bytes_of_string s : string_of_bytes (bytes_of_string s) = s.
Proof.
  unfold string_of_bytes, bytes_of_string. rewrite <- list_fmap_compose.
  rewrite (list_fmap_ext _ id), list_fmap_id; [apply String.string_of_list_ascii_of_string|].
  intros; apply ascii_of_byte_of_ascii.
Qed.

Lemma length_bytes_of_string s : length (bytes_of_string s) = String.length s.
Proof.
  unfold bytes_of_string. rewrite length_fmap. induction s; simpl; congruence.
Qed.

#[export] Hint Resolve uwrap_range swrap_range put_uint_bytes bytes_of_string_ok
  byte_of_ascii_range : word.
#[export] Hint Rewrite uwrap_id swrap_id get_put_uint_id using (done || lia) : word.
