(* ===== verification/Float64.v ===== *)
(** * Go's float64

    A [float64] is an IEEE 754 binary64 value, as the [spec_float] of the
    Standard Library (precision 53, exponent bound 1024); each arithmetic
    operation rounds to nearest-even on its own, as Go's does on amd64 (no
    fused multiply-add).  Comparisons are the IEEE ones: [-0 == +0] and every
    comparison with a NaN is false.  The conversions to integers truncate
    toward zero; out of range, where Go leaves the result to the
    implementation, the model gives amd64's value (the "integer indefinite"
    [-2^63], of which the narrower conversions keep the low bits). *)
From Stdlib Require Import SpecFloat.
From S2P Require Import Prelude Word.

Local Open Scope Z_scope.

Abbreviation float64 := spec_float.

Definition fadd : float64 → float64 → float64 := SFadd 53 1024.
Definition fsub : float64 → float64 → float64 := SFsub 53 1024.
Definition fmul : float64 → float64 → float64 := SFmul 53 1024.
Definition fdiv : float64 → float64 → float64 := SFdiv 53 1024.
Definition fsqrt : float64 → float64 := SFsqrt 53 1024.
Definition fneg : float64 → float64 := SFopp.

Definition feqb : float64 → float64 → bool := SFeqb.
Definition fltb : float64 → float64 → bool := SFltb.
Definition fleb : float64 → float64 → bool := SFleb.

Declare Scope float_scope.
Delimit Scope float_scope with F.
Bind Scope float_scope with spec_float.
Infix "+" := fadd : float_scope.
Infix "-" := fsub : float_scope.
Infix "*" := fmul : float_scope.
Infix "/" := fdiv : float_scope.
Infix "=?" := feqb : float_scope.
Infix "<?" := fltb : float_scope.
Infix "<=?" := fleb : float_scope.
Notation "x >? y" := (fltb y x) (only parsing) : float_scope.
Notation "x >=? y" := (fleb y x) (only parsing) : float_scope.

(** [float64(z)] of an integer, and the constant [m / 10^d] of a decimal
    literal ([m < 2^53] and [d <= 22], so one correctly rounded division). *)
Definition float_of_Z (z : Z) : float64 := binary_normalize 53 1024 z 0 false.
Definition dec (m : Z) (d : Z) : float64 := fdiv (float_of_Z m) (float_of_Z (10 ^ d)).

Definition fzero : float64 := S754_zero false.

(** Truncation toward zero of a finite value. *)
Definition trunc (x : float64) : option Z :=
  match x with
  | S754_zero _ => Some 0
  | S754_finite s m e =>
      let a := if 0 <=? e then Z.pos m * 2 ^ e else Z.pos m / 2 ^ (- e) in
      Some (if s then - a else a)
  | _ => None
  end.

(** [int64(x)], [int(x)] and [uint32(x)]. *)
Definition int64_of_float (x : float64) : Z :=
  match trunc x with
  | Some z => if (- 2 ^ 63 <=? z) && (z <? 2 ^ 63) then z else - 2 ^ 63
  | None => - 2 ^ 63
  end.
Definition uint32_of_float (x : float64) : Z := to_u32 (int64_of_float x).

(** [math.Round]: half away from zero. *)
Definition math_Round (x : float64) : float64 :=
  match x with
  | S754_finite s m e =>
      if 0 <=? e then x
      else
        let q := (Z.pos m + 2 ^ (- e - 1)) / 2 ^ (- e) in
        binary_normalize 53 1024 (if s then - q else q) 0 s
  | _ => x
  end.

(** A value that is not a NaN can be ordered. *)
Definition is_num (x : float64) : bool := match x with S754_nan => false | _ => true end.

(** ** The order of the non-NaN values

    [SFcompare] is a lexicographic comparison of a key; this gives its
    transitivity without any assumption on mantissas and exponents. *)
Definition fkey (x : float64) : Z * Z * Z :=
  match x with
  | S754_infinity true => (-2, 0, 0)
  | S754_finite true m e => (-1, - e, Z.neg m)
  | S754_zero _ => (0, 0, 0)
  | S754_finite false m e => (1, e, Z.pos m)
  | S754_infinity false => (2, 0, 0)
  | S754_nan => (0, 0, 0)
  end.

Definition key_lt (a b : Z * Z * Z) : Prop :=
  let '(a1, a2, a3) := a in let '(b1, b2, b3) := b in
  a1 < b1 ∨ a1 = b1 ∧ (a2 < b2 ∨ a2 = b2 ∧ a3 < b3).

Lemma SFcompare_key x y :
  is_num x → is_num y →
  match SFcompare x y with
  | Some Lt => key_lt (fkey x) (fkey y)
  | Some Eq => fkey x = fkey y
  | Some Gt => key_lt (fkey y) (fkey x)
  | None => False
  end.
Proof.
  destruct x as [[]|[]| |[] mx ex], y as [[]|[]| |[] my ey]; try done; intros _ _; cbn;
    try lia.
  all: destruct (Z.compare_spec ex ey); subst; try lia.
  all: fold (Pos.compare mx my); destruct (Pos.compare_spec mx my); cbn; subst; lia || done.
Qed.

Lemma fltb_key x y : is_num x → is_num y → (x <? y)%F = true ↔ key_lt (fkey x) (fkey y).
Proof.
  intros Hx Hy. pose proof (SFcompare_key x y Hx Hy) as H. unfold fltb, SFltb.
  destruct (SFcompare x y) as [[]|]; [| |..]; try done.
  - rewrite H. destruct (fkey y) as [[]]. cbn. split; [done|lia].
  - destruct (fkey x) as [[]], (fkey y) as [[]]. cbn in *. split; [done|lia].
Qed.

Lemma feqb_key x y : is_num x → is_num y → (x =? y)%F = true ↔ fkey x = fkey y.
Proof.
  intros Hx Hy. pose proof (SFcompare_key x y Hx Hy) as H. unfold feqb, SFeqb.
  destruct (SFcompare x y) as [[]|]; [| |..]; try done;
    (split; [done|]; intros E; rewrite E in H; destruct (fkey y) as [[]]; cbn in H; lia).
Qed.

Lemma fltb_num x y : (x <? y)%F = true → is_num x ∧ is_num y.
Proof. destruct x, y; cbn; try done; by destruct s. Qed.

Lemma feqb_num x y : (x =? y)%F = true → is_num x ∧ is_num y.
Proof. destruct x, y; cbn; try done; by destruct s. Qed.

Lemma fltb_trans x y z : (x <? y)%F = true → (y <? z)%F = true → (x <? z)%F = true.
Proof.
  intros H1 H2. destruct (fltb_num _ _ H1), (fltb_num _ _ H2).
  rewrite fltb_key in * by done.
  destruct (fkey x) as [[]], (fkey y) as [[]], (fkey z) as [[]]. cbn in *. lia.
Qed.

Lemma fltb_irrefl x : (x <? x)%F = false.
Proof.
  destruct (x <? x)%F eqn:E; [|done]. destruct (fltb_num _ _ E).
  rewrite fltb_key in E by done. destruct (fkey x) as [[]]. cbn in E. lia.
Qed.

Lemma fltb_asym x y : (x <? y)%F = true → (y <? x)%F = false.
Proof.
  intros H. destruct (y <? x)%F eqn:E; [|done].
  pose proof (fltb_trans _ _ _ H E) as C. by rewrite fltb_irrefl in C.
Qed.

Lemma feqb_refl x : is_num x → (x =? x)%F = true.
Proof. intros. by apply feqb_key. Qed.

Lemma feqb_sym x y : (x =? y)%F = (y =? x)%F.
Proof.
  destruct (is_num x) eqn:Hx; [|by destruct x; destruct y as [[]|[]| |[]]].
  destruct (is_num y) eqn:Hy; [|by destruct y; destruct x as [[]|[]| |[]]].
  apply eq_bool_prop_intro. rewrite !Is_true_true, !feqb_key by by rewrite ?Hx, ?Hy.
  naive_solver.
Qed.

Lemma feqb_trans x y z : (x =? y)%F = true → (y =? z)%F = true → (x =? z)%F = true.
Proof.
  intros H1 H2. destruct (feqb_num _ _ H1), (feqb_num _ _ H2).
  rewrite feqb_key in * by done. congruence.
Qed.

Lemma fltb_eq_l x y z : (x =? y)%F = true → (x <? z)%F = (y <? z)%F.
Proof.
  intros H. destruct (feqb_num _ _ H) as [Hx Hy].
  destruct (is_num z) eqn:Hz; [|by destruct z; destruct x as [[]|[]| |[]], y as [[]|[]| |[]]].
  apply eq_bool_prop_intro. rewrite !Is_true_true, !fltb_key by by rewrite ?Hz.
  rewrite feqb_key in H by done. by rewrite H.
Qed.

Lemma fltb_eq_r x y z : (x =? y)%F = true → (z <? x)%F = (z <? y)%F.
Proof.
  intros H. destruct (feqb_num _ _ H) as [Hx Hy].
  destruct (is_num z) eqn:Hz; [|by destruct z; destruct x as [[]|[]| |[]], y as [[]|[]| |[]]].
  apply eq_bool_prop_intro. rewrite !Is_true_true, !fltb_key by by rewrite ?Hz.
  rewrite feqb_key in H by done. by rewrite H.
Qed.

Lemma feqb_eq_l x y z : (x =? y)%F = true → (x =? z)%F = (y =? z)%F.
Proof.
  intros H. apply eq_bool_prop_intro. rewrite !Is_true_true. split; intros.
  - eapply feqb_trans; [|done]. by rewrite feqb_sym.
  - by eapply feqb_trans.
Qed.

Lemma f_trichotomy x y :
  is_num x → is_num y →
  (x <? y)%F = true ∨ (x =? y)%F = true ∨ (y <? x)%F = true.
Proof.
  intros. rewrite !fltb_key, feqb_key by done.
  destruct (fkey x) as [[a b] c], (fkey y) as [[a' b'] c']. cbn.
  destruct (decide (a = a')), (decide (b = b')), (decide (c = c')); subst; lia || auto with lia.
  all: right; left; congruence.
Qed.

Lemma fltb_not_eq x y : (x <? y)%F = true → (x =? y)%F = false.
Proof.
  intros H. destruct (x =? y)%F eqn:E; [|done].
  rewrite (fltb_eq_l _ _ _ E), fltb_irrefl in H. done.
Qed.

Lemma fleb_not_lt x y : is_num x → is_num y → (x <? y)%F = false → (y <=? x)%F = true.
Proof.
  intros Hx Hy H. pose proof (SFcompare_key x y Hx Hy) as Hxy. pose proof (SFcompare_key y x Hy Hx) as Hyx.
  unfold fltb, SFltb in H. unfold fleb, SFleb.
  destruct (SFcompare x y) as [[]|]; try done; destruct (SFcompare y x) as [[]|]; try done.
  - rewrite Hxy in Hyx. destruct (fkey y) as [[]]; cbn in *; lia.
  - destruct (fkey x) as [[]], (fkey y) as [[]]; cbn in *; lia.
Qed.

Lemma fleb_finite m1 e1 m2 e2 :
  (S754_finite false m1 e1 <=? S754_finite false m2 e2)%F = true →
  e1 < e2 ∨ e1 = e2 ∧ Z.pos m1 ≤ Z.pos m2.
Proof.
  unfold fleb, SFleb, SFcompare. destruct (Z.compare_spec e1 e2); [subst| |done]; [|by left].
  fold (Pos.compare m1 m2). destruct (Pos.compare_spec m1 m2); [subst| |done]; intros _; right; split; lia.
Qed.

(** ** Exact conversions and scaling

    Integers below [2^53] convert without rounding, and dividing by a power of
    two only moves the exponent; used for the generator's [Float64]. *)
Lemma digits2_log2 m : Z.pos (digits2_pos m) = Z.log2 (Z.pos m) + 1.
Proof.
  induction m as [m IH|m IH|]; [| |done]; cbn [digits2_pos]; rewrite Pos2Z.inj_succ, IH.
  - rewrite (Pos2Z.inj_xI m), Z.log2_succ_double by lia. lia.
  - rewrite (Pos2Z.inj_xO m), Z.log2_double by lia. lia.
Qed.

Lemma pos_iter_xO m d : Z.pos (Pos.iter xO m d) = Z.pos m * 2 ^ Z.pos d.
Proof.
  induction d as [|d IH] using Pos.peano_ind; [cbn; lia|].
  rewrite Pos.iter_succ, Pos2Z.inj_succ, Z.pow_succ_r by lia.
  rewrite (Pos2Z.inj_xO (Pos.iter xO m d)), IH. lia.
Qed.

Lemma round_aux_53 s m e :
  Z.pos (digits2_pos m) = 53 → -1000 ≤ e ≤ 900 →
  binary_round_aux 53 1024 s (Z.pos m) e loc_Exact = S754_finite s m e.
Proof.
  intros Hd He. unfold binary_round_aux, shr_fexp, fexp, emin. cbn [Zdigits2 shr_record_of_loc].
  rewrite Hd. replace (Z.max _ _ - e) with 0 by lia. cbn [shr shr_m loc_of_shr_record round_nearest_even].
  cbn [shr_record_of_loc]. unfold Zdigits2. rewrite Hd. replace (Z.max _ _ - e) with 0 by lia.
  cbn [shr shr_m]. destruct (Z.leb_spec e (1024 - 53)); [done|lia].
Qed.

Lemma round_aux_54 s m e :
  Z.pos (digits2_pos m) = 53 → -1000 ≤ e ≤ 900 →
  binary_round_aux 53 1024 s (Z.pos m~0) e loc_Exact = S754_finite s m (e + 1).
Proof.
  intros Hd He. unfold binary_round_aux, shr_fexp, fexp, emin. cbn [Zdigits2 shr_record_of_loc digits2_pos].
  rewrite Pos2Z.inj_succ, Hd. replace (Z.max _ _ - e) with 1 by lia.
  cbn [shr SpecFloat.iter_pos shr_1 shr_m loc_of_shr_record round_nearest_even orb].
  cbn [shr_record_of_loc]. unfold Zdigits2. rewrite Hd. replace (Z.max _ _ - (e + 1)) with 0 by lia.
  cbn [shr shr_m]. destruct (Z.leb_spec (e + 1) (1024 - 53)); [done|lia].
Qed.

Lemma float_of_Z_exact z :
  0 < z < 2 ^ 53 →
  ∃ m e, float_of_Z z = S754_finite false m e ∧ Z.pos (digits2_pos m) = 53 ∧
    -52 ≤ e ≤ 0 ∧ Z.pos m = z * 2 ^ (- e) ∧ e = Z.log2 z - 52.
Proof.
  intros [? Hz]. destruct z as [|p|]; [lia| |lia].
  assert (0 ≤ Z.log2 (Z.pos p) ≤ 52) as Hl.
  { split; [apply Z.log2_nonneg|].
    assert (Z.log2 (Z.pos p) < 53); [by apply Z.log2_lt_pow2|lia]. }
  set (l := Z.log2 (Z.pos p)) in *.
  assert (∃ m, fst (shl_align p 0 (l - 52)) = m ∧ snd (shl_align p 0 (l - 52)) = l - 52 ∧
    Z.pos m = Z.pos p * 2 ^ (52 - l)) as (m & Em & Ee & Hm).
  { unfold shl_align. rewrite Z.sub_0_r. destruct (l - 52) as [|d|d] eqn:E; [| |].
    - eexists. split; [done|]. split; [done|]. replace (52 - l) with 0 by lia. cbn [fst]. lia.
    - lia.
    - eexists. split; [done|]. split; [done|]. cbn [fst]. rewrite pos_iter_xO.
      do 2 f_equal. lia. }
  assert (Z.pos (digits2_pos m) = 53) as Hd.
  { rewrite digits2_log2, Hm, Z.log2_mul_pow2 by lia. fold l. lia. }
  exists m, (l - 52). split; [|split_and!; [done|lia..| |lia]].
  - unfold float_of_Z, binary_normalize, binary_round.
    replace (fexp 53 1024 (Z.pos (digits2_pos p) + 0)) with (l - 52)
      by (rewrite digits2_log2; fold l; unfold fexp, emin; lia).
    destruct (shl_align p 0 (l - 52)) as [m' e']. cbn in Em, Ee. subst m' e'.
    by apply round_aux_53; [|lia].
  - rewrite Hm. f_equal. f_equal. lia.
Qed.

Lemma fdiv_2_32 m e :
  Z.pos (digits2_pos m) = 53 → -900 ≤ e ≤ 900 →
  fdiv (S754_finite false m e) (float_of_Z (2 ^ 32)) = S754_finite false m (e - 32).
Proof.
  intros Hd He.
  change (float_of_Z (2 ^ 32)) with (S754_finite false (2 ^ 52) (-20)).
  unfold fdiv, SFdiv, SFdiv_core_binary. cbn [xorb Zdigits2]. rewrite Hd.
  change (Z.pos (digits2_pos (2 ^ 52))) with 53.
  unfold fexp, emin. replace (Z.min _ _) with (e - 33) by lia.
  replace (e - -20 - (e - 33)) with 53 by lia.
  rewrite Z.shiftl_mul_pow2 by lia.
  replace (Z.pos m * 2 ^ 53) with (Z.pos m~0 * 2 ^ 52) by lia.
  change (Z.pos (2 ^ 52)) with (2 ^ 52).
  pose proof (Z.div_mul (Z.pos m~0) (2 ^ 52) ltac:(lia)) as Eq.
  pose proof (Z.mod_mul (Z.pos m~0) (2 ^ 52) ltac:(lia)) as Er.
  unfold Z.div, Z.modulo in Eq, Er. destruct (Z.div_eucl _ _) as [q r]. subst q r.
  change (new_location (2 ^ 52) 0) with loc_Exact.
  rewrite round_aux_54 by (done || lia). f_equal. lia.
Qed.

Example dec_125_50 : trunc (dec 12550 2) = Some 125.
Proof. reflexivity. Qed.


(** ** Operations that do not produce a NaN *)

Create HintDb floats.

Definition is_finite (x : float64) : bool :=
  match x with S754_zero _ | S754_finite _ _ _ => true | _ => false end.
Definition is_nonzero_finite (x : float64) : bool :=
  match x with S754_finite _ _ _ => true | _ => false end.

Lemma shr_1_nonneg r : 0 ≤ shr_m r → 0 ≤ shr_m (shr_1 r).
Proof. destruct r as [[|[]|[]] ? ?]; cbn; lia. Qed.

Lemma iter_shr_nonneg p r : 0 ≤ shr_m r → 0 ≤ shr_m (SpecFloat.iter_pos shr_1 p r).
Proof. revert r. induction p; intros r Hr; cbn; auto using shr_1_nonneg. Qed.

Lemma shr_fexp_nonneg m e l : 0 ≤ m → 0 ≤ shr_m (shr_fexp 53 1024 m e l).1.
Proof.
  intros Hm. unfold shr_fexp, shr.
  assert (0 ≤ shr_m (shr_record_of_loc m l)) by (by destruct l as [|[]]).
  destruct (_ - e); [done| |done]. by apply iter_shr_nonneg.
Qed.

Lemma round_aux_num s m e l : 0 ≤ m → is_num (binary_round_aux 53 1024 s m e l).
Proof.
  intros Hm. unfold binary_round_aux.
  pose proof (shr_fexp_nonneg m e l Hm) as H1. destruct (shr_fexp 53 1024 m e l) as [r e'].
  cbn in H1. assert (0 ≤ round_nearest_even (shr_m r) (loc_of_shr_record r)) as H2.
  { unfold round_nearest_even. destruct (loc_of_shr_record r) as [|[]]; try case_match; lia. }
  pose proof (shr_fexp_nonneg _ e' loc_Exact H2) as H3.
  destruct (shr_fexp 53 1024 _ e' loc_Exact) as [r2 e2]. cbn in H3.
  destruct (shr_m r2); [done|by case_match|lia].
Qed.

Lemma normalize_num m e s : is_num (binary_normalize 53 1024 m e s).
Proof.
  unfold binary_normalize, binary_round. destruct m; [done| |];
    destruct (shl_align _ _ _); by apply round_aux_num.
Qed.

Lemma math_Round_num x : is_num x → is_num (math_Round x).
Proof. destruct x; cbn; try done. intros _. case_match; [done|]. apply normalize_num. Qed.

Lemma fadd_num x y : is_num x → is_finite y → is_num (x + y)%F.
Proof.
  destruct x as [[]|[]| |[]], y as [[]|[]| |[]]; cbn [is_num is_finite]; try done;
    intros _ _; apply normalize_num.
Qed.

Lemma fsub_num x y : is_num x → is_finite y → is_num (x - y)%F.
Proof.
  destruct x as [[]|[]| |[]], y as [[]|[]| |[]]; cbn [is_num is_finite]; try done;
    intros _ _; apply normalize_num.
Qed.

Lemma fmul_num x y : is_num x → is_nonzero_finite y → is_num (x * y)%F.
Proof.
  destruct x as [[]|[]| |[]], y as [[]|[]| |[]]; cbn [is_num is_nonzero_finite]; try done;
    intros _ _; by apply round_aux_num.
Qed.

Lemma div_core_nonneg m1 e1 m2 e2 :
  0 ≤ (SFdiv_core_binary 53 1024 (Z.pos m1) e1 (Z.pos m2) e2).1.1.
Proof.
  unfold SFdiv_core_binary.
  set (m' := match _ with 0 => _ | Z.pos _ => _ | Z.neg _ => _ end).
  assert (0 ≤ m') by (subst m'; case_match; [lia|apply Z.shiftl_nonneg; lia|lia]).
  pose proof (Z.div_pos m' (Z.pos m2) ltac:(done) ltac:(lia)) as H1. unfold Z.div in H1.
  by destruct (Z.div_eucl m' (Z.pos m2)).
Qed.

Lemma fdiv_num x y : is_num x → is_nonzero_finite y → is_num (x / y)%F.
Proof.
  destruct x as [|[]| |sx mx ex], y as [| | |sy my ey]; cbn [is_num is_nonzero_finite]; try done.
  intros _ _. pose proof (div_core_nonneg mx ex my ey). unfold fdiv, SFdiv.
  destruct (SFdiv_core_binary _ _ _ _ _ _) as [[q e] l]. by apply round_aux_num.
Qed.

#[export] Hint Resolve math_Round_num fadd_num fsub_num fmul_num fdiv_num : floats.
