(* ===== verification/FloatRound.v ===== *)
(** * Rounding of float64 products

    The product of two positive normal values is the exact product rounded to a
    nearest 53-bit mantissa; stated over the integers, for the error analysis of
    prices. *)
From Stdlib Require Import SpecFloat.
From S2P Require Import Prelude Word Float64.

Local Open Scope Z_scope.

Lemma iter_pos_iter {A} (f : A → A) n x : SpecFloat.iter_pos f n x = Pos.iter f x n.
Proof.
  revert x. induction n as [n IH|n IH|]; intros x; cbn; [|by rewrite !IH|done].
  rewrite !IH. by rewrite <- !Pos.iter_swap.
Qed.

(** What [n] right shifts leave of [M]: [rest] is the part shifted out, of which
    the record keeps the top bit and whether anything is below it. *)
Definition shifted (M n : Z) (r : shr_record) : Prop :=
  ∃ rest, M = shr_m r * 2 ^ n + rest ∧ 0 ≤ rest < 2 ^ n ∧
    (if shr_r r then 2 ^ n ≤ 2 * rest else 2 * rest < 2 ^ n) ∧
    (shr_s r = false → 2 * rest = if shr_r r then 2 ^ n else 0).

Lemma shifted_0 M : shifted M 0 (Build_shr_record M false false).
Proof. exists 0. cbn. split_and!; lia. Qed.

Lemma shr_1_fields m r s :
  0 ≤ m → shr_1 (Build_shr_record m r s) = Build_shr_record (m / 2) (Z.odd m) (r || s).
Proof.
  intros Hm. rewrite <- Z.div2_div. by destruct m as [|[p|p|]|]; try lia.
Qed.

Lemma shifted_1 M n r :
  0 ≤ n → 0 ≤ shr_m r → shifted M n r → shifted M (n + 1) (shr_1 r) ∧ 0 ≤ shr_m (shr_1 r).
Proof.
  intros Hn Hm (rest & E & Hr & Hhigh & Hs). destruct r as [m b s]. cbn [shr_m shr_r shr_s] in *.
  rewrite shr_1_fields by done. cbn [shr_m]. split; [|by apply Z.div_pos].
  set (odd := if Z.odd m then 1 else 0). pose proof (Z.div2_odd m) as Hdiv.
  rewrite Z.div2_div in Hdiv. assert (m = 2 * (m / 2) + odd) as Hm2 by (subst odd; by destruct (Z.odd m)).
  assert (2 ^ (n + 1) = 2 * 2 ^ n) as Hpow by (rewrite Z.add_1_r, Z.pow_succ_r by lia; lia).
  exists (odd * 2 ^ n + rest). rewrite Hpow. cbn [shr_m shr_r shr_s]. split_and!.
  - rewrite E at 1. rewrite Hm2 at 1. ring.
  - subst odd. destruct (Z.odd m); lia.
  - subst odd. destruct (Z.odd m); lia.
  - subst odd. destruct (Z.odd m); lia.
  - intros [Hb Hs']%orb_false_iff. subst b s. specialize (Hs eq_refl). subst odd. destruct (Z.odd m); lia.
Qed.

Lemma shifted_iter M p r :
  0 ≤ shr_m r → shifted M 0 r →
  shifted M (Z.pos p) (SpecFloat.iter_pos shr_1 p r) ∧ 0 ≤ shr_m (SpecFloat.iter_pos shr_1 p r).
Proof.
  intros Hm Hs. rewrite iter_pos_iter. induction p as [|p [IH IHm]] using Pos.peano_ind.
  - apply (shifted_1 M 0); [lia|done|done].
  - rewrite Pos.iter_succ, Pos2Z.inj_succ. by apply shifted_1.
Qed.

(** Rounding the record gives a nearest multiple of [2^n]. *)
Lemma round_nearest M n r :
  shifted M n r → let q := round_nearest_even (shr_m r) (loc_of_shr_record r) in
  2 * Z.abs (q * 2 ^ n - M) ≤ 2 ^ n ∧ shr_m r ≤ q ≤ shr_m r + 1.
Proof.
  intros (rest & E & Hr & Hhigh & Hs). destruct r as [m b s]. cbn in *.
  destruct b, s; cbn in *; [|specialize (Hs eq_refl)| |specialize (Hs eq_refl)]; try (split; lia).
  destruct (Z.even m); split; lia.
Qed.

Lemma Zdigits2_log2 m : 0 < m → Zdigits2 m = Z.log2 m + 1.
Proof. destruct m; [lia| |lia]. intros _. apply digits2_log2. Qed.

(** A mantissa of 53 digits with the value [q * 2^e]. *)
Definition normal (x : float64) (q e : Z) : Prop :=
  ∃ m e', x = S754_finite false m e' ∧ Z.pos (digits2_pos m) = 53 ∧
    (e' = e ∧ Z.pos m = q ∨ e' = e + 1 ∧ 2 * Z.pos m = q).

Lemma normal_round q e :
  2 ^ 52 ≤ q ≤ 2 ^ 53 → -1000 ≤ e ≤ 900 →
  ∃ r e', shr_fexp 53 1024 q e loc_Exact = (r, e') ∧
  normal (match shr_m r with
          | 0 => S754_zero false
          | Z.pos m => if Z.leb e' (1024 - 53) then S754_finite false m e' else S754_infinity false
          | _ => S754_nan
          end) q e.
Proof.
  intros Hq He. unfold shr_fexp, fexp, emin. rewrite Zdigits2_log2 by lia.
  destruct (decide (q = 2 ^ 53)) as [->|Hne].
  - rewrite Z.log2_pow2 by lia. replace (Z.max _ _ - e) with 1 by lia. cbn [shr]. eexists _, _. split; [done|].
    change (2 ^ 53) with 9007199254740992. cbn [shr_m SpecFloat.iter_pos shr_1 shr_record_of_loc].
    destruct (Z.leb_spec (e + 1) (1024 - 53)); [|lia]. eexists _, _. split; [done|]. split; [done|]. right. split; [done|reflexivity].
  - assert (Z.log2 q = 52) as -> by (apply Z.log2_unique; lia). replace (Z.max _ _ - e) with 0 by lia.
    cbn [shr]. eexists _, _. split; [done|]. cbn [shr_m shr_record_of_loc]. destruct q as [|m|]; [lia| |lia].
    destruct (Z.leb_spec e (1024 - 53)); [|lia]. exists m, e. split; [done|].
    split; [|by left]. rewrite digits2_log2. assert (Z.log2 (Z.pos m) = 52) by (apply Z.log2_unique; lia). lia.
Qed.

(** Rounding an exact positive value of at least 53 digits. *)
Lemma round_aux_nearest M e :
  let p := Z.log2 M - 52 in
  0 < M → 0 ≤ p → -1000 ≤ e + p ≤ 900 → -1000 ≤ e →
  ∃ q, normal (binary_round_aux 53 1024 false M e loc_Exact) q (e + p) ∧
    2 ^ 52 ≤ q ≤ 2 ^ 53 ∧ 2 * Z.abs (q * 2 ^ p - M) ≤ 2 ^ p.
Proof.
  intros p HM Hp He He'. unfold binary_round_aux.
  assert (∃ r, shr_fexp 53 1024 M e loc_Exact = (r, e + p) ∧ shifted M p r ∧ 0 ≤ shr_m r) as (r & -> & Hr & Hm).
  { unfold shr_fexp, fexp, emin. rewrite Zdigits2_log2 by done. fold p.
    replace (Z.max _ _ - e) with p by lia. cbn [shr_record_of_loc]. destruct p as [|n|n] eqn:E; [| |lia]; cbn [shr].
    - eexists. split; [by rewrite Z.add_0_r|]. split; [apply shifted_0|cbn; lia].
    - destruct (shifted_iter M n (Build_shr_record M false false)) as [H1 H2]; [cbn; lia|apply shifted_0|].
      eexists. split; [done|]. done. }
  destruct (round_nearest M p r Hr) as [Hnear Hq]. set (q := round_nearest_even _ _) in *.
  assert (2 ^ 52 ≤ q ≤ 2 ^ 53) as Hrange.
  { destruct Hr as (rest & E & Hrest & _ & _). pose proof (Z.log2_spec M HM) as [Hl1 Hl2].
    assert (2 ^ Z.log2 M = 2 ^ 52 * 2 ^ p) as H1 by (rewrite <- Z.pow_add_r by lia; f_equal; lia).
    assert (2 ^ Z.succ (Z.log2 M) = 2 ^ 53 * 2 ^ p) as H2 by (rewrite <- Z.pow_add_r by lia; f_equal; lia).
    rewrite H1 in Hl1. rewrite H2 in Hl2. assert (0 < 2 ^ p) by lia.
    assert (2 ^ 52 ≤ shr_m r) by nia. assert (shr_m r < 2 ^ 53) by nia. lia. }
  exists q. split; [|done]. destruct (normal_round q (e + p) Hrange ltac:(lia)) as (r' & e' & -> & Hn). exact Hn.
Qed.

(** A positive normal value, in units of [2^-S]. *)
Definition scaled (S : Z) (x : float64) (v : Z) : Prop :=
  ∃ m e, x = S754_finite false m e ∧ Z.pos (digits2_pos m) = 53 ∧ - S ≤ e ∧ v = Z.pos m * 2 ^ (e + S).

Lemma digits_53 m : Z.pos (digits2_pos m) = 53 → 2 ^ 52 ≤ Z.pos m < 2 ^ 53.
Proof.
  rewrite digits2_log2. intros H. pose proof (Z.log2_spec (Z.pos m) ltac:(lia)) as Hl.
  replace (Z.log2 (Z.pos m)) with 52 in Hl by lia. done.
Qed.

Lemma log2_product m1 m2 :
  2 ^ 52 ≤ m1 < 2 ^ 53 → 2 ^ 52 ≤ m2 < 2 ^ 53 → 104 ≤ Z.log2 (m1 * m2) ≤ 105.
Proof.
  intros H1 H2. assert (2 ^ 104 ≤ m1 * m2) as Hlo by (change (2 ^ 104) with (2 ^ 52 * 2 ^ 52); nia).
  assert (m1 * m2 < 2 ^ 106) as Hhi by (change (2 ^ 106) with (2 ^ 53 * 2 ^ 53); nia).
  split; [by apply Z.log2_le_pow2; lia|]. assert (Z.log2 (m1 * m2) < 106) by (apply Z.log2_lt_pow2; lia). lia.
Qed.

(** The product is the exact one rounded to a multiple of a unit [2^k] that has
    53 digits above it. *)
Lemma fmul_scaled S x v m2 e2 :
  200 ≤ S ≤ 400 → scaled S x v → v < 2 ^ (S + 100) → 2 ^ (S - 100) ≤ v →
  Z.pos (digits2_pos m2) = 53 → -100 ≤ e2 ≤ 0 →
  ∃ w k, scaled S (x * S754_finite false m2 e2)%F w ∧ 0 ≤ k ∧ (2 ^ k | w) ∧
    2 ^ 52 * 2 ^ k ≤ w ∧ 2 * Z.abs (w * 2 ^ (- e2) - v * Z.pos m2) ≤ 2 ^ k * 2 ^ (- e2) ∧
    2 ^ 52 * 2 ^ k * 2 ^ (- e2) ≤ v * Z.pos m2 < 2 ^ 53 * 2 ^ k * 2 ^ (- e2).
Proof.
  intros HS (m1 & e1 & -> & Hd1 & He1 & ->) Hhi Hlo Hd2 He2.
  apply digits_53 in Hd1 as Hm1. apply digits_53 in Hd2 as Hm2.
  assert (e1 + S < S + 48) as He1hi.
  { apply (Z.pow_lt_mono_r_iff 2); [lia|lia|]. rewrite (Z.pow_add_r 2 S 100) in Hhi by lia.
    rewrite (Z.pow_add_r 2 S 48) by lia. change (2 ^ 100) with (2 ^ 48 * 2 ^ 52) in Hhi. nia. }
  assert (S - 153 < e1 + S) as He1lo.
  { apply (Z.pow_lt_mono_r_iff 2); [lia|lia|]. replace (S - 100) with (S - 153 + 53) in Hlo by lia.
    rewrite (Z.pow_add_r 2 (S - 153) 53) in Hlo by lia. nia. }
  pose proof (log2_product _ _ Hm1 Hm2) as Hlog. set (M := Z.pos m1 * Z.pos m2) in *.
  assert (0 < M) as HM by lia. set (p := Z.log2 M - 52).
  destruct (round_aux_nearest M (e1 + e2)) as (q & (m & e & Ex & Hd & Hval) & Hq & Hnear); [lia..|].
  fold p in Hval, Hnear.
  pose proof (Z.log2_spec M HM) as [Hl1 Hl2].
  set (k := e1 + e2 + p + S). set (t := e1 + S).
  assert (2 ^ (p + t) = 2 ^ k * 2 ^ (- e2)) as Hk by (rewrite <- Z.pow_add_r by lia; f_equal; lia).
  assert (Z.pos m1 * 2 ^ t * Z.pos m2 = M * 2 ^ t) as -> by (subst M; ring).
  exists (q * 2 ^ k), k. split_and!.
  - exists m, e. split_and!; [exact Ex|done|lia|].
    destruct Hval as [[-> <-]|[-> <-]]; [f_equal; f_equal; lia|].
    replace (e1 + e2 + p + 1 + S) with (Z.succ k) by lia. rewrite Z.pow_succ_r by lia. ring.
  - lia.
  - by exists q.
  - apply Z.mul_le_mono_nonneg_r; [lia|apply Hq].
  - rewrite <- Z.mul_assoc, <- Hk, Z.pow_add_r, Z.mul_assoc, <- Z.mul_sub_distr_r, Z.abs_mul by lia.
    rewrite (Z.abs_eq (2 ^ t)) by lia. rewrite Z.mul_assoc. apply Z.mul_le_mono_nonneg_r; [lia|exact Hnear].
  - rewrite <- Z.mul_assoc, <- Hk, Z.pow_add_r, Z.mul_assoc, <- Z.pow_add_r by lia.
    apply Z.mul_le_mono_nonneg_r; [lia|]. by replace (52 + p) with (Z.log2 M) by lia.
  - rewrite <- (Z.mul_assoc (2 ^ 53)), <- Hk, Z.pow_add_r, Z.mul_assoc, <- Z.pow_add_r by lia.
    apply Z.mul_lt_mono_pos_r; [lia|]. by replace (53 + p) with (Z.succ (Z.log2 M)) by lia.
Qed.

(** ** Signs and exact results *)

Lemma round_aux_opp s M e :
  binary_round_aux 53 1024 s M e loc_Exact =
  if s then SFopp (binary_round_aux 53 1024 false M e loc_Exact)
  else binary_round_aux 53 1024 false M e loc_Exact.
Proof.
  unfold binary_round_aux. destruct s; [|done]. repeat case_match; done.
Qed.

Lemma round_aux_finite s M e m e' :
  binary_round_aux 53 1024 false M e loc_Exact = S754_finite false m e' →
  binary_round_aux 53 1024 s M e loc_Exact = S754_finite s m e'.
Proof. intros E. rewrite (round_aux_opp s), E. by destruct s. Qed.

(** A value with at most 53 significant bits is not changed by rounding. *)
Lemma round_aux_exact s c k e :
  2 ^ 52 ≤ c < 2 ^ 53 → 0 ≤ k → -1000 ≤ e → e + k ≤ 900 →
  ∃ m, Z.pos m = c ∧ binary_round_aux 53 1024 s (c * 2 ^ k) e loc_Exact = S754_finite s m (e + k) ∧
    Z.pos (digits2_pos m) = 53.
Proof.
  intros Hc Hk He Hek. assert (Z.log2 (c * 2 ^ k) = 52 + k) as Hl.
  { rewrite Z.log2_mul_pow2 by lia. rewrite (Z.log2_unique c 52); lia. }
  destruct (round_aux_nearest (c * 2 ^ k) e) as (q & (m & e' & E & Hd & Hv) & Hq & Hn);
    rewrite ?Hl; [nia|lia..|]. rewrite Hl in *. replace (52 + k - 52) with k in * by lia.
  rewrite <- Z.mul_sub_distr_r, Z.abs_mul, (Z.abs_eq (2 ^ k)) in Hn by lia.
  assert (q = c) as -> by nia. apply digits_53 in Hd as Hm.
  destruct Hv as [[-> Hv]|[-> Hv]]; [|lia]. exists m. split_and!; [done| |done].
  by apply round_aux_finite.
Qed.

Lemma normalize_exact M c k e z :
  M = c * 2 ^ k → 0 < Z.abs c < 2 ^ 53 → 0 ≤ k → -900 ≤ e → e + k ≤ 800 →
  ∃ m e', binary_normalize 53 1024 M e z = S754_finite (M <? 0) m e' ∧
    Z.pos (digits2_pos m) = 53 ∧ e' = e + k + Z.log2 (Z.abs c) - 52 ∧
    Z.pos m = Z.abs c * 2 ^ (52 - Z.log2 (Z.abs c)).
Proof.
  intros HM Hc Hk He Hek. set (a := Z.abs c) in *. set (l := Z.log2 a).
  assert (0 ≤ l ≤ 52) as Hl.
  { split; [apply Z.log2_nonneg|]. assert (l < 53) by (apply Z.log2_lt_pow2; lia). lia. }
  assert (2 ^ 52 ≤ a * 2 ^ (52 - l) < 2 ^ 53) as Hnorm.
  { pose proof (Z.log2_spec a ltac:(lia)) as [H1 H2]. fold l in H1, H2.
    assert (2 ^ 52 = 2 ^ l * 2 ^ (52 - l)) as E1 by (rewrite <- Z.pow_add_r by lia; f_equal; lia).
    assert (2 ^ 53 = 2 ^ Z.succ l * 2 ^ (52 - l)) as E2 by (rewrite <- Z.pow_add_r by lia; f_equal; lia).
    rewrite E1, E2. nia. }
  assert (∀ p, Z.pos p = a * 2 ^ k → ∀ s, ∃ m e',
    binary_round 53 1024 s p e = S754_finite s m e' ∧ Z.pos (digits2_pos m) = 53 ∧
    e' = e + k + l - 52 ∧ Z.pos m = a * 2 ^ (52 - l)) as Hround.
  { intros p Hp s. unfold binary_round, shl_align.
    assert (Z.log2 (Z.pos p) = l + k) as Hlp by (rewrite Hp, Z.log2_mul_pow2 by lia; subst l; lia).
    replace (fexp 53 1024 (Z.pos (digits2_pos p) + e)) with (l + k + e - 52)
      by (rewrite digits2_log2, Hlp; unfold fexp, emin; lia).
    destruct (l + k + e - 52 - e) as [|d|d] eqn:Ed.
    - destruct (round_aux_exact s (a * 2 ^ (52 - l)) 0 e) as (m & Hm & E & Hd); [lia..|].
      exists m, (e + 0). rewrite <- E. split_and!; [|done|lia|done].
      rewrite Hp, Z.mul_1_r. do 3 f_equal. lia.
    - destruct (round_aux_exact s (a * 2 ^ (52 - l)) (Z.pos d) e) as (m & Hm & E & Hd); [lia..|].
      exists m, (e + Z.pos d). rewrite <- E. split_and!; [|done|lia|done].
      rewrite Hp, <- Z.mul_assoc, <- Z.pow_add_r by lia. do 3 f_equal. lia.
    - destruct (round_aux_exact s (a * 2 ^ (52 - l)) 0 (l + k + e - 52)) as (m & Hm & E & Hd); [lia..|].
      exists m, (l + k + e - 52 + 0). rewrite <- E. split_and!; [|done|lia|done].
      rewrite pos_iter_xO, Hp, Z.mul_1_r, <- Z.mul_assoc, <- Z.pow_add_r by lia. do 3 f_equal. lia. }
  unfold binary_normalize. assert (0 < 2 ^ k) by lia. destruct M as [|p|p].
  - nia.
  - apply Hround. subst a. rewrite HM. nia.
  - apply Hround. subst a. nia.
Qed.

(** ** Bounds without a normal range *)

Lemma shr_fexp_shifted M e :
  0 ≤ M →
  ∃ r n, shr_fexp 53 1024 M e loc_Exact = (r, e + n) ∧ 0 ≤ n ∧ shifted M n r ∧ 0 ≤ shr_m r ∧
    n = Z.max 0 (fexp 53 1024 (Zdigits2 M + e) - e).
Proof.
  intros HM. unfold shr_fexp, shr. cbn [shr_record_of_loc].
  destruct (fexp 53 1024 (Zdigits2 M + e) - e) as [|p|p]; cbn [shr_record_of_loc].
  - eexists _, 0. rewrite Z.add_0_r. split_and!; [done|done|apply shifted_0|done|done].
  - destruct (shifted_iter M p (Build_shr_record M false false) HM (shifted_0 M)) as [H1 H2].
    eexists _, (Z.pos p). split_and!; [done|lia|done|done|lia].
  - eexists _, 0. rewrite Z.add_0_r. split_and!; [done|done|apply shifted_0|done|done].
Qed.

(** The mantissa of a rounded value fits 53 bits. *)
Definition fits (x : float64) : Prop :=
  match x with S754_finite _ m _ => Z.pos m < 2 ^ 53 | _ => True end.

Lemma round_aux_fits s M e l : 0 ≤ M → fits (binary_round_aux 53 1024 s M e l).
Proof.
  intros HM. unfold binary_round_aux.
  pose proof (shr_fexp_nonneg M e l HM) as H1. destruct (shr_fexp 53 1024 M e l) as [r e1].
  cbn [fst] in H1. assert (0 ≤ round_nearest_even (shr_m r) (loc_of_shr_record r)) as Hq.
  { unfold round_nearest_even. destruct (loc_of_shr_record r) as [|[]]; try case_match; lia. }
  set (q := round_nearest_even _ _) in *. clearbody q.
  destruct (shr_fexp_shifted q e1 Hq) as (r' & k & -> & Hk & (rest & Eq & Hrest & _) & Hm' & Hkval).
  destruct (shr_m r') as [|p|p] eqn:Er; [done| |lia].
  destruct (Z.leb_spec (e1 + k) (1024 - 53)); [|done]. cbn [fits].
  destruct (decide (q = 0)) as [->|]; [nia|]. rewrite Zdigits2_log2 in Hkval by lia.
  unfold fexp, emin in Hkval. pose proof (Z.log2_spec q ltac:(lia)) as [_ Hlog].
  assert (2 ^ Z.succ (Z.log2 q) ≤ 2 ^ 53 * 2 ^ k) as Hpow.
  { rewrite <- Z.pow_add_r by lia. apply Z.pow_le_mono_r; lia. }
  assert (0 < 2 ^ k) by lia. nia.
Qed.

Lemma normalize_fits M e z : fits (binary_normalize 53 1024 M e z).
Proof.
  unfold binary_normalize, binary_round. destruct M; [done|..];
    destruct (shl_align _ _ _); by apply round_aux_fits.
Qed.

Lemma fadd_fits x y : fits x → fits y → fits (x + y)%F.
Proof.
  destruct x as [[]|[]| |[]], y as [[]|[]| |[]]; try done; intros _ _; apply normalize_fits.
Qed.

Lemma fmul_fits x y : fits (x * y)%F.
Proof. destruct x as [[]|[]| |[]], y as [[]|[]| |[]]; try done; by apply round_aux_fits. Qed.

Lemma fdiv_fits x y : fits (x / y)%F.
Proof.
  destruct x as [|[]| |sx mx ex], y as [| | |sy my ey]; try done. pose proof (div_core_nonneg mx ex my ey).
  unfold fdiv, SFdiv. destruct (SFdiv_core_binary _ _ _ _ _ _) as [[q e] l]. by apply round_aux_fits.
Qed.

#[export] Hint Resolve fadd_fits fmul_fits fdiv_fits : floats.

(** Rounding a value of at most [c] gives at most [c], even if it underflows. *)
Lemma round_aux_le c M e :
  1 ≤ c < 2 ^ 50 → 0 < M → e < -2 → M ≤ c * 2 ^ (- e) →
  ∃ z, trunc (binary_round_aux 53 1024 false M e loc_Exact) = Some z ∧ 0 ≤ z ≤ c.
Proof.
  intros Hc HM He Hle. unfold binary_round_aux.
  destruct (shr_fexp_shifted M e ltac:(lia)) as (r & n & -> & Hn & Hr & Hm & Hnval).
  destruct (round_nearest M n r Hr) as [Hnear Hq]. set (q := round_nearest_even _ _) in *. clearbody q.
  assert (Z.log2 M + e ≤ 50) as HlogM.
  { assert (2 ^ Z.log2 M < 2 ^ (50 + - e)) as Hl.
    { rewrite Z.pow_add_r by lia. pose proof (Z.log2_spec M HM). assert (0 < 2 ^ (- e)) by lia. nia. }
    apply Z.pow_lt_mono_r_iff in Hl; lia. }
  rewrite Zdigits2_log2 in Hnval by done. unfold fexp, emin in Hnval.
  assert (q ≤ c * 2 ^ (- (e + n))) as Hqle.
  { assert (2 ^ (- e) = 2 ^ (- (e + n)) * 2 ^ n) as Hp by (rewrite <- Z.pow_add_r by lia; f_equal; lia).
    assert (0 < 2 ^ n) by lia. rewrite Hp in Hle. nia. }
  destruct (shr_fexp_shifted q (e + n) ltac:(lia)) as (r' & k & -> & Hk & (rest & Eq & Hrest & _) & Hm' & Hkval).
  assert (e + n + k ≤ 0) as He'.
  { destruct (decide (q = 0)) as [->|]; [cbn [Zdigits2] in Hkval; unfold fexp, emin in Hkval; lia|].
    rewrite Zdigits2_log2 in Hkval by lia. unfold fexp, emin in Hkval.
    assert (2 ^ Z.log2 q < 2 ^ (50 + - (e + n))) as Hl.
    { rewrite Z.pow_add_r by lia. pose proof (Z.log2_spec q ltac:(lia)). assert (0 < 2 ^ (- (e + n))) by lia. nia. }
    apply Z.pow_lt_mono_r_iff in Hl; lia. }
  destruct (shr_m r') as [|p|p] eqn:Er; [exists 0; split; [done|lia]| |lia].
  destruct (Z.leb_spec (e + n + k) (1024 - 53)); [|lia].
  assert (Z.pos p ≤ c * 2 ^ (- (e + n + k))) as Hp.
  { assert (2 ^ (- (e + n)) = 2 ^ (- (e + n + k)) * 2 ^ k) as Hp by (rewrite <- Z.pow_add_r by lia; f_equal; lia).
    assert (0 < 2 ^ k) by lia. rewrite Hp in Hqle. nia. }
  cbn [trunc]. destruct (Z.leb_spec 0 (e + n + k)).
  - replace (e + n + k) with 0 in * by lia. eexists. split; [done|]. lia.
  - eexists. split; [done|]. split; [apply Z.div_pos; lia|].
    apply Z.div_le_upper_bound; [lia|]. rewrite Z.mul_comm. exact Hp.
Qed.
