(* ===== verification/Rng.v ===== *)
(** * internal/engine/random.go: the PCG-XSH-RR generator

    Module [Rng] models the type [RNG] and its methods; the mutex makes each
    state update atomic, so a method is a state transformer.  [Gaussian]
    is in a file of its own. *)
From Stdlib Require Import SpecFloat.
From S2P Require Import Prelude Word Float64.

Local Open Scope Z_scope.

Record RNG := mkRNG {
  state : Z;        (* uint64 *)
  inc : Z;          (* uint64 *)
  hasSpare : bool;
  spare : float64;
}.

Module Rng.

Definition with_state (r : RNG) (s : Z) : RNG := mkRNG s r.(inc) r.(hasSpare) r.(spare).

Definition multiplier : Z := 6364136223846793005.

Definition step (r : RNG) : RNG := with_state r (to_u64 (r.(state) * multiplier + r.(inc))).

(** [NewRNG]: [now] is [time.Now().UnixNano()], read only for seed 0. *)
Definition NewRNG (now seed : Z) : RNG :=
  let seed := if seed =? 0 then now else seed in
  let r := mkRNG 0 (Z.lor (to_u64 (Z.shiftl (to_u64 seed) 1)) 1) false fzero in
  let r := step r in
  let r := with_state r (to_u64 (r.(state) + to_u64 seed)) in
  step r.

(** The output permutation of [Uint32], on the state before the step. *)
Definition output (old : Z) : Z :=
  let xorshifted := to_u32 (Z.shiftr (Z.lxor (Z.shiftr old 18) old) 27) in
  let rot := to_u32 (Z.shiftr old 59) in
  Z.lor (Z.shiftr xorshifted rot)
        (to_u32 (Z.shiftl xorshifted (Z.land (to_u32 (- rot)) 31))).

Definition Uint32 : go RNG Z := λ r, Some (output r.(state), step r).

Definition Uint64 : go RNG Z :=
  hi ← Uint32;
  lo ← Uint32;
  mret (Z.lor (to_u64 (Z.shiftl hi 32)) lo).

Definition Float64 : go RNG float64 :=
  u ← Uint32;
  mret (float_of_Z u / float_of_Z (2 ^ 32))%F.

(** [int(r.Uint32() % uint32(n))]; the remainder by zero panics. *)
Definition Intn (n : Z) : go RNG Z :=
  if n <=? 0 then mret 0
  else
    u ← Uint32;
    if to_u32 n =? 0 then panic else mret (u mod to_u32 n).

Definition IntRange (min max : Z) : go RNG Z :=
  if max <=? min then mret min
  else
    k ← Intn (to_i64 (to_i64 (max - min) + 1));
    mret (to_i64 (min + k)).

(** The scan of [WeightedPick] from index [i] with the running sum. *)
Fixpoint pick_scan (target cumulative : float64) (i : Z) (weights : list float64) : option Z :=
  match weights with
  | [] => None
  | w :: ws =>
      let cumulative := (cumulative + w)%F in
      if (target <? cumulative)%F then Some i else pick_scan target cumulative (i + 1) ws
  end.

Definition WeightedPick (weights : list float64) : go RNG Z :=
  let total := fold_left fadd weights fzero in
  f ← Float64;
  let target := (f * total)%F in
  mret (match pick_scan target fzero 0 weights with
        | Some i => i
        | None => Z.of_nat (length weights) - 1
        end).

Definition State (r : RNG) : Z * Z := (r.(state), r.(inc)).

Definition RestoreState (st ic : Z) (r : RNG) : RNG := mkRNG st ic false r.(spare).

Definition StateBytes (r : RNG) : list Z :=
  let '(st, ic) := State r in
  put_uint 8 st ++ put_uint 8 ic.

Definition RestoreStateBytes (b : list Z) (r : RNG) : RNG :=
  if (length b <? 16)%nat then r
  else RestoreState (get_uint (take 8 b)) (get_uint (take 8 (drop 8 b))) r.

(** ** Well-formed generators: 64-bit fields, odd increment *)
Record wf (r : RNG) : Prop := mk_wf {
  wf_state : is_u 64 r.(state);
  wf_inc : is_u 64 r.(inc);
  wf_odd : Z.odd r.(inc) = true;
}.

Lemma step_wf r : wf r → wf (step r).
Proof. intros []. split; [by apply uwrap_range|done..]. Qed.

Lemma shl1_or1 x : Z.lor (to_u64 (Z.shiftl x 1)) 1 = 2 * (x mod 2 ^ 63) + 1.
Proof.
  unfold uwrap. rewrite Z.shiftl_mul_pow2 by lia.
  change (2 ^ 64) with (2 ^ 63 * 2 ^ 1). rewrite Zmult_mod_distr_r.
  rewrite <- Z.shiftl_mul_pow2, lor_disjoint by lia. lia.
Qed.

Lemma NewRNG_wf now seed : wf (NewRNG now seed).
Proof.
  unfold NewRNG. set (sd := if seed =? 0 then now else seed). clearbody sd.
  rewrite shl1_or1. apply step_wf.
  pose proof (Z.mod_pos_bound (to_u64 sd) (2 ^ 63) ltac:(lia)).
  split; cbn -[Z.pow]; [by apply uwrap_range|unfold is_u; lia|].
  by rewrite Z.odd_add, Z.odd_mul.
Qed.

(** ** The period

    After [n] steps the state is [a^n s + c (1 + a + ... + a^(n-1))].  As [a]
    is 1 modulo 4 and [c] is odd, it returns to [s] exactly when [2^64]
    divides [n]. *)
Fixpoint geom (a : Z) (n : nat) : Z :=
  match n with O => 0 | S n' => 1 + a * geom a n' end.

Lemma geom_pow a n : (a - 1) * geom a n = a ^ Z.of_nat n - 1.
Proof.
  induction n as [|n IH]; [cbn; lia|].
  cbn [geom]. rewrite Nat2Z.inj_succ, Z.pow_succ_r by lia. nia.
Qed.

Lemma geom_add a n m : geom a (n + m) = geom a n + a ^ Z.of_nat n * geom a m.
Proof.
  induction n as [|n IH]; [cbn; lia|].
  cbn [geom Nat.add]. rewrite IH, Nat2Z.inj_succ, Z.pow_succ_r by lia. ring.
Qed.

Lemma geom_double a n : geom a (n + n) = geom a n * (1 + a ^ Z.of_nat n).
Proof. rewrite geom_add. ring. Qed.

Lemma pow_mod4 a n : a mod 4 = 1 → a ^ Z.of_nat n mod 4 = 1.
Proof.
  intros Ha. induction n as [|n IH]; [done|].
  rewrite Nat2Z.inj_succ, Z.pow_succ_r by lia. by rewrite Z.mul_mod, Ha, IH by lia.
Qed.

Lemma odd_geom a n : Z.odd a = true → Z.odd (geom a n) = Nat.odd n.
Proof.
  intros Ha. induction n as [|n IH]; [done|]. cbn [geom].
  rewrite Z.odd_add, Z.odd_mul, Ha, IH, Nat.odd_succ, <- Nat.negb_odd. by destruct (Nat.odd n).
Qed.

Lemma pow2_divide_mul_odd (k : nat) x d :
  Z.odd d = true → (2 ^ Z.of_nat k | x * d) ↔ (2 ^ Z.of_nat k | x).
Proof.
  intros Hd. split; [|apply Z.divide_mul_l].
  revert x. induction k as [|k IH]; intros x; [intros; apply Z.divide_1_l|].
  rewrite Nat2Z.inj_succ, Z.pow_succ_r by lia. intros [q Hq].
  assert (Z.odd x = false) as Hx.
  { apply (f_equal Z.odd) in Hq. rewrite !Z.odd_mul, Hd in Hq.
    rewrite andb_true_r, andb_false_r in Hq. done. }
  rewrite <- Z.negb_even, negb_false_iff in Hx. apply Z.even_spec in Hx as [y ->].
  apply Z.mul_divide_mono_l, IH. exists q. nia.
Qed.

Lemma pow2_divide_geom a (k n : nat) :
  a mod 4 = 1 → (2 ^ Z.of_nat k | geom a n) ↔ (2 ^ Z.of_nat k | Z.of_nat n).
Proof.
  intros Ha. assert (Z.odd a = true) as Hodd.
  { rewrite <- Z.bit0_odd, <- (Z.mod_pow2_bits_low a 2 0) by lia.
    change (2 ^ 2) with 4. by rewrite Ha. }
  revert n. induction k as [|k IH]; intros n; [split; intros; apply Z.divide_1_l|].
  destruct (Nat.Even_or_Odd n) as [[m ->]|[m ->]].
  - replace (2 * m)%nat with (m + m)%nat by lia. rewrite geom_double.
    pose proof (pow_mod4 a m Ha) as Hp.
    pose proof (Z.div_mod (a ^ Z.of_nat m) 4) as E. set (q := a ^ Z.of_nat m / 4) in *.
    replace (geom a m * (1 + a ^ Z.of_nat m)) with (2 * (geom a m * (2 * q + 1))) by lia.
    replace (Z.of_nat (m + m)) with (2 * Z.of_nat m) by lia.
    rewrite Nat2Z.inj_succ, Z.pow_succ_r by lia.
    rewrite !Z.mul_divide_cancel_l by lia.
    rewrite pow2_divide_mul_odd by (by rewrite Z.odd_add, Z.odd_mul). apply IH.
  - assert (∀ x, Z.odd x = true → ¬ (2 ^ Z.of_nat (S k) | x)) as Hno.
    { intros x Hx [q ->]. revert Hx.
      by rewrite Nat2Z.inj_succ, Z.pow_succ_r, !Z.odd_mul, andb_false_r by lia. }
    split; intros H; exfalso; eapply Hno; try exact H.
    + rewrite odd_geom by done. by rewrite Nat.odd_add, Nat.odd_mul.
    + rewrite Nat2Z.inj_add, Nat2Z.inj_mul, Z.odd_add, Z.odd_mul. done.
Qed.

Definition steps (n : nat) (r : RNG) : RNG := Nat.iter n step r.

Lemma steps_fields n r :
  inc (steps n r) = inc r ∧ hasSpare (steps n r) = hasSpare r ∧ spare (steps n r) = spare r.
Proof. induction n; [done|]. by cbn. Qed.

Lemma steps_state n r :
  is_u 64 r.(state) →
  (steps n r).(state) =
  (multiplier ^ Z.of_nat n * r.(state) + r.(inc) * geom multiplier n) mod 2 ^ 64.
Proof.
  intros Hs. induction n as [|n IH].
  { cbn -[Z.pow]. by rewrite Z.mul_0_r, Z.add_0_r, Z.mul_1_l, Z.mod_small. }
  change (steps (S n) r) with (step (steps n r)).
  unfold step, with_state, uwrap. cbn [state]. rewrite IH, (proj1 (steps_fields n r)).
  rewrite <- Zplus_mod_idemp_l, Zmult_mod_idemp_l, Zplus_mod_idemp_l.
  cbn [geom]. rewrite Nat2Z.inj_succ, Z.pow_succ_r by lia. f_equal. ring.
Qed.

Lemma mod_eq_divide a b m : 0 < m → a mod m = b mod m ↔ (m | a - b).
Proof.
  intros Hm. rewrite <- Z.mod_divide by lia. split; intros H.
  - by rewrite Zminus_mod, H, Z.sub_diag.
  - replace a with (b + (a - b)) by ring. by rewrite Zplus_mod, H, Z.add_0_r, Z.mod_mod by lia.
Qed.

(** C39. The generator has full period: from any 64-bit state with an odd
    increment, as [NewRNG] makes, [n] steps come back to the state exactly when
    2^64 divides [n], so all 2^64 states are visited. *)
Theorem step_full_period (r : RNG) (n : nat) (Hr : wf r) :
  (steps n r).(state) = r.(state) ↔ (2 ^ 64 | Z.of_nat n).
Proof.
  destruct Hr as [Hs Hi Hodd]. rewrite steps_state by done.
  rewrite <- (Z.mod_small (state r) (2 ^ 64)) at 2 by done.
  rewrite mod_eq_divide by lia.
  replace (_ - _) with (geom multiplier n * ((multiplier - 1) * state r + inc r))
    by (pose proof (geom_pow multiplier n); nia).
  change (2 ^ 64) with (2 ^ Z.of_nat 64).
  rewrite pow2_divide_mul_odd; [by apply pow2_divide_geom|].
  by rewrite Z.odd_add, Z.odd_mul, Hodd.
Qed.

Lemma step_full_period_witness :
  let r := NewRNG 0 42 in (steps 6 r).(state) = r.(state) ↔ (2 ^ 64 | Z.of_nat 6).
Proof. apply (step_full_period (NewRNG 0 42) 6), NewRNG_wf. Defined.

(** ** Every state is reached

    [geom] takes every value modulo [2^k]: adding [2^k] steps flips bit [k] of
    it and keeps those below. *)
Lemma geom_onto a K (k : nat) x :
  a mod 4 = 1 → Z.odd K = true → ∃ n, (2 ^ Z.of_nat k | geom a n * K - x).
Proof.
  intros Ha HK. induction k as [|k [n Hn]]; [exists 0%nat; apply Z.divide_1_l|].
  destruct Hn as [y Hy]. destruct (Z.even y) eqn:Hyodd.
  { apply Z.even_spec in Hyodd as [y' ->]. exists n, y'. rewrite Nat2Z.inj_succ, Z.pow_succ_r by lia. lia. }
  exists (n + Nat.pow 2 k)%nat. rewrite geom_add.
  set (g := geom a (2 ^ k)). pose proof (Nat2Z.inj_pow 2 k) as Ek. change (Z.of_nat 2) with 2 in Ek.
  assert (2 ^ Z.of_nat k | g) as [z Hz] by (apply pow2_divide_geom; [done|exists 1; lia]).
  assert (Z.odd z = true) as Hodd.
  { rewrite <- Z.negb_even. apply negb_true_iff. destruct (Z.even z) eqn:Ez; [|done]. exfalso. apply Z.even_spec in Ez as [z' ->].
    assert (2 ^ Z.of_nat (S k) | g) as Hg by (exists z'; rewrite Nat2Z.inj_succ, Z.pow_succ_r by lia; lia).
    apply pow2_divide_geom in Hg; [|done]. apply Z.divide_pos_le in Hg; [|lia].
    rewrite Ek, Nat2Z.inj_succ, Z.pow_succ_r in Hg; lia. }
  set (A := a ^ Z.of_nat n).
  assert (Z.odd A = true) as HA.
  { subst A. rewrite <- Z.bit0_odd, <- (Z.mod_pow2_bits_low _ 2 0) by lia.
    change (2 ^ 2) with 4. by rewrite pow_mod4. }
  assert (Z.even (y + A * z * K) = true) as Hev.
  { by rewrite Z.even_add, !Z.even_mul, Hyodd, <- !Z.negb_odd, Hodd, HA, HK. }
  apply Z.even_spec in Hev as [w Hw]. exists w.
  rewrite Nat2Z.inj_succ, Z.pow_succ_r by lia.
  replace ((geom a n + A * g) * K - x) with ((y + A * z * K) * 2 ^ Z.of_nat k) by (rewrite Hz; lia). lia.
Qed.

(** The state [t] is reached; after an even number of steps when it has the
    parity of the present one. *)
Lemma steps_reach r t :
  wf r → is_u 64 t → Z.even (t - r.(state)) = true →
  ∃ m, (steps (m + m) r).(state) = t.
Proof.
  intros [Hs Hi Hodd] Ht Hpar.
  set (K := (multiplier - 1) * state r + inc r).
  assert (Z.odd K = true) as HK by (subst K; by rewrite Z.odd_add, Z.odd_mul, Hodd).
  destruct (geom_onto multiplier K 64 (t - state r) eq_refl HK) as [n Hdiv].
  change (2 ^ Z.of_nat 64) with (2 ^ 64) in Hdiv.
  assert (Nat.even n = true) as Hev.
  { rewrite <- Nat.negb_odd, <- (odd_geom multiplier n) by done.
    apply negb_true_iff. destruct Hdiv as [q Hq].
    assert (Z.even (geom multiplier n * K) = true) as He.
    { replace (geom multiplier n * K) with (t - state r + q * 2 ^ 64) by lia.
      by rewrite Z.even_add, Hpar, Z.even_mul, orb_true_r. }
    rewrite Z.even_mul, <- !Z.negb_odd, HK in He. by destruct (Z.odd (geom multiplier n)). }
  apply Nat.even_spec in Hev as [m ->]. exists m. replace (m + m)%nat with (2 * m)%nat by lia.
  rewrite steps_state by done. rewrite <- (Z.mod_small t (2 ^ 64)) by done.
  apply mod_eq_divide; [done|]. pose proof (geom_pow multiplier (2 * m)).
  replace (_ - t) with (geom multiplier (2 * m) * K - (t - state r)); [done|subst K; nia].
Qed.

(** ** The output function *)

Lemma output_range s : is_u 32 (output s).
Proof.
  apply lor_range; [done| |by apply uwrap_range].
  apply shiftr_range; [by apply uwrap_range|by apply uwrap_range].
Qed.

(** The word [Uint32] returns is PCG's XSH-RR permutation of the state: bit
    [i] is bit [i + rot] (modulo 32) of the xor-shifted state, where [rot] is the
    state's top five bits, for every state and every bit. *)
Lemma output_rotr (s i : Z) (Hs : is_u 64 s) (Hi : 0 ≤ i < 32) :
  Z.testbit (output s) i =
  Z.testbit (Z.shiftr (Z.lxor (Z.shiftr s 18) s) 27) ((i + Z.shiftr s 59) mod 32).
Proof.
  destruct Hs as [? Hs]. unfold output. set (x := Z.shiftr (Z.lxor _ _) 27).
  assert (0 ≤ Z.shiftr s 59 < 32) as Hrot.
  { rewrite Z.shiftr_div_pow2 by lia. split; [apply Z.div_pos; lia|].
    apply Z.div_lt_upper_bound; lia. }
  set (rot := Z.shiftr s 59) in *. rewrite (uwrap_id 32 rot) by (unfold is_u; lia).
  change 31 with (Z.ones 5). rewrite Z.land_ones by lia.
  assert (to_u32 (- rot) mod 2 ^ 5 = - rot mod 32) as ->.
  { unfold uwrap. by rewrite (Z.mod_mod_divide _ _ (2 ^ 5)) by by exists (2 ^ 27). }
  rewrite Z.lor_spec, Z.shiftr_spec by lia.
  unfold uwrap. rewrite (Z.mod_pow2_bits_low (_ ≪ _) 32 i) by lia. rewrite Z.shiftl_spec by lia.
  destruct (decide (rot = 0)) as [->|].
  { rewrite !Z.add_0_r. change (- 0 mod 32) with 0. rewrite Z.sub_0_r.
    rewrite !Z.mod_pow2_bits_low, (Z.mod_small i) by lia. by rewrite orb_diag. }
  replace (- rot mod 32) with (32 - rot) by (apply (Z.mod_unique_pos _ _ (-1)); lia).
  destruct (decide (i + rot < 32)).
  - rewrite (Z.mod_pow2_bits_low _ 32 (i + rot)), (Z.mod_small (i + rot)) by lia.
    rewrite (Z.testbit_neg_r _ (i - (32 - rot))) by lia. by rewrite orb_false_r.
  - rewrite (Z.mod_pow2_bits_high _ 32 (i + rot)), Z.mod_pow2_bits_low by lia.
    replace ((i + rot) mod 32) with (i - (32 - rot)) by (apply (Z.mod_unique_pos _ _ 1); lia).
    done.
Qed.

Lemma Uint32_Some r : Uint32 r = Some (output r.(state), step r).
Proof. done. Qed.

Lemma Uint64_range r u r' : Uint64 r = Some (u, r') → is_u 64 u.
Proof.
  intros [= <- <-]. apply lor_range; [done|by apply uwrap_range|].
  pose proof (output_range (to_u64 (state r * multiplier + inc r))). unfold is_u in *. lia.
Qed.

(** ** Integers in a range *)

Lemma Intn_spec n r :
  n < 2 ^ 32 → ∃ k r', Intn n r = Some (k, r') ∧ 0 ≤ k ∧ k < Z.max 1 n ∧
    (r' = if n <=? 0 then r else step r).
Proof.
  intros Hn. unfold Intn. destruct (Z.leb_spec n 0).
  { exists 0, r. repeat split; lia. }
  unfold mbind, go_bind, Uint32. rewrite uwrap_id by (unfold is_u; lia).
  destruct (Z.eqb_spec n 0); [lia|]. eexists _, _. split; [done|].
  pose proof (Z.mod_pos_bound (output (state r)) n ltac:(lia)). repeat split; lia.
Qed.

Lemma IntRange_spec lo hi r :
  is_s 64 lo → is_s 64 hi → hi - lo < 2 ^ 32 - 1 →
  ∃ k r', IntRange lo hi r = Some (k, r') ∧ lo ≤ k ≤ Z.max lo hi ∧
    (r' = if hi <=? lo then r else step r).
Proof.
  intros Hlo Hhi Hd. unfold IntRange. destruct (Z.leb_spec hi lo).
  { exists lo, r. repeat split; lia. }
  rewrite (swrap_id 64 (hi - lo)), swrap_id by (unfold is_s in *; lia).
  destruct (Intn_spec (hi - lo + 1) r) as (k & r' & E & ? & ? & Hr); [lia|].
  unfold mbind, go_bind. rewrite E. eexists _, _. split; [done|].
  destruct (Z.leb_spec (hi - lo + 1) 0); [lia|]. split; [|done].
  rewrite swrap_id by (unfold is_s in *; lia). lia.
Qed.

(** ** Floats in [0, 1) *)

(** [Float64] never fails and lies in [0, 1): the result is exactly the
    32-bit word over 2^32, with no rounding, for every state. *)
Theorem Float64_spec (r : RNG) :
  ∃ f, Float64 r = Some (f, step r) ∧ (fzero <=? f)%F = true ∧ (f <? float_of_Z 1)%F = true ∧
    (f = fzero ∧ output r.(state) = 0 ∨
     ∃ m e, f = S754_finite false m e ∧ e ≤ -32 ∧
       Z.pos m = output r.(state) * 2 ^ (- (e + 32))).
Proof.
  pose proof (output_range (state r)) as [H0 H1]. set (u := output (state r)) in *.
  exists (float_of_Z u / float_of_Z (2 ^ 32))%F. split; [done|].
  destruct (decide (u = 0)) as [->|].
  { split_and!; [done..|]. by left. }
  destruct (float_of_Z_exact u) as (m & e & -> & Hd & He & Hm & Hlog); [lia|].
  rewrite fdiv_2_32 by (done || lia).
  assert (Z.log2 u < 32) by (apply Z.log2_lt_pow2; lia).
  split_and!; [done| |right; exists m, (e - 32); split_and!; [done|lia|]].
  - change (float_of_Z 1) with (S754_finite false (2 ^ 52) (-52)).
    unfold fltb, SFltb, SFcompare. destruct (Z.compare_spec (e - 32) (-52)); [lia|done|lia].
  - rewrite Hm. do 2 f_equal. lia.
Qed.

Lemma pick_scan_range t c i ws k :
  pick_scan t c i ws = Some k → i ≤ k < i + Z.of_nat (length ws).
Proof.
  revert c i. induction ws as [|w ws IH]; intros c i; [done|]. cbn.
  destruct (t <? c + w)%F; [intros [= <-]; lia|]. intros H%IH. lia.
Qed.

Lemma WeightedPick_spec ws r :
  ws ≠ [] → ∃ k, WeightedPick ws r = Some (k, step r) ∧ 0 ≤ k < Z.of_nat (length ws).
Proof.
  intros Hne. unfold WeightedPick. eexists. split; [done|].
  assert (0 < length ws)%nat by (destruct ws; [done|cbn; lia]).
  destruct (pick_scan _ _ _ _) eqn:E; [|lia]. apply pick_scan_range in E. lia.
Qed.

(** ** Persistence of the state *)

Lemma length_StateBytes r : length (StateBytes r) = 16%nat.
Proof. done. Qed.

Lemma RestoreStateBytes_StateBytes r r0 :
  wf r → RestoreStateBytes (StateBytes r) r0 = mkRNG r.(state) r.(inc) false r0.(spare).
Proof.
  intros []. unfold RestoreStateBytes. rewrite length_StateBytes. cbn [Nat.ltb Nat.leb].
  unfold StateBytes, State. rewrite take_app_length', drop_app_length' by by rewrite length_put_uint.
  rewrite take_ge by by rewrite length_put_uint.
  by rewrite !get_put_uint_id.
Qed.

(** Restart: a generator restored from the sixteen bytes [StateBytes] saved
    produces, at every later point, the word the saved generator would have
    produced, whatever it held before. *)
Theorem restore_same_words (r r0 : RNG) (n : nat) (Hr : wf r) :
  let r' := RestoreStateBytes (StateBytes r) r0 in
  fst <$> Uint32 (steps n r') = fst <$> Uint32 (steps n r).
Proof.
  intros r'. unfold r'. rewrite RestoreStateBytes_StateBytes by done.
  destruct Hr. cbn. rewrite !steps_state by done. done.
Qed.

Lemma restore_same_words_witness :
  let r := NewRNG 0 42 in
  let r' := RestoreStateBytes (StateBytes r) (NewRNG 0 7) in
  fst <$> Uint32 (steps 3 r') = fst <$> Uint32 (steps 3 r).
Proof. apply (restore_same_words (NewRNG 0 42) (NewRNG 0 7) 3), NewRNG_wf. Defined.

End Rng.
