(* ===== verification/Gaussian.v ===== *)
(** * internal/engine/random.go: Gaussian

    The polar method of [Gaussian]: pairs are drawn until one falls inside the
    unit circle, and each accepted pair gives two numbers, one kept as the spare.
    [math.Log] is an argument.  The loop has no bound in the source and is given
    fuel here; [Gaussian_terminates] shows that every generator has enough. *)
From Stdlib Require Import SpecFloat.
From S2P Require Import Prelude Word Float64 FloatRound Rng.

Local Open Scope Z_scope.

Definition one : float64 := float_of_Z 1.
Definition two : float64 := float_of_Z 2.

(** [r.Float64()*2 - 1] *)
Definition signed_unit : go RNG float64 :=
  f ← Rng.Float64;
  mret (f * two - one)%F.

(** One iteration of the loop: the new [u], [v] and [s]. *)
Definition polar_draw : go RNG (float64 * float64 * float64) :=
  u ← signed_unit;
  v ← signed_unit;
  mret (u, v, (u * u + v * v)%F).

Definition accepted (s : float64) : bool := (s >? fzero)%F && (s <? one)%F.

(** The loop; [None] when the fuel runs out. *)
Fixpoint polar_loop (fuel : nat) : go RNG (float64 * float64 * float64) :=
  match fuel with
  | O => λ _, None
  | S fuel =>
      d ← polar_draw;
      if accepted d.2 then mret d else polar_loop fuel
  end.

Definition set_spare (has : bool) (v : float64) (r : RNG) : RNG :=
  mkRNG r.(state) r.(inc) has v.

Section gaussian.
Context (math_Log : float64 → float64).

Definition Gaussian (fuel : nat) : go RNG float64 :=
  r ← get_state;
  if r.(hasSpare) then
    _ ← put_state (set_spare false r.(spare) r);
    mret r.(spare)
  else
    d ← polar_loop fuel;
    let '(u, v, s) := d in
    let s := fsqrt (float_of_Z (-2) * math_Log s / s)%F in
    r ← get_state;
    _ ← put_state (set_spare true (v * s)%F r);
    mret (u * s)%F.

End gaussian.

(** ** More fuel changes nothing *)

Lemma polar_loop_more fuel fuel' r x :
  (fuel ≤ fuel')%nat → polar_loop fuel r = Some x → polar_loop fuel' r = Some x.
Proof.
  revert fuel' r. induction fuel as [|fuel IH]; intros fuel' r Hle; [done|].
  destruct fuel' as [|fuel']; [lia|]. cbn [polar_loop]. unfold mbind, go_bind.
  destruct (polar_draw r) as [[d r']|]; [|done].
  destruct (accepted d.2); [done|]. apply IH. lia.
Qed.

(** ** Draws read two successive words *)

Definition unit_of (o : Z) : float64 := (float_of_Z o / float_of_Z (2 ^ 32) * two - one)%F.

Lemma polar_draw_words r :
  let u := unit_of (Rng.output r.(state)) in
  let v := unit_of (Rng.output (Rng.step r).(state)) in
  polar_draw r = Some ((u, v, (u * u + v * v)%F), Rng.step (Rng.step r)).
Proof. done. Qed.

(** A draw that is reached is accepted no later. *)
Lemma polar_loop_reaches m r :
  let r' := Rng.steps (m + m) r in
  let u := unit_of (Rng.output r'.(state)) in
  let v := unit_of (Rng.output (Rng.step r').(state)) in
  accepted (u * u + v * v)%F = true → is_Some (polar_loop (S m) r).
Proof.
  revert r. induction m as [|m IH]; intros r r' u v Hacc.
  - cbn [polar_loop]. unfold mbind, go_bind. rewrite polar_draw_words. cbn [snd].
    unfold u, v, r' in Hacc. cbn [Nat.add Rng.steps Nat.iter nat_rect] in Hacc. rewrite Hacc. by eexists.
  - change (polar_loop (S (S m))) with
      (polar_draw ≫= λ d, if accepted d.2 then mret d else polar_loop (S m)).
    unfold mbind, go_bind. rewrite polar_draw_words. cbn [snd].
    case_match; [by eexists|]. apply IH.
    assert (Rng.steps (m + m) (Rng.step (Rng.step r)) = r') as ->; [|exact Hacc].
    unfold r', Rng.steps. replace (S m + S m)%nat with (m + m + 2)%nat by lia.
    by rewrite (Nat.iter_add (m + m) 2).
Qed.

(** ** The value of a coordinate

    [unit_of o] is [(o - 2^31) / 2^31] exactly. *)
Lemma double_exact m e :
  Z.pos (digits2_pos m) = 53 → -500 ≤ e ≤ 500 →
  (S754_finite false m e * two)%F = S754_finite false m (e + 1).
Proof.
  intros Hd He. change two with (S754_finite false (2 ^ 52) (-51)). apply digits_53 in Hd as Hm.
  unfold fmul, SFmul. cbn [xorb]. rewrite Pos2Z.inj_mul.
  change (Z.pos (2 ^ 52)) with (2 ^ 52).
  destruct (round_aux_exact false (Z.pos m) 52 (e + -51)) as (m' & [= ->] & -> & _); [lia..|].
  f_equal. lia.
Qed.

Lemma unit_of_exact o :
  0 < o < 2 ^ 32 → o ≠ 2 ^ 31 →
  let c := Z.abs (o - 2 ^ 31) in
  ∃ sg m e, unit_of o = S754_finite sg m e ∧
    e = Z.log2 c - 83 ∧ Z.pos m = c * 2 ^ (52 - Z.log2 c).
Proof.
  intros Ho Hne c. unfold unit_of.
  destruct (float_of_Z_exact o) as (m & e & -> & Hd & He & Hm & Hlog); [lia|].
  rewrite fdiv_2_32, double_exact by (done || lia).
  assert (Z.log2 o < 32) by (apply Z.log2_lt_pow2; lia).
  change one with (S754_finite false (2 ^ 52) (-52)). unfold fsub, SFsub.
  replace (Z.min (e - 32 + 1) (-52)) with (e - 31) by lia.
  assert (fst (shl_align m (e - 32 + 1) (e - 31)) = m) as ->.
  { unfold shl_align. by replace (e - 31 - (e - 32 + 1)) with 0 by lia. }
  assert (Z.pos (fst (shl_align (2 ^ 52) (-52) (e - 31))) = 2 ^ 31 * 2 ^ (- e)) as ->.
  { unfold shl_align. rewrite <- Z.pow_add_r by lia. destruct (e - 31 - -52) as [|d|d] eqn:E.
    - cbn [fst]. change (Z.pos (2 ^ 52)) with (2 ^ 52). f_equal. lia.
    - lia.
    - cbn [fst]. rewrite pos_iter_xO. change (Z.pos (2 ^ 52)) with (2 ^ 52).
      rewrite <- Z.pow_add_r by lia. f_equal. lia. }
  cbn [cond_Zopp]. rewrite Hm.
  destruct (normalize_exact (o * 2 ^ (- e) - 2 ^ 31 * 2 ^ (- e)) (o - 2 ^ 31) (- e) (e - 31) false)
    as (m' & e' & E & _ & He' & Hm'); [ring|lia..|].
  eexists _, m', e'. split_and!; [exact E|subst c; lia|done].
Qed.

(** A value at most [1 - 2^-31] has a square that does not round up to 1. *)
Lemma square_below_one m e :
  2 ^ 52 ≤ m < 2 ^ 53 → -83 ≤ e ≤ -53 → m ≤ 2 ^ (- e) - 2 ^ (- e - 31) →
  ∃ m' e', binary_round_aux 53 1024 false (m * m) (e + e) loc_Exact = S754_finite false m' e' ∧
    (S754_finite false m' e' <? one)%F = true.
Proof.
  intros Hm He Hle. pose proof (log2_product m m Hm Hm) as Hlog.
  destruct (round_aux_nearest (m * m) (e + e)) as (q & (m' & e' & -> & Hd & Hv) & Hq & Hn); [nia|lia..|].
  set (p := Z.log2 (m * m) - 52) in *. exists m', e'. split; [done|].
  set (A := 2 ^ (- e - 31)) in *. assert (2 ^ (- e) = 2 ^ 31 * A) as HA.
  { subst A. rewrite <- Z.pow_add_r by lia. f_equal. lia. }
  assert (0 < A) by (subst A; lia). rewrite HA in Hle.
  assert (2 ^ (- (e + e)) = 2 ^ 62 * (A * A)) as HAA.
  { replace (- (e + e)) with (- e + - e) by lia. rewrite Z.pow_add_r, HA by lia.
    change (2 ^ 62) with (2 ^ 31 * 2 ^ 31). ring. }
  assert (m * m ≤ (2 ^ 62 - 2 ^ 32 + 1) * (A * A)) as HM by nia.
  assert (2 ^ (p + 52) ≤ m * m) as Hp.
  { subst p. rewrite Z.sub_add. apply Z.log2_spec. nia. }
  rewrite Z.pow_add_r in Hp by lia.
  assert (q * 2 ^ p < 2 ^ (- (e + e))) as Hlt by (rewrite HAA; nia).
  assert (e' < -52) as He'.
  { apply Z.nle_gt. intros Hge. apply (Z.lt_irrefl (2 ^ (- (e + e)))). eapply Z.le_lt_trans; [|exact Hlt].
    apply digits_53 in Hd. destruct Hv as [[-> <-]|[-> <-]].
    - replace (- (e + e)) with (- (e + e) - p + p) by lia. rewrite Z.pow_add_r by lia.
      apply Z.mul_le_mono_nonneg_r; [lia|]. transitivity (2 ^ 52); [apply Z.pow_le_mono_r; lia|lia].
    - replace (- (e + e)) with (- (e + e) - p + p) by lia. rewrite Z.pow_add_r by lia.
      apply Z.mul_le_mono_nonneg_r; [lia|]. transitivity (2 ^ 53); [apply Z.pow_le_mono_r; lia|lia]. }
  change one with (S754_finite false (2 ^ 52) (-52)). unfold fltb, SFltb, SFcompare.
  destruct (Z.compare_spec e' (-52)); [lia|done|lia].
Qed.

(** With the other coordinate zero, a draw is accepted unless this one is
    [-1] or [0]. *)
Lemma accepted_axis o :
  0 < o < 2 ^ 32 → o ≠ 2 ^ 31 →
  accepted (unit_of (2 ^ 31) * unit_of (2 ^ 31) + unit_of o * unit_of o)%F = true.
Proof.
  intros Ho Hne. destruct (unit_of_exact o Ho Hne) as (sg & m & e & -> & He & Hm).
  set (c := Z.abs (o - 2 ^ 31)) in *. set (l := Z.log2 c) in *.
  assert (0 < c < 2 ^ 31) as Hc by lia.
  assert (0 ≤ l ≤ 30) as Hl.
  { split; [apply Z.log2_nonneg|]. assert (l < 31) by (apply Z.log2_lt_pow2; lia). lia. }
  replace (unit_of (2 ^ 31)) with fzero by (vm_compute; reflexivity).
  change (fzero * fzero)%F with fzero. unfold fmul, SFmul. rewrite xorb_nilpotent, Pos2Z.inj_mul.
  destruct (square_below_one (Z.pos m) e) as (m' & e' & -> & Hlt); [..|].
  - rewrite Hm. assert (2 ^ 52 = 2 ^ l * 2 ^ (52 - l)) as E1 by (rewrite <- Z.pow_add_r by lia; f_equal; lia).
    assert (2 ^ 53 = 2 ^ Z.succ l * 2 ^ (52 - l)) as E2 by (rewrite <- Z.pow_add_r by lia; f_equal; lia).
    pose proof (Z.log2_spec c ltac:(lia)) as [H1 H2]. fold l in H1, H2. rewrite E1, E2. nia.
  - lia.
  - rewrite Hm. replace (2 ^ (- e)) with (2 ^ 31 * 2 ^ (52 - l)) by (rewrite <- Z.pow_add_r by lia; f_equal; lia).
    replace (2 ^ (- e - 31)) with (2 ^ (52 - l)) by (f_equal; lia). nia.
  - unfold accepted. change (fzero + S754_finite false m' e')%F with (S754_finite false m' e'). by rewrite Hlt.
Qed.

(** ** A draw that is accepted from any generator

    The states [2^58 + 2^40 + p] put out the word [2^31], a zero coordinate.  The
    word after it depends on the increment; it spoils the draw only when the bits
    46 to 58 of the next state have at most one bit set, which cannot happen for
    both [p] and [p + 2]. *)
Definition centre (p : Z) : Z := 2 ^ 58 + 2 ^ 40 + p.

Lemma centre_output p : 0 ≤ p < 4 → Rng.output (centre p) = 2 ^ 31.
Proof.
  intros Hp. assert (p = 0 ∨ p = 1 ∨ p = 2 ∨ p = 3) as [-> | [-> | [-> | ->]]] by lia; reflexivity.
Qed.

Definition field (t : Z) : Z := (t / 2 ^ 46) mod 2 ^ 13.
Definition sparse : list Z := 0 :: ((λ k, 2 ^ Z.of_nat k) <$> seq 0 13).

Lemma field_bits t i : 0 ≤ i < 13 → Z.testbit (field t) i = Z.testbit t (46 + i).
Proof.
  intros Hi. unfold field. rewrite Z.mod_pow2_bits_low, <- Z.shiftr_div_pow2, Z.shiftr_spec by lia.
  f_equal. lia.
Qed.

Lemma sparse_single f :
  0 ≤ f < 2 ^ 13 →
  (∀ i j, 0 ≤ i < 13 → 0 ≤ j < 13 → Z.testbit f i = true → Z.testbit f j = true → i = j) →
  f ∈ sparse.
Proof.
  intros Hf Huniq. unfold sparse. destruct (decide (f = 0)) as [->|]; [by left|right].
  assert (0 ≤ Z.log2 f < 13) as Hl by (split; [apply Z.log2_nonneg|apply Z.log2_lt_pow2; lia]).
  apply list_elem_of_fmap. exists (Z.to_nat (Z.log2 f)). split; [|apply elem_of_seq; lia].
  rewrite Z2Nat.id by lia. apply Z.bits_inj'. intros i Hi. rewrite Z.pow2_bits_eqb by lia.
  destruct (Z.eqb_spec (Z.log2 f) i) as [<-|Hne]; [apply Z.bit_log2; lia|].
  destruct (decide (i < 13)).
  - destruct (Z.testbit f i) eqn:Eb; [|done]. destruct Hne. apply Huniq; [done|lia|apply Z.bit_log2; lia|done].
  - apply Z.bits_above_log2; lia.
Qed.

Lemma spoiled_sparse t :
  is_u 64 t → Rng.output t = 0 ∨ Rng.output t = 2 ^ 31 → field t ∈ sparse.
Proof.
  intros Ht Hout. set (rot := Z.shiftr t 59).
  assert (∀ i, 0 ≤ i < 13 → Z.testbit (field t) i = true → (19 + i - rot) mod 32 = 31) as Hbit.
  { intros i Hi Hb. pose proof (Z.mod_pos_bound (19 + i - rot) 32 ltac:(lia)) as Hr.
    pose proof (Rng.output_rotr t _ Ht Hr) as Hrot. fold rot in Hrot.
    rewrite Zplus_mod_idemp_l, Z.sub_add, (Z.mod_small (19 + i)) in Hrot by lia.
    rewrite Z.shiftr_spec, Z.lxor_spec, Z.shiftr_spec in Hrot by lia.
    assert (Z.testbit t (19 + i + 27 + 18) = false) as Hhigh.
    { rewrite <- (Z.mod_small t (2 ^ 64)) by done. apply Z.mod_pow2_bits_high. lia. }
    rewrite Hhigh, xorb_false_l in Hrot.
    rewrite field_bits in Hb by done. replace (19 + i + 27) with (46 + i) in Hrot by lia.
    rewrite Hb in Hrot. destruct Hout as [E|E]; rewrite E in Hrot.
    - by rewrite Z.bits_0 in Hrot.
    - rewrite Z.pow2_bits_eqb in Hrot by lia. apply Z.eqb_eq in Hrot. lia. }
  apply sparse_single; [by apply Z.mod_pos_bound|]. intros i j Hi Hj Bi%Hbit Bj%Hbit; [|done..].
  pose proof (Z.div_mod (19 + i - rot) 32). pose proof (Z.div_mod (19 + j - rot) 32). lia.
Qed.

Lemma field_add t d :
  let D := d / 2 ^ 46 in
  field ((t + d) mod 2 ^ 64) = (field t + D) mod 2 ^ 13 ∨
  field ((t + d) mod 2 ^ 64) = (field t + (D + 1)) mod 2 ^ 13.
Proof.
  intros D. unfold field. change (2 ^ 64) with (2 ^ 46 * 2 ^ 18).
  rewrite Z.rem_mul_r by lia.
  rewrite (Z.mul_comm (2 ^ 46)), Z.div_add, Z.div_small, Z.add_0_l by (try apply Z.mod_pos_bound; lia).
  rewrite Z.mod_mod_divide by (exists (2 ^ 5); reflexivity).
  assert (∃ c, (c = 0 ∨ c = 1) ∧ (t + d) / 2 ^ 46 = t / 2 ^ 46 + (D + c)) as (c & Hc & ->).
  { pose proof (Z.div_mod t (2 ^ 46) ltac:(lia)). pose proof (Z.div_mod d (2 ^ 46) ltac:(lia)) as Hd. fold D in Hd.
    pose proof (Z.mod_pos_bound t (2 ^ 46) ltac:(lia)). pose proof (Z.mod_pos_bound d (2 ^ 46) ltac:(lia)).
    destruct (decide (t mod 2 ^ 46 + d mod 2 ^ 46 < 2 ^ 46)).
    - exists 0. split; [by left|]. symmetry. apply (Z.div_unique_pos _ _ _ (t mod 2 ^ 46 + d mod 2 ^ 46)); lia.
    - exists 1. split; [by right|]. symmetry. apply (Z.div_unique_pos _ _ _ (t mod 2 ^ 46 + d mod 2 ^ 46 - 2 ^ 46)); lia. }
  rewrite !Zplus_mod_idemp_l. destruct Hc as [-> | ->]; [left; by rewrite Z.add_0_r|by right].
Qed.

Definition gap : Z := 2 * Rng.multiplier / 2 ^ 46.

Definition apart (f g : Z) : bool :=
  negb (g =? (f + gap) mod 2 ^ 13) && negb (g =? (f + (gap + 1)) mod 2 ^ 13).

Lemma sparse_apart f g :
  f ∈ sparse → g ∈ sparse → g ≠ (f + gap) mod 2 ^ 13 ∧ g ≠ (f + (gap + 1)) mod 2 ^ 13.
Proof.
  assert (forallb (λ f, forallb (apart f) sparse) sparse = true) as H by (vm_compute; reflexivity).
  rewrite forallb_forall in H. intros Hf%list_elem_of_In Hg%list_elem_of_In.
  specialize (H f Hf). rewrite forallb_forall in H. specialize (H g Hg).
  unfold apart in H. rewrite andb_true_iff, !negb_true_iff, !Z.eqb_neq in H. exact H.
Qed.

(** The next state, by the increment [c]. *)
Definition next (c t : Z) : Z := to_u64 (t * Rng.multiplier + c).

Lemma good_centre c (s : Z) :
  ∃ p, 0 ≤ p < 4 ∧ Z.even (centre p - s) = true ∧
    Rng.output (next c (centre p)) ≠ 0 ∧ Rng.output (next c (centre p)) ≠ 2 ^ 31.
Proof.
  set (p := s mod 2). pose proof (Z.mod_pos_bound s 2 ltac:(lia)) as Hp. fold p in Hp.
  assert (Z.even (centre p - s) = true) as Hev.
  { rewrite Z.even_sub. unfold centre. rewrite !Z.even_add. subst p. rewrite Zmod_even.
    by destruct (Z.even s). }
  destruct (decide (field (next c (centre p)) ∈ sparse)) as [H1|H1].
  - exists (p + 2). assert (centre (p + 2) = centre p + 2) as -> by (unfold centre; lia).
    split; [lia|]. split.
    { replace (centre p + 2 - s) with (centre p - s + 2) by lia. by rewrite Z.even_add, Hev. }
    assert (next c (centre p + 2) = (next c (centre p) + 2 * Rng.multiplier) mod 2 ^ 64) as Enext.
    { unfold next, uwrap. rewrite Zplus_mod_idemp_l. f_equal. ring. }
    assert (field (next c (centre p + 2)) ∉ sparse) as Hno.
    { intros H2. destruct (sparse_apart _ _ H1 H2) as [Ha Hb].
      destruct (field_add (next c (centre p)) (2 * Rng.multiplier)) as [E|E];
        rewrite <- Enext in E; [by apply Ha|by apply Hb]. }
    split; intros E; apply Hno, spoiled_sparse; auto using uwrap_range; by apply uwrap_range.
  - exists p. split_and!; [lia|lia|done|..]; intros E; apply H1, spoiled_sparse; auto; by apply uwrap_range.
Qed.

Lemma polar_loop_returns r : Rng.wf r → ∃ fuel, is_Some (polar_loop fuel r).
Proof.
  intros Hr. destruct (good_centre r.(inc) r.(state)) as (p & Hp & Hev & H0 & H31).
  destruct (Rng.steps_reach r (centre p) Hr) as [m Hm]; [unfold is_u, centre; lia|done|].
  exists (S m). apply polar_loop_reaches. rewrite Hm, centre_output by done.
  assert (state (Rng.step (Rng.steps (m + m) r)) = next (inc r) (centre p)) as ->.
  { unfold Rng.step, Rng.with_state, next. cbn [state]. by rewrite Hm, (proj1 (Rng.steps_fields _ r)). }
  pose proof (Rng.output_range (next (inc r) (centre p))) as [??].
  apply accepted_axis; [lia|done].
Qed.

Lemma polar_loop_run fuel r d r' :
  polar_loop fuel r = Some (d, r') →
  accepted d.2 = true ∧ d.2 = (d.1.1 * d.1.1 + d.1.2 * d.1.2)%F ∧ ∃ k, r' = Rng.steps (k + k) r.
Proof.
  revert r. induction fuel as [|fuel IH]; intros r; [done|].
  cbn [polar_loop]. unfold mbind, go_bind.
  assert (∃ u v, polar_draw r = Some ((u, v, (u * u + v * v)%F), Rng.step (Rng.step r)))
    as (u & v & ->) by (do 2 eexists; apply polar_draw_words).
  cbn [snd]. case_match eqn:Hacc.
  - intros H. assert (d = (u, v, (u * u + v * v)%F) ∧ r' = Rng.step (Rng.step r)) as [-> ->].
    { unfold mret, go_ret in H. split; congruence. }
    split_and!; [exact Hacc|done|by exists 1%nat].
  - intros H%IH. destruct H as (? & ? & k & ->). split_and!; [done..|]. exists (S k).
    unfold Rng.steps. replace (S k + S k)%nat with (k + k + 2)%nat by lia.
    by rewrite (Nat.iter_add (k + k) 2).
Qed.

Lemma Gaussian_total math_Log r :
  Rng.wf r → ∃ fuel x r', (∀ fuel', (fuel ≤ fuel')%nat → Gaussian math_Log fuel' r = Some (x, r')) ∧
    hasSpare r' = negb (hasSpare r) ∧ Rng.wf r'.
Proof.
  intros Hr. destruct (hasSpare r) eqn:Hs.
  { exists 0%nat, (spare r), (set_spare false (spare r) r). split_and!; [|done|].
    - intros fuel' _. unfold Gaussian, mbind, go_bind, get_state. by rewrite Hs.
    - by destruct Hr. }
  destruct (polar_loop_returns r Hr) as [fuel [[[[u v] s] r1] Hrun]].
  exists fuel. eexists _, _. split_and!.
  - intros fuel' Hle. unfold Gaussian, mbind, go_bind, get_state. rewrite Hs.
    rewrite (polar_loop_more _ _ _ _ Hle Hrun). reflexivity.
  - done.
  - destruct (polar_loop_run _ _ _ _ Hrun) as (_ & _ & k & ->).
    destruct Hr as [H1 H2 H3]. destruct (Rng.steps_fields (k + k) r) as (E1 & _).
    split; cbn; rewrite ?E1; [|done|done]. rewrite Rng.steps_state by done. by apply Z.mod_pos_bound.
Qed.

(** C30. [Gaussian] terminates: from every generator [NewRNG] or [RestoreState] can
    leave (64-bit state, odd increment), whatever the seed, the rejection loop
    accepts a pair after finitely many draws, so that some fuel is enough and
    every larger one gives the same number and state; the generator stays well
    formed and holds a spare exactly when it held none. *)
Theorem Gaussian_terminates (math_Log : float64 → float64) (r : RNG) (Hr : Rng.wf r) :
  ∃ fuel x r', (∀ fuel', (fuel ≤ fuel')%nat → Gaussian math_Log fuel' r = Some (x, r')) ∧
    hasSpare r' = negb (hasSpare r) ∧ Rng.wf r'.
Proof. by apply Gaussian_total. Qed.

Lemma Gaussian_terminates_witness :
  let r := Rng.NewRNG 0 42 in
  ∃ fuel x r', (∀ fuel', (fuel ≤ fuel')%nat → Gaussian (λ _, float_of_Z (-1)) fuel' r = Some (x, r')) ∧
    hasSpare r' = negb (hasSpare r) ∧ Rng.wf r'.
Proof. apply (Gaussian_terminates (λ _, float_of_Z (-1)) (Rng.NewRNG 0 42)), Rng.NewRNG_wf. Defined.
