(* ===== verification/GoSort.v ===== *)
(** * sort.Slice

    For a slice of at most 12 elements [sort.Slice] is the insertion sort
    below, element by element and swap by swap; the level lists of a book are
    that short.  On longer slices the library switches algorithm, which only
    matters when two elements compare equal: [sort_slice_unique] shows that
    the sorted permutation is unique when no two do. *)

From S2P Require Import Prelude.

Local Open Scope Z_scope.

Section Sort.
Context {A : Type} (less : A → A → bool).

(** Moving [x] left over the sorted prefix, given last element first. *)
Fixpoint sift (x : A) (prefix_rev : list A) : list A :=
  match prefix_rev with
  | [] => [x]
  | y :: ys => if less x y then y :: sift x ys else x :: y :: ys
  end.

Definition sort_slice (l : list A) : list A :=
  rev (fold_left (λ acc x, sift x acc) l []).

Lemma sift_perm x l : sift x l ≡ₚ x :: l.
Proof.
  induction l as [|y l IH]; [done|]. cbn. destruct (less x y); [|done].
  rewrite IH. constructor.
Qed.

Lemma fold_sift_perm l acc : fold_left (λ acc x, sift x acc) l acc ≡ₚ l ++ acc.
Proof.
  revert acc. induction l as [|x l IH]; intros acc; [done|]. cbn.
  rewrite IH, sift_perm. symmetry. apply Permutation_middle.
Qed.

Lemma sort_slice_perm l : sort_slice l ≡ₚ l.
Proof.
  unfold sort_slice. rewrite <- Permutation_rev, fold_sift_perm. by rewrite app_nil_r.
Qed.

Lemma length_sort_slice l : length (sort_slice l) = length l.
Proof. apply Permutation_length, sort_slice_perm. Qed.

Lemma elem_of_sort_slice x l : x ∈ sort_slice l ↔ x ∈ l.
Proof. by rewrite sort_slice_perm. Qed.

Definition lt_of (x y : A) : Prop := less x y = true.
Definition comparable (x y : A) : Prop := less x y = true ∨ less y x = true.

Context (less_trans : ∀ x y z, less x y = true → less y z = true → less x z = true).
Context (less_asym : ∀ x y, less x y = true → less y x = false).

Lemma sift_sorted x l :
  StronglySorted (flip lt_of) l → Forall (comparable x) l →
  StronglySorted (flip lt_of) (sift x l).
Proof.
  induction 1 as [|y l Hs IH Hy]; intros Hc; cbn.
  { repeat constructor. }
  apply Forall_cons in Hc as [Hxy Hc]. destruct (less x y) eqn:E.
  - constructor; [by apply IH|]. rewrite sift_perm. by constructor.
  - destruct Hxy as [|Hyx]; [congruence|].
    repeat constructor; [done..|]. eapply Forall_impl; [exact Hy|].
    intros z Hz. by eapply less_trans.
Qed.

Lemma fold_sift_sorted l acc :
  ForallOrdPairs comparable l → Forall (λ x, Forall (comparable x) acc) l →
  StronglySorted (flip lt_of) acc →
  StronglySorted (flip lt_of) (fold_left (λ acc x, sift x acc) l acc).
Proof.
  intros Hl. revert acc. induction Hl as [|x l Hx Hl IH]; intros acc Ha Hs; [done|].
  apply Forall_cons in Ha as [Hxa Ha]. cbn. apply IH; [|by apply sift_sorted].
  rewrite Forall_forall in Ha, Hx |- *. intros z Hz. rewrite sift_perm.
  constructor; [|by apply Ha]. destruct (Hx z Hz); [by right|by left].
Qed.

Lemma StronglySorted_rev (R : A → A → Prop) l :
  StronglySorted (flip R) l → StronglySorted R (rev l).
Proof.
  induction 1 as [|x l Hs IH Hx]; cbn; [constructor|].
  apply StronglySorted_app_2; [|done|repeat constructor].
  intros y z Hy Hz. apply list_elem_of_singleton in Hz as ->.
  rewrite Forall_forall in Hx. apply Hx. by rewrite (Permutation_rev l).
Qed.

(** Elements that pairwise compare come out strictly ordered... *)
Lemma sort_slice_sorted l :
  ForallOrdPairs comparable l → StronglySorted lt_of (sort_slice l).
Proof.
  intros Hl. apply StronglySorted_rev, fold_sift_sorted; [done| |constructor].
  apply Forall_true. constructor.
Qed.

Lemma lt_sorted_unique l1 l2 :
  StronglySorted lt_of l1 → StronglySorted lt_of l2 → l1 ≡ₚ l2 → l1 = l2.
Proof.
  apply StronglySorted_unique. intros x y H1 H2. unfold lt_of in *.
  apply less_asym in H1. congruence.
Qed.

(** ... and any sorting algorithm gives this result. *)
Lemma sort_slice_unique l l' :
  ForallOrdPairs comparable l → StronglySorted lt_of l' → l' ≡ₚ l → l' = sort_slice l.
Proof.
  intros Hc Hs Hp. apply lt_sorted_unique; [done|by apply sort_slice_sorted|].
  by rewrite sort_slice_perm.
Qed.
End Sort.

(** Only comparisons of elements of the slice matter. *)
Lemma sort_slice_ext {A} (less less' : A → A → bool) (l : list A) :
  (∀ x y, x ∈ l → y ∈ l → less x y = less' x y) → sort_slice less l = sort_slice less' l.
Proof.
  intros Hl. unfold sort_slice. f_equal.
  assert (∀ x acc, (∀ y, y ∈ acc → less x y = less' x y) → sift less x acc = sift less' x acc) as Hsift.
  { intros x acc. induction acc as [|y acc IH]; intros Hx; [done|]. cbn.
    rewrite (Hx y) by (by left). destruct (less' x y); [|done]. f_equal. apply IH. intros z Hz. apply Hx. by right. }
  assert (∀ k acc, k ⊆ l → acc ⊆ l →
    fold_left (λ acc x, sift less x acc) k acc = fold_left (λ acc x, sift less' x acc) k acc) as Hfold.
  { induction k as [|x k IH]; intros acc Hk Hacc; [done|]. cbn.
    assert (x ∈ l) as Hx by (apply Hk; by left).
    rewrite (Hsift x acc) by (intros y Hy; apply Hl; auto). apply IH.
    - intros z Hz. apply Hk. by right.
    - intros z. rewrite sift_perm. intros [->|Hz]%elem_of_cons; auto. }
  apply Hfold; [done|]. intros z Hz. by apply elem_of_nil in Hz.
Qed.

(** Entries with distinct integer keys compare. *)
Lemma keys_comparable {A} (key : A → Z) (l : list A) :
  NoDup (key <$> l) → ForallOrdPairs (comparable (λ a b, key a <? key b)) l.
Proof.
  induction l as [|x l IH]; [constructor|]. cbn. intros [Hn Hnd]%NoDup_cons.
  constructor; [|by apply IH]. apply Forall_forall. intros y Hy.
  assert (key x ≠ key y) by (intros E; apply Hn; rewrite E; by apply list_elem_of_fmap_2).
  unfold comparable. rewrite !Z.ltb_lt. lia.
Qed.
