(* ===== verification/Book.v ===== *)
(** * internal/orderbook: order.go and book.go

    Orders are heap objects: the price levels and the [orderMap] of a book hold
    pointers to the same [Order], and [ReduceOrder] writes through one of them.
    The heap, the two package counters and one book make the state [bstate]; a
    method of [Book] runs under the book's mutex and is one state transformer.
    Slices of a book are reassigned under that mutex and never shared, so they
    are lists. *)
From S2P Require Import Prelude Word Float64 GoSort.

Local Open Scope Z_scope.

(** ** Data *)

Definition SideBuy : Z := 66.   (* 'B' *)
Definition SideSell : Z := 83.  (* 'S' *)

Module Order.
Record t := mk {
  ID : Z;           (* uint64 *)
  Locate : Z;       (* uint16 *)
  Side : Z;         (* byte *)
  Price : float64;
  Shares : Z;       (* int32 *)
  Priority : Z;     (* int32 *)
  MPID : string;
}.
Definition with_Shares (o : t) (n : Z) : t :=
  mk o.(ID) o.(Locate) o.(Side) o.(Price) n o.(Priority) o.(MPID).
Definition zero : t := mk 0 0 0 fzero 0 0 "".
End Order.

Abbreviation ptr := positive.
Abbreviation heap := (gmap ptr Order.t).

(** Reading through a pointer.  The pointers of a book are always allocated
    ([book_rep] in the proofs), so the default is never read. *)
Definition deref (h : heap) (p : ptr) : Order.t := default Order.zero (h !! p).

Module PriceLevel.
Record t := mk { Price : float64; Orders : list ptr }.
Definition with_Orders (l : t) (os : list ptr) : t := mk l.(Price) os.
End PriceLevel.

Module Book.
Record t := mk {
  Locate : Z;
  TickSize : float64;
  Bids : list PriceLevel.t;
  Asks : list PriceLevel.t;
  orderMap : gmap Z ptr;
}.
Definition with_Bids (b : t) (l : list PriceLevel.t) : t :=
  mk b.(Locate) b.(TickSize) l b.(Asks) b.(orderMap).
Definition with_Asks (b : t) (l : list PriceLevel.t) : t :=
  mk b.(Locate) b.(TickSize) b.(Bids) l b.(orderMap).
Definition with_orderMap (b : t) (m : gmap Z ptr) : t :=
  mk b.(Locate) b.(TickSize) b.(Bids) b.(Asks) m.
End Book.

Record bstate := mkB {
  orders : heap;
  orderIDCounter : Z;   (* uint64 *)
  matchCounter : Z;     (* uint64 *)
  book : Book.t;
}.

Definition with_orders (s : bstate) (h : heap) : bstate :=
  mkB h s.(orderIDCounter) s.(matchCounter) s.(book).
Definition with_book (s : bstate) (b : Book.t) : bstate :=
  mkB s.(orders) s.(orderIDCounter) s.(matchCounter) b.

(** ** order.go *)

Definition NextOrderID : go bstate Z := λ s,
  let c := to_u64 (s.(orderIDCounter) + 1) in
  Some (c, mkB s.(orders) c s.(matchCounter) s.(book)).
Definition SetOrderIDCounter (val : Z) : go bstate unit := λ s,
  Some (tt, mkB s.(orders) val s.(matchCounter) s.(book)).
Definition GetOrderIDCounter : go bstate Z := gets orderIDCounter.

Definition NextMatchNumber : go bstate Z := λ s,
  let c := to_u64 (s.(matchCounter) + 1) in
  Some (c, mkB s.(orders) s.(orderIDCounter) c s.(book)).
Definition SetMatchCounter (val : Z) : go bstate unit := λ s,
  Some (tt, mkB s.(orders) s.(orderIDCounter) val s.(book)).
Definition GetMatchCounter : go bstate Z := gets matchCounter.

(** [&Order{...}] *)
Definition new_order (o : Order.t) : go bstate ptr := λ s,
  let p := fresh (dom s.(orders)) in
  Some (p, with_orders s (<[p := o]> s.(orders))).

(** ** book.go *)

Definition MaxLevels : nat := 10.
Definition OrdersPerLevel : nat := 3.

Definition NewBook (locate : Z) (tickSize : float64) : Book.t :=
  Book.mk locate tickSize [] [] ∅.

Definition BestBid : go bstate float64 := gets (λ s,
  match s.(book).(Book.Bids) with [] => fzero | l :: _ => l.(PriceLevel.Price) end).

Definition BestAsk : go bstate float64 := gets (λ s,
  match s.(book).(Book.Asks) with [] => fzero | l :: _ => l.(PriceLevel.Price) end).

Definition MidPrice : go bstate float64 := gets (λ s,
  match s.(book).(Book.Bids), s.(book).(Book.Asks) with
  | b :: _, a :: _ => ((b.(PriceLevel.Price) + a.(PriceLevel.Price)) / float_of_Z 2)%F
  | _, _ => fzero
  end).

(** The search for an existing level in [addToSide]. *)
Fixpoint append_to_level (levels : list PriceLevel.t) (price : float64) (p : ptr)
  : option (list PriceLevel.t) :=
  match levels with
  | [] => None
  | l :: rest =>
      if (l.(PriceLevel.Price) =? price)%F
      then Some (PriceLevel.with_Orders l (l.(PriceLevel.Orders) ++ [p]) :: rest)
      else cons l <$> append_to_level rest price p
  end.

Definition level_less (descending : bool) (a b : PriceLevel.t) : bool :=
  if descending then (a.(PriceLevel.Price) >? b.(PriceLevel.Price))%F
  else (a.(PriceLevel.Price) <? b.(PriceLevel.Price))%F.

Definition addToSide (levels : list PriceLevel.t) (p : ptr) (price : float64)
    (descending : bool) : list PriceLevel.t * list ptr :=
  match append_to_level levels price p with
  | Some levels => (levels, [])
  | None =>
      let levels := levels ++ [PriceLevel.mk price [p]] in
      let levels := sort_slice (level_less descending) levels in
      if (MaxLevels <? length levels)%nat then
        let evicted := drop MaxLevels levels ≫= PriceLevel.Orders in
        (take MaxLevels levels, evicted)
      else (levels, [])
  end.

(** [removeFromSide]: drop the first pointer to an order with that ID, and the
    level with it when it was the last one. *)
Fixpoint remove_id (h : heap) (ps : list ptr) (orderID : Z) : option (list ptr) :=
  match ps with
  | [] => None
  | p :: ps =>
      if (deref h p).(Order.ID) =? orderID then Some ps else cons p <$> remove_id h ps orderID
  end.

Fixpoint removeFromSide (h : heap) (levels : list PriceLevel.t) (orderID : Z)
  : list PriceLevel.t :=
  match levels with
  | [] => []
  | l :: rest =>
      match remove_id h l.(PriceLevel.Orders) orderID with
      | Some [] => rest
      | Some os => PriceLevel.with_Orders l os :: rest
      | None => l :: removeFromSide h rest orderID
      end
  end.

(** [for _, e := range evicted { delete(b.orderMap, e.ID) }] *)
Definition delete_ids (h : heap) (evicted : list ptr) (m : gmap Z ptr) : gmap Z ptr :=
  fold_left (λ m e, delete (deref h e).(Order.ID) m) evicted m.

(** The insertion shared by [AddOrder], [ReplaceOrder] and [RestoreOrder]: map
    entry, side, eviction of the trimmed orders from the map. *)
Definition insert_order (h : heap) (b : Book.t) (p : ptr) : Book.t * list ptr :=
  let o := deref h p in
  let b := Book.with_orderMap b (<[o.(Order.ID) := p]> b.(Book.orderMap)) in
  let '(b, evicted) :=
    if o.(Order.Side) =? SideBuy then
      let '(bids, ev) := addToSide b.(Book.Bids) p o.(Order.Price) true in
      (Book.with_Bids b bids, ev)
    else
      let '(asks, ev) := addToSide b.(Book.Asks) p o.(Order.Price) false in
      (Book.with_Asks b asks, ev) in
  (Book.with_orderMap b (delete_ids h evicted b.(Book.orderMap)), evicted).

(** The removal shared by [RemoveOrder], [ReduceOrder] and [ReplaceOrder]. *)
Definition unlink_order (h : heap) (b : Book.t) (orderID : Z) (o : Order.t) : Book.t :=
  let b := Book.with_orderMap b (delete orderID b.(Book.orderMap)) in
  if o.(Order.Side) =? SideBuy
  then Book.with_Bids b (removeFromSide h b.(Book.Bids) orderID)
  else Book.with_Asks b (removeFromSide h b.(Book.Asks) orderID).

Definition AddOrder (p : ptr) : go bstate (list ptr) := λ s,
  let '(b, evicted) := insert_order s.(orders) s.(book) p in
  Some (evicted, with_book s b).

Definition RestoreOrder (p : ptr) : go bstate unit := λ s,
  let '(b, _) := insert_order s.(orders) s.(book) p in
  Some (tt, with_book s b).

Definition RemoveOrder (orderID : Z) : go bstate (option ptr) := λ s,
  match s.(book).(Book.orderMap) !! orderID with
  | None => Some (None, s)
  | Some p =>
      Some (Some p, with_book s (unlink_order s.(orders) s.(book) orderID (deref s.(orders) p)))
  end.

Definition GetOrder (orderID : Z) : go bstate (option ptr) :=
  gets (λ s, s.(book).(Book.orderMap) !! orderID).

Definition ReduceOrder (orderID reduceBy : Z) : go bstate Z := λ s,
  match s.(book).(Book.orderMap) !! orderID with
  | None => Some (0, s)
  | Some p =>
      let o := deref s.(orders) p in
      let o := Order.with_Shares o (to_i32 (o.(Order.Shares) - reduceBy)) in
      let s := with_orders s (<[p := o]> s.(orders)) in
      if o.(Order.Shares) <=? 0 then
        let o := Order.with_Shares o 0 in
        let s := with_orders s (<[p := o]> s.(orders)) in
        Some (o.(Order.Shares), with_book s (unlink_order s.(orders) s.(book) orderID o))
      else Some (o.(Order.Shares), s)
  end.

(** The second half of [ReplaceOrder]: the replacement, under the next ID. *)
Definition replace_with (newOrder : Z → Order.t) : go bstate (option ptr) :=
  id ← NextOrderID;
  np ← new_order (newOrder id);
  _ ← AddOrder np;
  mret (Some np).

Definition ReplaceOrder (oldID : Z) (newPrice : float64) (newShares : Z)
  : go bstate (option ptr) := λ s,
  match s.(book).(Book.orderMap) !! oldID with
  | None => Some (None, s)
  | Some p =>
      let old := deref s.(orders) p in
      let s := with_book s (unlink_order s.(orders) s.(book) oldID old) in
      replace_with (λ id, Order.mk id old.(Order.Locate) old.(Order.Side) newPrice newShares 0
                            old.(Order.MPID)) s
  end.

(** The map iteration order is unspecified; this is one of them. *)
Definition AllOrders : go bstate (list ptr) :=
  gets (λ s, (map_to_list s.(book).(Book.orderMap)).*2).

Definition OrderCount : go bstate Z := gets (λ s, Z.of_nat (size s.(book).(Book.orderMap))).
Definition BidLevels : go bstate Z := gets (λ s, Z.of_nat (length s.(book).(Book.Bids))).
Definition AskLevels : go bstate Z := gets (λ s, Z.of_nat (length s.(book).(Book.Asks))).

(** The nested loops of [RandomBidOrder] and [RandomAskOrder]: a return, or the
    count reached. *)
Fixpoint nth_in_level (idx count : Z) (ps : list ptr) : ptr + Z :=
  match ps with
  | [] => inr count
  | p :: ps => if count =? idx then inl p else nth_in_level idx (count + 1) ps
  end.

Fixpoint nth_in_side (idx count : Z) (levels : list PriceLevel.t) : option ptr :=
  match levels with
  | [] => None
  | l :: rest =>
      match nth_in_level idx count l.(PriceLevel.Orders) with
      | inl p => Some p
      | inr count => nth_in_side idx count rest
      end
  end.

Definition RandomBidOrder (idx : Z) : go bstate (option ptr) :=
  gets (λ s, nth_in_side idx 0 s.(book).(Book.Bids)).
Definition RandomAskOrder (idx : Z) : go bstate (option ptr) :=
  gets (λ s, nth_in_side idx 0 s.(book).(Book.Asks)).

Definition count_orders (levels : list PriceLevel.t) : Z :=
  fold_left (λ n l, n + Z.of_nat (length l.(PriceLevel.Orders))) levels 0.

Definition TotalBidOrders : go bstate Z := gets (λ s, count_orders s.(book).(Book.Bids)).
Definition TotalAskOrders : go bstate Z := gets (λ s, count_orders s.(book).(Book.Asks)).

Module DepthLevel.
Record t := mk { Price : float64; Orders : Z; TotalShares : Z }.
End DepthLevel.

Module DepthSnapshot.
Record t := mk {
  Bids : list DepthLevel.t;
  Asks : list DepthLevel.t;
  BestBid : float64;
  BestAsk : float64;
  MidPrice : float64;
  Spread : float64;
}.
End DepthSnapshot.

Definition depth_level (h : heap) (l : PriceLevel.t) : DepthLevel.t :=
  let total := fold_left (λ t p, to_i32 (t + (deref h p).(Order.Shares)))
                         l.(PriceLevel.Orders) 0 in
  DepthLevel.mk l.(PriceLevel.Price) (Z.of_nat (length l.(PriceLevel.Orders))) total.

Definition best_price (levels : list PriceLevel.t) : float64 :=
  match levels with [] => fzero | l :: _ => l.(PriceLevel.Price) end.

Definition Depth : go bstate DepthSnapshot.t := gets (λ s,
  let bids := depth_level s.(orders) <$> s.(book).(Book.Bids) in
  let asks := depth_level s.(orders) <$> s.(book).(Book.Asks) in
  let bb := best_price s.(book).(Book.Bids) in
  let ba := best_price s.(book).(Book.Asks) in
  if ((bb >? fzero) && (ba >? fzero))%F then
    DepthSnapshot.mk bids asks bb ba ((bb + ba) / float_of_Z 2)%F (ba - bb)%F
  else DepthSnapshot.mk bids asks bb ba fzero fzero).
