(* ===== verification/BookSide.v ===== *)
(** * One side of a book against its price-time priority specification

    The abstract side is the flat list of resting orders, best price first and
    arrival order within a price.  [addToSide] and [removeFromSide] on price
    levels implement insertion and deletion on that list. *)
From S2P Require Import Prelude Word Float64 GoSort Book.

Local Open Scope Z_scope.

(** ** Specification *)

(** [better d p q]: price [p] is strictly better than [q] (for bids, higher). *)
Definition better (descending : bool) (p q : float64) : bool :=
  if descending then (q <? p)%F else (p <? q)%F.

(** Insert behind every order whose price is not worse. *)
Fixpoint pt_insert (d : bool) (o : Order.t) (q : list Order.t) : list Order.t :=
  match q with
  | [] => [o]
  | x :: r =>
      if better d o.(Order.Price) x.(Order.Price) then o :: x :: r else x :: pt_insert d o r
  end.

(** The orders at the best [n] prices, and the rest; [last] is the price of the
    order before. *)
Fixpoint split_levels (n : nat) (last : option float64) (q : list Order.t)
  : list Order.t * list Order.t :=
  match q with
  | [] => ([], [])
  | x :: r =>
      let same := match last with Some p => (x.(Order.Price) =? p)%F | None => false end in
      if same then let '(k, e) := split_levels n last r in (x :: k, e)
      else match n with
           | O => ([], x :: r)
           | S n' => let '(k, e) := split_levels n' (Some x.(Order.Price)) r in (x :: k, e)
           end
  end.

Definition spec_insert (d : bool) (o : Order.t) (q : list Order.t) : list Order.t * list Order.t :=
  split_levels MaxLevels None (pt_insert d o q).

(** ** Abstraction of the levels *)

Definition side_ptrs (ls : list PriceLevel.t) : list ptr := ls ≫= PriceLevel.Orders.
Definition side_orders (h : heap) (ls : list PriceLevel.t) : list Order.t := deref h <$> side_ptrs ls.

Definition level_ok (h : heap) (l : PriceLevel.t) : Prop :=
  l.(PriceLevel.Orders) ≠ [] ∧ is_num l.(PriceLevel.Price) ∧
  Forall (λ p, ((deref h p).(Order.Price) =? l.(PriceLevel.Price))%F = true) l.(PriceLevel.Orders).

Definition prices_sorted (d : bool) (ls : list PriceLevel.t) : Prop :=
  StronglySorted (λ p q, better d p q = true) (PriceLevel.Price <$> ls).

Record levels_ok (d : bool) (h : heap) (ls : list PriceLevel.t) : Prop := mk_levels_ok {
  lo_sorted : prices_sorted d ls;
  lo_levels : Forall (level_ok h) ls;
}.

Definition side_ok (d : bool) (h : heap) (ls : list PriceLevel.t) : Prop :=
  levels_ok d h ls ∧ (length ls ≤ MaxLevels)%nat.

(** ** The order on prices *)

Lemma better_trans d p q r : better d p q = true → better d q r = true → better d p r = true.
Proof. destruct d; cbn; eauto using fltb_trans. Qed.

Lemma better_asym d p q : better d p q = true → better d q p = false.
Proof. destruct d; cbn; eauto using fltb_asym. Qed.

Lemma better_num d p q : better d p q = true → is_num p ∧ is_num q.
Proof. destruct d; cbn; intros []%fltb_num; done. Qed.

Lemma better_eq_l d p q r : (p =? q)%F = true → better d p r = better d q r.
Proof. destruct d; cbn; eauto using fltb_eq_l, fltb_eq_r. Qed.

Lemma better_eq_r d p q r : (p =? q)%F = true → better d r p = better d r q.
Proof. destruct d; cbn; eauto using fltb_eq_l, fltb_eq_r. Qed.

Lemma better_irrefl d p : better d p p = false.
Proof. destruct d; apply fltb_irrefl. Qed.

Lemma better_eq_false d p q : (p =? q)%F = true → better d p q = false.
Proof. intros H. rewrite (better_eq_l _ _ _ _ H). apply better_irrefl. Qed.

Lemma better_neq d p q : better d p q = true → (p =? q)%F = false.
Proof. intros H. destruct (p =? q)%F eqn:E; [|done]. rewrite (better_eq_false d) in H; done. Qed.

Lemma better_total d p q :
  is_num p → is_num q → (p =? q)%F = false → better d p q = true ∨ better d q p = true.
Proof.
  intros Hp Hq Hne. destruct (f_trichotomy p q Hp Hq) as [?|[?|?]], d; cbn; auto; congruence.
Qed.

Lemma level_less_better d a b :
  level_less d a b = better d a.(PriceLevel.Price) b.(PriceLevel.Price).
Proof. by destruct d. Qed.

(** ** Flat-list lemmas *)

Lemma side_ptrs_cons l ls : side_ptrs (l :: ls) = l.(PriceLevel.Orders) ++ side_ptrs ls.
Proof. done. Qed.

Lemma side_ptrs_app ls1 ls2 : side_ptrs (ls1 ++ ls2) = side_ptrs ls1 ++ side_ptrs ls2.
Proof. unfold side_ptrs. apply bind_app. Qed.

Lemma side_orders_cons h l ls :
  side_orders h (l :: ls) = (deref h <$> l.(PriceLevel.Orders)) ++ side_orders h ls.
Proof. unfold side_orders. by rewrite side_ptrs_cons, fmap_app. Qed.

Lemma elem_of_side_ptrs p ls : p ∈ side_ptrs ls ↔ ∃ l, l ∈ ls ∧ p ∈ l.(PriceLevel.Orders).
Proof. unfold side_ptrs. rewrite list_elem_of_bind. split; intros (l & ? & ?); eauto. Qed.

Lemma pt_insert_skip d o q1 q2 :
  Forall (λ x, better d o.(Order.Price) x.(Order.Price) = false) q1 →
  pt_insert d o (q1 ++ q2) = q1 ++ pt_insert d o q2.
Proof. induction 1 as [|x q Hx _ IH]; [done|]. cbn. by rewrite Hx, IH. Qed.

Lemma pt_insert_front d o q :
  Forall (λ x, better d o.(Order.Price) x.(Order.Price) = true) q → pt_insert d o q = o :: q.
Proof. destruct 1 as [|x q Hx _]; [done|]. cbn. by rewrite Hx. Qed.

Lemma pt_insert_perm d o q : pt_insert d o q ≡ₚ o :: q.
Proof.
  induction q as [|x q IH]; [done|]. cbn. destruct (better _ _ _); [done|].
  rewrite IH. constructor.
Qed.

(** All orders of a well-formed level compare as its price does. *)
Lemma level_better_l d h l r b :
  level_ok h l → better d l.(PriceLevel.Price) r = b →
  Forall (λ x, better d x.(Order.Price) r = b) (deref h <$> l.(PriceLevel.Orders)).
Proof.
  intros (_ & _ & Hl) <-. apply Forall_fmap. eapply Forall_impl; [exact Hl|].
  intros p Hp. cbn. by apply better_eq_l.
Qed.

Lemma level_better_r d h l r b :
  level_ok h l → better d r l.(PriceLevel.Price) = b →
  Forall (λ x, better d r x.(Order.Price) = b) (deref h <$> l.(PriceLevel.Orders)).
Proof.
  intros (_ & _ & Hl) <-. apply Forall_fmap. eapply Forall_impl; [exact Hl|].
  intros p Hp. cbn. by apply better_eq_r.
Qed.

Lemma levels_ok_cons_inv d h l ls :
  levels_ok d h (l :: ls) →
  level_ok h l ∧ levels_ok d h ls ∧
  Forall (λ l', better d l.(PriceLevel.Price) l'.(PriceLevel.Price) = true) ls.
Proof.
  intros [Hs Hl]. inversion Hs as [|?? Hs' Hf]; subst. apply Forall_cons in Hl as [? ?].
  rewrite Forall_fmap in Hf. done.
Qed.

Lemma levels_ok_cons d h l ls :
  level_ok h l → levels_ok d h ls →
  Forall (λ l', better d l.(PriceLevel.Price) l'.(PriceLevel.Price) = true) ls →
  levels_ok d h (l :: ls).
Proof.
  intros Hl [Hs Hls] Hf. split; [|by constructor].
  unfold prices_sorted. cbn. constructor; [done|]. by rewrite Forall_fmap.
Qed.

Lemma side_better_r d h ls r :
  Forall (level_ok h) ls →
  Forall (λ l', better d r l'.(PriceLevel.Price) = true) ls →
  Forall (λ x, better d r x.(Order.Price) = true) (side_orders h ls).
Proof.
  intros Hls. induction Hls as [|l ls Hl Hls IH]; intros Hf; [constructor|].
  apply Forall_cons in Hf as [? ?]. rewrite side_orders_cons. apply Forall_app.
  split; [by eapply level_better_r|by apply IH].
Qed.

(** ** addToSide: an existing level *)

Lemma append_to_level_spec d h ls p ls' :
  levels_ok d h ls →
  append_to_level ls (deref h p).(Order.Price) p = Some ls' →
  levels_ok d h ls' ∧ length ls' = length ls ∧
  PriceLevel.Price <$> ls' = PriceLevel.Price <$> ls ∧
  side_orders h ls' = pt_insert d (deref h p) (side_orders h ls) ∧
  side_ptrs ls' ≡ₚ p :: side_ptrs ls.
Proof.
  revert ls'. induction ls as [|l ls IH]; intros ls' Hok; [done|].
  apply levels_ok_cons_inv in Hok as (Hl & Hls & Hbt). cbn [append_to_level].
  destruct (_ =? _)%F eqn:E.
  - intros [= <-]. rewrite !side_orders_cons, !side_ptrs_cons. cbn.
    split_and!; [|done|done| |].
    + apply levels_ok_cons; [|done|done]. destruct Hl as (? & ? & ?).
      split_and!; cbn; [by intros []%app_nil|done|].
      apply Forall_app. split; [done|]. constructor; [|done]. by rewrite feqb_sym.
    + rewrite fmap_app, <- app_assoc, pt_insert_skip; cbn.
      * f_equal. rewrite pt_insert_front; [done|].
        apply side_better_r; [apply Hls|]. eapply Forall_impl; [exact Hbt|].
        intros l' Hl'. by rewrite <- (better_eq_l _ _ _ _ E).
      * eapply level_better_r; [done|]. rewrite feqb_sym in E. by apply better_eq_false.
    + rewrite <- app_assoc. symmetry. apply Permutation_middle.
  - destruct (append_to_level ls _ p) as [ls0|] eqn:E0; [|done].
    intros [= <-]. destruct (IH ls0 Hls eq_refl) as (Hok & Hlen & Hpr & Hord & Hp).
    rewrite !side_orders_cons, !side_ptrs_cons. cbn. rewrite Hpr, Hlen, Hord.
    assert (better d l.(PriceLevel.Price) (deref h p).(Order.Price) = true) as Hb.
    { clear -E0 Hbt. revert ls0 E0. induction Hbt as [|l' ls Hl' _ IH]; [done|]. intros ls0.
      cbn. destruct (_ =? _)%F eqn:E; [intros _; by rewrite <- (better_eq_r _ _ _ _ E)|].
      destruct (append_to_level ls _ p); [|done]. eauto. }
    split_and!; [|done|done| |].
    + apply levels_ok_cons; [done|done|].
      assert (Forall (λ q, better d l.(PriceLevel.Price) q = true) (PriceLevel.Price <$> ls0)) as Hf
        by by rewrite Hpr, Forall_fmap.
      by rewrite Forall_fmap in Hf.
    + rewrite pt_insert_skip; [done|]. eapply level_better_r; [done|]. by apply better_asym.
    + rewrite Hp. symmetry. apply Permutation_middle.
Qed.

(** ** addToSide: a new level *)

Fixpoint level_insert (d : bool) (n : PriceLevel.t) (ls : list PriceLevel.t) : list PriceLevel.t :=
  match ls with
  | [] => [n]
  | l :: ls =>
      if better d n.(PriceLevel.Price) l.(PriceLevel.Price) then n :: l :: ls
      else l :: level_insert d n ls
  end.

Lemma level_insert_perm d n ls : level_insert d n ls ≡ₚ n :: ls.
Proof.
  induction ls as [|l ls IH]; [done|]. cbn. destruct (better _ _ _); [done|].
  rewrite IH. constructor.
Qed.

Lemma append_to_level_None ls price p :
  append_to_level ls price p = None →
  Forall (λ l, (l.(PriceLevel.Price) =? price)%F = false) ls.
Proof.
  induction ls as [|l ls IH]; [constructor|]. cbn. destruct (_ =? _)%F eqn:E; [done|].
  destruct (append_to_level ls price p); [done|]. constructor; auto.
Qed.

Lemma level_insert_ok d h n ls :
  level_ok h n → levels_ok d h ls →
  Forall (λ l, (l.(PriceLevel.Price) =? n.(PriceLevel.Price))%F = false) ls →
  levels_ok d h (level_insert d n ls).
Proof.
  intros Hn. induction ls as [|l ls IH]; intros Hok Hne; cbn.
  { apply levels_ok_cons; done. }
  pose proof Hok as Hok'. apply levels_ok_cons_inv in Hok' as (Hl & Hls & Hb).
  apply Forall_cons in Hne as [Hne1 Hne]. destruct (better d _ _) eqn:E.
  - apply levels_ok_cons; [done|done|]. constructor; [done|].
    eapply Forall_impl; [exact Hb|]. intros l' Hl'. by eapply better_trans.
  - apply levels_ok_cons; [done|by apply IH|]. rewrite level_insert_perm.
    constructor; [|done]. destruct Hl as (_ & Hl & _), Hn as (_ & Hn & _).
    destruct (better_total d _ _ Hl Hn Hne1); congruence.
Qed.

Lemma level_insert_orders d h p ls :
  levels_ok d h ls →
  side_orders h (level_insert d (PriceLevel.mk (deref h p).(Order.Price) [p]) ls) =
  pt_insert d (deref h p) (side_orders h ls).
Proof.
  induction ls as [|l ls IH]; intros Hok; [done|].
  pose proof Hok as Hok'. apply levels_ok_cons_inv in Hok' as (Hl & Hls & Hb).
  cbn [level_insert PriceLevel.Price]. destruct (better d _ _) eqn:E.
  - rewrite side_orders_cons, pt_insert_front; [done|].
    apply side_better_r; [apply Hok|]. constructor; [done|].
    eapply Forall_impl; [exact Hb|]. intros l' Hl'. by eapply better_trans.
  - rewrite !side_orders_cons, IH, pt_insert_skip by done || by eapply level_better_r. done.
Qed.

(** Levels that are strictly ordered need no ties broken: the sort places the
    new level where [level_insert] does. *)
Lemma prices_sorted_lt_of d ls : prices_sorted d ls ↔ StronglySorted (lt_of (level_less d)) ls.
Proof.
  unfold prices_sorted, lt_of. split.
  - induction ls as [|l ls IH]; intros Hs; [constructor|]. inversion Hs as [|?? ? Hf]; subst.
    constructor; [by apply IH|]. rewrite Forall_fmap in Hf.
    eapply Forall_impl; [exact Hf|]. intros l' Hl'. by rewrite level_less_better.
  - induction 1 as [|l ls _ IH Hf]; cbn; constructor; [done|]. rewrite Forall_fmap.
    eapply Forall_impl; [exact Hf|]. intros l' Hl'. cbn. by rewrite <- level_less_better.
Qed.

Lemma sort_new_level d h n ls :
  level_ok h n → levels_ok d h ls →
  Forall (λ l, (l.(PriceLevel.Price) =? n.(PriceLevel.Price))%F = false) ls →
  sort_slice (level_less d) (ls ++ [n]) = level_insert d n ls.
Proof.
  intros Hn Hok Hne. symmetry. apply sort_slice_unique.
  - intros x y z. rewrite !level_less_better. apply better_trans.
  - intros x y. rewrite !level_less_better. apply better_asym.
  - revert Hok Hne. induction ls as [|l ls IH]; intros Hok Hne; [repeat constructor|].
    apply levels_ok_cons_inv in Hok as (Hl & Hls & Hb). apply Forall_cons in Hne as [Hne1 Hne].
    cbn. constructor; [|by apply IH]. apply Forall_app. split; [|constructor; [|constructor]].
    + eapply Forall_impl; [exact Hb|]. intros l' Hl'. left. by rewrite level_less_better.
    + unfold comparable. rewrite !level_less_better.
      destruct Hl as (_ & Hl & _), Hn as (_ & Hn & _). by apply better_total.
  - by apply prices_sorted_lt_of, (level_insert_ok d h n ls).
  - rewrite level_insert_perm. apply Permutation_cons_append.
Qed.

(** ** The trim *)

Lemma split_levels_same n q os rest :
  Forall (λ x, (x.(Order.Price) =? q)%F = true) os →
  split_levels n (Some q) (os ++ rest) =
  let '(k, e) := split_levels n (Some q) rest in (os ++ k, e).
Proof.
  induction 1 as [|x os Hx Hos IH]; cbn; [by destruct (split_levels _ _ rest)|].
  rewrite Hx, IH. by destruct (split_levels _ _ rest).
Qed.

Lemma split_levels_spec d h ls n last :
  levels_ok d h ls →
  (∀ q, last = Some q → Forall (λ l, (l.(PriceLevel.Price) =? q)%F = false) ls) →
  split_levels n last (side_orders h ls) = (side_orders h (take n ls), side_orders h (drop n ls)).
Proof.
  revert n last. induction ls as [|l ls IH]; intros n last Hok Hlast.
  { cbn. by rewrite take_nil, drop_nil. }
  apply levels_ok_cons_inv in Hok as (Hl & Hls & Hb). destruct Hl as (Hne & Hnum & Hl).
  rewrite side_orders_cons. destruct l as [price [|p0 os]]; [done|]. cbn in *.
  apply Forall_cons in Hl as [Hp0 Hos].
  assert (match last with Some p => (Order.Price (deref h p0) =? p)%F | None => false end = false)
    as ->.
  { destruct last as [q|]; [|done]. specialize (Hlast q eq_refl).
    apply Forall_cons in Hlast as [Hq _]. by rewrite (feqb_eq_l _ _ _ Hp0). }
  destruct n as [|n]; cbn [take drop]; [by rewrite side_orders_cons|].
  rewrite split_levels_same; [rewrite IH; [by rewrite side_orders_cons|done|]|].
  - intros q [= <-]. eapply Forall_impl; [exact Hb|]. intros l' Hl'. cbn in Hl'.
    rewrite feqb_sym, (feqb_eq_l _ _ _ Hp0). by eapply better_neq.
  - apply Forall_fmap. eapply Forall_impl; [exact Hos|]. intros p Hp. cbn.
    eapply feqb_trans; [exact Hp|]. by rewrite feqb_sym.
Qed.

Lemma levels_ok_take d h ls n : levels_ok d h ls → levels_ok d h (take n ls).
Proof.
  intros [Hs Hl]. split; [|by apply Forall_take].
  unfold prices_sorted in *. rewrite <- (take_drop n ls), fmap_app in Hs.
  by apply StronglySorted_app in Hs as (_ & ? & _).
Qed.

(** [addToSide] is the specified insertion, whatever the levels are. *)
Theorem addToSide_refines (d : bool) (h : heap) (ls : list PriceLevel.t) (p : ptr) :
  side_ok d h ls → is_num (deref h p).(Order.Price) →
  let '(ls', ev) := addToSide ls p (deref h p).(Order.Price) d in
  side_ok d h ls' ∧
  spec_insert d (deref h p) (side_orders h ls) = (side_orders h ls', deref h <$> ev) ∧
  side_ptrs ls' ++ ev ≡ₚ p :: side_ptrs ls.
Proof.
  intros [Hok Hlen] Hnum. unfold addToSide, spec_insert.
  destruct (append_to_level _ _ _) as [ls1|] eqn:E.
  - destruct (append_to_level_spec _ _ _ _ _ Hok E) as (Hok1 & Hlen1 & _ & Hord & Hp).
    rewrite <- Hord. rewrite (split_levels_spec d) by done.
    unfold side_ok. rewrite take_ge, drop_ge, app_nil_r, Hlen1 by lia. done.
  - apply append_to_level_None in E. set (n := PriceLevel.mk _ _).
    assert (level_ok h n) as Hn by (split_and!; [done|done|repeat constructor; by apply feqb_refl]).
    rewrite (sort_new_level d h n ls) by done.
    pose proof (level_insert_ok d h n ls Hn Hok E) as Hok1.
    pose proof (level_insert_perm d n ls) as Hp.
    rewrite <- (level_insert_orders d h p ls), (split_levels_spec d) by done. fold n.
    assert (side_ptrs (level_insert d n ls) ≡ₚ p :: side_ptrs ls) as Hpp
      by (unfold side_ptrs; by rewrite Hp).
    destruct (Nat.ltb_spec MaxLevels (length (level_insert d n ls))) as [Hgt|Hle].
    + split; [split; [by apply levels_ok_take|rewrite length_take; lia]|split; [done|]].
      change (drop MaxLevels _ ≫= _) with (side_ptrs (drop MaxLevels (level_insert d n ls))).
      by rewrite <- side_ptrs_app, take_drop.
    + unfold side_ok. by rewrite take_ge, drop_ge, app_nil_r by lia.
Qed.

(** ** removeFromSide *)

Definition id_ne (h : heap) (id : Z) (p : ptr) : bool := negb ((deref h p).(Order.ID) =? id).

Lemma id_ne_filter_id h id (ps : list ptr) :
  id ∉ (Order.ID ∘ deref h <$> ps) → List.filter (id_ne h id) ps = ps.
Proof.
  induction ps as [|p ps IH]; [done|]. cbn. rewrite not_elem_of_cons. intros [Hne Hn].
  unfold id_ne at 1. destruct (Z.eqb_spec (Order.ID (deref h p)) id); [congruence|].
  cbn. by rewrite IH.
Qed.

Lemma remove_id_None h ps id :
  remove_id h ps id = None → id ∉ (Order.ID ∘ deref h <$> ps).
Proof.
  induction ps as [|p ps IH]; cbn; [intros _; apply not_elem_of_nil|].
  destruct (Z.eqb_spec (Order.ID (deref h p)) id); [done|].
  destruct (remove_id h ps id); [done|]. intros _. apply not_elem_of_cons. auto.
Qed.

Lemma remove_id_Some h ps id os :
  NoDup (Order.ID ∘ deref h <$> ps) → remove_id h ps id = Some os →
  os = List.filter (id_ne h id) ps ∧ id ∈ (Order.ID ∘ deref h <$> ps).
Proof.
  revert os. induction ps as [|p ps IH]; intros os; cbn; [done|].
  intros [Hn Hnd]%NoDup_cons. unfold id_ne at 1.
  destruct (Z.eqb_spec (Order.ID (deref h p)) id) as [E|E]; cbn.
  - intros [= <-]. rewrite <- E in *. rewrite id_ne_filter_id by done. split; [done|constructor].
  - destruct (remove_id h ps id) as [os'|]; [|done]. intros [= <-].
    destruct (IH os' Hnd eq_refl) as [-> ?]. split; [done|by constructor].
Qed.

Lemma level_ok_subset h l os :
  level_ok h l → os ≠ [] → os ⊆ l.(PriceLevel.Orders) → level_ok h (PriceLevel.with_Orders l os).
Proof.
  intros (_ & ? & Hl) Hne Hs. split_and!; [done..|]. cbn.
  rewrite Forall_forall in Hl |- *. auto.
Qed.

Lemma filter_app_ptrs (f : ptr → bool) l1 l2 :
  List.filter f (l1 ++ l2) = List.filter f l1 ++ List.filter f l2.
Proof. apply List.filter_app. Qed.

Lemma removeFromSide_ptrs d h ls id :
  NoDup (Order.ID ∘ deref h <$> side_ptrs ls) → levels_ok d h ls →
  side_ptrs (removeFromSide h ls id) = List.filter (id_ne h id) (side_ptrs ls) ∧
  levels_ok d h (removeFromSide h ls id) ∧
  (length (removeFromSide h ls id) ≤ length ls)%nat ∧
  PriceLevel.Price <$> removeFromSide h ls id ⊆ PriceLevel.Price <$> ls.
Proof.
  induction ls as [|l ls IH]; intros Hnd Hok; [done|].
  apply levels_ok_cons_inv in Hok as (Hl & Hls & Hb).
  rewrite side_ptrs_cons, fmap_app in Hnd. apply NoDup_app in Hnd as (Hnd1 & Hdis & Hnd2).
  cbn [removeFromSide]. rewrite side_ptrs_cons, filter_app_ptrs.
  destruct (remove_id h _ id) as [os|] eqn:E.
  - apply remove_id_Some in E as [Hos Hin]; [|done].
    rewrite (id_ne_filter_id h id (side_ptrs ls)) by by apply Hdis.
    destruct os as [|p os]; cbn.
    + rewrite <- Hos. split_and!; [done|done|lia|set_solver].
    + rewrite <- Hos. split_and!; [done| |lia|set_solver].
      apply levels_ok_cons; [|done|done]. apply level_ok_subset; [done|done|].
      rewrite Hos. intros q. rewrite !list_elem_of_In, List.filter_In. tauto.
  - apply remove_id_None in E. destruct (IH Hnd2 Hls) as (Hp & Hok & Hlen & Hsub).
    rewrite (id_ne_filter_id h id (PriceLevel.Orders l)) by done. cbn. rewrite <- Hp.
    split_and!; [done| |lia|set_solver].
    apply levels_ok_cons; [done|done|].
    assert (Forall (λ q, better d l.(PriceLevel.Price) q = true)
              (PriceLevel.Price <$> removeFromSide h ls id)) as Hf.
    { rewrite Forall_forall. intros q Hq%Hsub.
      apply list_elem_of_fmap in Hq as (l' & -> & Hl'). rewrite Forall_forall in Hb. by apply Hb. }
    by rewrite Forall_fmap in Hf.
Qed.

Theorem removeFromSide_refines (d : bool) (h : heap) (ls : list PriceLevel.t) (id : Z) :
  NoDup (Order.ID ∘ deref h <$> side_ptrs ls) → side_ok d h ls →
  side_ok d h (removeFromSide h ls id) ∧
  side_ptrs (removeFromSide h ls id) = List.filter (id_ne h id) (side_ptrs ls).
Proof.
  intros Hnd [Hok Hlen]. destruct (removeFromSide_ptrs d h ls id Hnd Hok) as (? & ? & ? & _).
  split; [split; [done|lia]|done].
Qed.
