(* ===== verification/BookSpec.v ===== *)
(** * The order book against its abstract specification

    The abstract book is two lists of orders in price-time priority.
    [book_rep] is the representation invariant of the pointer structure, [abs]
    the abstraction function, and each method of [Book] commutes with its
    specification and preserves the invariant. *)
From S2P Require Import Prelude Word Float64 GoSort Book BookSide.

Local Open Scope Z_scope.

(** ** Abstract books *)

Record abook := mkA { a_bids : list Order.t; a_asks : list Order.t }.

Definition a_orders (A : abook) : list Order.t := a_bids A ++ a_asks A.

Definition has_id (id : Z) (o : Order.t) : bool := o.(Order.ID) =? id.
Definition find_order (id : Z) (A : abook) : option Order.t := List.find (has_id id) (a_orders A).

Definition spec_AddOrder (o : Order.t) (A : abook) : abook * list Order.t :=
  if o.(Order.Side) =? SideBuy then
    let '(k, e) := spec_insert true o (a_bids A) in (mkA k (a_asks A), e)
  else
    let '(k, e) := spec_insert false o (a_asks A) in (mkA (a_bids A) k, e).

Definition spec_RemoveOrder (id : Z) (A : abook) : abook :=
  mkA (List.filter (negb ∘ has_id id) (a_bids A)) (List.filter (negb ∘ has_id id) (a_asks A)).

Definition spec_update (id : Z) (f : Order.t → Order.t) (A : abook) : abook :=
  let g o := if has_id id o then f o else o in mkA (g <$> a_bids A) (g <$> a_asks A).

Definition spec_ReduceOrder (id n : Z) (A : abook) : Z * abook :=
  match find_order id A with
  | None => (0, A)
  | Some o =>
      let left := to_i32 (o.(Order.Shares) - n) in
      if left <=? 0 then (0, spec_RemoveOrder id A)
      else (left, spec_update id (λ o, Order.with_Shares o left) A)
  end.

(** ** Representation invariant and abstraction *)

Definition book_ptrs (b : Book.t) : list ptr := side_ptrs b.(Book.Bids) ++ side_ptrs b.(Book.Asks).

Record rep (h : heap) (b : Book.t) : Prop := mk_rep {
  rep_bids : side_ok true h b.(Book.Bids);
  rep_asks : side_ok false h b.(Book.Asks);
  rep_nodup : NoDup (book_ptrs b);
  rep_alloc : Forall (λ p, is_Some (h !! p)) (book_ptrs b);
  rep_map : ∀ id p, b.(Book.orderMap) !! id = Some p ↔ p ∈ book_ptrs b ∧ (deref h p).(Order.ID) = id;
  rep_buy : Forall (λ p, (deref h p).(Order.Side) = SideBuy) (side_ptrs b.(Book.Bids));
  rep_sell : Forall (λ p, (deref h p).(Order.Side) ≠ SideBuy) (side_ptrs b.(Book.Asks));
}.

Definition book_rep (s : bstate) : Prop := rep s.(orders) s.(book).

Definition abs_book (h : heap) (b : Book.t) : abook :=
  mkA (side_orders h b.(Book.Bids)) (side_orders h b.(Book.Asks)).
Definition abs (s : bstate) : abook := abs_book s.(orders) s.(book).

Lemma a_orders_abs h b : a_orders (abs_book h b) = deref h <$> book_ptrs b.
Proof. unfold a_orders, book_ptrs. by rewrite fmap_app. Qed.

Lemma rep_id_inj h b p q :
  rep h b → p ∈ book_ptrs b → q ∈ book_ptrs b →
  (deref h p).(Order.ID) = (deref h q).(Order.ID) → p = q.
Proof.
  intros Hr Hp Hq E. pose proof (rep_map _ _ Hr) as Hm.
  pose proof (proj2 (Hm _ p) (conj Hp eq_refl)) as H1.
  pose proof (proj2 (Hm _ q) (conj Hq eq_refl)) as H2. congruence.
Qed.

Lemma rep_ids_nodup h b : rep h b → NoDup (Order.ID ∘ deref h <$> book_ptrs b).
Proof.
  intros Hr. apply NoDup_fmap_2_strong; [|by apply Hr].
  intros p q Hp Hq. by apply (rep_id_inj h b).
Qed.

Lemma rep_find h b id :
  rep h b → find_order id (abs_book h b) = deref h <$> b.(Book.orderMap) !! id.
Proof.
  intros Hr. unfold find_order. rewrite a_orders_abs.
  destruct (b.(Book.orderMap) !! id) as [p|] eqn:E; cbn.
  - apply (rep_map _ _ Hr) in E as [Hp <-].
    pose proof (rep_ids_nodup _ _ Hr) as Hnd.
    induction (book_ptrs b) as [|q ps IH]; [by apply elem_of_nil in Hp|].
    cbn in *. apply NoDup_cons in Hnd as [Hq Hnd]. unfold has_id at 1.
    destruct (Z.eqb_spec (Order.ID (deref h q)) (Order.ID (deref h p))) as [E|E].
    + apply elem_of_cons in Hp as [->|Hp]; [done|]. exfalso. apply Hq. rewrite E.
      apply list_elem_of_fmap. eauto.
    + apply elem_of_cons in Hp as [->|Hp]; [done|]. by apply IH.
  - destruct (List.find _ _) as [o|] eqn:F; [|done].
    apply List.find_some in F as [Hin Hid]. apply list_elem_of_In, list_elem_of_fmap in Hin as (p & -> & Hp).
    apply Z.eqb_eq in Hid. pose proof (proj2 (rep_map _ _ Hr id p) (conj Hp Hid)). congruence.
Qed.

(** ** Insertion *)

Lemma delete_ids_lookup h ev m id :
  delete_ids h ev m !! id = if decide (id ∈ (Order.ID ∘ deref h <$> ev)) then None else m !! id.
Proof.
  unfold delete_ids. revert m. induction ev as [|e ev IH]; intros m; cbn.
  { rewrite decide_False; [done|apply not_elem_of_nil]. }
  rewrite IH. destruct (decide (id = Order.ID (deref h e))) as [->|Hne].
  - rewrite lookup_delete_eq, (decide_True (P := _ ∈ _ :: _)) by constructor.
    by case_decide.
  - rewrite lookup_delete_ne by done. apply decide_ext. rewrite elem_of_cons. tauto.
Qed.

(** What both branches of [insert_order] establish about the map. *)
Lemma insert_map h b p ps' ev :
  rep h b → p ∉ book_ptrs b → b.(Book.orderMap) !! (deref h p).(Order.ID) = None →
  ps' ++ ev ≡ₚ p :: book_ptrs b →
  NoDup ps' ∧
  ∀ id q, delete_ids h ev (<[(deref h p).(Order.ID) := p]> b.(Book.orderMap)) !! id = Some q ↔
    q ∈ ps' ∧ (deref h q).(Order.ID) = id.
Proof.
  intros Hr Hp Hid Hperm.
  assert (NoDup (Order.ID ∘ deref h <$> ps' ++ ev)) as Hnd.
  { rewrite Hperm. cbn. apply NoDup_cons. split; [|by apply rep_ids_nodup].
    intros (q & E & Hq)%list_elem_of_fmap.
    pose proof (proj2 (rep_map _ _ Hr _ q) (conj Hq eq_refl)) as C. cbn in E. congruence. }
  assert (NoDup (ps' ++ ev)) as Hnd2.
  { rewrite Hperm. apply NoDup_cons. split; [done|apply Hr]. }
  rewrite fmap_app in Hnd. apply NoDup_app in Hnd as (_ & Hdis & _).
  split; [by apply NoDup_app in Hnd2 as (? & _)|]. intros id q. rewrite delete_ids_lookup.
  assert (∀ q, q ∈ ps' ∨ q ∈ ev ↔ q = p ∨ q ∈ book_ptrs b) as Hin.
  { intros q'. rewrite <- elem_of_app, Hperm. by rewrite elem_of_cons. }
  split.
  - case_decide as Hev; [done|]. intros Hq.
    assert ((q = p ∨ q ∈ book_ptrs b) ∧ Order.ID (deref h q) = id) as [[Hq'|Hq']%Hin Hqid].
    { destruct (decide (id = Order.ID (deref h p))) as [->|Hne].
      - rewrite lookup_insert_eq in Hq. injection Hq as <-. auto.
      - rewrite lookup_insert_ne in Hq by done. apply (rep_map _ _ Hr) in Hq as [? ?]. auto. }
    + done.
    + exfalso. apply Hev. apply list_elem_of_fmap. exists q. split; [by symmetry|done].
  - intros [Hq <-]. case_decide as Hev.
    { exfalso. apply (Hdis (Order.ID (deref h q))); [|done]. apply list_elem_of_fmap. eauto. }
    destruct (proj1 (Hin q) (or_introl Hq)) as [->|Hq']; [apply lookup_insert_eq|].
    rewrite lookup_insert_ne; [by apply (rep_map _ _ Hr)|].
    intros E. pose proof (proj2 (rep_map _ _ Hr _ q) (conj Hq' eq_refl)). congruence.
Qed.

Lemma insert_order_refines h b p o :
  rep h b → h !! p = Some o → p ∉ book_ptrs b → b.(Book.orderMap) !! o.(Order.ID) = None →
  is_num o.(Order.Price) →
  let '(b', ev) := insert_order h b p in
  rep h b' ∧ spec_AddOrder o (abs_book h b) = (abs_book h b', deref h <$> ev) ∧
  book_ptrs b' ++ ev ≡ₚ p :: book_ptrs b ∧
  b'.(Book.Locate) = b.(Book.Locate) ∧ b'.(Book.TickSize) = b.(Book.TickSize).
Proof.
  intros Hr Ho Hp Hid Hnum.
  assert (deref h p = o) as Hd by (unfold deref; by rewrite Ho). rewrite <- Hd in *.
  assert (Forall (λ q, is_Some (h !! q)) (p :: book_ptrs b)) as Hall.
  { constructor; [by rewrite Ho|apply Hr]. }
  unfold insert_order, spec_AddOrder. cbn zeta. destruct (Z.eqb_spec (Order.Side (deref h p)) SideBuy) as [Hs|Hs].
  - pose proof (addToSide_refines true h b.(Book.Bids) p (rep_bids _ _ Hr) Hnum) as Hadd.
    unfold abs_book. cbn [a_bids a_asks Book.with_orderMap Book.Bids Book.Asks].
    destruct (addToSide _ _ _ _) as [bids ev]. destruct Hadd as (Hok & Hspec & Hperm).
    rewrite Hspec.
    assert ((side_ptrs bids ++ side_ptrs b.(Book.Asks)) ++ ev ≡ₚ p :: book_ptrs b) as Hpp.
    { unfold book_ptrs. rewrite <- (app_assoc (side_ptrs bids)), (Permutation_app_comm _ ev), app_assoc.
      by rewrite Hperm. }
    destruct (insert_map h b p _ ev Hr Hp Hid Hpp) as [Hnd Hmap].
    split_and!; [|done|done|done|done]. destruct Hr. split; cbn; try done.
    + rewrite <- Hpp in Hall. by apply Forall_app in Hall as [? _].
    + assert (Forall (λ q, Order.Side (deref h q) = SideBuy) (side_ptrs bids ++ ev)) as Hf
        by (rewrite Hperm; by constructor). by apply Forall_app in Hf as [? _].
  - pose proof (addToSide_refines false h b.(Book.Asks) p (rep_asks _ _ Hr) Hnum) as Hadd.
    unfold abs_book. cbn [a_bids a_asks Book.with_orderMap Book.Bids Book.Asks].
    destruct (addToSide _ _ _ _) as [asks ev]. destruct Hadd as (Hok & Hspec & Hperm).
    rewrite Hspec.
    assert ((side_ptrs b.(Book.Bids) ++ side_ptrs asks) ++ ev ≡ₚ p :: book_ptrs b) as Hpp.
    { unfold book_ptrs. rewrite <- (app_assoc (side_ptrs b.(Book.Bids))), Hperm.
      symmetry. apply Permutation_middle. }
    destruct (insert_map h b p _ ev Hr Hp Hid Hpp) as [Hnd Hmap].
    split_and!; [|done|done|done|done]. destruct Hr. split; cbn; try done.
    + rewrite <- Hpp in Hall. by apply Forall_app in Hall as [? _].
    + assert (Forall (λ q, Order.Side (deref h q) ≠ SideBuy) (side_ptrs asks ++ ev)) as Hf
        by (rewrite Hperm; by constructor). by apply Forall_app in Hf as [? _].
Qed.

(** ** Removal *)

Lemma filter_orders h id ps :
  List.filter (negb ∘ has_id id) (deref h <$> ps) = deref h <$> List.filter (id_ne h id) ps.
Proof.
  induction ps as [|p ps IH]; [done|]. cbn. unfold has_id, id_ne at 1.
  destruct (Order.ID (deref h p) =? id); cbn; by rewrite <- IH.
Qed.

Lemma elem_of_filter_id h id q (ps : list ptr) :
  q ∈ List.filter (id_ne h id) ps ↔ q ∈ ps ∧ (deref h q).(Order.ID) ≠ id.
Proof.
  rewrite !list_elem_of_In, List.filter_In. unfold id_ne.
  destruct (Z.eqb_spec (Order.ID (deref h q)) id); cbn; intuition done.
Qed.

Lemma filter_NoDup (f : ptr → bool) l : NoDup l → NoDup (List.filter f l).
Proof.
  induction 1 as [|x l Hx Hl IH]; cbn; [constructor|]. destruct (f x); [|done].
  constructor; [|done]. rewrite list_elem_of_In, List.filter_In, <- list_elem_of_In. tauto.
Qed.

Lemma filter_Forall (P : ptr → Prop) (f : ptr → bool) l : Forall P l → Forall P (List.filter f l).
Proof.
  rewrite !Forall_forall. intros H x. rewrite list_elem_of_In, List.filter_In, <- list_elem_of_In.
  intros [? _]. by apply H.
Qed.

(** A book whose two sides lost exactly the order [id]. *)
Lemma rep_without h b b' id :
  rep h b → side_ok true h b'.(Book.Bids) → side_ok false h b'.(Book.Asks) →
  side_ptrs b'.(Book.Bids) = List.filter (id_ne h id) (side_ptrs b.(Book.Bids)) →
  side_ptrs b'.(Book.Asks) = List.filter (id_ne h id) (side_ptrs b.(Book.Asks)) →
  b'.(Book.orderMap) = delete id b.(Book.orderMap) →
  rep h b' ∧ abs_book h b' = spec_RemoveOrder id (abs_book h b) ∧
  book_ptrs b' = List.filter (id_ne h id) (book_ptrs b).
Proof.
  intros Hr Hb Ha Eb Ea Em.
  assert (book_ptrs b' = List.filter (id_ne h id) (book_ptrs b)) as Ep.
  { unfold book_ptrs. by rewrite filter_app_ptrs, Eb, Ea. }
  split_and!; [|unfold abs_book, spec_RemoveOrder, side_orders; cbn;
                by rewrite !filter_orders, Eb, Ea|done].
  split; [done|done|rewrite Ep; by apply filter_NoDup, Hr|rewrite Ep; by apply filter_Forall, Hr| |
    rewrite Eb; by apply filter_Forall, Hr|rewrite Ea; by apply filter_Forall, Hr].
  intros i q. rewrite Em, Ep, elem_of_filter_id. destruct (decide (i = id)) as [->|].
  - rewrite lookup_delete_eq. split; [done|]. by intros [[_ ?] ?].
  - rewrite lookup_delete_ne, (rep_map _ _ Hr) by done.
    split; [intros [? <-]; auto|intros [[? _] <-]; auto].
Qed.

Lemma unlink_refines h b id p o :
  rep h b → b.(Book.orderMap) !! id = Some p →
  o.(Order.Side) = (deref h p).(Order.Side) →
  let b' := unlink_order h b id o in
  rep h b' ∧ abs_book h b' = spec_RemoveOrder id (abs_book h b) ∧
  book_ptrs b' = List.filter (id_ne h id) (book_ptrs b) ∧
  b'.(Book.orderMap) = delete id b.(Book.orderMap) ∧
  b'.(Book.Locate) = b.(Book.Locate) ∧ b'.(Book.TickSize) = b.(Book.TickSize).
Proof.
  intros Hr Hid Hside. pose proof (proj1 (rep_map _ _ Hr id p) Hid) as [Hp Epid].
  pose proof (rep_ids_nodup _ _ Hr) as Hnd. unfold book_ptrs in Hnd. rewrite fmap_app in Hnd.
  apply NoDup_app in Hnd as (Hnd1 & Hdis & Hnd2).
  assert (∀ l : list ptr, p ∈ l → id ∈ (Order.ID ∘ deref h <$> l)) as Hmem.
  { intros l Hl. apply list_elem_of_fmap. exists p. by rewrite <- Epid. }
  unfold unlink_order. rewrite Hside. apply elem_of_app in Hp.
  destruct (Z.eqb_spec (Order.Side (deref h p)) SideBuy) as [E|E]; cbn [Book.Bids Book.Asks Book.with_orderMap].
  - assert (p ∈ side_ptrs b.(Book.Bids)) as Hpb.
    { destruct Hp as [?|Hp]; [done|]. pose proof (rep_sell _ _ Hr) as Hs.
      rewrite Forall_forall in Hs. by destruct (Hs p Hp). }
    destruct (removeFromSide_refines true h b.(Book.Bids) id Hnd1 (rep_bids _ _ Hr)) as [Hok Hps].
    destruct (rep_without h b (Book.with_Bids (Book.with_orderMap b (delete id b.(Book.orderMap)))
      (removeFromSide h b.(Book.Bids) id)) id) as (? & ? & ?); try done; [apply Hr|].
    cbn. symmetry. apply id_ne_filter_id. by apply Hdis, Hmem.
  - assert (p ∈ side_ptrs b.(Book.Asks)) as Hpb.
    { destruct Hp as [Hp|?]; [|done]. pose proof (rep_buy _ _ Hr) as Hs.
      rewrite Forall_forall in Hs. by destruct (E (Hs p Hp)). }
    destruct (removeFromSide_refines false h b.(Book.Asks) id Hnd2 (rep_asks _ _ Hr)) as [Hok Hps].
    destruct (rep_without h b (Book.with_Asks (Book.with_orderMap b (delete id b.(Book.orderMap)))
      (removeFromSide h b.(Book.Asks) id)) id) as (? & ? & ?); try done; [apply Hr|].
    cbn. symmetry. apply id_ne_filter_id. intros Hc. by apply (Hdis id Hc), Hmem.
Qed.

(** ** Writes through a pointer that keep ID, side and price *)

Lemma rep_heap h h' b :
  rep h b →
  (∀ q, q ∈ book_ptrs b → is_Some (h' !! q) ∧
     (deref h' q).(Order.ID) = (deref h q).(Order.ID) ∧
     (deref h' q).(Order.Side) = (deref h q).(Order.Side) ∧
     (deref h' q).(Order.Price) = (deref h q).(Order.Price)) →
  rep h' b.
Proof.
  intros Hr Hq.
  assert (∀ d ls, side_ptrs ls ⊆ book_ptrs b → side_ok d h ls → side_ok d h' ls) as Hside.
  { intros d ls Hsub [[Hs Hl] ?]. split; [|done]. split; [done|].
    rewrite Forall_forall in Hl |- *. intros l Hin. destruct (Hl l Hin) as (? & ? & Hf).
    split_and!; [done..|]. rewrite Forall_forall in Hf |- *. intros p Hp.
    destruct (Hq p) as (_ & _ & _ & ->); [|by apply Hf].
    apply Hsub, elem_of_side_ptrs. eauto. }
  assert (side_ptrs b.(Book.Bids) ⊆ book_ptrs b) as Hsb by (intros ??; apply elem_of_app; auto).
  assert (side_ptrs b.(Book.Asks) ⊆ book_ptrs b) as Hsa by (intros ??; apply elem_of_app; auto).
  destruct Hr as [Hb Ha Hnd Hal Hm Hbuy Hsell]. rewrite Forall_forall in Hbuy, Hsell.
  split; [by apply Hside|by apply Hside|done| | | |].
  - rewrite Forall_forall. intros q Hin. by apply Hq.
  - intros id p. rewrite Hm. split; intros [Hp <-]; (split; [done|]);
      destruct (Hq p Hp) as (_ & E & _); congruence.
  - rewrite Forall_forall. intros q Hin. destruct (Hq q (Hsb _ Hin)) as (_ & _ & -> & _). by apply Hbuy.
  - rewrite Forall_forall. intros q Hin. destruct (Hq q (Hsa _ Hin)) as (_ & _ & -> & _). by apply Hsell.
Qed.

Lemma deref_insert h p o q : deref (<[p := o]> h) q = if decide (p = q) then o else deref h q.
Proof. unfold deref. rewrite lookup_insert. by case_decide. Qed.

Lemma rep_set_shares h b p n :
  rep h b → rep (<[p := Order.with_Shares (deref h p) n]> h) b.
Proof.
  intros Hr. apply (rep_heap h); [done|]. intros q Hq. pose proof (rep_alloc _ _ Hr) as Ha.
  rewrite Forall_forall in Ha. rewrite deref_insert, lookup_insert.
  case_decide as E; [subst; by split_and!; eauto|by split_and!; auto].
Qed.

Lemma abs_set_shares h b id p n :
  rep h b → b.(Book.orderMap) !! id = Some p →
  abs_book (<[p := Order.with_Shares (deref h p) n]> h) b =
  spec_update id (λ o, Order.with_Shares o n) (abs_book h b).
Proof.
  intros Hr Hid. pose proof (proj1 (rep_map _ _ Hr id p) Hid) as [Hp Epid].
  assert (∀ ls, side_ptrs ls ⊆ book_ptrs b →
    side_orders (<[p := Order.with_Shares (deref h p) n]> h) ls =
    (λ o, if has_id id o then Order.with_Shares o n else o) <$> side_orders h ls) as Hls.
  { intros ls Hsub. unfold side_orders. rewrite <- list_fmap_compose.
    apply list_fmap_ext. intros i q Hq%list_elem_of_lookup_2. cbn. rewrite deref_insert. unfold has_id.
    case_decide as E; [subst q|].
    - by destruct (Z.eqb_spec (Order.ID (deref h p)) id).
    - destruct (Z.eqb_spec (Order.ID (deref h q)) id) as [E'|]; [|done].
      destruct E. apply (rep_id_inj h b); [done|done|by apply Hsub|congruence]. }
  unfold abs_book, spec_update. cbn. f_equal; apply Hls; intros ??; apply elem_of_app; auto.
Qed.

(** ** The methods of Book *)

Lemma find_map_None s id :
  book_rep s → find_order id (abs s) = None → s.(book).(Book.orderMap) !! id = None.
Proof.
  intros Hr. unfold abs. rewrite rep_find by done.
  by destruct (s.(book).(Book.orderMap) !! id).
Qed.

Lemma find_map_Some s id o :
  book_rep s → find_order id (abs s) = Some o →
  ∃ p, s.(book).(Book.orderMap) !! id = Some p ∧ p ∈ book_ptrs s.(book) ∧ deref s.(orders) p = o ∧
    o.(Order.ID) = id ∧ s.(orders) !! p = Some o.
Proof.
  intros Hr. unfold abs. rewrite rep_find by done.
  destruct (s.(book).(Book.orderMap) !! id) as [p|] eqn:E; [|done]. intros [= <-].
  apply (rep_map _ _ Hr) in E as E'. destruct E' as [Hp Hid]. exists p. split_and!; try done.
  pose proof (rep_alloc _ _ Hr) as Ha. rewrite Forall_forall in Ha. destruct (Ha p Hp) as [o Ho].
  unfold deref. by rewrite Ho.
Qed.

(** Everything but the book is unchanged. *)
Definition same_counters (s s' : bstate) : Prop :=
  s'.(orderIDCounter) = s.(orderIDCounter) ∧ s'.(matchCounter) = s.(matchCounter) ∧
  s'.(book).(Book.Locate) = s.(book).(Book.Locate) ∧
  s'.(book).(Book.TickSize) = s.(book).(Book.TickSize).

Lemma AddOrder_rep s p o :
  book_rep s → s.(orders) !! p = Some o → p ∉ book_ptrs s.(book) →
  find_order o.(Order.ID) (abs s) = None → is_num o.(Order.Price) →
  ∃ ev s', AddOrder p s = Some (ev, s') ∧ book_rep s' ∧
    spec_AddOrder o (abs s) = (abs s', deref s.(orders) <$> ev) ∧
    s'.(orders) = s.(orders) ∧ same_counters s s'.
Proof.
  intros Hr Ho Hp Hid%find_map_None Hnum; [|done].
  pose proof (insert_order_refines _ _ _ _ Hr Ho Hp Hid Hnum) as H. unfold AddOrder.
  destruct (insert_order _ _ _) as [b ev]. destruct H as (? & ? & _ & ? & ?).
  exists ev, (with_book s b). by split_and!.
Qed.

Lemma RestoreOrder_AddOrder p s :
  RestoreOrder p s = (λ r, (tt, r.2)) <$> AddOrder p s.
Proof. unfold RestoreOrder, AddOrder. by destruct (insert_order _ _ _). Qed.

Lemma RemoveOrder_rep s id :
  book_rep s →
  match find_order id (abs s) with
  | None => RemoveOrder id s = Some (None, s)
  | Some o => ∃ p s', RemoveOrder id s = Some (Some p, s') ∧ deref s.(orders) p = o ∧
      book_rep s' ∧ abs s' = spec_RemoveOrder id (abs s) ∧ s'.(orders) = s.(orders) ∧
      book_ptrs s'.(book) ⊆ book_ptrs s.(book) ∧ same_counters s s'
  end.
Proof.
  intros Hr. destruct (find_order id (abs s)) as [o|] eqn:E.
  - destruct (find_map_Some _ _ _ Hr E) as (p & Hm & Hp & Hd & Hid & _). unfold RemoveOrder.
    rewrite Hm. eexists p, _. split; [done|].
    destruct (unlink_refines _ _ _ _ (deref (orders s) p) Hr Hm eq_refl) as (? & ? & Hps & ? & ? & ?).
    split_and!; try done. cbn. rewrite Hps. intros q. rewrite elem_of_filter_id. tauto.
  - apply find_map_None in E; [|done]. unfold RemoveOrder. by rewrite E.
Qed.

Lemma filter_update id f (l : list Order.t) :
  (∀ o, (f o).(Order.ID) = o.(Order.ID)) →
  List.filter (negb ∘ has_id id) ((λ o, if has_id id o then f o else o) <$> l) =
  List.filter (negb ∘ has_id id) l.
Proof.
  intros Hf. induction l as [|o l IH]; [done|]. cbn.
  destruct (has_id id o) eqn:E; cbn; unfold has_id in *; rewrite ?Hf, ?E; cbn; by rewrite IH.
Qed.

Lemma ReduceOrder_rep s id n :
  book_rep s →
  ∃ s', ReduceOrder id n s = Some ((spec_ReduceOrder id n (abs s)).1, s') ∧ book_rep s' ∧
    abs s' = (spec_ReduceOrder id n (abs s)).2 ∧ same_counters s s' ∧
    dom s'.(orders) = dom s.(orders) ∧ book_ptrs s'.(book) ⊆ book_ptrs s.(book).
Proof.
  intros Hr. unfold spec_ReduceOrder. destruct (find_order id (abs s)) as [o|] eqn:E.
  - destruct (find_map_Some _ _ _ Hr E) as (p & Hm & Hp & Hd & Hid & Ho). unfold ReduceOrder.
    rewrite Hm, Hd. cbn [Order.Shares Order.with_Shares].
    set (left := to_i32 (Order.Shares o - n)).
    assert (∀ k, rep (<[p := Order.with_Shares o k]> s.(orders)) s.(book)) as Hset
      by (intros k; rewrite <- Hd; by apply rep_set_shares).
    assert (∀ k, dom (<[p := Order.with_Shares o k]> s.(orders)) = dom s.(orders)) as Hdom.
    { intros k. rewrite dom_insert_L. apply elem_of_dom_2 in Ho. clear -Ho. set_solver. }
    destruct (left <=? 0).
    + eexists. split; [done|]. cbn [orders with_orders book with_book]. rewrite insert_insert_eq.
      change (Order.with_Shares (Order.with_Shares o left) 0) with (Order.with_Shares o 0).
      destruct (unlink_refines _ _ _ p (Order.with_Shares o 0) (Hset 0) Hm) as (? & Ha & Hps & ? & ? & ?).
      { rewrite deref_insert, decide_True by done. done. }
      split_and!; try done; cbn.
      * unfold abs. cbn. rewrite Ha, <- Hd, (abs_set_shares _ _ id) by done.
        unfold spec_RemoveOrder, spec_update. cbn. by rewrite !filter_update.
      * rewrite Hps. intros q. rewrite elem_of_filter_id. tauto.
    + eexists. split; [done|]. split_and!; try done; cbn; [apply Hset| |apply Hdom].
      unfold abs. cbn. rewrite <- Hd. by rewrite (abs_set_shares _ _ id).
  - apply find_map_None in E; [|done]. unfold ReduceOrder. rewrite E. by exists s.
Qed.

(** ** Allocation and replacement *)

Lemma new_order_spec o s :
  book_rep s →
  ∃ p s', new_order o s = Some (p, s') ∧ book_rep s' ∧ (abs s' = abs s) ∧
    (s'.(orders) !! p = Some o) ∧ p ∉ book_ptrs s'.(book) ∧ s'.(book) = s.(book) ∧
    s'.(orders) = <[p := o]> s.(orders) ∧ s.(orders) !! p = None ∧ same_counters s s'.
Proof.
  intros Hr. unfold new_order. set (p := fresh (dom (orders s))).
  assert (s.(orders) !! p = None) as Hn by (apply not_elem_of_dom, is_fresh).
  assert (∀ q, q ∈ book_ptrs s.(book) → p ≠ q) as Hne.
  { intros q Hq ->. pose proof (rep_alloc _ _ Hr) as Ha. rewrite Forall_forall in Ha.
    destruct (Ha q Hq). congruence. }
  assert (∀ q, q ∈ book_ptrs s.(book) → deref (<[p := o]> s.(orders)) q = deref s.(orders) q) as Hd.
  { intros q Hq. rewrite deref_insert. rewrite decide_False by by apply Hne. done. }
  eexists p, _. split; [done|]. cbn. split_and!; try done.
  - apply (rep_heap s.(orders)); [done|]. intros q Hq. rewrite Hd by done.
    pose proof (rep_alloc _ _ Hr) as Ha. rewrite Forall_forall in Ha.
    split_and!; [|done..]. change (is_Some (<[p := o]> s.(orders) !! q)).
    rewrite lookup_insert_ne by by apply Hne. by apply Ha.
  - unfold abs, abs_book, side_orders. cbn. f_equal; apply list_fmap_ext;
      intros i q Hq%list_elem_of_lookup_2; apply Hd, elem_of_app; auto.
  - apply lookup_insert_eq.
  - intros Hp. by destruct (Hne p Hp).
Qed.

(** A new order is created and added in one go by every caller. *)
Lemma add_new_order s o :
  book_rep s → find_order o.(Order.ID) (abs s) = None → is_num o.(Order.Price) →
  ∃ p ev s1 s', new_order o s = Some (p, s1) ∧ AddOrder p s1 = Some (ev, s') ∧ book_rep s' ∧
    spec_AddOrder o (abs s) = (abs s', deref s'.(orders) <$> ev) ∧
    deref s'.(orders) p = o ∧ same_counters s s'.
Proof.
  intros Hr Hid Hnum.
  destruct (new_order_spec o s Hr) as (p & s1 & E1 & Hr1 & Ha1 & Hp & Hnp & Hb & Ho & Hn & Hc1).
  rewrite <- Ha1 in Hid.
  destruct (AddOrder_rep s1 p o Hr1 Hp Hnp Hid Hnum) as (ev & s' & E2 & Hr2 & Hs & Hh & Hc2).
  exists p, ev, s1, s'. rewrite <- Ha1, Hh. split_and!; try done.
  - unfold deref. by rewrite Hp.
  - destruct Hc1 as (?&?&?&?), Hc2 as (?&?&?&?). split_and!; congruence.
Qed.

Definition spec_ReplaceOrder (c oldID : Z) (newPrice : float64) (newShares : Z) (A : abook)
  : option (Order.t * abook * list Order.t) :=
  match find_order oldID A with
  | None => None
  | Some old =>
      let o := Order.mk c old.(Order.Locate) old.(Order.Side) newPrice newShares 0 old.(Order.MPID) in
      let '(A', ev) := spec_AddOrder o (spec_RemoveOrder oldID A) in
      Some (o, A', ev)
  end.

Lemma find_filter_other id c (l : list Order.t) :
  List.find (has_id c) l = None → List.find (has_id c) (List.filter (negb ∘ has_id id) l) = None.
Proof.
  induction l as [|o l IH]; [done|]. cbn. destruct (has_id c o) eqn:E; [done|].
  intros H. destruct (has_id id o); cbn; rewrite ?E; auto.
Qed.

Lemma find_remove_None id c A :
  find_order c A = None → find_order c (spec_RemoveOrder id A) = None.
Proof.
  unfold find_order, a_orders, spec_RemoveOrder. cbn. rewrite <- List.filter_app. apply find_filter_other.
Qed.

Lemma ReplaceOrder_rep s id price shares :
  let c := to_u64 (s.(orderIDCounter) + 1) in
  book_rep s → find_order c (abs s) = None → is_num price →
  match spec_ReplaceOrder c id price shares (abs s) with
  | None => ReplaceOrder id price shares s = Some (None, s)
  | Some (o, A', ev) => ∃ np s', ReplaceOrder id price shares s = Some (Some np, s') ∧
      book_rep s' ∧ abs s' = A' ∧ deref s'.(orders) np = o ∧
      s'.(orderIDCounter) = c ∧ s'.(matchCounter) = s.(matchCounter)
  end.
Proof.
  intros c Hr Hc Hnum. unfold spec_ReplaceOrder. destruct (find_order id (abs s)) as [old|] eqn:E.
  - destruct (find_map_Some _ _ _ Hr E) as (p & Hm & Hp & Hd & Hid & Ho). unfold ReplaceOrder.
    rewrite Hm, Hd.
    destruct (unlink_refines _ _ _ p old Hr Hm) as (Hru & Ha & _); [by rewrite Hd|].
    set (o := Order.mk c _ _ _ _ _ _).
    set (s1 := mkB s.(orders) c s.(matchCounter) (unlink_order s.(orders) s.(book) id old)).
    assert (abs s1 = spec_RemoveOrder id (abs s)) as Ha1 by done.
    destruct (add_new_order s1 o) as (np & ev & s2 & s3 & E1 & E2 & Hr3 & Hs & Hnp & Hco);
      [done|rewrite Ha1; by apply find_remove_None|done|].
    rewrite Ha1 in Hs. rewrite Hs. exists np, s3. split_and!; try done; try apply Hco.
    unfold replace_with, mbind, go_bind. cbn. fold c o s1.
    unfold new_order in E1. injection E1 as <- <-. unfold mret, go_ret.
    rewrite E2. done.
  - apply find_map_None in E; [|done]. unfold ReplaceOrder. by rewrite E.
Qed.

(** ** Reading the book *)

Lemma nth_in_level_spec idx count ps :
  count ≤ idx →
  nth_in_level idx count ps =
  match ps !! Z.to_nat (idx - count) with
  | Some p => inl p
  | None => inr (count + Z.of_nat (length ps))
  end.
Proof.
  revert count. induction ps as [|p ps IH]; intros count H; cbn [nth_in_level length].
  { rewrite lookup_nil, Z.add_0_r. done. }
  destruct (Z.eqb_spec count idx) as [->|Hne]; [by rewrite Z.sub_diag|].
  rewrite IH by lia. replace (Z.to_nat (idx - count)) with (S (Z.to_nat (idx - (count + 1)))) by lia.
  cbn. destruct (ps !! _); [done|]. f_equal. lia.
Qed.

Lemma nth_in_side_spec idx count ls :
  count ≤ idx → nth_in_side idx count ls = side_ptrs ls !! Z.to_nat (idx - count).
Proof.
  revert count. induction ls as [|l ls IH]; intros count H; [done|].
  cbn [nth_in_side]. rewrite side_ptrs_cons, nth_in_level_spec by done.
  destruct (PriceLevel.Orders l !! Z.to_nat (idx - count)) as [p|] eqn:E.
  - by rewrite (lookup_app_l_Some _ _ _ p).
  - apply lookup_ge_None in E. rewrite IH by lia. rewrite lookup_app_r by lia. f_equal. lia.
Qed.

Lemma nth_in_level_neg idx count ps :
  idx < count → nth_in_level idx count ps = inr (count + Z.of_nat (length ps)).
Proof.
  revert count. induction ps as [|p ps IH]; intros count H; cbn [nth_in_level length].
  { by rewrite Z.add_0_r. }
  destruct (Z.eqb_spec count idx); [lia|]. rewrite IH by lia. f_equal. lia.
Qed.

Lemma nth_in_side_neg idx count ls : idx < count → nth_in_side idx count ls = None.
Proof.
  revert count. induction ls as [|l ls IH]; intros count H; [done|]. cbn.
  rewrite nth_in_level_neg by done. apply IH. lia.
Qed.

Lemma count_orders_spec ls : count_orders ls = Z.of_nat (length (side_ptrs ls)).
Proof.
  unfold count_orders.
  assert (∀ n, fold_left (λ n l, n + Z.of_nat (length l.(PriceLevel.Orders))) ls n =
    n + Z.of_nat (length (side_ptrs ls))) as ->; [|done].
  induction ls as [|l ls IH]; intros n; [cbn; lia|]. cbn [fold_left].
  rewrite IH, side_ptrs_cons, length_app. lia.
Qed.

(** No order is orphaned in [orderMap]: it holds exactly the resting orders. *)
Lemma rep_map_list h b :
  rep h b → map_to_list b.(Book.orderMap) ≡ₚ (λ p, ((deref h p).(Order.ID), p)) <$> book_ptrs b.
Proof.
  intros Hr. apply NoDup_Permutation.
  - apply NoDup_map_to_list.
  - apply NoDup_fmap_2_strong; [|apply Hr]. by intros p q _ _ [= _ ->].
  - intros [id p]. rewrite elem_of_map_to_list, (rep_map _ _ Hr), list_elem_of_fmap. split.
    + intros [? <-]. eauto.
    + by intros (q & [= -> ->] & ?).
Qed.

Lemma rep_map_size h b : rep h b → size b.(Book.orderMap) = length (book_ptrs b).
Proof.
  intros Hr. rewrite <- length_map_to_list, (rep_map_list _ _ Hr). apply length_fmap.
Qed.

(** ** Depth *)

Definition at_price (price : float64) (q : list Order.t) : list Order.t :=
  List.filter (λ o, (o.(Order.Price) =? price)%F) q.

Definition total_shares (q : list Order.t) : Z := fold_right (λ o t, o.(Order.Shares) + t) 0 q.

Lemma at_price_all price q :
  Forall (λ o, (o.(Order.Price) =? price)%F = true) q → at_price price q = q.
Proof. unfold at_price. induction 1 as [|o q Ho _ IH]; [done|]. cbn. by rewrite Ho, IH. Qed.

Lemma at_price_none price q :
  Forall (λ o, (o.(Order.Price) =? price)%F = false) q → at_price price q = [].
Proof. unfold at_price. induction 1 as [|o q Ho _ IH]; [done|]. cbn. by rewrite Ho. Qed.

Lemma at_price_app price q1 q2 : at_price price (q1 ++ q2) = at_price price q1 ++ at_price price q2.
Proof. apply List.filter_app. Qed.

Lemma level_at_price h l price b :
  level_ok h l → (l.(PriceLevel.Price) =? price)%F = b →
  Forall (λ o, (o.(Order.Price) =? price)%F = b) (deref h <$> l.(PriceLevel.Orders)).
Proof.
  intros (_ & _ & Hl) <-. apply Forall_fmap. eapply Forall_impl; [exact Hl|].
  intros p Hp. by apply feqb_eq_l.
Qed.

Lemma at_price_level d h ls l :
  levels_ok d h ls → l ∈ ls →
  at_price l.(PriceLevel.Price) (side_orders h ls) = deref h <$> l.(PriceLevel.Orders).
Proof.
  induction ls as [|l0 ls IH]; intros Hok; [by intros ?%elem_of_nil|].
  apply levels_ok_cons_inv in Hok as (Hl & Hls & Hb). rewrite side_orders_cons, at_price_app.
  intros [->|Hin]%elem_of_cons.
  - rewrite at_price_all, at_price_none, app_nil_r; [done| |].
    + unfold side_orders. apply Forall_fmap, Forall_forall. intros p (l & Hl' & Hp)%elem_of_side_ptrs.
      rewrite Forall_forall in Hb. specialize (Hb l Hl'). cbn.
      destruct Hls as [_ Hls]. rewrite Forall_forall in Hls. destruct (Hls l Hl') as (_ & _ & Hf).
      rewrite Forall_forall in Hf. rewrite (feqb_eq_l _ _ _ (Hf p Hp)), feqb_sym. by eapply better_neq.
    + apply level_at_price; [done|]. apply feqb_refl, Hl.
  - rewrite at_price_none, IH by (done || (apply level_at_price; [done|];
      rewrite Forall_forall in Hb; by eapply better_neq, Hb)). done.
Qed.

Lemma fold_shares h ps t :
  fold_left (λ t p, to_i32 (t + (deref h p).(Order.Shares))) ps (to_i32 t) =
  to_i32 (t + total_shares (deref h <$> ps)).
Proof.
  revert t. induction ps as [|p ps IH]; intros t; cbn; [by rewrite Z.add_0_r|].
  rewrite swrap_add_l, IH by lia. f_equal. unfold total_shares. cbn. lia.
Qed.

Lemma depth_level_spec d h ls l :
  levels_ok d h ls → l ∈ ls →
  depth_level h l = DepthLevel.mk l.(PriceLevel.Price)
    (Z.of_nat (length (at_price l.(PriceLevel.Price) (side_orders h ls))))
    (to_i32 (total_shares (at_price l.(PriceLevel.Price) (side_orders h ls)))).
Proof.
  intros Hok Hl. rewrite (at_price_level d) by done. unfold depth_level.
  rewrite (fold_shares h _ 0), length_fmap. done.
Qed.
