(* ===== verification/BookProps.v ===== *)
(** * What the order book promises

    The refinement theorems of each method, the invariant of every reachable
    book, and the depth snapshot. *)
From S2P Require Import Prelude Word Float64 GoSort Book BookSide BookSpec.

Local Open Scope Z_scope.

(** ** Books built from a list of orders, for concrete instances *)

Definition add_checked (o : Order.t) : go bstate unit := λ s,
  if decide (s.(book).(Book.orderMap) !! o.(Order.ID) = None) then
    if is_num o.(Order.Price) then (p ← new_order o; _ ← AddOrder p; mret tt) s else None
  else None.

Definition empty_state (locate : Z) (tick : float64) (c m : Z) : bstate :=
  mkB ∅ c m (NewBook locate tick).

Definition build (os : list Order.t) (s : bstate) : bstate :=
  match go_fold (λ _, add_checked) tt os s with Some (_, s') => s' | None => s end.

Lemma empty_rep locate tick c m : book_rep (empty_state locate tick c m).
Proof.
  split; cbn; try done; try (split; [split; constructor|cbn; lia]); try constructor.
  - by rewrite lookup_empty.
  - by intros [?%elem_of_nil _].
Qed.

Lemma add_checked_rep o s s' : book_rep s → add_checked o s = Some (tt, s') → book_rep s'.
Proof.
  intros Hr. unfold add_checked. case_decide as Hid; [|done].
  destruct (is_num _) eqn:Hnum; [|done].
  destruct (add_new_order s o Hr) as (p & ev & s1 & s2 & E1 & E2 & Hr2 & _).
  - unfold abs. rewrite rep_find by done. by rewrite Hid.
  - by rewrite Hnum.
  - unfold mbind, go_bind, mret, go_ret. rewrite E1, E2. by intros [= <-].
Qed.

Lemma build_rep os s : book_rep s → book_rep (build os s).
Proof.
  intros Hr. unfold build. destruct (go_fold _ _ _ _) as [[[] s']|] eqn:E; [|done].
  revert s Hr E. induction os as [|o os IH]; intros s Hr; cbn.
  { unfold mret, go_ret. by intros [= <-]. }
  rewrite go_bind_Some. intros ([] & s1 & E1 & E2). eapply IH; [|exact E2].
  by eapply add_checked_rep.
Qed.

Definition demo_order (id sd cents n : Z) : Order.t := Order.mk id 1 sd (dec cents 2) n 0 "".

(** Ten bid levels 99.90 ... 99.00 with two orders on the best and one ask. *)
Definition demo_orders : list Order.t :=
  ([demo_order 1 SideBuy 9990 500; demo_order 2 SideBuy 9990 300] ++
         ((λ k, demo_order (3 + Z.of_nat k) SideBuy (9980 - 10 * Z.of_nat k) 200) <$> seq 0 9) ++
         [demo_order 12 SideSell 10010 400]).

Definition demo : bstate :=
  Eval vm_compute in build demo_orders (empty_state 1 (dec 1 2) 20 0).

Lemma demo_rep : book_rep demo.
Proof.
  assert (demo = build demo_orders (empty_state 1 (dec 1 2) 20 0)) as -> by (vm_compute; reflexivity).
  apply build_rep, empty_rep.
Qed.

(** ** Method by method *)

(** C16. [AddOrder] is the specified price-time insertion: the new order goes
    behind every order at a price not worse than its own, the orders at the
    ten best prices stay, and exactly the others are returned and forgotten.
    The heap and the counters do not change. *)
Theorem AddOrder_refines (s : bstate) (p : ptr) (o : Order.t) :
  book_rep s → s.(orders) !! p = Some o → p ∉ book_ptrs s.(book) →
  find_order o.(Order.ID) (abs s) = None → is_num o.(Order.Price) →
  ∃ ev s', AddOrder p s = Some (ev, s') ∧ book_rep s' ∧
    spec_AddOrder o (abs s) = (abs s', deref s.(orders) <$> ev) ∧
    s'.(orders) = s.(orders) ∧ same_counters s s'.
Proof. apply AddOrder_rep. Qed.

Definition demo_new : Order.t := demo_order 21 SideBuy 9995 100.
Definition demo_ptr : ptr := Eval vm_compute in fresh (dom demo.(orders)).
Definition demo_alloc : bstate :=
  Eval vm_compute in with_orders demo (<[demo_ptr := demo_new]> demo.(orders)).

Lemma alloc_rep o s :
  book_rep s →
  book_rep (with_orders s (<[fresh (dom s.(orders)) := o]> s.(orders))) ∧
  fresh (dom s.(orders)) ∉ book_ptrs s.(book).
Proof.
  intros Hr. destruct (new_order_spec o s Hr) as (p & s' & E & Hr' & _ & _ & Hp & _).
  injection E as <- <-. done.
Qed.

Lemma demo_alloc_rep : book_rep demo_alloc ∧ demo_ptr ∉ book_ptrs demo_alloc.(book).
Proof.
  pose proof (alloc_rep demo_new demo demo_rep) as H.
  assert (demo_ptr = fresh (dom demo.(orders))) as -> by (vm_compute; reflexivity).
  replace demo_alloc with (with_orders demo (<[fresh (dom demo.(orders)) := demo_new]> demo.(orders)))
    by (vm_compute; reflexivity).
  exact H.
Qed.

Lemma AddOrder_refines_witness :
  ∃ ev s', AddOrder demo_ptr demo_alloc = Some (ev, s') ∧ book_rep s' ∧
    spec_AddOrder demo_new (abs demo_alloc) = (abs s', deref demo_alloc.(orders) <$> ev) ∧
    s'.(orders) = demo_alloc.(orders) ∧ same_counters demo_alloc s'.
Proof.
  apply (AddOrder_refines demo_alloc demo_ptr demo_new).
  - apply demo_alloc_rep.
  - vm_compute. reflexivity.
  - apply demo_alloc_rep.
  - vm_compute. reflexivity.
  - vm_compute. exact I.
Defined.

(** The eleventh price is evicted with its orders: the instance above drops
    order 11, the one at 99.00. *)
Example AddOrder_evicts_worst :
  snd (spec_AddOrder demo_new (abs demo_alloc)) = [demo_order 11 SideBuy 9900 200].
Proof. vm_compute. reflexivity. Qed.

(** [RemoveOrder] returns the order with the given ID and deletes exactly it
    from its side, or returns nil and changes nothing. *)
Theorem RemoveOrder_refines (s : bstate) (id : Z) :
  book_rep s →
  match find_order id (abs s) with
  | None => RemoveOrder id s = Some (None, s)
  | Some o => ∃ p s', RemoveOrder id s = Some (Some p, s') ∧ deref s.(orders) p = o ∧
      book_rep s' ∧ abs s' = spec_RemoveOrder id (abs s) ∧ s'.(orders) = s.(orders) ∧
      book_ptrs s'.(book) ⊆ book_ptrs s.(book) ∧ same_counters s s'
  end.
Proof. apply RemoveOrder_rep. Qed.

Lemma RemoveOrder_refines_witness :
  ∃ p s', RemoveOrder 2 demo = Some (Some p, s') ∧ deref demo.(orders) p = demo_order 2 SideBuy 9990 300 ∧
      book_rep s' ∧ abs s' = spec_RemoveOrder 2 (abs demo) ∧ s'.(orders) = demo.(orders) ∧
      book_ptrs s'.(book) ⊆ book_ptrs demo.(book) ∧ same_counters demo s'.
Proof. exact (RemoveOrder_refines demo 2 demo_rep). Defined.

(** [ReduceOrder] subtracts at int32 width; a positive remainder is written
    through the shared pointer, so the level and the map both see it, and a
    non-positive one removes the order and returns 0. *)
Theorem ReduceOrder_refines (s : bstate) (id n : Z) :
  book_rep s →
  ∃ s', ReduceOrder id n s = Some ((spec_ReduceOrder id n (abs s)).1, s') ∧ book_rep s' ∧
    abs s' = (spec_ReduceOrder id n (abs s)).2 ∧ same_counters s s' ∧
    dom s'.(orders) = dom s.(orders) ∧ book_ptrs s'.(book) ⊆ book_ptrs s.(book).
Proof. apply ReduceOrder_rep. Qed.

Lemma ReduceOrder_refines_witness :
  ∃ s', ReduceOrder 1 200 demo = Some (300, s') ∧ book_rep s' ∧
    abs s' = (spec_ReduceOrder 1 200 (abs demo)).2 ∧ same_counters demo s' ∧
    dom s'.(orders) = dom demo.(orders) ∧ book_ptrs s'.(book) ⊆ book_ptrs demo.(book).
Proof. exact (ReduceOrder_refines demo 1 200 demo_rep). Defined.

(** C31. [ReplaceOrder] is a removal followed by an insertion under the next
    order ID, which keeps locate, side and MPID and loses time priority; an
    unknown ID returns nil and changes nothing, not even the counter. *)
Theorem ReplaceOrder_refines (s : bstate) (id : Z) (price : float64) (shares : Z) :
  let c := to_u64 (s.(orderIDCounter) + 1) in
  book_rep s → find_order c (abs s) = None → is_num price →
  match spec_ReplaceOrder c id price shares (abs s) with
  | None => ReplaceOrder id price shares s = Some (None, s)
  | Some (o, A', ev) => ∃ np s', ReplaceOrder id price shares s = Some (Some np, s') ∧
      book_rep s' ∧ abs s' = A' ∧ deref s'.(orders) np = o ∧
      s'.(orderIDCounter) = c ∧ s'.(matchCounter) = s.(matchCounter)
  end.
Proof. apply ReplaceOrder_rep. Qed.

Lemma ReplaceOrder_refines_witness :
  match spec_ReplaceOrder 21 2 (dec 9980 2) 700 (abs demo) with
  | None => ReplaceOrder 2 (dec 9980 2) 700 demo = Some (None, demo)
  | Some (o, A', ev) => ∃ np s', ReplaceOrder 2 (dec 9980 2) 700 demo = Some (Some np, s') ∧
      book_rep s' ∧ abs s' = A' ∧ deref s'.(orders) np = o ∧
      s'.(orderIDCounter) = 21 ∧ s'.(matchCounter) = 0
  end.
Proof.
  apply (ReplaceOrder_refines demo 2 (dec 9980 2) 700).
  - apply demo_rep.
  - vm_compute. reflexivity.
  - vm_compute. exact I.
Defined.

(** ** Every reachable book *)

(** A call that can change the book; the order of an [AddOrder] or [RestoreOrder] is a
    new object.  Between two calls other goroutines may move the counters. *)
Inductive call :=
  | CAdd (o : Order.t)
  | CRestore (o : Order.t)
  | CRemove (id : Z)
  | CReduce (id n : Z)
  | CReplace (id : Z) (price : float64) (n : Z)
  | CCounters (c m : Z).

Definition do_call (k : call) : go bstate unit :=
  match k with
  | CAdd o => p ← new_order o; _ ← AddOrder p; mret tt
  | CRestore o => p ← new_order o; RestoreOrder p
  | CRemove id => _ ← RemoveOrder id; mret tt
  | CReduce id n => _ ← ReduceOrder id n; mret tt
  | CReplace id price n => _ ← ReplaceOrder id price n; mret tt
  | CCounters c m => λ s, Some (tt, mkB s.(orders) c m s.(book))
  end.

(** What the book relies on and does not check: a new order's ID is no resting
    order's, and its price is a number. *)
Definition call_ok (k : call) (s : bstate) : Prop :=
  match k with
  | CAdd o | CRestore o => find_order o.(Order.ID) (abs s) = None ∧ is_num o.(Order.Price)
  | CReplace _ price _ => find_order (to_u64 (s.(orderIDCounter) + 1)) (abs s) = None ∧ is_num price
  | CRemove _ | CReduce _ _ | CCounters _ _ => True
  end.

(** A call whose caller keeps to that. *)
Definition book_step (s s' : bstate) : Prop := ∃ k, call_ok k s ∧ do_call k s = Some (tt, s').

Lemma do_call_rep k s : book_rep s → call_ok k s → ∃ s', do_call k s = Some (tt, s') ∧ book_rep s'.
Proof.
  intros Hr. destruct k as [o|o|id|id n|id price n|c m]; cbn [call_ok do_call]; intros Hk.
  - destruct Hk as [Hid Hnum]. destruct (add_new_order s o Hr Hid Hnum) as (p & ev & s1 & s' & E1 & E2 & Hr' & _).
    exists s'. split; [|done]. by rewrite (go_bind_run _ _ _ _ _ E1), (go_bind_run _ _ _ _ _ E2).
  - destruct Hk as [Hid Hnum]. destruct (add_new_order s o Hr Hid Hnum) as (p & ev & s1 & s' & E1 & E2 & Hr' & _).
    exists s'. split; [|done]. by rewrite (go_bind_run _ _ _ _ _ E1), RestoreOrder_AddOrder, E2.
  - pose proof (RemoveOrder_rep s id Hr) as H. destruct (find_order id (abs s)).
    + destruct H as (? & s' & E & _ & Hr' & _). exists s'. by rewrite (go_bind_run _ _ _ _ _ E).
    + exists s. by rewrite (go_bind_run _ _ _ _ _ H).
  - destruct (ReduceOrder_rep s id n Hr) as (s' & E & Hr' & _). exists s'. by rewrite (go_bind_run _ _ _ _ _ E).
  - destruct Hk as [Hid Hnum]. pose proof (ReplaceOrder_rep s id price n Hr Hid Hnum) as H.
    destruct (spec_ReplaceOrder _ _ _ _ _) as [[[o A'] ev]|].
    + destruct H as (? & s' & E & Hr' & _). exists s'. by rewrite (go_bind_run _ _ _ _ _ E).
    + exists s. by rewrite (go_bind_run _ _ _ _ _ H).
  - by exists (mkB s.(orders) c m s.(book)).
Qed.

Lemma book_steps_rep s s' : rtc book_step s s' → book_rep s → book_rep s'.
Proof.
  induction 1 as [s|s s1 s2 (k & Hk & E) _ IH]; intros Hr; [done|]. apply IH.
  destruct (do_call_rep k s Hr Hk) as (s1' & E' & Hr'). by simplify_eq.
Qed.

(** C4. Whatever sequence of calls a book has seen since [NewBook], provided every
    order added, restored or put in by a replace came with an ID that no resting
    order had and with a price that is a number, each side has at most [MaxLevels]
    levels, strictly ordered from the best price, none of them empty; the ID map
    holds exactly the resting orders, so [GetOrder] finds an order iff it rests, no
    order is orphaned in the map, and [OrderCount] is the number of orders on the two
    sides; and the next such call does not panic.  The book checks neither condition,
    [reused_id_orphans] shows what the first prevents, and main can break it after a
    failed load ([failed_load_reuses_ids]). *)
Theorem reachable_book (locate : Z) (tick : float64) (c m : Z) (s : bstate) :
  rtc book_step (empty_state locate tick c m) s →
  (length s.(book).(Book.Bids) ≤ MaxLevels)%nat ∧ (length s.(book).(Book.Asks) ≤ MaxLevels)%nat ∧
  prices_sorted true s.(book).(Book.Bids) ∧ prices_sorted false s.(book).(Book.Asks) ∧
  Forall (λ l, l.(PriceLevel.Orders) ≠ []) (s.(book).(Book.Bids) ++ s.(book).(Book.Asks)) ∧
  (∀ id, ∃ r, GetOrder id s = Some (r, s) ∧ deref s.(orders) <$> r = find_order id (abs s)) ∧
  (∃ nb na, TotalBidOrders s = Some (nb, s) ∧ TotalAskOrders s = Some (na, s) ∧
    OrderCount s = Some (nb + na, s) ∧ nb + na = Z.of_nat (length (a_orders (abs s)))) ∧
  ∀ k, call_ok k s → is_Some (do_call k s).
Proof.
  intros Hreach. pose proof (book_steps_rep _ _ Hreach (empty_rep _ _ _ _)) as Hr.
  destruct (rep_bids _ _ Hr) as [[? Hb] ?], (rep_asks _ _ Hr) as [[? Ha] ?].
  split_and!; try done.
  - apply Forall_app. split; [eapply Forall_impl; [exact Hb|]|eapply Forall_impl; [exact Ha|]];
      by intros l (? & _).
  - intros id. eexists. split; [done|]. unfold abs. by rewrite rep_find.
  - eexists _, _. split; [done|]. split; [done|]. unfold OrderCount, gets.
    rewrite !count_orders_spec, (rep_map_size _ _ Hr). unfold abs.
    rewrite a_orders_abs, length_fmap. unfold book_ptrs. rewrite length_app.
    split; [do 2 f_equal; lia|lia].
  - intros k Hk. destruct (do_call_rep k s Hr Hk) as (s' & E & _). by exists (tt, s').
Qed.

(** One ask added to an empty book. *)
Definition demo_ask : Order.t := demo_order 1 SideSell 10010 400.
Definition demo_one : bstate := Eval vm_compute in
  match do_call (CAdd demo_ask) (empty_state 1 (dec 1 2) 0 0) with Some (_, s) => s | None => demo end.

Lemma demo_one_step : book_step (empty_state 1 (dec 1 2) 0 0) demo_one.
Proof. exists (CAdd demo_ask). split; [split|]; vm_compute; (reflexivity || exact I). Qed.

Lemma reachable_book_witness :
  (length demo_one.(book).(Book.Bids) ≤ MaxLevels)%nat ∧
  (length demo_one.(book).(Book.Asks) ≤ MaxLevels)%nat ∧
  prices_sorted true demo_one.(book).(Book.Bids) ∧ prices_sorted false demo_one.(book).(Book.Asks) ∧
  Forall (λ l, l.(PriceLevel.Orders) ≠ []) (demo_one.(book).(Book.Bids) ++ demo_one.(book).(Book.Asks)) ∧
  (∀ id, ∃ r, GetOrder id demo_one = Some (r, demo_one) ∧
    deref demo_one.(orders) <$> r = find_order id (abs demo_one)) ∧
  (∃ nb na, TotalBidOrders demo_one = Some (nb, demo_one) ∧ TotalAskOrders demo_one = Some (na, demo_one) ∧
    OrderCount demo_one = Some (nb + na, demo_one) ∧ nb + na = Z.of_nat (length (a_orders (abs demo_one)))) ∧
  ∀ k, call_ok k demo_one → is_Some (do_call k demo_one).
Proof. exact (reachable_book 1 (dec 1 2) 0 0 demo_one (rtc_once _ _ demo_one_step)). Defined.

(** An ID used twice breaks the book: of two asks added under one ID both rest, one is
    counted, and once it is removed the other cannot be found or removed any more. *)
Theorem reused_id_orphans :
  ∃ s s', do_call (CAdd (demo_order 1 SideSell 10020 300)) demo_one = Some (tt, s) ∧
    TotalAskOrders s = Some (2, s) ∧ OrderCount s = Some (1, s) ∧
    do_call (CRemove 1) s = Some (tt, s') ∧
    TotalAskOrders s' = Some (1, s') ∧ OrderCount s' = Some (0, s') ∧
    GetOrder 1 s' = Some (None, s') ∧ RemoveOrder 1 s' = Some (None, s').
Proof.
  set (run := λ k s, match do_call k s with Some (_, s') => s' | None => s end).
  exists (run (CAdd (demo_order 1 SideSell 10020 300)) demo_one).
  exists (run (CRemove 1) (run (CAdd (demo_order 1 SideSell 10020 300)) demo_one)).
  split_and!; vm_compute; reflexivity.
Qed.

(** ** The depth snapshot *)

(** A side of a snapshot against the resting orders. *)
Record depth_ok (d : bool) (q : list Order.t) (ds : list DepthLevel.t) : Prop := mk_depth_ok {
  dk_sorted : StronglySorted (λ a b, better d a b = true) (DepthLevel.Price <$> ds);
  dk_levels : Forall (λ l, l.(DepthLevel.Orders) = Z.of_nat (length (at_price l.(DepthLevel.Price) q)) ∧
    l.(DepthLevel.TotalShares) = to_i32 (total_shares (at_price l.(DepthLevel.Price) q)) ∧
    l.(DepthLevel.Orders) ≠ 0) ds;
  dk_all : Forall (λ o, Exists (λ l, (o.(Order.Price) =? l.(DepthLevel.Price))%F = true) ds) q;
  dk_len : (length ds ≤ MaxLevels)%nat;
}.

Lemma depth_side_ok d h ls : side_ok d h ls → depth_ok d (side_orders h ls) (depth_level h <$> ls).
Proof.
  intros [Hok Hlen]. split.
  - rewrite <- list_fmap_compose. apply Hok.
  - apply Forall_fmap, Forall_forall. intros l Hl. unfold compose.
    pose proof (depth_level_spec d h ls l Hok Hl) as E. rewrite E. cbn. split_and!; try done.
    rewrite (at_price_level d) by done. destruct Hok as [_ Hls]. rewrite Forall_forall in Hls.
    destruct (Hls l Hl) as (Hne & _). rewrite length_fmap. by destruct (PriceLevel.Orders l).
  - unfold side_orders. apply Forall_fmap, Forall_forall. intros p (l & Hl & Hp)%elem_of_side_ptrs.
    apply Exists_exists. exists (depth_level h l). split; [by apply list_elem_of_fmap_2|].
    destruct Hok as [_ Hls]. rewrite Forall_forall in Hls. destruct (Hls l Hl) as (_ & _ & Hf).
    rewrite Forall_forall in Hf. by apply Hf.
  - by rewrite length_fmap.
Qed.

(** [Depth] reports, for each side, the distinct resting prices in order,
    each with the number of orders at that price and their int32 total; every
    resting order is counted, and the mid and spread are those of the two best
    prices when both are positive and 0 otherwise. *)
Theorem Depth_spec (s : bstate) :
  book_rep s →
  ∃ snap, Depth s = Some (snap, s) ∧
    depth_ok true (a_bids (abs s)) snap.(DepthSnapshot.Bids) ∧
    depth_ok false (a_asks (abs s)) snap.(DepthSnapshot.Asks) ∧
    BestBid s = Some (snap.(DepthSnapshot.BestBid), s) ∧
    BestAsk s = Some (snap.(DepthSnapshot.BestAsk), s) ∧
    let both := ((snap.(DepthSnapshot.BestBid) >? fzero) && (snap.(DepthSnapshot.BestAsk) >? fzero))%F in
    snap.(DepthSnapshot.Spread) =
      (if both then snap.(DepthSnapshot.BestAsk) - snap.(DepthSnapshot.BestBid) else fzero)%F ∧
    snap.(DepthSnapshot.MidPrice) =
      (if both then (snap.(DepthSnapshot.BestBid) + snap.(DepthSnapshot.BestAsk)) / float_of_Z 2
       else fzero)%F.
Proof.
  intros Hr. pose proof (depth_side_ok _ _ _ (rep_bids _ _ Hr)) as Hb.
  pose proof (depth_side_ok _ _ _ (rep_asks _ _ Hr)) as Ha. eexists. split; [done|].
  destruct ((fzero <? best_price (Book.Bids (book s))) && (fzero <? best_price (Book.Asks (book s))))%F
    eqn:E; cbn -[float_of_Z]; rewrite E; split_and!; try done; cbn -[float_of_Z]; by rewrite E.
Qed.

Lemma Depth_spec_witness :
  ∃ snap, Depth demo = Some (snap, demo) ∧
    depth_ok true (a_bids (abs demo)) snap.(DepthSnapshot.Bids) ∧
    depth_ok false (a_asks (abs demo)) snap.(DepthSnapshot.Asks) ∧
    BestBid demo = Some (snap.(DepthSnapshot.BestBid), demo) ∧
    BestAsk demo = Some (snap.(DepthSnapshot.BestAsk), demo) ∧
    let both := ((snap.(DepthSnapshot.BestBid) >? fzero) && (snap.(DepthSnapshot.BestAsk) >? fzero))%F in
    snap.(DepthSnapshot.Spread) =
      (if both then snap.(DepthSnapshot.BestAsk) - snap.(DepthSnapshot.BestBid) else fzero)%F ∧
    snap.(DepthSnapshot.MidPrice) =
      (if both then (snap.(DepthSnapshot.BestBid) + snap.(DepthSnapshot.BestAsk)) / float_of_Z 2
       else fzero)%F.
Proof. exact (Depth_spec demo demo_rep). Defined.
