(* ===== verification/Itch.v ===== *)
(** * internal/itch: messages.go and binary.go

    The universal message, and the encoder of the ten ITCH 5.0 message types.
    An encoder allocates a zeroed buffer and writes each field at its offset;
    [put] is such a write. *)
From S2P Require Import Prelude Word Float64.

Local Open Scope Z_scope.

(** ** messages.go *)

Definition MsgSystemEvent : Z := 83.         (* 'S' *)
Definition MsgStockDirectory : Z := 82.      (* 'R' *)
Definition MsgStockTradingAction : Z := 72.  (* 'H' *)
Definition MsgAddOrder : Z := 65.            (* 'A' *)
Definition MsgAddOrderMPID : Z := 70.        (* 'F' *)
Definition MsgOrderExecuted : Z := 69.       (* 'E' *)
Definition MsgOrderCancel : Z := 88.         (* 'X' *)
Definition MsgOrderDelete : Z := 68.         (* 'D' *)
Definition MsgOrderReplace : Z := 85.        (* 'U' *)
Definition MsgTrade : Z := 80.               (* 'P' *)

Definition EventStartOfMarket : Z := 81.     (* 'Q' *)

Module Message.
Record t := mk {
  Type_ : Z;  (* MsgType, a byte *)
  Timestamp : Z;  (* int64, nanoseconds since midnight UTC *)
  StockLocate : Z;  (* uint16 *)
  TrackingNum : Z;  (* uint16 *)
  Stock : string;
  OrderRef : Z;  (* uint64 *)
  OrigOrderRef : Z;  (* uint64 *)
  Side : Z;  (* byte *)
  Shares : Z;  (* int32 *)
  Price : float64;
  MatchNumber : Z;  (* uint64 *)
  MPID : string;
  EventCode : Z;  (* byte *)
  TradingState : Z;
  Reserved : Z;
  MarketCategory : Z;
  FinancialStatus : Z;
  RoundLotSize : Z;  (* int32 *)
  RoundLotsOnly : Z;
  IssueClassification : Z;
  IssueSubType : Z * Z;  (* [2]byte *)
  Authenticity : Z;
  ShortSaleThreshold : Z;
  IPOFlag : Z;
  LULDRefPriceTier : Z;
  ETPFlag : Z;
  ETPLeverageFactor : Z;  (* int32 *)
  InverseIndicator : Z;
}.

(** The zero value a struct literal starts from. *)
Definition zero : t :=
  mk 0 0 0 0 EmptyString 0 0 0 0 fzero 0 EmptyString 0 0 0 0 0 0 0 0 (0, 0) 0 0 0 0 0 0 0.

Definition set_Type_ (v : Z) (m : t) : t :=
  mk v m.(Timestamp) m.(StockLocate) m.(TrackingNum) m.(Stock) m.(OrderRef)
    m.(OrigOrderRef) m.(Side) m.(Shares) m.(Price) m.(MatchNumber) m.(MPID) m.(EventCode)
    m.(TradingState) m.(Reserved) m.(MarketCategory) m.(FinancialStatus) m.(RoundLotSize)
    m.(RoundLotsOnly) m.(IssueClassification) m.(IssueSubType) m.(Authenticity)
    m.(ShortSaleThreshold) m.(IPOFlag) m.(LULDRefPriceTier) m.(ETPFlag)
    m.(ETPLeverageFactor) m.(InverseIndicator).
Definition set_Timestamp (v : Z) (m : t) : t :=
  mk m.(Type_) v m.(StockLocate) m.(TrackingNum) m.(Stock) m.(OrderRef) m.(OrigOrderRef)
    m.(Side) m.(Shares) m.(Price) m.(MatchNumber) m.(MPID) m.(EventCode) m.(TradingState)
    m.(Reserved) m.(MarketCategory) m.(FinancialStatus) m.(RoundLotSize) m.(RoundLotsOnly)
    m.(IssueClassification) m.(IssueSubType) m.(Authenticity) m.(ShortSaleThreshold)
    m.(IPOFlag) m.(LULDRefPriceTier) m.(ETPFlag) m.(ETPLeverageFactor) m.(InverseIndicator).
Definition set_StockLocate (v : Z) (m : t) : t :=
  mk m.(Type_) m.(Timestamp) v m.(TrackingNum) m.(Stock) m.(OrderRef) m.(OrigOrderRef)
    m.(Side) m.(Shares) m.(Price) m.(MatchNumber) m.(MPID) m.(EventCode) m.(TradingState)
    m.(Reserved) m.(MarketCategory) m.(FinancialStatus) m.(RoundLotSize) m.(RoundLotsOnly)
    m.(IssueClassification) m.(IssueSubType) m.(Authenticity) m.(ShortSaleThreshold)
    m.(IPOFlag) m.(LULDRefPriceTier) m.(ETPFlag) m.(ETPLeverageFactor) m.(InverseIndicator).
Definition set_Stock (v : string) (m : t) : t :=
  mk m.(Type_) m.(Timestamp) m.(StockLocate) m.(TrackingNum) v m.(OrderRef)
    m.(OrigOrderRef) m.(Side) m.(Shares) m.(Price) m.(MatchNumber) m.(MPID) m.(EventCode)
    m.(TradingState) m.(Reserved) m.(MarketCategory) m.(FinancialStatus) m.(RoundLotSize)
    m.(RoundLotsOnly) m.(IssueClassification) m.(IssueSubType) m.(Authenticity)
    m.(ShortSaleThreshold) m.(IPOFlag) m.(LULDRefPriceTier) m.(ETPFlag)
    m.(ETPLeverageFactor) m.(InverseIndicator).
Definition set_OrderRef (v : Z) (m : t) : t :=
  mk m.(Type_) m.(Timestamp) m.(StockLocate) m.(TrackingNum) m.(Stock) v m.(OrigOrderRef)
    m.(Side) m.(Shares) m.(Price) m.(MatchNumber) m.(MPID) m.(EventCode) m.(TradingState)
    m.(Reserved) m.(MarketCategory) m.(FinancialStatus) m.(RoundLotSize) m.(RoundLotsOnly)
    m.(IssueClassification) m.(IssueSubType) m.(Authenticity) m.(ShortSaleThreshold)
    m.(IPOFlag) m.(LULDRefPriceTier) m.(ETPFlag) m.(ETPLeverageFactor) m.(InverseIndicator).
Definition set_OrigOrderRef (v : Z) (m : t) : t :=
  mk m.(Type_) m.(Timestamp) m.(StockLocate) m.(TrackingNum) m.(Stock) m.(OrderRef) v
    m.(Side) m.(Shares) m.(Price) m.(MatchNumber) m.(MPID) m.(EventCode) m.(TradingState)
    m.(Reserved) m.(MarketCategory) m.(FinancialStatus) m.(RoundLotSize) m.(RoundLotsOnly)
    m.(IssueClassification) m.(IssueSubType) m.(Authenticity) m.(ShortSaleThreshold)
    m.(IPOFlag) m.(LULDRefPriceTier) m.(ETPFlag) m.(ETPLeverageFactor) m.(InverseIndicator).
Definition set_Side (v : Z) (m : t) : t :=
  mk m.(Type_) m.(Timestamp) m.(StockLocate) m.(TrackingNum) m.(Stock) m.(OrderRef)
    m.(OrigOrderRef) v m.(Shares) m.(Price) m.(MatchNumber) m.(MPID) m.(EventCode)
    m.(TradingState) m.(Reserved) m.(MarketCategory) m.(FinancialStatus) m.(RoundLotSize)
    m.(RoundLotsOnly) m.(IssueClassification) m.(IssueSubType) m.(Authenticity)
    m.(ShortSaleThreshold) m.(IPOFlag) m.(LULDRefPriceTier) m.(ETPFlag)
    m.(ETPLeverageFactor) m.(InverseIndicator).
Definition set_Shares (v : Z) (m : t) : t :=
  mk m.(Type_) m.(Timestamp) m.(StockLocate) m.(TrackingNum) m.(Stock) m.(OrderRef)
    m.(OrigOrderRef) m.(Side) v m.(Price) m.(MatchNumber) m.(MPID) m.(EventCode)
    m.(TradingState) m.(Reserved) m.(MarketCategory) m.(FinancialStatus) m.(RoundLotSize)
    m.(RoundLotsOnly) m.(IssueClassification) m.(IssueSubType) m.(Authenticity)
    m.(ShortSaleThreshold) m.(IPOFlag) m.(LULDRefPriceTier) m.(ETPFlag)
    m.(ETPLeverageFactor) m.(InverseIndicator).
Definition set_Price (v : float64) (m : t) : t :=
  mk m.(Type_) m.(Timestamp) m.(StockLocate) m.(TrackingNum) m.(Stock) m.(OrderRef)
    m.(OrigOrderRef) m.(Side) m.(Shares) v m.(MatchNumber) m.(MPID) m.(EventCode)
    m.(TradingState) m.(Reserved) m.(MarketCategory) m.(FinancialStatus) m.(RoundLotSize)
    m.(RoundLotsOnly) m.(IssueClassification) m.(IssueSubType) m.(Authenticity)
    m.(ShortSaleThreshold) m.(IPOFlag) m.(LULDRefPriceTier) m.(ETPFlag)
    m.(ETPLeverageFactor) m.(InverseIndicator).
Definition set_MatchNumber (v : Z) (m : t) : t :=
  mk m.(Type_) m.(Timestamp) m.(StockLocate) m.(TrackingNum) m.(Stock) m.(OrderRef)
    m.(OrigOrderRef) m.(Side) m.(Shares) m.(Price) v m.(MPID) m.(EventCode) m.(TradingState)
    m.(Reserved) m.(MarketCategory) m.(FinancialStatus) m.(RoundLotSize) m.(RoundLotsOnly)
    m.(IssueClassification) m.(IssueSubType) m.(Authenticity) m.(ShortSaleThreshold)
    m.(IPOFlag) m.(LULDRefPriceTier) m.(ETPFlag) m.(ETPLeverageFactor) m.(InverseIndicator).
Definition set_MPID (v : string) (m : t) : t :=
  mk m.(Type_) m.(Timestamp) m.(StockLocate) m.(TrackingNum) m.(Stock) m.(OrderRef)
    m.(OrigOrderRef) m.(Side) m.(Shares) m.(Price) m.(MatchNumber) v m.(EventCode)
    m.(TradingState) m.(Reserved) m.(MarketCategory) m.(FinancialStatus) m.(RoundLotSize)
    m.(RoundLotsOnly) m.(IssueClassification) m.(IssueSubType) m.(Authenticity)
    m.(ShortSaleThreshold) m.(IPOFlag) m.(LULDRefPriceTier) m.(ETPFlag)
    m.(ETPLeverageFactor) m.(InverseIndicator).
Definition set_EventCode (v : Z) (m : t) : t :=
  mk m.(Type_) m.(Timestamp) m.(StockLocate) m.(TrackingNum) m.(Stock) m.(OrderRef)
    m.(OrigOrderRef) m.(Side) m.(Shares) m.(Price) m.(MatchNumber) m.(MPID) v
    m.(TradingState) m.(Reserved) m.(MarketCategory) m.(FinancialStatus) m.(RoundLotSize)
    m.(RoundLotsOnly) m.(IssueClassification) m.(IssueSubType) m.(Authenticity)
    m.(ShortSaleThreshold) m.(IPOFlag) m.(LULDRefPriceTier) m.(ETPFlag)
    m.(ETPLeverageFactor) m.(InverseIndicator).
End Message.

(** [uint32(price * 10000)] and its inverse. *)
Definition Price4 (price : float64) : Z := uint32_of_float (price * float_of_Z 10000)%F.
Definition Price4ToFloat (p : Z) : float64 := (float_of_Z p / float_of_Z 10000)%F.

(** A write of [bs] into a buffer at offset [off]. *)
Definition put (off : nat) (bs : list Z) (buf : list Z) : list Z := list_inserts off bs buf.

(** [copy] of at most the array's length, then spaces from [len(ticker)] on. *)
Definition pad_array (n : nat) (s : string) : list Z :=
  let b := put 0 (take n (bytes_of_string s)) (replicate n 0) in
  put (String.length s) (replicate (n - String.length s) 32) b.
Definition PadStock (ticker : string) : list Z := pad_array 8 ticker.
Definition PadMPID (mpid : string) : list Z := pad_array 4 mpid.

(** [NanosFromMidnight]: [now] is the UTC clock in nanoseconds since the epoch,
    whose days are all 86400 seconds long. *)
Definition NanosFromMidnight (now : Z) : Z := now mod 86400000000000.

(** ** binary.go *)

Definition putTimestamp (off : nat) (nanos : Z) (buf : list Z) : list Z :=
  put off [to_u8 (Z.shiftr nanos 40); to_u8 (Z.shiftr nanos 32); to_u8 (Z.shiftr nanos 24);
           to_u8 (Z.shiftr nanos 16); to_u8 (Z.shiftr nanos 8); to_u8 nanos] buf.

(** The first eleven bytes, written the same way by every encoder: type,
    locate, tracking number and timestamp. *)
Definition put_header (m : Message.t) (buf : list Z) : list Z :=
  let buf := put 0 [to_u8 m.(Message.Type_)] buf in
  let buf := put 1 (put_uint 2 m.(Message.StockLocate)) buf in
  let buf := put 3 (put_uint 2 m.(Message.TrackingNum)) buf in
  putTimestamp 5 m.(Message.Timestamp) buf.

Definition encodeSystemEvent (m : Message.t) : list Z :=
  let buf := put_header m (replicate 12 0) in
  put 11 [m.(Message.EventCode)] buf.

Definition encodeStockDirectory (m : Message.t) : list Z :=
  let buf := put_header m (replicate 39 0) in
  let buf := put 11 (PadStock m.(Message.Stock)) buf in
  let buf := put 19 [m.(Message.MarketCategory)] buf in
  let buf := put 20 [m.(Message.FinancialStatus)] buf in
  let buf := put 21 (put_uint 4 (to_u32 m.(Message.RoundLotSize))) buf in
  let buf := put 25 [m.(Message.RoundLotsOnly)] buf in
  let buf := put 26 [m.(Message.IssueClassification)] buf in
  let buf := put 27 [m.(Message.IssueSubType).1; m.(Message.IssueSubType).2] buf in
  let buf := put 29 [m.(Message.Authenticity)] buf in
  let buf := put 30 [m.(Message.ShortSaleThreshold)] buf in
  let buf := put 31 [m.(Message.IPOFlag)] buf in
  let buf := put 32 [m.(Message.LULDRefPriceTier)] buf in
  let buf := put 33 [m.(Message.ETPFlag)] buf in
  let buf := put 34 (put_uint 4 (to_u32 m.(Message.ETPLeverageFactor))) buf in
  put 38 [m.(Message.InverseIndicator)] buf.

Definition encodeStockTradingAction (m : Message.t) : list Z :=
  let buf := put_header m (replicate 25 0) in
  let buf := put 11 (PadStock m.(Message.Stock)) buf in
  let buf := put 19 [m.(Message.TradingState)] buf in
  let buf := put 20 [m.(Message.Reserved)] buf in
  put 21 [32; 32; 32; 32] buf.

Definition encodeAddOrder (m : Message.t) : list Z :=
  let buf := put_header m (replicate 36 0) in
  let buf := put 11 (put_uint 8 m.(Message.OrderRef)) buf in
  let buf := put 19 [m.(Message.Side)] buf in
  let buf := put 20 (put_uint 4 (to_u32 m.(Message.Shares))) buf in
  let buf := put 24 (PadStock m.(Message.Stock)) buf in
  put 32 (put_uint 4 (Price4 m.(Message.Price))) buf.

Definition encodeAddOrderMPID (m : Message.t) : list Z :=
  let buf := put_header m (replicate 40 0) in
  let buf := put 11 (put_uint 8 m.(Message.OrderRef)) buf in
  let buf := put 19 [m.(Message.Side)] buf in
  let buf := put 20 (put_uint 4 (to_u32 m.(Message.Shares))) buf in
  let buf := put 24 (PadStock m.(Message.Stock)) buf in
  let buf := put 32 (put_uint 4 (Price4 m.(Message.Price))) buf in
  put 36 (PadMPID m.(Message.MPID)) buf.

Definition encodeOrderExecuted (m : Message.t) : list Z :=
  let buf := put_header m (replicate 31 0) in
  let buf := put 11 (put_uint 8 m.(Message.OrderRef)) buf in
  let buf := put 19 (put_uint 4 (to_u32 m.(Message.Shares))) buf in
  put 23 (put_uint 8 m.(Message.MatchNumber)) buf.

Definition encodeOrderCancel (m : Message.t) : list Z :=
  let buf := put_header m (replicate 23 0) in
  let buf := put 11 (put_uint 8 m.(Message.OrderRef)) buf in
  put 19 (put_uint 4 (to_u32 m.(Message.Shares))) buf.

Definition encodeOrderDelete (m : Message.t) : list Z :=
  let buf := put_header m (replicate 19 0) in
  put 11 (put_uint 8 m.(Message.OrderRef)) buf.

Definition encodeOrderReplace (m : Message.t) : list Z :=
  let buf := put_header m (replicate 35 0) in
  let buf := put 11 (put_uint 8 m.(Message.OrigOrderRef)) buf in
  let buf := put 19 (put_uint 8 m.(Message.OrderRef)) buf in
  let buf := put 27 (put_uint 4 (to_u32 m.(Message.Shares))) buf in
  put 31 (put_uint 4 (Price4 m.(Message.Price))) buf.

Definition encodeTrade (m : Message.t) : list Z :=
  let buf := put_header m (replicate 44 0) in
  let buf := put 11 (put_uint 8 m.(Message.OrderRef)) buf in
  let buf := put 19 [m.(Message.Side)] buf in
  let buf := put 20 (put_uint 4 (to_u32 m.(Message.Shares))) buf in
  let buf := put 24 (PadStock m.(Message.Stock)) buf in
  let buf := put 32 (put_uint 4 (Price4 m.(Message.Price))) buf in
  put 36 (put_uint 8 m.(Message.MatchNumber)) buf.

(** The switch of [EncodeBinary]; [None] is its default branch. *)
Definition encode_body (m : Message.t) : option (list Z) :=
  let ty := m.(Message.Type_) in
  if ty =? MsgSystemEvent then Some (encodeSystemEvent m)
  else if ty =? MsgStockDirectory then Some (encodeStockDirectory m)
  else if ty =? MsgStockTradingAction then Some (encodeStockTradingAction m)
  else if ty =? MsgAddOrder then Some (encodeAddOrder m)
  else if ty =? MsgAddOrderMPID then Some (encodeAddOrderMPID m)
  else if ty =? MsgOrderExecuted then Some (encodeOrderExecuted m)
  else if ty =? MsgOrderCancel then Some (encodeOrderCancel m)
  else if ty =? MsgOrderDelete then Some (encodeOrderDelete m)
  else if ty =? MsgOrderReplace then Some (encodeOrderReplace m)
  else if ty =? MsgTrade then Some (encodeTrade m)
  else None.

(** [EncodeBinary]: the body behind its 2-byte length; [None] is a nil slice. *)
Definition EncodeBinary (m : Message.t) : option (list Z) :=
  body ← encode_body m;
  Some (put_uint 2 (to_u16 (Z.of_nat (length body))) ++ body).
