(* ===== verification/ItchJson.v ===== *)
(** * internal/itch/json.go: the JSON mirror of the messages

    [msgToMap] gives the object that json.Marshal then serialises; a value is an
    integer or a string.  Prices are printed with [%.4f]: the exact value rounded
    to four decimals, half to even. *)
From Stdlib Require Import SpecFloat Ascii.
From stdpp Require Import pretty.
From S2P Require Import Prelude Word Float64 FloatRound Itch.

Local Open Scope Z_scope.

(** ** [%.4f] *)

(** [n / d] rounded to the nearest integer, half to even. *)
Definition round_half_even (n d : Z) : Z :=
  let q := n / d in
  let r := n mod d in
  if 2 * r <? d then q
  else if 2 * r >? d then q + 1
  else if Z.even q then q else q + 1.

(** The magnitude of [m * 2^e] in ten-thousandths. *)
Definition ten_thousandths (m e : Z) : Z :=
  if 0 <=? e then m * 2 ^ e * 10000 else round_half_even (m * 10000) (2 ^ (- e)).

Definition digit (n : Z) : ascii := ascii_of_nat (Z.to_nat (48 + n)).

Definition four_decimals (q : Z) : string :=
  let d k := digit (q / 10 ^ k mod 10) in
  (pretty (Z.to_N (q / 10000)) ++ "." ++
   String (d 3) (String (d 2) (String (d 1) (String (d 0) EmptyString))))%string.

Definition formatPrice (price : float64) : string :=
  match price with
  | S754_zero s => if s then "-0.0000" else "0.0000"
  | S754_infinity s => if s then "-Inf" else "+Inf"
  | S754_nan => "NaN"
  | S754_finite s m e =>
      let t := four_decimals (ten_thousandths (Z.pos m) e) in
      if s then String "-" t else t
  end%string.

(** ** msgToMap *)

Inductive jval := JInt (n : Z) | JStr (s : string).

(** The white space of ASCII; names have no other bytes. *)
Definition is_space (c : ascii) : bool :=
  let n := nat_of_ascii c in (n =? 32)%nat || ((9 <=? n)%nat && (n <=? 13)%nat).

Fixpoint trim_left (s : list ascii) : list ascii :=
  match s with
  | c :: s' => if is_space c then trim_left s' else s
  | [] => []
  end.
Definition TrimSpace (s : string) : string :=
  String.string_of_list_ascii (reverse (trim_left (reverse (trim_left (String.list_ascii_of_string s))))).

(** [string([]byte{b})] *)
Definition byte_string (b : Z) : string := String (ascii_of_nat (Z.to_nat b)) EmptyString.

Local Notation "k ~> v" := (k%string, v) (at level 60).

Definition header (name : string) (m : Message.t) : list (string * jval) :=
  ["type" ~> JStr name; "timestamp" ~> JInt m.(Message.Timestamp);
   "stockLocate" ~> JInt m.(Message.StockLocate)].

Definition fields (m : Message.t) : option (list (string * jval)) :=
  let ty := m.(Message.Type_) in
  let stock := "stock" ~> JStr (TrimSpace m.(Message.Stock)) in
  let ref := "orderRef" ~> JInt m.(Message.OrderRef) in
  let side := "side" ~> JStr (byte_string m.(Message.Side)) in
  let shares := "shares" ~> JInt m.(Message.Shares) in
  let price := "price" ~> JStr (formatPrice m.(Message.Price)) in
  let mn := "matchNumber" ~> JInt m.(Message.MatchNumber) in
  if ty =? MsgSystemEvent then
    Some (header "system_event" m ++ ["eventCode" ~> JStr (byte_string m.(Message.EventCode))])
  else if ty =? MsgStockDirectory then
    Some (header "stock_directory" m ++
      [stock; "marketCategory" ~> JStr (byte_string m.(Message.MarketCategory));
       "financialStatus" ~> JStr (byte_string m.(Message.FinancialStatus));
       "roundLotSize" ~> JInt m.(Message.RoundLotSize);
       "roundLotsOnly" ~> JStr (byte_string m.(Message.RoundLotsOnly))])
  else if ty =? MsgStockTradingAction then
    Some (header "stock_trading_action" m ++
      [stock; "tradingState" ~> JStr (byte_string m.(Message.TradingState))])
  else if ty =? MsgAddOrder then
    Some (header "add_order" m ++ [stock; ref; side; shares; price])
  else if ty =? MsgAddOrderMPID then
    Some (header "add_order_mpid" m ++
      [stock; ref; side; shares; price; "mpid" ~> JStr (TrimSpace m.(Message.MPID))])
  else if ty =? MsgOrderExecuted then
    Some (header "order_executed" m ++ [ref; shares; mn])
  else if ty =? MsgOrderCancel then
    Some (header "order_cancel" m ++ [ref; shares])
  else if ty =? MsgOrderDelete then
    Some (header "order_delete" m ++ [ref])
  else if ty =? MsgOrderReplace then
    Some (header "order_replace" m ++
      ["origOrderRef" ~> JInt m.(Message.OrigOrderRef); ref; shares; price])
  else if ty =? MsgTrade then
    Some (header "trade" m ++ [ref; side; shares; stock; price; mn])
  else None.

Definition msgToMap (m : Message.t) : option (gmap string jval) := list_to_map <$> fields m.

(** [EncodeJSON], given what json.Marshal makes of the object; [None] is an error. *)
Definition EncodeJSON (marshal : gmap string jval → option (list Z)) (m : Message.t) : option (list Z) :=
  obj ← msgToMap m;
  marshal obj.

(** ** The rounding is to nearest *)

Lemma round_half_even_nearest n d : 0 < d → 2 * Z.abs (round_half_even n d * d - n) ≤ d.
Proof.
  intros Hd. unfold round_half_even. pose proof (Z.div_mod n d ltac:(lia)) as E.
  pose proof (Z.mod_pos_bound n d Hd). set (q := n / d) in *. set (r := n mod d) in *.
  destruct (Z.ltb_spec (2 * r) d); [lia|]. destruct (Z.gtb_spec (2 * r) d); [lia|]. destruct (Z.even q); lia.
Qed.

(** A value within less than half a unit of [q] rounds to [q]. *)
Lemma round_half_even_unique n d q : 0 < d → 2 * Z.abs (q * d - n) < d → round_half_even n d = q.
Proof.
  intros Hd Hq. pose proof (round_half_even_nearest n d Hd) as H. set (q' := round_half_even n d) in *.
  assert (2 * Z.abs ((q' - q) * d) < 2 * d) as Hlt by (rewrite Z.mul_sub_distr_r; lia).
  rewrite Z.abs_mul, (Z.abs_eq d) in Hlt by lia. nia.
Qed.

Example formatPrice_ex : formatPrice (dec 12505 2) = "125.0500"%string.
Proof. vm_compute. reflexivity. Qed.

(** ** The object mirrors the message *)

(** What a key of the object stands for; ["type"] names the message type. *)
Definition type_name (ty : Z) : string :=
  if ty =? MsgSystemEvent then "system_event"
  else if ty =? MsgStockDirectory then "stock_directory"
  else if ty =? MsgStockTradingAction then "stock_trading_action"
  else if ty =? MsgAddOrder then "add_order"
  else if ty =? MsgAddOrderMPID then "add_order_mpid"
  else if ty =? MsgOrderExecuted then "order_executed"
  else if ty =? MsgOrderCancel then "order_cancel"
  else if ty =? MsgOrderDelete then "order_delete"
  else if ty =? MsgOrderReplace then "order_replace"
  else if ty =? MsgTrade then "trade"
  else "".

Definition key_values (m : Message.t) : list (string * jval) :=
  ["type" ~> JStr (type_name m.(Message.Type_)); "timestamp" ~> JInt m.(Message.Timestamp);
   "stockLocate" ~> JInt m.(Message.StockLocate); "stock" ~> JStr (TrimSpace m.(Message.Stock));
   "orderRef" ~> JInt m.(Message.OrderRef); "origOrderRef" ~> JInt m.(Message.OrigOrderRef);
   "side" ~> JStr (byte_string m.(Message.Side)); "shares" ~> JInt m.(Message.Shares);
   "price" ~> JStr (formatPrice m.(Message.Price)); "matchNumber" ~> JInt m.(Message.MatchNumber);
   "mpid" ~> JStr (TrimSpace m.(Message.MPID)); "eventCode" ~> JStr (byte_string m.(Message.EventCode));
   "tradingState" ~> JStr (byte_string m.(Message.TradingState));
   "marketCategory" ~> JStr (byte_string m.(Message.MarketCategory));
   "financialStatus" ~> JStr (byte_string m.(Message.FinancialStatus));
   "roundLotSize" ~> JInt m.(Message.RoundLotSize);
   "roundLotsOnly" ~> JStr (byte_string m.(Message.RoundLotsOnly))].

(** Split on the type of a message. *)
Ltac by_type m :=
  unfold fields, encode_body, type_name;
  repeat match goal with
    | |- context [m.(Message.Type_) =? ?t] => destruct (Z.eqb_spec m.(Message.Type_) t)
    end.

Lemma fields_ok m fs :
  fields m = Some fs → NoDup fs.*1 ∧ ∀ k v, (k, v) ∈ fs → (k, v) ∈ key_values m.
Proof.
  unfold key_values. by_type m; try discriminate; intros [= <-];
    (split; [cbn; apply (bool_decide_unpack _); vm_compute; exact I|]);
    intros k v Hkv; cbn [header app] in Hkv;
    repeat (apply elem_of_cons in Hkv as [[= -> ->]|Hkv]; [repeat (first [by left|right])|]);
    by apply elem_of_nil in Hkv.
Qed.

Lemma key_values_nodup m : NoDup (key_values m).*1.
Proof. cbn. apply (bool_decide_unpack _). vm_compute. exact I. Qed.

(** The JSON object mirrors the binary message: the same ten types are
    encoded and no others; every field of the object is the message's own value
    of that name, and none of the fields listed for the type is lost. *)
Theorem msgToMap_mirrors (m : Message.t) :
  (msgToMap m = None ↔ EncodeBinary m = None) ∧
  ∀ obj, msgToMap m = Some obj →
    ∃ fs, fields m = Some fs ∧ (∀ k v, obj !! k = Some v ↔ (k, v) ∈ fs) ∧
      ∀ k v, obj !! k = Some v → (list_to_map (key_values m) : gmap string jval) !! k = Some v.
Proof.
  split.
  - unfold msgToMap, EncodeBinary. by_type m; cbn; split; discriminate || done.
  - unfold msgToMap. destruct (fields m) as [fs|] eqn:E; [|done]. intros obj [= <-]. exists fs.
    destruct (fields_ok m fs E) as [Hnd Hin]. split; [done|].
    assert (∀ k v, (list_to_map fs : gmap string jval) !! k = Some v ↔ (k, v) ∈ fs) as Hfs
      by (intros k v; symmetry; by apply elem_of_list_to_map).
    split; [exact Hfs|]. intros k v Hk%Hfs%Hin. apply elem_of_list_to_map; [apply key_values_nodup|done].
Qed.
