(* ===== verification/Decoder.v ===== *)
(** * cmd/decoder: main.go

    The command-line client's frame splitter and the ten message decoders.
    What a decoder does is print, so a decoder returns the [fmt] calls it makes,
    in order, each with its format string (as the source spells it) and its
    arguments; [None] is an index or slice out of range, which panics. *)
From stdpp Require Import pretty.
From Stdlib Require Import Ascii.
From S2P Require Import Prelude Word Float64.

Local Open Scope Z_scope.

(** ** Indexing and printing *)

(** [b[lo:hi]]. *)
Definition slice (b : list Z) (lo hi : nat) : option (list Z) :=
  if decide (lo ≤ hi ≤ length b)%nat then Some (take (hi - lo) (drop lo b)) else None.

Inductive arg := AInt (n : Z) | AStr (s : string).

Inductive printed :=
  | Printf (format : string) (args : list arg)
  | Println (s : string).

(** Decimal and hexadecimal digits, zero-padded to a width: [%0wd], [%02x]. *)
Definition zero_pad (w : nat) (s : string) : string :=
  (String.string_of_list_ascii (replicate (w - String.length s) "0"%char) +:+ s)%string.
Definition fmt_0d (w : nat) (n : Z) : string := zero_pad w (pretty n).
Definition hex_digit (n : Z) : ascii :=
  ascii_of_byte (if n <? 10 then 48 + n else 87 + n).
Definition fmt_02x (b : Z) : string :=
  String (hex_digit (b / 16)) (String (hex_digit (b mod 16)) EmptyString).

(** [string(b)] of a byte: the UTF-8 encoding of the code point [b]. *)
Definition string_of_rune (b : Z) : string :=
  string_of_bytes (if b <? 128 then [b] else [192 + b / 64; 128 + b mod 64]).

(** [strings.TrimRight(s, " ")] on the bytes of [s]. *)
Fixpoint trim_right (bs : list Z) : list Z :=
  match bs with
  | [] => []
  | b :: bs' =>
      match trim_right bs' with
      | [] => if b =? 32 then [] else [b]
      | t => b :: t
      end
  end.

(** ** Field helpers *)

(** Each shifted byte is below 2^48, so the shifts of [int64] lose nothing. *)
Definition readTimestamp (buf : list Z) : option Z :=
  match buf with
  | b0 :: b1 :: b2 :: b3 :: b4 :: b5 :: _ =>
      Some (Z.lor (Z.lor (Z.lor (Z.lor (Z.lor (Z.shiftl b0 40) (Z.shiftl b1 32))
        (Z.shiftl b2 24)) (Z.shiftl b3 16)) (Z.shiftl b4 8)) b5)
  | _ => None
  end.

(** [Duration.Hours], [Minutes] and [Seconds] of the [time] package: the whole
    units and the rest of the nanoseconds, added as floats. *)
Definition duration_in (unit nanos : Z) : float64 :=
  (float_of_Z (Z.quot nanos unit) + float_of_Z (Z.rem nanos unit) / float_of_Z unit)%F.

Definition fmtTimestamp (nanos : Z) : string :=
  let h := int64_of_float (duration_in 3600000000000 nanos) in
  let m := Z.rem (int64_of_float (duration_in 60000000000 nanos)) 60 in
  let s := Z.rem (int64_of_float (duration_in 1000000000 nanos)) 60 in
  let us := Z.rem (Z.quot nanos 1000) 1000000 in
  (fmt_0d 2 h +:+ ":" +:+ fmt_0d 2 m +:+ ":" +:+ fmt_0d 2 s +:+ "." +:+ fmt_0d 6 us)%string.

Definition readStock (buf : list Z) : string := string_of_bytes (trim_right buf).

Definition fmtPrice4 (raw : Z) : string :=
  let whole := raw / 10000 in
  let frac := raw mod 10000 in
  (pretty whole +:+ "." +:+ fmt_0d 4 frac)%string.

Definition fmtSide (b : Z) : string :=
  if b =? 66 then "BUY" else if b =? 83 then "SELL" else string_of_rune b.

(** The map literals of [decodeSystemEvent] and [decodeStockTradingAction]; a
    missing key yields the empty string, which the code replaces. *)
Definition eventName (event : Z) : string :=
  if event =? 79 then "START_MESSAGES" else if event =? 83 then "START_SYSTEM"
  else if event =? 81 then "START_MARKET" else if event =? 77 then "END_MARKET"
  else if event =? 69 then "END_SYSTEM" else if event =? 67 then "END_MESSAGES"
  else ("0x" +:+ fmt_02x event)%string.
Definition stateName (state : Z) : string :=
  if state =? 72 then "HALTED" else if state =? 80 then "PAUSED"
  else if state =? 84 then "TRADING" else string_of_rune state.

(** ** The decoders *)

(** The guard every decoder starts with. *)
Definition truncated (format : string) (size : nat) (b : list Z)
    (rest : option (list printed)) : option (list printed) :=
  if decide (length b < size)%nat
  then Some [Printf format [AInt (Z.of_nat (length b))]]
  else rest.

Definition Uint (b : list Z) (lo hi : nat) : option Z := get_uint <$> slice b lo hi.

Definition decodeSystemEvent (b : list Z) : option (list printed) :=
  truncated "SYSTEM   truncated (%d bytes)\n" 12 b (
    locate ← Uint b 1 3;
    ts ← slice b 5 11 ≫= readTimestamp;
    event ← b !! 11%nat;
    Some [Printf "SYSTEM   %s  locate=%d  event=%s\n"
            [AStr (fmtTimestamp ts); AInt locate; AStr (eventName event)]]).

Definition decodeStockDirectory (b : list Z) : option (list printed) :=
  truncated "STOCKDIR truncated (%d bytes)\n" 39 b (
    locate ← Uint b 1 3;
    ts ← slice b 5 11 ≫= readTimestamp;
    stock ← readStock <$> slice b 11 19;
    mktCat ← b !! 19%nat;
    finStatus ← b !! 20%nat;
    lotSize ← Uint b 21 25;
    Some [Printf "STOCKDIR %s  locate=%-3d  stock=%-8s  mktCat=%c  finStatus=%c  lotSize=%d\n"
            [AStr (fmtTimestamp ts); AInt locate; AStr stock; AInt mktCat; AInt finStatus;
             AInt lotSize]]).

Definition decodeStockTradingAction (b : list Z) : option (list printed) :=
  truncated "TRADING  truncated (%d bytes)\n" 25 b (
    locate ← Uint b 1 3;
    ts ← slice b 5 11 ≫= readTimestamp;
    stock ← readStock <$> slice b 11 19;
    state ← b !! 19%nat;
    Some [Printf "TRADING  %s  locate=%-3d  stock=%-8s  state=%s\n"
            [AStr (fmtTimestamp ts); AInt locate; AStr stock; AStr (stateName state)]]).

Definition decodeAddOrder (b : list Z) : option (list printed) :=
  truncated "ADD      truncated (%d bytes)\n" 36 b (
    locate ← Uint b 1 3;
    ts ← slice b 5 11 ≫= readTimestamp;
    orderRef ← Uint b 11 19;
    side ← b !! 19%nat;
    shares ← Uint b 20 24;
    stock ← readStock <$> slice b 24 32;
    price ← Uint b 32 36;
    Some [Printf "ADD      %s  locate=%-3d  stock=%-8s  ref=%-10d  %4s  %5d @ %s\n"
            [AStr (fmtTimestamp ts); AInt locate; AStr stock; AInt orderRef;
             AStr (fmtSide side); AInt shares; AStr (fmtPrice4 price)]]).

Definition decodeAddOrderMPID (b : list Z) : option (list printed) :=
  truncated "ADD+MPID truncated (%d bytes)\n" 40 b (
    locate ← Uint b 1 3;
    ts ← slice b 5 11 ≫= readTimestamp;
    orderRef ← Uint b 11 19;
    side ← b !! 19%nat;
    shares ← Uint b 20 24;
    stock ← readStock <$> slice b 24 32;
    price ← Uint b 32 36;
    mpid ← readStock <$> slice b 36 40;
    Some [Printf "ADD+MPID %s  locate=%-3d  stock=%-8s  ref=%-10d  %4s  %5d @ %s  mpid=%s\n"
            [AStr (fmtTimestamp ts); AInt locate; AStr stock; AInt orderRef;
             AStr (fmtSide side); AInt shares; AStr (fmtPrice4 price); AStr mpid]]).

Definition decodeOrderExecuted (b : list Z) : option (list printed) :=
  truncated "EXEC     truncated (%d bytes)\n" 31 b (
    locate ← Uint b 1 3;
    ts ← slice b 5 11 ≫= readTimestamp;
    orderRef ← Uint b 11 19;
    shares ← Uint b 19 23;
    matchNum ← Uint b 23 31;
    Some [Printf "EXEC     %s  locate=%-3d  ref=%-10d  shares=%5d  match=%d\n"
            [AStr (fmtTimestamp ts); AInt locate; AInt orderRef; AInt shares; AInt matchNum]]).

Definition decodeOrderCancel (b : list Z) : option (list printed) :=
  truncated "CANCEL   truncated (%d bytes)\n" 23 b (
    locate ← Uint b 1 3;
    ts ← slice b 5 11 ≫= readTimestamp;
    orderRef ← Uint b 11 19;
    shares ← Uint b 19 23;
    Some [Printf "CANCEL   %s  locate=%-3d  ref=%-10d  cancelled=%d\n"
            [AStr (fmtTimestamp ts); AInt locate; AInt orderRef; AInt shares]]).

Definition decodeOrderDelete (b : list Z) : option (list printed) :=
  truncated "DELETE   truncated (%d bytes)\n" 19 b (
    locate ← Uint b 1 3;
    ts ← slice b 5 11 ≫= readTimestamp;
    orderRef ← Uint b 11 19;
    Some [Printf "DELETE   %s  locate=%-3d  ref=%d\n"
            [AStr (fmtTimestamp ts); AInt locate; AInt orderRef]]).

Definition decodeOrderReplace (b : list Z) : option (list printed) :=
  truncated "REPLACE  truncated (%d bytes)\n" 35 b (
    locate ← Uint b 1 3;
    ts ← slice b 5 11 ≫= readTimestamp;
    origRef ← Uint b 11 19;
    newRef ← Uint b 19 27;
    shares ← Uint b 27 31;
    price ← Uint b 31 35;
    Some [Printf "REPLACE  %s  locate=%-3d  orig=%-10d  new=%-10d  %5d @ %s\n"
            [AStr (fmtTimestamp ts); AInt locate; AInt origRef; AInt newRef; AInt shares;
             AStr (fmtPrice4 price)]]).

Definition decodeTrade (b : list Z) : option (list printed) :=
  truncated "TRADE    truncated (%d bytes)\n" 44 b (
    locate ← Uint b 1 3;
    ts ← slice b 5 11 ≫= readTimestamp;
    orderRef ← Uint b 11 19;
    side ← b !! 19%nat;
    shares ← Uint b 20 24;
    stock ← readStock <$> slice b 24 32;
    price ← Uint b 32 36;
    matchNum ← Uint b 36 44;
    Some [Printf "TRADE    %s  locate=%-3d  stock=%-8s  ref=%-10d  %4s  %5d @ %s  match=%d\n"
            [AStr (fmtTimestamp ts); AInt locate; AStr stock; AInt orderRef;
             AStr (fmtSide side); AInt shares; AStr (fmtPrice4 price); AInt matchNum]]).

Definition decodeMessage (body : list Z) : option (list printed) :=
  match body with
  | [] => Some []
  | msgType :: _ =>
      if msgType =? 83 then decodeSystemEvent body
      else if msgType =? 82 then decodeStockDirectory body
      else if msgType =? 72 then decodeStockTradingAction body
      else if msgType =? 65 then decodeAddOrder body
      else if msgType =? 70 then decodeAddOrderMPID body
      else if msgType =? 69 then decodeOrderExecuted body
      else if msgType =? 88 then decodeOrderCancel body
      else if msgType =? 68 then decodeOrderDelete body
      else if msgType =? 85 then decodeOrderReplace body
      else if msgType =? 80 then decodeTrade body
      else Some [Printf "UNKNOWN  type=%c (0x%02x) len=%d\n"
                   [AInt msgType; AInt msgType; AInt (Z.of_nat (length body))]]
  end.

(** ** Frames *)

(** The text [printHex] builds; the line break and indent come before every
    sixteenth byte but the first. *)
Definition hex_indent : string := String "010"%char "              "%string.
Fixpoint hex_text (i : nat) (data : list Z) : string :=
  match data with
  | [] => EmptyString
  | b :: data' =>
      ((if bool_decide (0 < i)%nat && bool_decide (i `mod` 16 = 0)%nat then hex_indent
        else EmptyString) +:+ fmt_02x b +:+ " " +:+ hex_text (S i) data')%string
  end.
Definition printHex (data : list Z) : printed := Println ("         hex: " +:+ hex_text 0 data).

Definition hex_if (showHex : bool) (data : list Z) : list printed :=
  if showHex then [printHex data] else [].

(** The loop over concatenated frames, from [offset] on: what it prints and
    whether it [decoded] a message.  [None] also when [fuel] runs out. *)
Fixpoint frames_loop (fuel : nat) (showHex : bool) (data : list Z) (offset : nat)
    (decoded : bool) : option (list printed * bool) :=
  if decide (offset + 2 < length data)%nat then
    match fuel with
    | O => None
    | S fuel' =>
        frameLen ← Z.to_nat <$> Uint data offset (offset + 2);
        if decide (frameLen = 0%nat ∨ length data < offset + 2 + frameLen)%nat
        then Some ([], decoded)
        else
          body ← slice data (offset + 2) (offset + 2 + frameLen);
          frame ← slice data offset (offset + 2 + frameLen);
          out ← decodeMessage body;
          '(outs, d) ← frames_loop fuel' showHex data (offset + 2 + frameLen) true;
          Some (hex_if showHex frame ++ out ++ outs, d)
    end
  else Some ([], decoded).

Definition decodeBinaryFrames (data : list Z) (showHex : bool) : option (list printed) :=
  if decide (length data < 2)%nat
  then Some [Printf "??? short frame (%d bytes)\n" [AInt (Z.of_nat (length data))]]
  else
    frameLen ← Z.to_nat <$> Uint data 0 2;
    if decide (frameLen + 2 = length data)%nat then
      body ← slice data 2 (length data);
      out ← decodeMessage body;
      Some (hex_if showHex data ++ out)
    else
      '(outs, decoded) ← frames_loop (length data) showHex data 0 false;
      if (decoded : bool) then Some outs
      else
        out ← decodeMessage data;
        Some (outs ++ hex_if showHex data ++ out).
