(* ===== verification/ItchProps.v ===== *)
(** * Properties of the ITCH encoder and of the command-line decoder

    What [decodeBinaryFrames] prints for the bytes [EncodeBinary] produces: one
    line per message, with the fields of the message.  [shown] is that line,
    written from the message and not from bytes. *)
From stdpp Require Import pretty.
From S2P Require Import Prelude Word Float64 Itch Decoder.

Local Open Scope Z_scope.

(** ** Writes into and reads from a buffer *)

Create HintDb bytes.
Create Rewrite HintDb bytes.

Lemma put_app off bs buf :
  (off + length bs ≤ length buf)%nat →
  put off bs buf = take off buf ++ bs ++ drop (off + length bs) buf.
Proof.
  intros Hlen. unfold put. apply list_eq. intros i.
  destruct (decide (i < off)%nat) as [|].
  { rewrite list_lookup_inserts_lt by done.
    rewrite lookup_app_l by (rewrite length_take; lia). by rewrite lookup_take_lt. }
  rewrite lookup_app_r by (rewrite length_take; lia).
  rewrite length_take, Nat.min_l by lia.
  destruct (decide (i < off + length bs)%nat) as [|].
  { rewrite list_lookup_inserts by lia. by rewrite lookup_app_l by lia. }
  rewrite list_lookup_inserts_ge by lia. rewrite lookup_app_r by lia.
  rewrite lookup_drop. f_equal. lia.
Qed.

Lemma length_put off bs buf : length (put off bs buf) = length buf.
Proof. apply length_inserts. Qed.

Lemma slice_some b lo hi :
  (lo ≤ hi ≤ length b)%nat → slice b lo hi = Some (take (hi - lo) (drop lo b)).
Proof. intros ?. unfold slice. by rewrite decide_True. Qed.

Lemma slice_put_same off bs buf hi :
  hi = (off + length bs)%nat → (hi ≤ length buf)%nat → slice (put off bs buf) off hi = Some bs.
Proof.
  intros -> ?. rewrite slice_some by (rewrite length_put; lia). f_equal.
  rewrite put_app by done. rewrite drop_app_length' by (rewrite length_take; lia).
  by rewrite take_app_length' by lia.
Qed.

Lemma slice_put_other off bs buf lo hi :
  (hi ≤ off ∨ off + length bs ≤ lo)%nat → slice (put off bs buf) lo hi = slice buf lo hi.
Proof.
  intros Hd. unfold slice. rewrite length_put.
  destruct (decide _) as [Hr|]; [|done]. f_equal. apply list_eq. intros i.
  destruct (decide (i < hi - lo)%nat); [|by rewrite !lookup_take_ge by lia].
  rewrite !lookup_take_lt, !lookup_drop by lia. unfold put.
  destruct Hd; [rewrite list_lookup_inserts_lt by lia|rewrite list_lookup_inserts_ge by lia]; done.
Qed.

Lemma lookup_put_same off b buf :
  (off < length buf)%nat → put off [b] buf !! off = Some b.
Proof. intros ?. unfold put. rewrite list_lookup_inserts by (simpl; lia). by rewrite Nat.sub_diag. Qed.

Lemma lookup_put_other off bs buf i :
  (i < off ∨ off + length bs ≤ i)%nat → put off bs buf !! i = buf !! i.
Proof.
  intros [?|?]; unfold put;
    [by rewrite list_lookup_inserts_lt by lia|by rewrite list_lookup_inserts_ge by lia].
Qed.

Lemma length_pad_array n s : length (pad_array n s) = n.
Proof. unfold pad_array. by rewrite !length_put, length_replicate. Qed.

(** The padded array is the first [n] bytes followed by spaces. *)
Lemma pad_array_spec n s :
  pad_array n s = take n (bytes_of_string s) ++ replicate (n - String.length s) 32.
Proof.
  unfold pad_array. rewrite <- length_bytes_of_string.
  set (b := bytes_of_string s). rewrite (put_app 0) by (rewrite length_take, length_replicate; lia).
  rewrite take_0, app_nil_l. simpl. rewrite length_take, drop_replicate.
  destruct (decide (n ≤ length b)%nat).
  - replace (n - length b)%nat with 0%nat by lia. rewrite Nat.min_l, Nat.sub_diag by lia.
    simpl. unfold put. simpl. done.
  - rewrite put_app by (rewrite length_app, length_take, !length_replicate; lia).
    rewrite (take_ge b) by lia. rewrite Nat.min_r by lia.
    rewrite take_app_length, length_replicate.
    rewrite drop_ge by (rewrite length_app, length_replicate; lia). by rewrite app_nil_r.
Qed.

Lemma trim_right_app_spaces bs n : trim_right (bs ++ replicate n 32) = trim_right bs.
Proof.
  induction bs as [|b bs IH]; simpl; [|by rewrite IH].
  induction n as [|n IH]; simpl; [done|]. by rewrite IH.
Qed.

Lemma readStock_pad n s :
  readStock (pad_array n s) = string_of_bytes (trim_right (take n (bytes_of_string s))).
Proof. unfold readStock. by rewrite pad_array_spec, trim_right_app_spaces. Qed.

(** A timestamp is six bytes wide. *)
Lemma putTimestamp_put off ts buf : putTimestamp off ts buf = put off (put_uint 6 ts) buf.
Proof. unfold putTimestamp, put_uint. by rewrite Z.shiftr_0_r. Qed.

Lemma readTimestamp_get bs : length bs = 6%nat → readTimestamp bs = Some (get_uint bs).
Proof.
  intros Hl. do 6 (destruct bs as [|? bs]; [done|]). destruct bs; [|done].
  unfold readTimestamp. f_equal. cbn [get_uint length]. simpl (8 * Z.of_nat _).
  by rewrite Z.shiftl_0_r, Z.lor_0_r, !Z.lor_assoc.
Qed.

(** Lengths of the pieces, and the reads that look through the writes. *)
Ltac len := repeat rewrite ?length_put, ?length_put_uint, ?length_pad_array, ?length_replicate;
  simpl; lia.
Ltac read_field :=
  repeat first
    [ rewrite slice_put_same by len
    | rewrite slice_put_other by len
    | rewrite lookup_put_same by len
    | rewrite lookup_put_other by len ].

(** ** What the decoder shows *)

(** The ranges of the fields' Go types; a timestamp, an [int64], must also fit
    the six bytes of the wire format, which a time of day does. *)
Record msg_ok (m : Message.t) : Prop := {
  ok_locate : is_u 16 m.(Message.StockLocate);
  ok_timestamp : is_u 48 m.(Message.Timestamp);
  ok_ref : is_u 64 m.(Message.OrderRef);
  ok_orig : is_u 64 m.(Message.OrigOrderRef);
  ok_match : is_u 64 m.(Message.MatchNumber);
}.

Lemma day_fits now : is_u 48 (NanosFromMidnight now).
Proof.
  unfold NanosFromMidnight, is_u.
  pose proof (Z.mod_pos_bound now 86400000000000 ltac:(lia)). simpl. lia.
Qed.

Definition shown_stock (n : nat) (s : string) : arg :=
  AStr (string_of_bytes (trim_right (take n (bytes_of_string s)))).

(** A name that fits its field and does not end in a space is shown as it is. *)
Lemma shown_stock_id n s :
  (String.length s ≤ n)%nat → trim_right (bytes_of_string s) = bytes_of_string s →
  shown_stock n s = AStr s.
Proof.
  intros Hn Ht. unfold shown_stock.
  rewrite take_ge by (by rewrite length_bytes_of_string).
  by rewrite Ht, string_of_bytes_of_string.
Qed.

(** The line for a message, from its fields. *)
Definition shown (m : Message.t) : list printed :=
  let ty := m.(Message.Type_) in
  let ts := AStr (fmtTimestamp m.(Message.Timestamp)) in
  let locate := AInt m.(Message.StockLocate) in
  let stock := shown_stock 8 m.(Message.Stock) in
  let ref := AInt m.(Message.OrderRef) in
  let side := AStr (fmtSide m.(Message.Side)) in
  let shares := AInt (to_u32 m.(Message.Shares)) in
  let price := AStr (fmtPrice4 (Price4 m.(Message.Price))) in
  let mn := AInt m.(Message.MatchNumber) in
  if ty =? MsgSystemEvent then
    [Printf "SYSTEM   %s  locate=%d  event=%s\n"
       [ts; locate; AStr (eventName m.(Message.EventCode))]]
  else if ty =? MsgStockDirectory then
    [Printf "STOCKDIR %s  locate=%-3d  stock=%-8s  mktCat=%c  finStatus=%c  lotSize=%d\n"
       [ts; locate; stock; AInt m.(Message.MarketCategory); AInt m.(Message.FinancialStatus);
        AInt (to_u32 m.(Message.RoundLotSize))]]
  else if ty =? MsgStockTradingAction then
    [Printf "TRADING  %s  locate=%-3d  stock=%-8s  state=%s\n"
       [ts; locate; stock; AStr (stateName m.(Message.TradingState))]]
  else if ty =? MsgAddOrder then
    [Printf "ADD      %s  locate=%-3d  stock=%-8s  ref=%-10d  %4s  %5d @ %s\n"
       [ts; locate; stock; ref; side; shares; price]]
  else if ty =? MsgAddOrderMPID then
    [Printf "ADD+MPID %s  locate=%-3d  stock=%-8s  ref=%-10d  %4s  %5d @ %s  mpid=%s\n"
       [ts; locate; stock; ref; side; shares; price; shown_stock 4 m.(Message.MPID)]]
  else if ty =? MsgOrderExecuted then
    [Printf "EXEC     %s  locate=%-3d  ref=%-10d  shares=%5d  match=%d\n"
       [ts; locate; ref; shares; mn]]
  else if ty =? MsgOrderCancel then
    [Printf "CANCEL   %s  locate=%-3d  ref=%-10d  cancelled=%d\n" [ts; locate; ref; shares]]
  else if ty =? MsgOrderDelete then
    [Printf "DELETE   %s  locate=%-3d  ref=%d\n" [ts; locate; ref]]
  else if ty =? MsgOrderReplace then
    [Printf "REPLACE  %s  locate=%-3d  orig=%-10d  new=%-10d  %5d @ %s\n"
       [ts; locate; AInt m.(Message.OrigOrderRef); ref; shares; price]]
  else if ty =? MsgTrade then
    [Printf "TRADE    %s  locate=%-3d  stock=%-8s  ref=%-10d  %4s  %5d @ %s  match=%d\n"
       [ts; locate; stock; ref; side; shares; price; mn]]
  else [].

(** ** Decoding one body *)

Lemma Price4_range p : is_u 32 (Price4 p).
Proof. by apply uwrap_range. Qed.

Lemma get_u32 x : get_uint (put_uint 4 (to_u32 x)) = to_u32 x.
Proof. apply (get_put_uint_id 4). by apply uwrap_range. Qed.

(** Run a decoder on the bytes an encoder wrote. *)
Ltac decode_body :=
  unfold truncated, PadStock, PadMPID; rewrite decide_False by (unfold put_header; rewrite ?putTimestamp_put; len);
  unfold Uint, put_header; rewrite ?putTimestamp_put; read_field;
  cbn [mbind option_bind fmap option_fmap option_map];
  rewrite ?readTimestamp_get by apply length_put_uint;
  cbn [mbind option_bind fmap option_fmap option_map];
  rewrite ?readStock_pad, ?get_u32;
  rewrite ?(get_put_uint_id 2), ?(get_put_uint_id 6), ?(get_put_uint_id 8),
    ?(get_put_uint_id 4) by (done || apply Price4_range).

Section decode.
Context (m : Message.t) (Hm : msg_ok m).
Let Hl := ok_locate m Hm.
Let Ht := ok_timestamp m Hm.
Let Hr := ok_ref m Hm.
Let Ho := ok_orig m Hm.
Let Hn := ok_match m Hm.

Lemma decode_system_event :
  decodeSystemEvent (encodeSystemEvent m) = Some (shown (Message.set_Type_ MsgSystemEvent m)).
Proof using All. unfold decodeSystemEvent, encodeSystemEvent. by decode_body. Qed.

Lemma decode_stock_directory :
  decodeStockDirectory (encodeStockDirectory m)
  = Some (shown (Message.set_Type_ MsgStockDirectory m)).
Proof using All. unfold decodeStockDirectory, encodeStockDirectory. by decode_body. Qed.

Lemma decode_trading_action :
  decodeStockTradingAction (encodeStockTradingAction m)
  = Some (shown (Message.set_Type_ MsgStockTradingAction m)).
Proof using All. unfold decodeStockTradingAction, encodeStockTradingAction. by decode_body. Qed.

Lemma decode_add_order :
  decodeAddOrder (encodeAddOrder m) = Some (shown (Message.set_Type_ MsgAddOrder m)).
Proof using All. unfold decodeAddOrder, encodeAddOrder. by decode_body. Qed.

Lemma decode_add_order_mpid :
  decodeAddOrderMPID (encodeAddOrderMPID m)
  = Some (shown (Message.set_Type_ MsgAddOrderMPID m)).
Proof using All. unfold decodeAddOrderMPID, encodeAddOrderMPID. by decode_body. Qed.

Lemma decode_order_executed :
  decodeOrderExecuted (encodeOrderExecuted m)
  = Some (shown (Message.set_Type_ MsgOrderExecuted m)).
Proof using All. unfold decodeOrderExecuted, encodeOrderExecuted. by decode_body. Qed.

Lemma decode_order_cancel :
  decodeOrderCancel (encodeOrderCancel m)
  = Some (shown (Message.set_Type_ MsgOrderCancel m)).
Proof using All. unfold decodeOrderCancel, encodeOrderCancel. by decode_body. Qed.

Lemma decode_order_delete :
  decodeOrderDelete (encodeOrderDelete m)
  = Some (shown (Message.set_Type_ MsgOrderDelete m)).
Proof using All. unfold decodeOrderDelete, encodeOrderDelete. by decode_body. Qed.

Lemma decode_order_replace :
  decodeOrderReplace (encodeOrderReplace m)
  = Some (shown (Message.set_Type_ MsgOrderReplace m)).
Proof using All. unfold decodeOrderReplace, encodeOrderReplace. by decode_body. Qed.

Lemma decode_trade :
  decodeTrade (encodeTrade m) = Some (shown (Message.set_Type_ MsgTrade m)).
Proof using All. unfold decodeTrade, encodeTrade. by decode_body. Qed.
End decode.

(** ** Bodies and frames *)

(** The sizes of the wire format. *)
Definition body_size (ty : Z) : option nat :=
  if ty =? MsgSystemEvent then Some 12%nat
  else if ty =? MsgStockDirectory then Some 39%nat
  else if ty =? MsgStockTradingAction then Some 25%nat
  else if ty =? MsgAddOrder then Some 36%nat
  else if ty =? MsgAddOrderMPID then Some 40%nat
  else if ty =? MsgOrderExecuted then Some 31%nat
  else if ty =? MsgOrderCancel then Some 23%nat
  else if ty =? MsgOrderDelete then Some 19%nat
  else if ty =? MsgOrderReplace then Some 35%nat
  else if ty =? MsgTrade then Some 44%nat
  else None.

(** Case analysis on the ten types, in the goal. *)
Tactic Notation "each_type" constr(ty) "as" ident(Hty) :=
  repeat (case (Z.eqb_spec ty _); [intros Hty|intros _]); try done.

Ltac unfold_encoders :=
  unfold encodeSystemEvent, encodeStockDirectory, encodeStockTradingAction, encodeAddOrder,
    encodeAddOrderMPID, encodeOrderExecuted, encodeOrderCancel, encodeOrderDelete,
    encodeOrderReplace, encodeTrade, PadStock, PadMPID, put_header;
  rewrite ?putTimestamp_put.

Lemma uwrap8_type ty : body_size ty ≠ None → to_u8 ty = ty.
Proof. unfold body_size. by each_type ty as Hty; rewrite Hty. Qed.

Lemma encode_body_type m body :
  encode_body m = Some body →
  body !! 0%nat = Some (to_u8 m.(Message.Type_)) ∧ body_size m.(Message.Type_) = Some (length body).
Proof.
  unfold encode_body, body_size.
  each_type (Message.Type_ m) as Hty; intros [= <-]; unfold_encoders; (split; [by read_field|]);
    f_equal; len.
Qed.

Lemma encode_body_locate m body :
  encode_body m = Some body → slice body 1 3 = Some (put_uint 2 m.(Message.StockLocate)).
Proof.
  unfold encode_body.
  each_type (Message.Type_ m) as Hty; intros [= <-]; unfold_encoders; by read_field.
Qed.

Lemma body_size_bounds ty n : body_size ty = Some n → (12 ≤ n ≤ 44)%nat.
Proof. unfold body_size. each_type ty as Hty; intros [= <-]; lia. Qed.

(** The switch of [decodeMessage], on the first byte. *)
Lemma decodeMessage_head body ty :
  body !! 0%nat = Some ty →
  decodeMessage body =
    if ty =? 83 then decodeSystemEvent body
    else if ty =? 82 then decodeStockDirectory body
    else if ty =? 72 then decodeStockTradingAction body
    else if ty =? 65 then decodeAddOrder body
    else if ty =? 70 then decodeAddOrderMPID body
    else if ty =? 69 then decodeOrderExecuted body
    else if ty =? 88 then decodeOrderCancel body
    else if ty =? 68 then decodeOrderDelete body
    else if ty =? 85 then decodeOrderReplace body
    else if ty =? 80 then decodeTrade body
    else Some [Printf "UNKNOWN  type=%c (0x%02x) len=%d\n"
                 [AInt ty; AInt ty; AInt (Z.of_nat (length body))]].
Proof. destruct body; [done|]. by intros [= ->]. Qed.

Lemma encode_body_prefix m body :
  encode_body m = Some body →
  ∃ b1 rest, body = to_u8 m.(Message.Type_) :: b1 :: rest ∧ is_u 8 b1.
Proof.
  intros H. destruct (encode_body_type m body H) as [Hh Hs].
  pose proof (encode_body_locate m body H) as Hloc. apply body_size_bounds in Hs.
  rewrite slice_some in Hloc by lia.
  destruct body as [|b0 [|b1 rest]]; [simpl in Hs; lia..|]. injection Hh as ->.
  destruct rest; [done|]. injection Hloc as -> _. do 2 eexists. split; [done|].
  by apply uwrap_range.
Qed.

Lemma set_Type_id m ty : m.(Message.Type_) = ty → Message.set_Type_ ty m = m.
Proof. intros <-. by destruct m. Qed.

Lemma decodeMessage_body m body :
  msg_ok m → encode_body m = Some body → decodeMessage body = Some (shown m).
Proof.
  intros Hm H. destruct (encode_body_type m body H) as [Hh Hs].
  rewrite uwrap8_type in Hh by congruence. clear Hs.
  revert H. unfold encode_body.
  each_type (Message.Type_ m) as Hty; intros H; rewrite <- (set_Type_id m _ Hty);
    rewrite Hty in Hh; rewrite (decodeMessage_head body _ Hh); apply Some_inj in H; subst body.
  - by apply decode_system_event.
  - by apply decode_stock_directory.
  - by apply decode_trading_action.
  - by apply decode_add_order.
  - by apply decode_add_order_mpid.
  - by apply decode_order_executed.
  - by apply decode_order_cancel.
  - by apply decode_order_delete.
  - by apply decode_order_replace.
  - by apply decode_trade.
Qed.

(** ** Frames *)

Definition frame_of (body : list Z) : list Z :=
  put_uint 2 (to_u16 (Z.of_nat (length body))) ++ body.

Lemma EncodeBinary_frame m : EncodeBinary m = frame_of <$> encode_body m.
Proof. unfold EncodeBinary. by destruct (encode_body m). Qed.

Lemma length_frame_of body : length (frame_of body) = (2 + length body)%nat.
Proof. unfold frame_of. by rewrite length_app, length_put_uint. Qed.

(** Reads at an offset, of data split there. *)
Lemma slice_app pre mid post lo hi :
  lo = length pre → hi = (length pre + length mid)%nat → slice (pre ++ mid ++ post) lo hi = Some mid.
Proof.
  intros -> ->. rewrite slice_some by (rewrite !length_app; lia).
  rewrite drop_app_length, take_app_length'; [done|lia].
Qed.

Lemma Uint_frame pre body post :
  Z.of_nat (length body) < 65536 →
  Uint (pre ++ frame_of body ++ post) (length pre) (length pre + 2) = Some (Z.of_nat (length body)).
Proof.
  intros Hb. unfold Uint, frame_of. rewrite <- app_assoc.
  rewrite slice_app by (rewrite ?length_put_uint; lia). cbn [fmap option_fmap option_map]. f_equal.
  rewrite (get_put_uint_id 2); rewrite uwrap_id; unfold is_u; simpl; lia.
Qed.

Lemma slice_body pre body post :
  slice (pre ++ frame_of body ++ post) (length pre + 2) (length pre + 2 + length body) = Some body.
Proof.
  unfold frame_of. rewrite <- app_assoc, (app_assoc pre).
  by rewrite slice_app by (rewrite length_app, length_put_uint; lia).
Qed.

Lemma slice_frame pre body post :
  slice (pre ++ frame_of body ++ post) (length pre) (length pre + 2 + length body)
  = Some (frame_of body).
Proof. by rewrite slice_app by (rewrite ?length_frame_of; lia). Qed.

Section stream.
Context (outs : list Z → list printed).

(** A body the decoder accepts, short enough for its length prefix. *)
Definition body_ok (body : list Z) : Prop :=
  decodeMessage body = Some (outs body) ∧ 0 < Z.of_nat (length body) < 65536.

Lemma frames_loop_spec bodies fuel pre d :
  Forall body_ok bodies → (length (concat (frame_of <$> bodies)) ≤ fuel)%nat →
  frames_loop fuel false (pre ++ concat (frame_of <$> bodies)) (length pre) d
  = Some (concat (outs <$> bodies), d || bool_decide (bodies ≠ [])).
Proof.
  intros Hok. revert fuel pre d.
  induction Hok as [|b bodies [Hb Hlen] Hok IH]; intros fuel pre d Hfuel.
  { cbn. rewrite app_nil_r. destruct fuel; simpl; rewrite decide_False by lia;
      by rewrite orb_false_r. }
  cbn [fmap list_fmap concat] in *. rewrite length_app, length_frame_of in Hfuel.
  destruct fuel as [|fuel]; [lia|]. cbn [frames_loop].
  rewrite decide_True by (rewrite !length_app, length_frame_of; lia).
  rewrite Uint_frame by lia. cbn [fmap option_fmap option_map mbind option_bind].
  rewrite Nat2Z.id, decide_False by (rewrite !length_app, length_frame_of; lia).
  rewrite slice_body, slice_frame.
  cbn [mbind option_bind]. rewrite Hb. cbn [mbind option_bind].
  rewrite app_assoc. specialize (IH fuel (pre ++ frame_of b) true ltac:(lia)).
  rewrite length_app, length_frame_of in IH. rewrite Nat.add_assoc in IH.
  rewrite IH. cbn. by rewrite orb_true_r.
Qed.

Lemma decodeBinaryFrames_stream bodies :
  Forall body_ok bodies → bodies ≠ [] →
  decodeBinaryFrames (concat (frame_of <$> bodies)) false = Some (concat (outs <$> bodies)).
Proof.
  intros Hok Hne. pose proof (frames_loop_spec bodies (length (concat (frame_of <$> bodies)))
    [] false Hok ltac:(lia)) as Hloop.
  destruct bodies as [|b bodies]; [done|]. inversion Hok as [|? ? [Hb Hlen] Hok']; subst.
  unfold decodeBinaryFrames. cbn [fmap list_fmap concat app length] in *.
  rewrite decide_False by (rewrite length_app, length_frame_of; lia).
  pose proof (Uint_frame [] b (concat (frame_of <$> bodies)) ltac:(lia)) as Hu.
  cbn [app length Nat.add] in Hu. rewrite Hu. cbn [fmap option_fmap option_map mbind option_bind].
  rewrite Nat2Z.id. destruct (decide _) as [Heq|_]; [|by rewrite Hloop].
  rewrite length_app, length_frame_of in Heq.
  destruct bodies as [|b2 bodies]; cbn [fmap list_fmap concat] in *.
  - assert (Hs : slice (frame_of b) 2 (2 + length b) = Some b).
    { rewrite <- (app_nil_r (frame_of b)). apply (slice_body [] b []). }
    rewrite !app_nil_r, length_frame_of, Hs. cbn. by rewrite Hb.
  - rewrite length_app, length_frame_of in Heq. lia.
Qed.
End stream.

Lemma encoded_body_ok ms frames :
  Forall msg_ok ms → mapM EncodeBinary ms = Some frames →
  ∃ bodies, frames = frame_of <$> bodies ∧
    Forall2 (λ m b, encode_body m = Some b ∧ decodeMessage b = Some (shown m)
                     ∧ (12 ≤ length b ≤ 44)%nat) ms bodies.
Proof.
  intros Hok. revert frames. induction Hok as [|m ms Hm _ IH]; intros frames; cbn.
  { intros [= <-]. exists []. by split. }
  rewrite EncodeBinary_frame. destruct (encode_body m) as [b|] eqn:Hb; [|done]. cbn.
  destruct (mapM _ ms) as [fs|]; [|done]. cbn. intros [= <-].
  destruct (IH fs eq_refl) as (bodies & -> & Hall). exists (b :: bodies). split; [done|].
  constructor; [|done]. split_and!; [done|by apply decodeMessage_body| |];
    destruct (encode_body_type m b Hb) as [_ Hs]; apply body_size_bounds in Hs; lia.
Qed.

(** Messages for the concrete instances. *)
Definition demo_add : Message.t :=
  Message.set_Price (dec 12550 2) (Message.set_Shares 300 (Message.set_Side 66
    (Message.set_OrderRef 7 (Message.set_Stock "NEXO" (Message.set_StockLocate 258
      (Message.set_Timestamp 34200000000000 (Message.set_Type_ MsgAddOrder Message.zero))))))).
Definition demo_exec : Message.t :=
  Message.set_MatchNumber 3 (Message.set_Shares 100 (Message.set_OrderRef 7
    (Message.set_StockLocate 258 (Message.set_Type_ MsgOrderExecuted Message.zero)))).
Definition demo_frames : list (list Z) :=
  Eval vm_compute in default [] (mapM EncodeBinary [demo_add; demo_exec]).

Lemma demo_ok : Forall msg_ok [demo_add; demo_exec].
Proof. repeat constructor; vm_compute; done. Qed.

(** ** The decoder never panics *)

Lemma slice_is_Some b lo hi : (lo ≤ hi ≤ length b)%nat → ∃ s, slice b lo hi = Some s ∧ length s = (hi - lo)%nat.
Proof.
  intros ?. rewrite slice_some by done. eexists. split; [done|].
  rewrite length_take, length_drop. lia.
Qed.

Lemma lookup_is_Some_lt {A} (b : list A) i : (i < length b)%nat → ∃ x, b !! i = Some x.
Proof. apply lookup_lt_is_Some. Qed.

(** Read every field of a body known to be long enough. *)
Ltac read_all b :=
  repeat match goal with
    | |- context [slice b ?lo ?hi] =>
        let s := fresh "s" in let Hs := fresh "Hs" in let Hl := fresh "Hl" in
        destruct (slice_is_Some b lo hi ltac:(lia)) as (s & Hs & Hl); rewrite Hs;
        cbn [fmap option_fmap option_map mbind option_bind];
        try (rewrite (readTimestamp_get s) by (rewrite Hl; lia);
             cbn [fmap option_fmap option_map mbind option_bind])
    | |- context [b !! ?i] =>
        let x := fresh "x" in let Hx := fresh "Hx" in
        destruct (lookup_is_Some_lt b i ltac:(lia)) as (x & Hx); rewrite Hx;
        cbn [fmap option_fmap option_map mbind option_bind]
    end.

Lemma truncated_is_Some fmt n b rest :
  ((n ≤ length b)%nat → is_Some rest) → is_Some (truncated fmt n b rest).
Proof. intros H. unfold truncated. case_decide; [done|]. apply H. lia. Qed.

Lemma decodeMessage_total body : is_Some (decodeMessage body).
Proof.
  destruct (body !! 0%nat) as [ty|] eqn:H0; [|by destruct body].
  rewrite (decodeMessage_head _ _ H0).
  repeat case_match; try done;
    unfold decodeSystemEvent, decodeStockDirectory, decodeStockTradingAction, decodeAddOrder,
      decodeAddOrderMPID, decodeOrderExecuted, decodeOrderCancel, decodeOrderDelete,
      decodeOrderReplace, decodeTrade;
    apply truncated_is_Some; intros Hlen; unfold Uint; read_all body; done.
Qed.

Lemma frames_loop_total fuel h data offset d :
  (length data ≤ offset + fuel)%nat → is_Some (frames_loop fuel h data offset d).
Proof.
  revert offset d. induction fuel as [|fuel IH]; intros offset d Hf; cbn [frames_loop].
  { rewrite decide_False by lia. done. }
  case_decide as Hlt; [|done]. unfold Uint.
  destruct (slice_is_Some data offset (offset + 2) ltac:(lia)) as (p & -> & _).
  cbn [fmap option_fmap option_map mbind option_bind].
  case_decide as Hstop; [done|]. read_all data.
  destruct (decodeMessage_total s0) as [out ->]. cbn [mbind option_bind].
  edestruct (IH (offset + 2 + Z.to_nat (get_uint p))%nat true) as [[outs d'] ->]; [lia|]. done.
Qed.

(** C40. The decoder is total: on every frame a server may send, of any bytes,
    with or without the hex dump, the loop over concatenated frames ends and no
    index or slice is out of range, so [decodeBinaryFrames] prints and returns. *)
Theorem decoder_total (data : list Z) (showHex : bool) :
  is_Some (decodeBinaryFrames data showHex).
Proof.
  unfold decodeBinaryFrames. case_decide as Hs; [done|]. unfold Uint.
  destruct (slice_is_Some data 0 2 ltac:(lia)) as (p & -> & _).
  cbn [fmap option_fmap option_map mbind option_bind].
  case_decide as Hl.
  - read_all data. by destruct (decodeMessage_total s) as [out ->].
  - destruct (frames_loop_total (length data) showHex data 0 false ltac:(lia)) as [[outs d] ->].
    cbn [mbind option_bind]. destruct d; [done|].
    by destruct (decodeMessage_total data) as [out ->].
Qed.

(** The wire format: [EncodeBinary] yields a frame for exactly the ten
    message types; the frame is the two-byte big-endian length of the body
    followed by the body, whose size is the type's and whose first byte is the
    type. *)
Theorem EncodeBinary_spec (m : Message.t) :
  match body_size m.(Message.Type_) with
  | None => EncodeBinary m = None
  | Some n =>
      ∃ body, EncodeBinary m = Some (put_uint 2 (Z.of_nat n) ++ body) ∧ length body = n ∧
        body !! 0%nat = Some m.(Message.Type_) ∧
        get_uint (put_uint 2 (Z.of_nat n)) = Z.of_nat n
  end.
Proof.
  rewrite EncodeBinary_frame. destruct (encode_body m) as [body|] eqn:Hb.
  - destruct (encode_body_type m body Hb) as [Hh Hs]. rewrite Hs.
    pose proof (body_size_bounds _ _ Hs). rewrite uwrap8_type in Hh by congruence.
    assert (is_u 16 (Z.of_nat (length body))) by (unfold is_u; simpl; lia).
    exists body. unfold frame_of. cbn [fmap option_fmap option_map]. rewrite uwrap_id by done.
    split_and!; try done. by apply (get_put_uint_id 2).
  - assert (Hs : body_size (Message.Type_ m) = None).
    { revert Hb. unfold encode_body, body_size. by each_type (Message.Type_ m) as Hty. }
    by rewrite Hs.
Qed.

Lemma decode_frames ms frames :
  ms ≠ [] → Forall msg_ok ms → mapM EncodeBinary ms = Some frames →
  decodeBinaryFrames (concat frames) false = Some (concat (shown <$> ms)).
Proof.
  intros Hne Hok Henc.
  destruct (encoded_body_ok ms frames Hok Henc) as (bodies & -> & Hall).
  rewrite (decodeBinaryFrames_stream (λ b, default [] (decodeMessage b))).
  - do 2 f_equal. clear Hne Hok Henc. induction Hall as [|m b ms bs (? & Hd & ?) _ IH]; [done|].
    cbn. by rewrite Hd, IH.
  - clear -Hall. induction Hall as [|m b ms bs (? & Hd & ?) _ IH]; constructor; [|done].
    split; [by rewrite Hd|lia].
  - intros ->. by inversion Hall; subst.
Qed.

(** C18. Round trip on the wire: the frames of any non-empty sequence of
    messages, concatenated in one WebSocket frame, are decoded to one line per
    message, in order, that shows the message's fields. *)
Theorem decode_stream (ms : list Message.t) (frames : list (list Z))
    (Hne : ms ≠ []) (Hok : Forall msg_ok ms) (Henc : mapM EncodeBinary ms = Some frames) :
  decodeBinaryFrames (concat frames) false = Some (concat (shown <$> ms)).
Proof. by apply decode_frames. Qed.

Lemma decode_stream_witness :
  decodeBinaryFrames (concat demo_frames) false = Some (concat (shown <$> [demo_add; demo_exec])).
Proof.
  apply (decode_stream [demo_add; demo_exec] demo_frames); [done|apply demo_ok|by vm_compute].
Defined.

(** The fallback: a message body sent without its length prefix is decoded
    like the framed message, whatever the message, because no body starts with
    two bytes that read as a length that fits. *)
Theorem decode_raw_body (m : Message.t) (body : list Z)
    (Hm : msg_ok m) (Henc : encode_body m = Some body) :
  decodeBinaryFrames body false = Some (shown m).
Proof.
  pose proof (decodeMessage_body m body Hm Henc) as Hd.
  destruct (encode_body_type m body Henc) as [Hh Hs].
  pose proof (body_size_bounds _ _ Hs) as Hlen. rewrite uwrap8_type in Hh by congruence.
  assert (Hty : 65 ≤ m.(Message.Type_)).
  { revert Hs. unfold body_size. each_type (Message.Type_ m) as Hty; rewrite Hty; done. }
  destruct (encode_body_prefix m body Henc) as (b1 & rest & -> & Hb1).
  rewrite uwrap8_type in * by congruence.
  cbn [length] in *. unfold is_u in Hb1.
  assert (HU : Uint (m.(Message.Type_) :: b1 :: rest) 0 2 = Some (m.(Message.Type_) * 2 ^ 8 + b1)).
  { unfold Uint. rewrite slice_some by (simpl; lia). simpl. f_equal.
    rewrite Z.shiftl_0_r, Z.lor_0_r. by apply lor_disjoint. }
  unfold decodeBinaryFrames. rewrite decide_False by (simpl; lia).
  rewrite HU. cbn [fmap option_fmap option_map mbind option_bind].
  rewrite decide_False by (simpl length; lia).
  cbn [frames_loop length Nat.add]. rewrite decide_True by lia.
  rewrite HU. cbn [fmap option_fmap option_map mbind option_bind].
  rewrite decide_True by (right; lia). cbn [mbind option_bind]. by rewrite Hd.
Qed.

Lemma decode_raw_body_witness : decodeBinaryFrames (encodeAddOrder demo_add) false = Some (shown demo_add).
Proof.
  apply (decode_raw_body demo_add); [|done].
  pose proof demo_ok as H. by inversion H.
Defined.
