(* ===== verification/Simulator.v ===== *)
(** * internal/orderbook/simulator.go

    The state of a [Simulator] is its generator and its book; the locate code
    and the tick size never change.  A method runs the generator's and the
    book's methods on their parts of the state and returns the messages. *)
From S2P Require Import Prelude Word Float64 Rng Book Itch.

Local Open Scope Z_scope.

Definition actionWeights : list float64 := [dec 30 2; dec 20 2; dec 15 2; dec 15 2; dec 20 2].

Definition actionAdd : Z := 0.
Definition actionCancel : Z := 1.
Definition actionReplace : Z := 2.
Definition actionTrade : Z := 3.
Definition actionReplenish : Z := 4.

Definition mpids : list string :=
  ["GSCO"; "MSCO"; "JPMS"; "CITI"; "BARK"; "SUSQ"; "VIRT"; "CITD"].

Record sim := mkSim { rng : RNG; bk : bstate }.

Definition on_rng {A} (m : go RNG A) : go sim A := zoom rng (λ s r, mkSim r s.(bk)) m.
Definition on_book {A} (m : go bstate A) : go sim A := zoom bk (λ s b, mkSim s.(rng) b) m.
Definition read (p : ptr) : go sim Order.t := gets (λ s, deref s.(bk).(orders) p).

(** A struct literal of type [itch.Message]: the fields it sets. *)
Definition message (fields : list (Message.t → Message.t)) : Message.t :=
  foldr (λ f m, f m) Message.zero fields.

Definition snapPrice (price tickSize : float64) : float64 :=
  (math_Round (price / tickSize) * tickSize)%F.

(** [mpids[rng.Intn(len(mpids))]] with probability [p], the empty MPID else. *)
Definition pick_mpid (p : float64) : go sim string :=
  f ← on_rng Rng.Float64;
  if (f <? p)%F then
    i ← on_rng (Rng.Intn (Z.of_nat (length mpids)));
    match mpids !! Z.to_nat i with
    | Some m => mret m
    | None => panic
    end
  else mret EmptyString.

Section simulator.
Context (locateCode : Z) (tickSize : float64).

Definition makeAddOrderMsg (o : Order.t) : Message.t :=
  message [Message.set_Type_ (if decide (o.(Order.MPID) = EmptyString) then MsgAddOrder
                              else MsgAddOrderMPID);
           Message.set_StockLocate locateCode;
           Message.set_OrderRef o.(Order.ID);
           Message.set_Side o.(Order.Side);
           Message.set_Shares o.(Order.Shares);
           Message.set_Price o.(Order.Price);
           Message.set_MPID o.(Order.MPID)].

Definition delete_msg (id : Z) : Message.t :=
  message [Message.set_Type_ MsgOrderDelete; Message.set_StockLocate locateCode;
           Message.set_OrderRef id].

(** The loop of [addMsgs] over the evicted orders: the deletes, and whether the
    added order is among them. *)
Definition evicted_msgs (o : Order.t) (evicted : list Order.t) : list Message.t * bool :=
  fold_left (λ '(msgs, selfEvicted) e,
    if e.(Order.ID) =? o.(Order.ID) then (msgs, true)
    else (msgs ++ [delete_msg e.(Order.ID)], selfEvicted)) evicted ([], false).

Definition addMsgs (o : ptr) (evicted : list ptr) : go sim (list Message.t) := gets (λ s,
  let h := s.(bk).(orders) in
  let '(msgs, selfEvicted) := evicted_msgs (deref h o) (deref h <$> evicted) in
  if (selfEvicted : bool) then msgs else [makeAddOrderMsg (deref h o)] ++ msgs).

(** One order of [Initialize]. *)
Definition seed_order (side : Z) (price : float64) (j : Z) : go sim (list Message.t) :=
  n ← on_rng (Rng.IntRange 100 1000);
  let shares := to_i32 n in
  let shares := to_i32 (Z.quot shares 100 * 100) in
  id ← on_book NextOrderID;
  mpid ← pick_mpid (dec 3 1);
  let o := Order.mk id locateCode side price shares j mpid in
  p ← on_book (new_order o);
  _ ← on_book (AddOrder p);
  mret [makeAddOrderMsg o].

Definition seed_pair (bidPrice askPrice : float64) (msgs : list Message.t) (j : nat)
    : go sim (list Message.t) :=
  bid ← seed_order SideBuy bidPrice (Z.of_nat j);
  ask ← seed_order SideSell askPrice (Z.of_nat j);
  mret (msgs ++ bid ++ ask).

Definition seed_level (refPrice : float64) (msgs : list Message.t) (level : nat)
    : go sim (list Message.t) :=
  let offset := (float_of_Z (Z.of_nat level + 1) * tickSize)%F in
  let bidPrice := snapPrice (refPrice - offset)%F tickSize in
  let askPrice := snapPrice (refPrice + offset)%F tickSize in
  go_fold (seed_pair bidPrice askPrice) msgs (seq 0 OrdersPerLevel).

Definition Initialize (refPrice : float64) : go sim (list Message.t) :=
  go_fold (seed_level refPrice) [] (seq 0 MaxLevels).

(** [doAdd] and [doReplenish] differ in the offset and size ranges and in the
    share of attributed orders. *)
Definition place_order (currentPrice : float64) (maxOffset minLots : Z) (attributed : float64)
    : go sim (list Message.t) :=
  f ← on_rng Rng.Float64;
  let side := if (f <? dec 5 1)%F then SideSell else SideBuy in
  k ← on_rng (Rng.IntRange 1 maxOffset);
  let offset := (float_of_Z k * tickSize)%F in
  let price := if side =? SideBuy then snapPrice (currentPrice - offset)%F tickSize
               else snapPrice (currentPrice + offset)%F tickSize in
  let price := if (price <? tickSize)%F then tickSize else price in
  lots ← on_rng (Rng.IntRange minLots 10);
  let shares := to_i32 (to_i32 lots * 100) in
  id ← on_book NextOrderID;
  mpid ← pick_mpid attributed;
  p ← on_book (new_order (Order.mk id locateCode side price shares 0 mpid));
  evicted ← on_book (AddOrder p);
  addMsgs p evicted.

Definition doAdd (currentPrice : float64) : go sim (list Message.t) :=
  place_order currentPrice 10 1 (dec 2 1).

Definition doReplenish (currentPrice : float64) : go sim (list Message.t) :=
  place_order currentPrice 5 2 (dec 25 2).

(** The random resting order [doCancel] and [doReplace] pick. *)
Definition pick_order : go sim (option ptr) :=
  totalBid ← on_book TotalBidOrders;
  totalAsk ← on_book TotalAskOrders;
  let total := totalBid + totalAsk in
  if total =? 0 then mret None
  else
    idx ← on_rng (Rng.Intn total);
    if idx <? totalBid then on_book (RandomBidOrder idx)
    else on_book (RandomAskOrder (idx - totalBid)).

Definition doCancel : go sim (list Message.t) :=
  p ← pick_order;
  match p with
  | None => mret []
  | Some p =>
      o ← read p;
      let orderID := o.(Order.ID) in
      removed ← on_book (RemoveOrder orderID);
      match removed with
      | None => mret []
      | Some _ => mret [delete_msg orderID]
      end
  end.

Definition replace_msg (oldID newID : Z) (shares : Z) (price : float64) : Message.t :=
  message [Message.set_Type_ MsgOrderReplace; Message.set_StockLocate locateCode;
           Message.set_OrderRef newID; Message.set_OrigOrderRef oldID;
           Message.set_Shares shares; Message.set_Price price].

Definition doReplace (currentPrice : float64) : go sim (list Message.t) :=
  p ← pick_order;
  match p with
  | None => mret []
  | Some p =>
      o ← read p;
      let oldID := o.(Order.ID) in
      k ← on_rng (Rng.IntRange (-2) 2);
      let shift := (float_of_Z k * tickSize)%F in
      let newPrice := snapPrice (o.(Order.Price) + shift)%F tickSize in
      let newPrice := if (newPrice <? tickSize)%F then tickSize else newPrice in
      lots ← on_rng (Rng.IntRange 1 10);
      let newShares := to_i32 (to_i32 lots * 100) in
      np ← on_book (ReplaceOrder oldID newPrice newShares);
      match np with
      | None => mret []
      | Some np =>
          newOrder ← read np;
          mret [replace_msg oldID newOrder.(Order.ID) newShares newPrice]
      end
  end.

Definition exec_msg (o : Order.t) (tradeShares matchNum : Z) : Message.t :=
  message [Message.set_Type_ MsgOrderExecuted; Message.set_StockLocate locateCode;
           Message.set_OrderRef o.(Order.ID); Message.set_Shares tradeShares;
           Message.set_MatchNumber matchNum; Message.set_Price o.(Order.Price)].

Definition trade_msg (o : Order.t) (tradeShares matchNum aggressor : Z) : Message.t :=
  message [Message.set_Type_ MsgTrade; Message.set_StockLocate locateCode;
           Message.set_OrderRef o.(Order.ID); Message.set_Shares tradeShares;
           Message.set_Price o.(Order.Price); Message.set_MatchNumber matchNum;
           Message.set_Side aggressor].

(** Either branch of [doTrade]: the aggressor's side and the first order of the
    other side. *)
Definition execute (aggressor : Z) (first : option ptr) : go sim (list Message.t) :=
  match first with
  | None => mret []
  | Some p =>
      o ← read p;
      lots ← on_rng (Rng.IntRange 1 (Z.quot o.(Order.Shares) 100));
      let tradeShares := to_i32 (to_i32 lots * 100) in
      let tradeShares := if tradeShares <=? 0 then o.(Order.Shares) else tradeShares in
      matchNum ← on_book NextMatchNumber;
      let msgs := [exec_msg o tradeShares matchNum; trade_msg o tradeShares matchNum aggressor] in
      _ ← on_book (ReduceOrder o.(Order.ID) tradeShares);
      mret msgs
  end.

Definition doTrade : go sim (list Message.t) :=
  bestBid ← on_book BestBid;
  bestAsk ← on_book BestAsk;
  if ((bestBid =? fzero) || (bestAsk =? fzero))%F then mret []
  else
    f ← on_rng Rng.Float64;
    if (f <? dec 5 1)%F then
      p ← on_book (RandomAskOrder 0);
      execute SideBuy p
    else
      p ← on_book (RandomBidOrder 0);
      execute SideSell p.

Definition do_action (currentPrice : float64) (action : Z) : go sim (list Message.t) :=
  if action =? actionAdd then doAdd currentPrice
  else if action =? actionCancel then doCancel
  else if action =? actionReplace then doReplace currentPrice
  else if action =? actionTrade then doTrade
  else if action =? actionReplenish then doReplenish currentPrice
  else mret [].

Fixpoint Step (currentPrice : float64) (numActions : nat) : go sim (list Message.t) :=
  match numActions with
  | O => mret []
  | S n =>
      action ← on_rng (Rng.WeightedPick actionWeights);
      actionMsgs ← do_action currentPrice action;
      msgs ← Step currentPrice n;
      mret (actionMsgs ++ msgs)
  end.

End simulator.
