(* ===== verification/SimFrame.v ===== *)
(** * What a simulator's action leaves alone

    The books share one heap, so an action of one simulator must not write to
    the orders of another book.  [keeps] says what a step of a book may do to the
    heap: only orders the book [owns] change, only in their shares, and what it
    owns afterwards it owned or allocated.  It holds of every operation without
    any invariant, and composes. *)
From S2P Require Import Prelude Word Float64 GoSort Rng Book BookSide BookSpec Itch Simulator.

Local Open Scope Z_scope.

(** ** Footprints *)

Definition owns (b : Book.t) (p : ptr) : Prop :=
  p ∈ book_ptrs b ∨ ∃ id, b.(Book.orderMap) !! id = Some p.

Record keeps (s s' : bstate) : Prop := mk_keeps {
  kp_heap : ∀ p o, s.(orders) !! p = Some o → ∃ n, s'.(orders) !! p = Some (Order.with_Shares o n);
  kp_frame : ∀ p, is_Some (s.(orders) !! p) → ¬ owns s.(book) p → s'.(orders) !! p = s.(orders) !! p;
  kp_owns : ∀ p, owns s'.(book) p → owns s.(book) p ∨ s.(orders) !! p = None;
  kp_alloc : ∀ p o, s.(orders) !! p = None → s'.(orders) !! p = Some o →
    s.(orderIDCounter) < o.(Order.ID) ≤ s'.(orderIDCounter);
  kp_count : s.(orderIDCounter) ≤ s'.(orderIDCounter);
  kp_static : s'.(book).(Book.Locate) = s.(book).(Book.Locate) ∧ s'.(book).(Book.TickSize) = s.(book).(Book.TickSize);
}.

Lemma with_Shares_same o : Order.with_Shares o o.(Order.Shares) = o.
Proof. by destruct o. Qed.

Global Instance keeps_refl : Reflexive keeps.
Proof.
  intros s. split; [|done|by left|congruence|done|done]. intros p o H. exists o.(Order.Shares). by rewrite with_Shares_same.
Qed.

Global Instance keeps_trans : Transitive keeps.
Proof.
  intros s1 s2 s3 [H1 F1 O1 A1 C1 [L1 T1]] [H2 F2 O2 A2 C2 [L2 T2]].
  split; [| | | |lia|by rewrite L2, T2].
  - intros p o H. destruct (H1 p o H) as [n E]. destruct (H2 p _ E) as [n' E']. by exists n'.
  - intros p Hp Hn. rewrite F2, F1; [done|done|done| |].
    + destruct Hp as [o Ho]. destruct (H1 p o Ho) as [n E]. by exists (Order.with_Shares o n).
    + intros [Ho|Ho]%O1; [done|]. destruct Hp. congruence.
  - intros p [Hp|Hp]%O2; [by apply O1|]. right. destruct (s1.(orders) !! p) as [o|] eqn:E; [|done].
    destruct (H1 p o E) as [n E']. congruence.
  - intros p o Hn Ho. destruct (s2.(orders) !! p) as [o2|] eqn:E.
    + destruct (H2 p _ E) as [n E']. assert (o = Order.with_Shares o2 n) as -> by congruence.
      specialize (A1 p o2 Hn E). cbn. lia.
    + specialize (A2 p o E Ho). lia.
Qed.

(** A book that owns no more, over a heap and under an ID counter unchanged. *)
Lemma keeps_book s b matches :
  (∀ p, owns b p → owns s.(book) p) → b.(Book.Locate) = s.(book).(Book.Locate) →
  b.(Book.TickSize) = s.(book).(Book.TickSize) → keeps s (mkB s.(orders) s.(orderIDCounter) matches b).
Proof.
  intros Ho Hl Ht. split; cbn; [|done|by intros p ?%Ho; left|congruence|done|done].
  intros p o H. exists o.(Order.Shares). by rewrite with_Shares_same.
Qed.

(** ** The book's operations *)

Lemma remove_id_sub h ps id os : remove_id h ps id = Some os → os ⊆ ps.
Proof.
  revert os. induction ps as [|p ps IH]; intros os; cbn; [done|]. case_match; [intros [= <-]; set_solver|].
  destruct (remove_id h ps id) as [os'|]; [|done]. intros [= <-]. specialize (IH os' eq_refl). set_solver.
Qed.

Lemma removeFromSide_sub h ls id : side_ptrs (removeFromSide h ls id) ⊆ side_ptrs ls.
Proof.
  induction ls as [|l ls IH]; [done|]. cbn [removeFromSide].
  destruct (remove_id h (PriceLevel.Orders l) id) as [[|p os]|] eqn:E; rewrite ?side_ptrs_cons; [set_solver| |set_solver].
  apply remove_id_sub in E. cbn [PriceLevel.Orders PriceLevel.with_Orders]. set_solver.
Qed.

Lemma unlink_owns h b id o p : owns (unlink_order h b id o) p → owns b p.
Proof.
  unfold unlink_order, owns, book_ptrs. intros [Hp|[i Hi]].
  - left. destruct (_ =? _); cbn in Hp; pose proof (removeFromSide_sub h b.(Book.Bids) id);
      pose proof (removeFromSide_sub h b.(Book.Asks) id); set_solver.
  - right. exists i. destruct (_ =? _); cbn in Hi; by apply lookup_delete_Some in Hi as [_ ?].
Qed.

Lemma unlink_static h b id o :
  (unlink_order h b id o).(Book.Locate) = b.(Book.Locate) ∧
  (unlink_order h b id o).(Book.TickSize) = b.(Book.TickSize).
Proof. unfold unlink_order. by destruct (_ =? _). Qed.

Lemma append_to_level_sub ls price p ls' :
  append_to_level ls price p = Some ls' → side_ptrs ls' ⊆ p :: side_ptrs ls.
Proof.
  revert ls'. induction ls as [|l ls IH]; intros ls'; cbn; [done|]. case_match.
  - intros [= <-]. rewrite !side_ptrs_cons. cbn. set_solver.
  - destruct (append_to_level ls price p) as [ls''|]; [|done]. intros [= <-]. specialize (IH ls'' eq_refl).
    rewrite !side_ptrs_cons. set_solver.
Qed.

Lemma addToSide_sub ls p price d ls' ev :
  addToSide ls p price d = (ls', ev) → side_ptrs ls' ⊆ p :: side_ptrs ls.
Proof.
  unfold addToSide. destruct (append_to_level _ _ _) as [l|] eqn:E.
  { intros [= <- _]. by eapply append_to_level_sub. }
  set (sorted := sort_slice _ _). assert (side_ptrs sorted ⊆ p :: side_ptrs ls) as Hs.
  { intros q (l & Hl & Hq)%elem_of_side_ptrs. subst sorted. rewrite elem_of_sort_slice in Hl.
    apply elem_of_app in Hl as [Hl | ->%list_elem_of_singleton].
    - right. apply elem_of_side_ptrs. by exists l.
    - cbn in Hq. set_solver. }
  case_match; intros [= <- _]; [|done]. etrans; [|exact Hs].
  intros q (l & Hl & Hq)%elem_of_side_ptrs. apply elem_of_side_ptrs. exists l. split; [|done].
  by eapply subseteq_take.
Qed.

Lemma delete_ids_sub h ev m id p : delete_ids h ev m !! id = Some p → m !! id = Some p.
Proof.
  unfold delete_ids. revert m. induction ev as [|e ev IH]; intros m; cbn; [done|].
  intros H%IH. by apply lookup_delete_Some in H as [_ ?].
Qed.

Lemma insert_order_owns h b p q : owns (insert_order h b p).1 q → q = p ∨ owns b q.
Proof.
  unfold insert_order, owns, book_ptrs. set (o := deref h p).
  assert (∀ m id, delete_ids h m (<[o.(Order.ID) := p]> b.(Book.orderMap)) !! id = Some q →
    q = p ∨ ∃ id, b.(Book.orderMap) !! id = Some q) as Hmap.
  { intros m id H%delete_ids_sub. apply lookup_insert_Some in H as [[_ ->]|[_ H]]; [by left|right; by exists id]. }
  destruct (_ =? _); cbn [Book.Bids Book.Asks Book.with_orderMap].
  - destruct (addToSide b.(Book.Bids) p o.(Order.Price) true) as [bids ev] eqn:E. apply addToSide_sub in E. cbn.
    intros [H|[id H]]; [set_solver|]. apply Hmap in H as [|]; auto.
  - destruct (addToSide b.(Book.Asks) p o.(Order.Price) false) as [asks ev] eqn:E. apply addToSide_sub in E. cbn.
    intros [H|[id H]]; [set_solver|]. apply Hmap in H as [|]; auto.
Qed.

Lemma insert_order_static h b p :
  (insert_order h b p).1.(Book.Locate) = b.(Book.Locate) ∧ (insert_order h b p).1.(Book.TickSize) = b.(Book.TickSize).
Proof.
  unfold insert_order. destruct (_ =? _); cbn [Book.Bids Book.Asks Book.with_orderMap];
    by destruct (addToSide _ _ _ _).
Qed.

(** An order with the next ID, allocated and inserted. *)
Lemma keeps_insert s b o p ev s1 s2 :
  (∀ q, owns b q → owns s.(book) q) → b.(Book.Locate) = s.(book).(Book.Locate) →
  b.(Book.TickSize) = s.(book).(Book.TickSize) → o.(Order.ID) = s.(orderIDCounter) + 1 →
  new_order o (mkB s.(orders) (s.(orderIDCounter) + 1) s.(matchCounter) b) = Some (p, s1) →
  AddOrder p s1 = Some (ev, s2) → keeps s s2.
Proof.
  intros Hb Hl Ht Hid E1 E2. unfold new_order in E1. injection E1 as <- <-. cbn in *.
  set (p := fresh (dom s.(orders))) in *.
  assert (s.(orders) !! p = None) as Hp by (apply not_elem_of_dom, is_fresh).
  unfold AddOrder in E2. cbn in E2.
  pose proof (insert_order_owns (<[p:=o]> s.(orders)) b p) as Ho.
  pose proof (insert_order_static (<[p:=o]> s.(orders)) b p) as [Hl' Ht'].
  destruct (insert_order _ b p) as [b' ev'] eqn:E. cbn in Ho, Hl', Ht'. injection E2 as <- <-.
  split; cbn; [| | | |lia|by rewrite Hl', Ht'].
  - intros q o' Hq. exists o'.(Order.Shares). rewrite with_Shares_same, lookup_insert_ne; [done|congruence].
  - intros q [o' Hq] _. rewrite lookup_insert_ne; [done|congruence].
  - intros q [-> | Hq]%Ho; [by right|left; by apply Hb].
  - intros q o' Hn Hq. apply lookup_insert_Some in Hq as [[_ ->]|[_ ?]]; [lia|congruence].
Qed.

Lemma keeps_RemoveOrder id s r s' : RemoveOrder id s = Some (r, s') → keeps s s'.
Proof.
  unfold RemoveOrder. destruct (_ !! id) as [p|]; intros [= <- <-]; [|done].
  apply keeps_book; [intros q; by apply unlink_owns|apply unlink_static..].
Qed.

(** Writing the shares of an owned order. *)
Lemma keeps_shares s p o n :
  owns s.(book) p → s.(orders) !! p = Some o →
  keeps s (with_orders s (<[p := Order.with_Shares o n]> s.(orders))).
Proof.
  intros Hp Ho. split; cbn; [| |by left| |lia|done].
  - intros q o' Hq. destruct (decide (p = q)) as [<-|Hne].
    + exists n. rewrite lookup_insert_eq. congruence.
    + exists o'.(Order.Shares). by rewrite lookup_insert_ne, with_Shares_same.
  - intros q _ Hn. by rewrite lookup_insert_ne by congruence.
  - intros q o' Hn [[<- _]|[_ ?]]%lookup_insert_Some; congruence.
Qed.

Lemma with_Shares_twice o n n' : Order.with_Shares (Order.with_Shares o n) n' = Order.with_Shares o n'.
Proof. done. Qed.

Lemma keeps_ReduceOrder id n s r s' :
  (∀ p, s.(book).(Book.orderMap) !! id = Some p → is_Some (s.(orders) !! p)) →
  ReduceOrder id n s = Some (r, s') → keeps s s'.
Proof.
  intros Halloc. unfold ReduceOrder. destruct (_ !! id) as [p|] eqn:Ep; [|by intros [= _ <-]].
  destruct (Halloc p eq_refl) as [o Ho]. unfold deref. rewrite Ho. cbn [default from_option].
  assert (owns s.(book) p) as Hown by (right; by exists id).
  destruct (_ <=? 0); intros [= <- <-]; cbn [Order.Shares Order.with_Shares orders book with_orders with_book]; [|by apply keeps_shares].
  unfold with_orders, with_book. cbn. rewrite insert_insert_eq, !with_Shares_twice.
  etrans; [by apply (keeps_shares s p o 0)|].
  refine (keeps_book (with_orders s (<[p := Order.with_Shares o 0]> s.(orders))) _ s.(matchCounter) _ _ _).
  - intros q. apply unlink_owns.
  - apply unlink_static.
  - apply unlink_static.
Qed.

Lemma next_id s : 0 ≤ s.(orderIDCounter) → s.(orderIDCounter) + 1 < 2 ^ 64 →
  to_u64 (s.(orderIDCounter) + 1) = s.(orderIDCounter) + 1.
Proof. intros. apply uwrap_id. unfold is_u. lia. Qed.

Lemma keeps_ReplaceOrder id price n s r s' :
  0 ≤ s.(orderIDCounter) → s.(orderIDCounter) + 1 < 2 ^ 64 →
  ReplaceOrder id price n s = Some (r, s') → keeps s s'.
Proof.
  intros H0 H1. unfold ReplaceOrder. destruct (_ !! id) as [p|]; [|by intros [= _ <-]].
  unfold replace_with. erewrite (go_bind_run NextOrderID) by reflexivity. cbn [with_book orderIDCounter orders matchCounter book].
  rewrite next_id by done. intros (np & s1 & E1 & (ev & s2 & E2 & [_ <-]%go_ret_Some)%go_bind_Some)%go_bind_Some.
  eapply keeps_insert; [..|exact E1|exact E2]; [intros q; by apply unlink_owns|apply unlink_static..|done].
Qed.

(** ** The simulator's actions

    [skeeps s s'] of the whole simulator; [trade_numbers msgs] are the match
    numbers of the trades among the messages. *)
Definition is_trade (m : Message.t) : bool := m.(Message.Type_) =? MsgTrade.
Definition trade_numbers (msgs : list Message.t) : list Z := Message.MatchNumber <$> List.filter is_trade msgs.

Record acts (s : sim) (msgs : list Message.t) (s' : sim) : Prop := mk_acts {
  ac_keeps : keeps s.(bk) s'.(bk);
  ac_rng : Rng.wf s.(rng) → Rng.wf s'.(rng);
  ac_numbers :
    let m := s.(bk).(matchCounter) in let m' := s'.(bk).(matchCounter) in
    trade_numbers msgs = [] ∧ m' = m ∨ trade_numbers msgs = [to_u64 (m + 1)] ∧ m' = to_u64 (m + 1);
}.

(** A computation that only draws. *)
Definition draws {A} (m : go sim A) : Prop := ∀ s a s', m s = Some (a, s') →
  s'.(bk) = s.(bk) ∧ (Rng.wf s.(rng) → Rng.wf s'.(rng)).

Lemma draws_rng {A} (m : go RNG A) :
  (∀ r a r', m r = Some (a, r') → Rng.wf r → Rng.wf r') → draws (on_rng m).
Proof.
  intros H s a s'. unfold on_rng, zoom. destruct (m s.(rng)) as [[a' r']|] eqn:E; [|done].
  intros [= <- <-]. split; [done|]. by eapply H.
Qed.

Lemma draws_ret {A} (a : A) : draws (mret a).
Proof. by intros s b s' [_ <-]%go_ret_Some. Qed.

Lemma draws_bind {A B} (m : go sim A) (k : A → go sim B) :
  draws m → (∀ a, draws (k a)) → draws (m ≫= k).
Proof.
  intros Hm Hk s b s' (a & s1 & H1 & H2)%go_bind_Some.
  destruct (Hm _ _ _ H1) as [E1 W1], (Hk _ _ _ _ H2) as [E2 W2].
  rewrite E2, E1. auto.
Qed.

Lemma draws_book {A} (f : bstate → A) : draws (on_book (gets f)).
Proof. intros s a s'. unfold on_book, zoom, gets. intros [= <- <-]. done. Qed.

Lemma Float64_wf r a r' : Rng.Float64 r = Some (a, r') → Rng.wf r → Rng.wf r'.
Proof. intros (u & r1 & [= <- <-] & [_ <-]%go_ret_Some)%go_bind_Some. apply Rng.step_wf. Qed.

Lemma Intn_wf n r a r' : Rng.Intn n r = Some (a, r') → Rng.wf r → Rng.wf r'.
Proof.
  unfold Rng.Intn. case_match; [by intros [_ <-]%go_ret_Some|].
  intros (u & r1 & [= <- <-] & Hk)%go_bind_Some. case_match; [done|].
  apply go_ret_Some in Hk as [_ <-]. apply Rng.step_wf.
Qed.

Lemma IntRange_wf lo hi r a r' : Rng.IntRange lo hi r = Some (a, r') → Rng.wf r → Rng.wf r'.
Proof.
  unfold Rng.IntRange. case_match; [by intros [_ <-]%go_ret_Some|].
  intros (u & r1 & E & [_ <-]%go_ret_Some)%go_bind_Some. by eapply Intn_wf.
Qed.

Lemma WeightedPick_wf ws r a r' : Rng.WeightedPick ws r = Some (a, r') → Rng.wf r → Rng.wf r'.
Proof. intros (u & r1 & E & [_ <-]%go_ret_Some)%go_bind_Some. by eapply Float64_wf. Qed.

Create HintDb draws.
#[export] Hint Resolve draws_rng draws_ret draws_bind draws_book Float64_wf Intn_wf IntRange_wf WeightedPick_wf : draws.

Lemma draws_pick_mpid p : draws (pick_mpid p).
Proof.
  unfold pick_mpid. apply draws_bind; [eauto with draws|]. intros f. case_match; [|apply draws_ret].
  apply draws_bind; [eauto with draws|]. intros i. case_match; [apply draws_ret|]. by intros s a s'.
Qed.

Lemma draws_pick_order : draws pick_order.
Proof.
  unfold pick_order. apply draws_bind; [apply draws_book|]. intros n. apply draws_bind; [apply draws_book|].
  intros n'. case_match; [apply draws_ret|]. apply draws_bind; [eauto with draws|]. intros i.
  case_match; apply draws_book.
Qed.
#[export] Hint Resolve draws_pick_mpid draws_pick_order : draws.

(** ** Composing *)

Lemma trade_numbers_app m1 m2 : trade_numbers (m1 ++ m2) = trade_numbers m1 ++ trade_numbers m2.
Proof. unfold trade_numbers. by rewrite List.filter_app, fmap_app. Qed.

Lemma acts_draws s s1 msgs s' :
  s1.(bk) = s.(bk) → (Rng.wf s.(rng) → Rng.wf s1.(rng)) → acts s1 msgs s' → acts s msgs s'.
Proof. intros E W [K W' N]. rewrite E in K, N. split; auto. Qed.

(** An action without trades. *)
Lemma acts_quiet s msgs s' :
  keeps s.(bk) s'.(bk) → (Rng.wf s.(rng) → Rng.wf s'.(rng)) → s'.(bk).(matchCounter) = s.(bk).(matchCounter) →
  trade_numbers msgs = [] → acts s msgs s'.
Proof. intros K W M N. split; [done|done|by left]. Qed.

Lemma acts_nil s s' : s'.(bk) = s.(bk) → (Rng.wf s.(rng) → Rng.wf s'.(rng)) → acts s [] s'.
Proof. intros E W. apply acts_quiet; by rewrite ?E. Qed.

(** Strip a draw off the front of a computation. *)
Lemma bind_draws {A B} (m : go sim A) (k : A → go sim B) s b s' :
  draws m → (m ≫= k) s = Some (b, s') →
  ∃ a s1, s1.(bk) = s.(bk) ∧ (Rng.wf s.(rng) → Rng.wf s1.(rng)) ∧ k a s1 = Some (b, s').
Proof. intros Hm (a & s1 & H & Hk)%go_bind_Some. destruct (Hm _ _ _ H). eauto. Qed.

Lemma on_book_Some {A} (m : go bstate A) s a s' :
  on_book m s = Some (a, s') → m s.(bk) = Some (a, s'.(bk)) ∧ s'.(rng) = s.(rng).
Proof. unfold on_book, zoom. destruct (m s.(bk)) as [[x b]|]; [|done]. by intros [= <- <-]. Qed.

Lemma on_book_bind {A B} (m : go bstate A) (k : A → go sim B) s b s' :
  (on_book m ≫= k) s = Some (b, s') →
  ∃ a b1, m s.(bk) = Some (a, b1) ∧ k a (mkSim s.(rng) b1) = Some (b, s').
Proof.
  intros (a & s1 & [H E]%on_book_Some & Hk)%go_bind_Some. exists a, s1.(bk). split; [done|].
  destruct s1. cbn in E. by subst.
Qed.

Tactic Notation "draw" "in" hyp(H) "as" ident(a) ident(s1) ident(E) ident(W) :=
  apply bind_draws in H; [destruct H as (a & s1 & E & W & H)|solve [eauto 6 with draws]].

Section actions.
Context (loc : Z) (tick : float64).

Lemma evicted_trades o ev : trade_numbers (evicted_msgs loc o ev).1 = [].
Proof.
  unfold evicted_msgs. assert (∀ msgs b, trade_numbers msgs = [] → trade_numbers (fold_left (λ '(msgs, selfEvicted) e,
    if e.(Order.ID) =? o.(Order.ID) then (msgs, true)
    else (msgs ++ [delete_msg loc e.(Order.ID)], selfEvicted)) ev (msgs, b)).1 = []) as H; [|by apply H].
  induction ev as [|e ev IH]; intros msgs b Hm; cbn; [done|]. destruct (_ =? _); apply IH; [done|].
  by rewrite trade_numbers_app, Hm.
Qed.

Lemma addMsgs_trades p ev s msgs s' : addMsgs loc p ev s = Some (msgs, s') → s' = s ∧ trade_numbers msgs = [].
Proof.
  unfold addMsgs, gets. pose proof (evicted_trades (deref s.(bk).(orders) p) (deref s.(bk).(orders) <$> ev)) as H.
  destruct (evicted_msgs _ _ _) as [m b]. intros [= <- <-]. split; [done|]. destruct b; [done|].
  unfold trade_numbers in *. cbn. unfold makeAddOrderMsg. by case_decide.
Qed.

(** [NextOrderID] followed by draws, an allocation and an insertion. *)
Lemma acts_insert s s1 o p ev b2 b3 :
  0 ≤ s.(bk).(orderIDCounter) → s.(bk).(orderIDCounter) + 1 < 2 ^ 64 →
  NextOrderID s.(bk) = Some (o.(Order.ID), s1.(bk)) →
  new_order o s1.(bk) = Some (p, b2) → AddOrder p b2 = Some (ev, b3) →
  keeps s.(bk) b3 ∧ b3.(matchCounter) = s.(bk).(matchCounter).
Proof.
  intros H0 H1 E1 E2 E3. unfold NextOrderID in E1. rewrite next_id in E1 by done. injection E1 as Hid Hs1.
  rewrite <- Hs1 in E2. split.
  - by eapply keeps_insert; [..|exact E2|exact E3].
  - unfold new_order in E2. injection E2 as _ <-. unfold AddOrder in E3. cbn in E3.
    destruct (insert_order _ _ _) as [b e]. by injection E3 as _ <-.
Qed.

(** Room for one more ID. *)
Definition id_room (s : sim) : Prop := 0 ≤ s.(bk).(orderIDCounter) ∧ s.(bk).(orderIDCounter) + 1 < 2 ^ 64.

Lemma acts_place_order currentPrice maxOffset minLots p s msgs s' :
  id_room s → place_order loc tick currentPrice maxOffset minLots p s = Some (msgs, s') → acts s msgs s'.
Proof.
  intros [H0 H1] H. unfold place_order in H.
  draw in H as f s1 E1 W1. draw in H as k s2 E2 W2. draw in H as lots s3 E3 W3.
  apply on_book_bind in H as (id & b1 & Eid & H). draw in H as mpid s4 E4 W4.
  apply on_book_bind in H as (q & b2 & Eq & H). apply on_book_bind in H as (ev & b3 & Eev & H).
  apply addMsgs_trades in H as [-> Hn]. cbn [bk rng] in *. rewrite E3, E2, E1 in Eid. rewrite E4 in Eq.
  set (o := Order.mk _ _ _ _ _ _ _) in Eq.
  destruct (acts_insert s (mkSim s4.(rng) b1) o q ev b2 b3) as [K M]; [done..|]. apply acts_quiet; auto.
Qed.

Lemma acts_doCancel s msgs s' : doCancel loc s = Some (msgs, s') → acts s msgs s'.
Proof.
  intros H. unfold doCancel in H. draw in H as p s1 E1 W1. destruct p as [p|].
  2:{ apply go_ret_Some in H as [<- <-]. by apply acts_nil. }
  apply go_bind_Some in H as (o & s2 & [_ <-]%gets_Some & H).
  apply on_book_bind in H as (r & b & Er & H). rewrite E1 in Er. destruct r as [r|].
  - apply go_ret_Some in H as [<- <-]. apply acts_quiet; cbn; [by eapply keeps_RemoveOrder|done| |done].
    unfold RemoveOrder in Er. destruct (_ !! _); [|done]. by injection Er as _ <-.
  - apply go_ret_Some in H as [<- <-]. apply acts_quiet; cbn; [by eapply keeps_RemoveOrder|done| |done].
    unfold RemoveOrder in Er. destruct (_ !! _); [done|]. by injection Er as <-.
Qed.

Lemma ReplaceOrder_match id price n s r s' :
  ReplaceOrder id price n s = Some (r, s') → s'.(matchCounter) = s.(matchCounter).
Proof.
  unfold ReplaceOrder. destruct (_ !! id) as [p|]; [|by intros [= _ <-]].
  unfold replace_with. erewrite (go_bind_run NextOrderID) by reflexivity.
  intros (np & s1 & [= <- <-] & (ev & s2 & E2 & [_ <-]%go_ret_Some)%go_bind_Some)%go_bind_Some.
  unfold AddOrder in E2. destruct (insert_order _ _ _). by injection E2 as _ <-.
Qed.

Lemma acts_doReplace currentPrice s msgs s' :
  id_room s → doReplace loc tick currentPrice s = Some (msgs, s') → acts s msgs s'.
Proof.
  intros [H0 H1] H. unfold doReplace in H. draw in H as p s1 E1 W1. destruct p as [p|].
  2:{ apply go_ret_Some in H as [<- <-]. by apply acts_nil. }
  apply go_bind_Some in H as (o & s2 & [_ <-]%gets_Some & H).
  draw in H as k s3 E3 W3. draw in H as lots s4 E4 W4.
  apply on_book_bind in H as (np & b & Er & H). rewrite E4, E3, E1 in Er.
  pose proof (keeps_ReplaceOrder _ _ _ _ _ _ H0 H1 Er) as K. apply ReplaceOrder_match in Er.
  destruct np as [np|].
  - apply go_bind_Some in H as (o' & s5 & [_ <-]%gets_Some & [<- <-]%go_ret_Some).
    apply acts_quiet; cbn; auto.
  - apply go_ret_Some in H as [<- <-]. apply acts_quiet; cbn; auto.
Qed.

Lemma rep_map_alloc s id p : book_rep s → s.(book).(Book.orderMap) !! id = Some p → is_Some (s.(orders) !! p).
Proof.
  intros Hr Hp. apply (rep_map _ _ Hr) in Hp as [Hp _]. pose proof (rep_alloc _ _ Hr) as Ha.
  rewrite Forall_forall in Ha. by apply Ha.
Qed.

Lemma ReduceOrder_match id n s r s' :
  ReduceOrder id n s = Some (r, s') → s'.(matchCounter) = s.(matchCounter).
Proof.
  unfold ReduceOrder. destruct (_ !! id) as [p|]; [|by intros [= _ <-]].
  case_match; by intros [= _ <-].
Qed.

Lemma acts_execute aggressor first s msgs s' :
  book_rep s.(bk) → execute loc aggressor first s = Some (msgs, s') → acts s msgs s'.
Proof.
  intros Hr H. unfold execute in H. destruct first as [p|].
  2:{ apply go_ret_Some in H as [<- <-]. by apply acts_nil. }
  apply go_bind_Some in H as (o & s1 & [_ <-]%gets_Some & H). draw in H as lots s2 E2 W2.
  apply on_book_bind in H as (k & b & Ek & H). rewrite E2 in Ek. injection Ek as <- <-. cbn [rng] in H.
  apply on_book_bind in H as (n & b' & En & [<- <-]%go_ret_Some). cbn [bk rng] in *.
  set (s0 := mkB _ _ _ _) in En.
  assert (keeps s.(bk) s0) as K0 by by apply keeps_book.
  assert (keeps s0 b') as K1.
  { eapply keeps_ReduceOrder; [|exact En]. intros q. by apply (rep_map_alloc s.(bk)). }
  apply ReduceOrder_match in En. split; cbn; [by etrans|done|right; by rewrite En].
Qed.

Lemma acts_doTrade s msgs s' : book_rep s.(bk) → doTrade loc s = Some (msgs, s') → acts s msgs s'.
Proof.
  intros Hr H. unfold doTrade in H. draw in H as bb s1 E1 W1. draw in H as ba s2 E2 W2. case_match.
  { apply go_ret_Some in H as [<- <-]. apply acts_nil; [congruence|auto]. }
  draw in H as f s3 E3 W3. case_match.
  - draw in H as p s4 E4 W4. eapply (acts_draws s s4); [congruence|auto|].
    eapply acts_execute; [|exact H]. by rewrite E4, E3, E2, E1.
  - draw in H as p s4 E4 W4. eapply (acts_draws s s4); [congruence|auto|].
    eapply acts_execute; [|exact H]. by rewrite E4, E3, E2, E1.
Qed.

Lemma acts_do_action currentPrice a s msgs s' :
  book_rep s.(bk) → id_room s → do_action loc tick currentPrice a s = Some (msgs, s') → acts s msgs s'.
Proof.
  intros Hr Hid. unfold do_action, doAdd, doReplenish. repeat case_match; intros E;
    eauto using acts_place_order, acts_doCancel, acts_doReplace, acts_doTrade.
  apply go_ret_Some in E as [<- <-]. by apply acts_nil.
Qed.

Lemma acts_seed_order side price j s msgs s' :
  id_room s → seed_order loc side price j s = Some (msgs, s') →
  keeps s.(bk) s'.(bk) ∧ (Rng.wf s.(rng) → Rng.wf s'.(rng)) ∧ s'.(bk).(matchCounter) = s.(bk).(matchCounter) ∧
  s'.(bk).(orderIDCounter) = s.(bk).(orderIDCounter) + 1.
Proof.
  intros [H0 H1] H. unfold seed_order in H. draw in H as n s1 E1 W1.
  apply on_book_bind in H as (id & b1 & Eid & H). draw in H as mpid s2 E2 W2. rewrite E1 in Eid.
  apply on_book_bind in H as (q & b2 & Eq & H). apply on_book_bind in H as (ev & b3 & Eev & [<- <-]%go_ret_Some).
  cbn [bk rng] in *. rewrite E2 in Eq. set (o := Order.mk _ _ _ _ _ _ _) in Eq.
  destruct (acts_insert s (mkSim s2.(rng) b1) o q ev b2 b3) as [K M]; [done..|].
  split_and!; [done|auto|done|]. injection Eq as _ <-. unfold AddOrder in Eev. destruct (insert_order _ _ _). injection Eev as _ <-.
    injection Eid as _ <-. cbn. by apply next_id.
Qed.

(** ** Seeding: [k] orders with the next IDs, no trade *)

Record seeds (k : Z) (s s' : sim) : Prop := mk_seeds {
  se_keeps : keeps s.(bk) s'.(bk);
  se_rng : Rng.wf s.(rng) → Rng.wf s'.(rng);
  se_match : s'.(bk).(matchCounter) = s.(bk).(matchCounter);
  se_count : s'.(bk).(orderIDCounter) = s.(bk).(orderIDCounter) + k;
}.

Definition id_room_for (k : Z) (s : sim) : Prop := 0 ≤ s.(bk).(orderIDCounter) ∧ s.(bk).(orderIDCounter) + k < 2 ^ 64.

Lemma seeds_nil s : seeds 0 s s.
Proof. split; [done..|lia]. Qed.

Lemma seeds_app k1 k2 s1 s2 s3 : seeds k1 s1 s2 → seeds k2 s2 s3 → seeds (k1 + k2) s1 s3.
Proof. intros [] []. split; [by etrans|auto|congruence|lia]. Qed.

Lemma seeds_fold {A B} (f : B → A → go sim B) k l b s b' s' :
  0 ≤ k → (∀ b a s b' s', id_room_for k s → f b a s = Some (b', s') → seeds k s s') →
  id_room_for (k * Z.of_nat (length l)) s → go_fold f b l s = Some (b', s') → seeds (k * Z.of_nat (length l)) s s'.
Proof.
  intros Hk Hf. revert b s. induction l as [|a l IH]; intros b s Hroom.
  { intros [_ <-]%go_ret_Some. rewrite Z.mul_0_r. apply seeds_nil. }
  cbn [go_fold]. intros (b1 & s1 & E1 & E2)%go_bind_Some. cbn [length] in *.
  assert (seeds k s s1) as H1 by (eapply Hf; [|exact E1]; destruct Hroom; split; lia).
  replace (k * Z.of_nat (S (length l))) with (k + k * Z.of_nat (length l)) by lia.
  eapply seeds_app; [exact H1|]. eapply IH; [|exact E2]. destruct H1 as [_ _ _ Hc], Hroom. split; rewrite Hc; lia.
Qed.

Lemma seeds_order side price j s msgs s' :
  id_room_for 1 s → seed_order loc side price j s = Some (msgs, s') → seeds 1 s s'.
Proof.
  intros Hr E. destruct (acts_seed_order side price j s msgs s' Hr E) as (K & W & M & C). by split.
Qed.

Lemma seeds_pair pb pa msgs j s msgs' s' :
  id_room_for 2 s → seed_pair loc pb pa msgs j s = Some (msgs', s') → seeds 2 s s'.
Proof.
  intros [H0 H1] (m1 & s1 & E1 & (m2 & s2 & E2 & [_ <-]%go_ret_Some)%go_bind_Some)%go_bind_Some.
  assert (seeds 1 s s1) as S1 by (eapply seeds_order; [split; lia|exact E1]).
  apply (seeds_app 1 1 _ s1); [done|]. eapply seeds_order; [|exact E2]. destruct S1 as [_ _ _ Hc]. split; lia.
Qed.

Lemma seeds_level ref msgs level s msgs' s' :
  id_room_for 6 s → seed_level loc tick ref msgs level s = Some (msgs', s') → seeds 6 s s'.
Proof.
  intros Hr E. refine (seeds_fold _ 2 (seq 0 OrdersPerLevel) msgs s msgs' s' ltac:(lia) _ Hr E).
  intros b j s1 b' s2. apply seeds_pair.
Qed.

Lemma seeds_Initialize ref s msgs s' :
  id_room_for 60 s → Initialize loc tick ref s = Some (msgs, s') → seeds 60 s s'.
Proof.
  intros Hr E. refine (seeds_fold _ 6 (seq 0 MaxLevels) [] s msgs s' ltac:(lia) _ Hr E).
  intros b lv s1 b' s2. apply seeds_level.
Qed.

End actions.
