(* ===== verification/SimWire.v ===== *)
(** * The simulator's messages fit the wire

    Every message an action emits has a known type and fields within the widths of
    the binary format, so each is encoded and read back as it is. *)
From S2P Require Import Prelude Word Float64 Rng Book Itch ItchProps Simulator SimFrame.

Local Open Scope Z_scope.

(** Encodable, and read back. *)
Definition wire_ok (m : Message.t) : Prop := msg_ok m ∧ is_Some (EncodeBinary m).

(** [Order.ID] is a [uint64]. *)
Definition ids_fit (s : bstate) : Prop := ∀ p, is_u 64 (deref s.(orders) p).(Order.ID).

Lemma ids_fit_put s p o : is_u 64 o.(Order.ID) → ids_fit s → ids_fit (with_orders s (<[p := o]> s.(orders))).
Proof.
  intros Ho Hs q. unfold deref. cbn. destruct (decide (p = q)) as [->|Hne]; [by rewrite lookup_insert_eq|].
  rewrite lookup_insert_ne by done. apply Hs.
Qed.

Lemma u64_next x : is_u 64 (to_u64 x).
Proof. by apply uwrap_range. Qed.

Lemma go_fold_keeps {S A B} (P : S → Prop) (f : B → A → go S B) l b s b' s' :
  (∀ b a s b' s', f b a s = Some (b', s') → P s → P s') → go_fold f b l s = Some (b', s') → P s → P s'.
Proof.
  intros Hf. revert b s. induction l as [|a l IH]; intros b s; cbn [go_fold].
  - by intros [_ <-]%go_ret_Some.
  - intros (b1 & s1 & E1 & E2)%go_bind_Some H. eapply IH; [exact E2|]. by eapply Hf.
Qed.

Section wire.
Context (loc : Z) (tick : float64) (Hloc : is_u 16 loc).

Ltac wire := split; [split; cbn; try assumption; try apply u64_next; try (split; [done|reflexivity])|by eexists].

Lemma wire_add o : is_u 64 o.(Order.ID) → wire_ok (makeAddOrderMsg loc o).
Proof. intros Ho. unfold makeAddOrderMsg. case_decide; wire. Qed.

Lemma wire_delete id : is_u 64 id → wire_ok (delete_msg loc id).
Proof. intros Ho. wire. Qed.

Lemma wire_replace old new n price : is_u 64 old → is_u 64 new → wire_ok (replace_msg loc old new n price).
Proof. intros H1 H2. wire. Qed.

Lemma wire_exec o n k : is_u 64 o.(Order.ID) → is_u 64 k → wire_ok (exec_msg loc o n k).
Proof. intros H1 H2. wire. Qed.

Lemma wire_trade o n k a : is_u 64 o.(Order.ID) → is_u 64 k → wire_ok (trade_msg loc o n k a).
Proof. intros H1 H2. wire. Qed.

(** An action's messages fit, and the IDs still do. *)
Definition fits (s : sim) (msgs : list Message.t) (s' : sim) : Prop :=
  ids_fit s.(bk) → Forall wire_ok msgs ∧ ids_fit s'.(bk).

Lemma fits_nil s s' : s'.(bk) = s.(bk) → fits s [] s'.
Proof. intros E H. rewrite E. by split. Qed.

Lemma fits_draws s s1 msgs s' : s1.(bk) = s.(bk) → fits s1 msgs s' → fits s msgs s'.
Proof. unfold fits. by intros ->. Qed.

Lemma RemoveOrder_heap id s r s' : RemoveOrder id s = Some (r, s') → s'.(orders) = s.(orders).
Proof. unfold RemoveOrder. destruct (_ !! _); by intros [= _ <-]. Qed.

Lemma AddOrder_heap p s ev s' : AddOrder p s = Some (ev, s') → s'.(orders) = s.(orders).
Proof. unfold AddOrder. destruct (insert_order _ _ _). by intros [= _ <-]. Qed.

Lemma ids_fit_heap s s' : s'.(orders) = s.(orders) → ids_fit s → ids_fit s'.
Proof. unfold ids_fit. by intros ->. Qed.

Lemma ReduceOrder_ids id n s r s' : ReduceOrder id n s = Some (r, s') → ids_fit s → ids_fit s'.
Proof.
  unfold ReduceOrder. destruct (_ !! id) as [p|]; [|by intros [= _ <-]]. intros E H.
  assert (is_u 64 (deref s.(orders) p).(Order.ID)) as Hp by apply H.
  destruct (_ <=? 0); injection E as _ <-; [|by apply ids_fit_put].
  eapply (ids_fit_heap (with_orders (with_orders s _) _)); [reflexivity|]. apply ids_fit_put; [exact Hp|].
  by apply ids_fit_put.
Qed.

Lemma new_order_ids o s p s' : is_u 64 o.(Order.ID) → new_order o s = Some (p, s') → ids_fit s → ids_fit s'.
Proof. intros Ho [= _ <-]. by apply ids_fit_put. Qed.

Lemma ReplaceOrder_ids id price n s r s' : ReplaceOrder id price n s = Some (r, s') → ids_fit s → ids_fit s'.
Proof.
  unfold ReplaceOrder. destruct (_ !! id) as [p|]; [|by intros [= _ <-]].
  unfold replace_with. erewrite (go_bind_run NextOrderID) by reflexivity.
  intros (np & s1 & Hn & (ev & s2 & E2 & [_ <-]%go_ret_Some)%go_bind_Some)%go_bind_Some H.
  eapply ids_fit_heap; [by eapply AddOrder_heap|]. eapply new_order_ids; [|exact Hn|]; [apply u64_next|exact H].
Qed.

Lemma addMsgs_wire p ev s msgs s' : addMsgs loc p ev s = Some (msgs, s') → fits s msgs s'.
Proof.
  unfold addMsgs, gets. intros E H.
  assert (∀ os m b, Forall (λ o, is_u 64 o.(Order.ID)) os → Forall wire_ok m →
    Forall wire_ok (fold_left (λ '(msgs, selfEvicted) e,
      if e.(Order.ID) =? (deref s.(bk).(orders) p).(Order.ID) then (msgs, true)
      else (msgs ++ [delete_msg loc e.(Order.ID)], selfEvicted)) os (m, b)).1) as Hf.
  { induction os as [|o os IH]; intros m b Ho Hm; [done|]. apply Forall_cons in Ho as [Ho Hos]. cbn.
    destruct (_ =? _); apply IH; [done|done|done|]. apply Forall_app. split; [done|]. constructor; [by apply wire_delete|done]. }
  specialize (Hf (deref s.(bk).(orders) <$> ev) [] false). unfold evicted_msgs in E. destruct (fold_left _ _ _) as [m b].
  injection E as <- <-. split; [|done]. assert (Forall wire_ok m) as Hm.
  { apply Hf; [|done]. apply Forall_fmap, Forall_forall. intros q _. apply H. }
  destruct b; [done|]. constructor; [by apply wire_add, H|done].
Qed.

Lemma fits_place_order currentPrice maxOffset minLots p s msgs s' :
  place_order loc tick currentPrice maxOffset minLots p s = Some (msgs, s') → fits s msgs s'.
Proof.
  intros H. unfold place_order in H.
  draw in H as f s1 E1 W1. draw in H as k s2 E2 W2. draw in H as lots s3 E3 W3.
  apply on_book_bind in H as (id & b1 & Eid & H). draw in H as mpid s4 E4 W4.
  apply on_book_bind in H as (q & b2 & Eq & H). apply on_book_bind in H as (ev & b3 & Eev & H). cbn [bk rng] in *.
  intros Hs. apply addMsgs_wire in H. apply H. cbn. eapply ids_fit_heap; [by eapply AddOrder_heap|].
  injection Eid as <- <-. eapply new_order_ids; [|exact Eq|]; [apply u64_next|].
  rewrite E4. eapply ids_fit_heap; [|exact Hs]. cbn. congruence.
Qed.

Lemma fits_doCancel s msgs s' : doCancel loc s = Some (msgs, s') → fits s msgs s'.
Proof.
  intros H. unfold doCancel in H. draw in H as p s1 E1 W1. apply (fits_draws _ s1); [done|]. destruct p as [p|].
  2:{ apply go_ret_Some in H as [<- <-]. by apply fits_nil. }
  apply go_bind_Some in H as (o & s2 & [<- <-]%gets_Some & H).
  apply on_book_bind in H as (r & b & Er & H). apply RemoveOrder_heap in Er. intros Hs.
  destruct r as [r|]; apply go_ret_Some in H as [<- <-]; (split; [|by eapply ids_fit_heap]); [|done].
  constructor; [apply wire_delete, Hs|done].
Qed.

Lemma fits_doReplace currentPrice s msgs s' : doReplace loc tick currentPrice s = Some (msgs, s') → fits s msgs s'.
Proof.
  intros H. unfold doReplace in H. draw in H as p s1 E1 W1. apply (fits_draws _ s1); [done|]. destruct p as [p|].
  2:{ apply go_ret_Some in H as [<- <-]. by apply fits_nil. }
  apply go_bind_Some in H as (o & s2 & [<- <-]%gets_Some & H).
  draw in H as k s3 E3 W3. draw in H as lots s4 E4 W4.
  apply on_book_bind in H as (np & b & Er & H). intros Hs.
  assert (ids_fit b) as Hb by (eapply ReplaceOrder_ids; [exact Er|]; by rewrite E4, E3).
  destruct np as [np|].
  - apply go_bind_Some in H as (o' & s5 & [<- <-]%gets_Some & [<- <-]%go_ret_Some). split; [|exact Hb].
    constructor; [|done]. apply wire_replace; [apply Hs|apply Hb].
  - apply go_ret_Some in H as [<- <-]. by split.
Qed.

Lemma fits_execute aggressor first s msgs s' : execute loc aggressor first s = Some (msgs, s') → fits s msgs s'.
Proof.
  intros H. unfold execute in H. destruct first as [p|].
  2:{ apply go_ret_Some in H as [<- <-]. by apply fits_nil. }
  apply go_bind_Some in H as (o & s1 & [<- <-]%gets_Some & H). draw in H as lots s2 E2 W2.
  apply on_book_bind in H as (k & b & Ek & H). injection Ek as <- <-.
  apply on_book_bind in H as (n & b' & En & [<- <-]%go_ret_Some). cbn [bk rng] in *. intros Hs. split.
  - constructor; [apply wire_exec; [apply Hs|apply u64_next]|]. constructor; [|done].
    apply wire_trade; [apply Hs|apply u64_next].
  - eapply ReduceOrder_ids; [exact En|]. eapply ids_fit_heap; [|exact Hs]. cbn. by rewrite E2.
Qed.

Lemma fits_doTrade s msgs s' : doTrade loc s = Some (msgs, s') → fits s msgs s'.
Proof.
  intros H. unfold doTrade in H. draw in H as bb s1 E1 W1. draw in H as ba s2 E2 W2. case_match.
  { apply go_ret_Some in H as [<- <-]. apply fits_nil. congruence. }
  draw in H as f s3 E3 W3. case_match; draw in H as p s4 E4 W4;
    (eapply (fits_draws _ s4); [congruence|]; by eapply fits_execute).
Qed.

(** Every action. *)
Lemma fits_do_action currentPrice a s msgs s' : do_action loc tick currentPrice a s = Some (msgs, s') → fits s msgs s'.
Proof.
  unfold do_action, doAdd, doReplenish. repeat case_match; intros E;
    eauto using fits_place_order, fits_doCancel, fits_doReplace, fits_doTrade.
  apply go_ret_Some in E as [<- <-]. by apply fits_nil.
Qed.

(** Seeding. *)
Lemma fits_seed_order side price j s msgs s' : seed_order loc side price j s = Some (msgs, s') → ids_fit s.(bk) → ids_fit s'.(bk).
Proof.
  intros H Hs. unfold seed_order in H. draw in H as n s1 E1 W1.
  apply on_book_bind in H as (id & b1 & Eid & H). draw in H as mpid s2 E2 W2. rewrite E1 in Eid.
  apply on_book_bind in H as (q & b2 & Eq & H). apply on_book_bind in H as (ev & b3 & Eev & [<- <-]%go_ret_Some).
  cbn [bk rng] in *. eapply ids_fit_heap; [by eapply AddOrder_heap|]. injection Eid as <- <-.
  eapply new_order_ids; [|exact Eq|]; [apply u64_next|]. by rewrite E2.
Qed.

Lemma fits_Initialize ref s msgs s' : Initialize loc tick ref s = Some (msgs, s') → ids_fit s.(bk) → ids_fit s'.(bk).
Proof.
  apply (go_fold_keeps (λ s, ids_fit s.(bk))). intros m1 lv s1 m2 s2. apply (go_fold_keeps (λ s, ids_fit s.(bk))).
  intros m3 j s3 m4 s4 (a & s5 & E1 & (b & s6 & E2 & [_ <-]%go_ret_Some)%go_bind_Some)%go_bind_Some H.
  eapply fits_seed_order; [exact E2|]. by eapply fits_seed_order.
Qed.
End wire.
