(* ===== verification/SimProps.v ===== *)
(** * Properties of the order book simulator

    [apply_msg] is a consumer of the feed: it rebuilds the resting orders from
    the add, delete, execute, cancel and replace messages, as the comment on
    [addMsgs] expects a client to.  The simulator's actions are proved against
    it: no action panics, the book stays well formed, and the messages keep the
    consumer's book equal to the simulator's, except for the orders a replace
    evicts. *)
From S2P Require Import Prelude Word Float64 Rng Book BookSide BookSpec BookProps Itch Simulator.

Local Open Scope Z_scope.

(** ** The consumer *)

Abbreviation resting := (Z * float64 * Z)%type.  (* side, price, shares *)

Definition view_of (os : list Order.t) : gmap Z resting :=
  list_to_map ((λ o, (o.(Order.ID), (o.(Order.Side), o.(Order.Price), o.(Order.Shares)))) <$> os).

Definition reduce_entry (ref n : Z) (v : gmap Z resting) : gmap Z resting :=
  match v !! ref with
  | Some (sd, p, k) => if k - n <=? 0 then delete ref v else <[ref := (sd, p, k - n)]> v
  | None => v
  end.

Definition apply_msg (v : gmap Z resting) (m : Message.t) : gmap Z resting :=
  let ty := m.(Message.Type_) in
  let ref := m.(Message.OrderRef) in
  if (ty =? MsgAddOrder) || (ty =? MsgAddOrderMPID) then
    <[ref := (m.(Message.Side), m.(Message.Price), m.(Message.Shares))]> v
  else if ty =? MsgOrderDelete then delete ref v
  else if (ty =? MsgOrderExecuted) || (ty =? MsgOrderCancel) then reduce_entry ref m.(Message.Shares) v
  else if ty =? MsgOrderReplace then
    match v !! m.(Message.OrigOrderRef) with
    | Some (sd, _, _) =>
        <[ref := (sd, m.(Message.Price), m.(Message.Shares))]> (delete m.(Message.OrigOrderRef) v)
    | None => v
    end
  else v.

Definition replay (v : gmap Z resting) (msgs : list Message.t) : gmap Z resting :=
  fold_left apply_msg msgs v.

Definition ids (os : list Order.t) : list Z := Order.ID <$> os.

Lemma replay_app v m1 m2 : replay v (m1 ++ m2) = replay (replay v m1) m2.
Proof. apply fold_left_app. Qed.

Lemma view_cons o os :
  view_of (o :: os) = <[o.(Order.ID) := (o.(Order.Side), o.(Order.Price), o.(Order.Shares))]> (view_of os).
Proof. done. Qed.

Lemma view_lookup_None os id : id ∉ ids os → view_of os !! id = None.
Proof.
  intros Hid. apply not_elem_of_list_to_map_1. rewrite <- list_fmap_compose. done.
Qed.

Lemma view_delete o os : o.(Order.ID) ∉ ids os → delete o.(Order.ID) (view_of (o :: os)) = view_of os.
Proof. intros H. rewrite view_cons. by rewrite delete_insert_id by by apply view_lookup_None. Qed.

Lemma view_perm os1 os2 : NoDup (ids os1) → os1 ≡ₚ os2 → view_of os1 = view_of os2.
Proof.
  intros Hnd Hp. apply list_to_map_proper; [|by apply fmap_Permutation].
  rewrite <- list_fmap_compose. exact Hnd.
Qed.

Global Instance ids_perm : Proper ((≡ₚ) ==> (≡ₚ)) ids.
Proof. intros ???. by apply fmap_Permutation. Qed.

Lemma ids_app os1 os2 : ids (os1 ++ os2) = ids os1 ++ ids os2.
Proof. apply fmap_app. Qed.

(** Deleting a list of orders from the view. *)
Lemma view_delete_all (ev os : list Order.t) :
  NoDup (ids (ev ++ os)) →
  fold_left (λ v e, delete e.(Order.ID) v) ev (view_of (ev ++ os)) = view_of os.
Proof.
  induction ev as [|e ev IH]; [done|]. cbn [app ids fmap list_fmap]. intros [Hn Hnd]%NoDup_cons.
  cbn [fold_left]. rewrite view_delete by done. by apply IH.
Qed.

Section messages.
Context (loc : Z).

Lemma apply_add v o :
  apply_msg v (makeAddOrderMsg loc o)
  = <[o.(Order.ID) := (o.(Order.Side), o.(Order.Price), o.(Order.Shares))]> v.
Proof. unfold makeAddOrderMsg. by case_decide. Qed.

Lemma apply_delete v id : apply_msg v (delete_msg loc id) = delete id v.
Proof. done. Qed.

Lemma apply_exec v o n k : apply_msg v (exec_msg loc o n k) = reduce_entry o.(Order.ID) n v.
Proof. done. Qed.

Lemma apply_trade v o n k a : apply_msg v (trade_msg loc o n k a) = v.
Proof. done. Qed.

(** The loop of [addMsgs] deletes the evicted orders other than [o]. *)
Definition other (o e : Order.t) : bool := negb (e.(Order.ID) =? o.(Order.ID)).

Lemma evicted_msgs_spec o ev :
  evicted_msgs loc o ev
  = (delete_msg loc ∘ Order.ID <$> List.filter (other o) ev, negb (forallb (other o) ev)).
Proof.
  unfold evicted_msgs.
  assert (∀ msgs b, fold_left (λ '(msgs, selfEvicted) e,
    if e.(Order.ID) =? o.(Order.ID) then (msgs, true)
    else (msgs ++ [delete_msg loc e.(Order.ID)], selfEvicted)) ev (msgs, b)
    = (msgs ++ (delete_msg loc ∘ Order.ID <$> List.filter (other o) ev),
       b || negb (forallb (other o) ev))) as H; [|by rewrite H].
  induction ev as [|e ev IH]; intros msgs b; cbn; [by rewrite app_nil_r, orb_false_r|].
  destruct (other o e) eqn:E; unfold other in E;
    [apply negb_true_iff in E|apply negb_false_iff in E]; rewrite E, IH; cbn.
  - by rewrite <- app_assoc.
  - by rewrite orb_true_r.
Qed.

Lemma replay_deletes v ev :
  replay v (delete_msg loc ∘ Order.ID <$> ev) = fold_left (λ v e, delete e.(Order.ID) v) ev v.
Proof. revert v. induction ev as [|e ev IH]; intros v; [done|]. cbn. apply IH. Qed.

Lemma filter_other_id o ev : forallb (other o) ev = true → List.filter (other o) ev = ev.
Proof.
  induction ev as [|e ev IH]; [done|]. cbn. destruct (other o e); [|done]. cbn. intros ?. by rewrite IH.
Qed.

Lemma other_not_in o ev : o.(Order.ID) ∉ ids ev → forallb (other o) ev = true.
Proof.
  induction ev as [|e ev IH]; [done|]. cbn. intros [Hne Hn]%not_elem_of_cons. rewrite IH by done.
  unfold other. destruct (Z.eqb_spec (Order.ID e) (Order.ID o)); [congruence|done].
Qed.

(** What the messages of [addMsgs] do to a consumer: its orders become those
    that still rest after the insertion, whether or not [o] is among them. *)
Lemma replay_insert o ev os os' :
  NoDup (ids (o :: os)) → o :: os ≡ₚ os' ++ ev →
  let '(msgs, selfEvicted) := evicted_msgs loc o ev in
  replay (view_of os) (if (selfEvicted : bool) then msgs else [makeAddOrderMsg loc o] ++ msgs)
  = view_of os'.
Proof.
  intros Hnd Hp. rewrite evicted_msgs_spec.
  destruct (decide (o.(Order.ID) ∈ ids ev)) as [Hin|Hin].
  - apply list_elem_of_fmap in Hin as (e & He & Hin).
    assert (e = o) as ->.
    { assert (e ∈ o :: os) as [->|Hos]%elem_of_cons; [rewrite Hp; set_solver|done|].
      apply NoDup_cons in Hnd as [Hn _]. destruct Hn. rewrite He. by apply list_elem_of_fmap_2. }
    apply elem_of_Permutation in Hin as (ev2 & Hev).
    assert (o :: os ≡ₚ o :: os' ++ ev2) as Hos by (by rewrite Hp, Hev, Permutation_middle).
    assert (o.(Order.ID) ∉ ids ev2) as Hn2.
    { apply NoDup_cons in Hnd as [Hn _]. apply Permutation_cons_inv in Hos.
      intros ?. apply Hn. rewrite Hos, ids_app. set_solver. }
    assert (forallb (other o) ev = false) as ->.
    { apply not_true_is_false. rewrite forallb_forall. intros Hall.
      specialize (Hall o). unfold other in Hall. rewrite Z.eqb_refl in Hall. cbn in Hall.
      assert (false = true) by (apply Hall, list_elem_of_In; rewrite Hev; set_solver). done. }
    cbn [negb].
    assert (List.filter (other o) ev ≡ₚ ev2) as Hf.
    { rewrite <- (filter_other_id o ev2) by by apply other_not_in.
      transitivity (List.filter (other o) (o :: ev2)).
      - clear -Hev. induction Hev; cbn; [done|case_match; by rewrite ?IHHev| |by etrans].
        repeat case_match; try done. by apply Permutation_swap.
      - cbn. unfold other at 1. by rewrite Z.eqb_refl. }
    apply Permutation_cons_inv in Hos. rewrite replay_deletes.
    rewrite (view_perm os (List.filter (other o) ev ++ os')).
    + apply view_delete_all. rewrite Hf, Permutation_app_comm, <- Hos.
      by apply NoDup_cons in Hnd as [_ ?].
    + by apply NoDup_cons in Hnd as [_ ?].
    + by rewrite Hf, Permutation_app_comm.
  - rewrite other_not_in, filter_other_id by (done || by apply other_not_in). cbn [negb].
    rewrite replay_app. unfold replay at 2. cbn [fold_left]. rewrite apply_add, <- view_cons, replay_deletes.
    rewrite (view_perm (o :: os) (ev ++ os')) by (done || by rewrite Hp, Permutation_app_comm).
    apply view_delete_all. by rewrite Permutation_app_comm, <- Hp.
Qed.

End messages.


(** ** The abstract operations as permutations of the resting orders *)

Lemma split_levels_app n last q : (split_levels n last q).1 ++ (split_levels n last q).2 = q.
Proof.
  revert n last. induction q as [|x r IH]; intros n last; [done|]. cbn.
  destruct (match last with Some p => _ | None => _ end).
  - specialize (IH n last). destruct (split_levels n last r). cbn in *. by rewrite IH.
  - destruct n as [|n]; [done|]. specialize (IH n (Some (Order.Price x))).
    destruct (split_levels _ _ r). cbn in *. by rewrite IH.
Qed.

Lemma spec_insert_perm d o q :
  (spec_insert d o q).1 ++ (spec_insert d o q).2 ≡ₚ o :: q.
Proof. unfold spec_insert. rewrite split_levels_app. apply pt_insert_perm. Qed.

Lemma spec_AddOrder_perm o A A' ev :
  spec_AddOrder o A = (A', ev) → a_orders A' ++ ev ≡ₚ o :: a_orders A.
Proof.
  unfold spec_AddOrder, a_orders.
  destruct (Order.Side o =? SideBuy);
    [pose proof (spec_insert_perm true o (a_bids A)) as H
    |pose proof (spec_insert_perm false o (a_asks A)) as H];
    destruct (spec_insert _ _ _) as [k e]; intros [= <- <-]; cbn in *.
  - rewrite <- app_assoc, (Permutation_app_comm (a_asks A)), app_assoc, H. done.
  - rewrite <- app_assoc, H. by rewrite <- Permutation_middle.
Qed.

Lemma find_in id A o : find_order id A = Some o → o ∈ a_orders A ∧ o.(Order.ID) = id.
Proof.
  intros [Hin Hid]%List.find_some. split; [by apply list_elem_of_In|by apply Z.eqb_eq].
Qed.

Lemma filter_ids id (l : list Order.t) :
  id ∉ ids l → List.filter (negb ∘ has_id id) l = l ∧
  ∀ f, (λ o, if has_id id o then f o else o) <$> l = l.
Proof.
  induction l as [|o l IH]; [done|]. cbn. intros [Hne Hn]%not_elem_of_cons.
  destruct (IH Hn) as [H1 H2]. destruct (has_id id o) eqn:E; [apply Z.eqb_eq in E; congruence|].
  cbn. rewrite H1. split; [done|]. intros f. by rewrite H2.
Qed.

Lemma find_split id A o :
  NoDup (ids (a_orders A)) → find_order id A = Some o →
  ∃ rest, a_orders A ≡ₚ o :: rest ∧ a_orders (spec_RemoveOrder id A) ≡ₚ rest ∧
    ∀ f, a_orders (spec_update id f A) ≡ₚ f o :: rest.
Proof.
  intros Hnd [Hin <-]%find_in. unfold a_orders, spec_RemoveOrder, spec_update. cbn.
  setoid_rewrite <- fmap_app. rewrite <- List.filter_app. fold (a_orders A).
  destruct (list_elem_of_split _ _ Hin) as (l1 & l2 & E). rewrite E in *.
  exists (l1 ++ l2). rewrite ids_app in Hnd. cbn in Hnd.
  apply NoDup_app in Hnd as (_ & Hd & [H2 _]%NoDup_cons).
  assert (o.(Order.ID) ∉ ids l1) as H1 by (intros H; apply (Hd _ H); constructor).
  destruct (filter_ids _ _ H1) as [F1 G1], (filter_ids _ _ H2) as [F2 G2].
  assert (has_id o.(Order.ID) o = true) as Ho by apply Z.eqb_refl.
  split_and!; [by rewrite <- Permutation_middle| |intros f].
  - rewrite List.filter_app, F1. cbn. rewrite Ho. cbn. by rewrite F2.
  - rewrite fmap_app, G1. cbn. rewrite Ho, G2. by rewrite <- Permutation_middle.
Qed.

Lemma rep_ids s : book_rep s → NoDup (ids (a_orders (abs s))).
Proof.
  intros Hr. unfold ids, abs. rewrite a_orders_abs, <- list_fmap_compose. by apply rep_ids_nodup.
Qed.

Lemma rep_find_ptr s p :
  book_rep s → p ∈ book_ptrs s.(book) →
  find_order (deref s.(orders) p).(Order.ID) (abs s) = Some (deref s.(orders) p).
Proof.
  intros Hr Hp. unfold abs. rewrite rep_find by done.
  by rewrite (proj2 (rep_map _ _ Hr _ p) (conj Hp eq_refl)).
Qed.

(** ** The simulator's invariant *)

Section simulator.
Context (loc : Z) (tick : float64).

(** The orders the simulator makes: known IDs, round lots of 100 to 1000
    shares, its own locate code, an ordered price. *)
Record order_ok (c : Z) (o : Order.t) : Prop := mk_order_ok {
  oo_id : 0 < o.(Order.ID) ≤ c;
  oo_lots : ∃ k, 1 ≤ k ≤ 10 ∧ o.(Order.Shares) = 100 * k;
  oo_loc : o.(Order.Locate) = loc;
  oo_side : o.(Order.Side) = SideBuy ∨ o.(Order.Side) = SideSell;
}.

Definition resting_orders (s : sim) : list Order.t := a_orders (abs s.(bk)).
Definition counter (s : sim) : Z := s.(bk).(orderIDCounter).
Definition view (s : sim) : gmap Z resting := view_of (resting_orders s).

Record sim_ok (s : sim) : Prop := mk_sim_ok {
  so_rep : book_rep s.(bk);
  so_orders : Forall (order_ok (counter s)) (resting_orders s);
  so_counter : 0 ≤ counter s;
}.

(** Room for [n] more orders: the ID counter does not wrap, and the number of
    resting orders stays a [uint32]. *)
Definition room (n : Z) (s : sim) : Prop :=
  counter s + n < 2 ^ 64 ∧ Z.of_nat (length (resting_orders s)) + n < 2 ^ 32.

(** The consumer's book [v] is the simulator's, plus the orders in [lost]. *)
Record synced (lost : list Order.t) (v : gmap Z resting) (s : sim) : Prop := mk_synced {
  sy_view : v = view_of (resting_orders s ++ lost);
  sy_nodup : NoDup (ids (resting_orders s ++ lost));
  sy_lost : Forall (λ o, 0 < o.(Order.ID) ≤ counter s) lost;
}.

(** What an action that emits [msgs] establishes. *)
Record action_post (s : sim) (lost : list Order.t) (v : gmap Z resting)
    (msgs : list Message.t) (s' : sim) : Prop := mk_action_post {
  ap_ok : sim_ok s';
  ap_counter : counter s ≤ counter s' ≤ counter s + 1;
  ap_length : (length (resting_orders s') ≤ length (resting_orders s) + 1)%nat;
  ap_synced : ∃ ev, synced (ev ++ lost) (replay v msgs) s' ∧
    (Forall (λ m, m.(Message.Type_) ≠ MsgOrderReplace) msgs → ev = []);
}.

Record tick_ok : Prop := mk_tick_ok {
  tk_finite : is_nonzero_finite tick;
  tk_offset : ∀ k, -2 ≤ k ≤ 10 → is_finite (float_of_Z k * tick)%F;
}.

(** ** Drawing random numbers and reading the book *)

Lemma wp_Float64 (Q : float64 → sim → Prop) s :
  (∀ f r, Q f (mkSim r s.(bk))) → go_wp (on_rng Rng.Float64) Q s.
Proof. intros H. unfold on_rng. wp. apply H. Qed.

Lemma wp_IntRange lo hi (Q : Z → sim → Prop) s :
  is_s 32 lo → is_s 32 hi → hi - lo < 2 ^ 32 - 1 →
  (∀ k r, lo ≤ k ≤ Z.max lo hi → Q k (mkSim r s.(bk))) → go_wp (on_rng (Rng.IntRange lo hi)) Q s.
Proof.
  intros Hlo Hhi Hd H. unfold on_rng. wp. unfold is_s in *. cbn -[Z.pow] in Hlo, Hhi.
  destruct (Rng.IntRange_spec lo hi s.(rng)) as (k & r & E & Hk & _);
    [unfold is_s; lia..|]. eapply go_wp_run; [done|]. by apply H.
Qed.

Lemma wp_Intn n (Q : Z → sim → Prop) s :
  0 < n < 2 ^ 32 →
  (∀ k r, 0 ≤ k < n → Q k (mkSim r s.(bk))) → go_wp (on_rng (Rng.Intn n)) Q s.
Proof.
  intros Hn H. unfold on_rng. wp.
  destruct (Rng.Intn_spec n s.(rng)) as (k & r & E & ? & ? & _); [lia|].
  eapply go_wp_run; [done|]. apply H. lia.
Qed.

Lemma wp_pick_mpid p (Q : string → sim → Prop) s :
  (∀ m r, Q m (mkSim r s.(bk))) → go_wp (pick_mpid p) Q s.
Proof.
  intros H. unfold pick_mpid. wp. apply wp_Float64. intros f r. case_match; [|by wp].
  wp. apply wp_Intn; [vm_compute; done|]. intros k r' Hk. cbn [bk].
  destruct (lookup_lt_is_Some_2 mpids (Z.to_nat k)) as [m ->]; [|apply H].
  change (Z.of_nat (length mpids)) with 8 in Hk. change (length mpids) with 8%nat. lia.
Qed.

Lemma snapPrice_num p : tick_ok → is_num p → is_num (snapPrice p tick).
Proof. intros [Ht _] Hp. unfold snapPrice. auto with floats. Qed.

(** ** Insertion *)

Lemma order_ok_mono c c' o : c ≤ c' → order_ok c o → order_ok c' o.
Proof. intros ? []. split; [lia|done..]. Qed.

Lemma sim_ok_orders s o : sim_ok s → o ∈ resting_orders s → order_ok (counter s) o.
Proof. intros [_ H _]. rewrite Forall_forall in H. apply H. Qed.

Lemma new_order_deref o s p s1 : new_order o s = Some (p, s1) → deref s1.(orders) p = o.
Proof. intros [= <- <-]. unfold deref. cbn. by rewrite lookup_insert_eq. Qed.

Definition added_by (b : Book.t) (o : Order.t) (p : ptr) (ev : list ptr) (b' : bstate) : Prop :=
  ∃ s1, s1.(book) = b ∧ deref s1.(orders) p = o ∧ AddOrder p s1 = Some (ev, b').

(** [new_order] then [AddOrder], as every caller does. *)
Lemma wp_new_add {B} s o (k : ptr → list ptr → go sim B) Q :
  book_rep s.(bk) → o.(Order.ID) ∉ ids (resting_orders s) → is_num o.(Order.Price) →
  (∀ p ev b', book_rep b' → deref b'.(orders) p = o →
    a_orders (abs b') ++ (deref b'.(orders) <$> ev) ≡ₚ o :: resting_orders s →
    b'.(orderIDCounter) = counter s → added_by s.(bk).(book) o p ev b' →
    go_wp (k p ev) Q (mkSim s.(rng) b')) →
  go_wp (p ← on_book (new_order o); ev ← on_book (AddOrder p); k p ev) Q s.
Proof.
  intros Hr Hid Hnum H. unfold on_book. wp.
  destruct (add_new_order s.(bk) o Hr) as (p & ev & s1 & b' & E1 & E2 & Hr' & Hs & Hp & Hc); [|done|].
  { destruct (find_order _ _) as [x|] eqn:E; [|done]. apply find_in in E as [Hin E].
    destruct Hid. rewrite <- E. by apply list_elem_of_fmap_2. }
  eapply go_wp_run; [exact E1|]. wp. eapply go_wp_run; [exact E2|].
  apply H; [done..| |by destruct Hc as (-> & _)|]; [by eapply spec_AddOrder_perm|].
  exists s1. split_and!; [|exact (new_order_deref _ _ _ _ E1)|done].
  unfold new_order in E1. by injection E1 as <- <-.
Qed.

Lemma synced_fresh lost v s o :
  synced lost v s → sim_ok s → counter s < o.(Order.ID) → o.(Order.ID) ∉ ids (resting_orders s ++ lost).
Proof.
  intros [_ _ Hl] [_ Ho _] Hid (x & E & Hx)%list_elem_of_fmap.
  rewrite Forall_forall in Hl, Ho. apply elem_of_app in Hx as [Hx|Hx].
  - destruct (Ho x Hx). lia.
  - specialize (Hl x Hx). lia.
Qed.

(** The state after [NextOrderID] and any number of draws. *)
Definition after_id (s : sim) (r : RNG) : sim :=
  mkSim r (mkB s.(bk).(orders) (counter s + 1) s.(bk).(matchCounter) s.(bk).(book)).

Lemma wp_NextOrderID (Q : Z → sim → Prop) s :
  0 ≤ counter s → counter s + 1 < 2 ^ 64 → Q (counter s + 1) (after_id s s.(rng)) →
  go_wp (on_book NextOrderID) Q s.
Proof.
  intros ?? H. unfold on_book. wp. unfold NextOrderID, go_wp. fold (counter s).
  rewrite uwrap_id by (unfold is_u; lia). exact H.
Qed.

(** What holds of the book an order was just inserted into. *)
Record inserted (s : sim) (lost : list Order.t) (o : Order.t) (ev : list Order.t) (s' : sim) : Prop :=
  mk_inserted {
  in_ok : sim_ok s';
  in_counter : counter s' = counter s + 1;
  in_perm : o :: resting_orders s ++ lost ≡ₚ (resting_orders s' ++ lost) ++ ev;
  in_nodup : NoDup (ids (o :: resting_orders s ++ lost));
}.

Lemma wp_insert {B} s lost v o r (k : ptr → list ptr → go sim B) Q :
  sim_ok s → synced lost v s → o.(Order.ID) = counter s + 1 → order_ok (counter s + 1) o →
  is_num o.(Order.Price) →
  (∀ p ev s', deref s'.(bk).(orders) p = o →
    inserted s lost o (deref s'.(bk).(orders) <$> ev) s' →
    added_by s.(bk).(book) o p ev s'.(bk) → go_wp (k p ev) Q s') →
  go_wp (p ← on_book (new_order o); ev ← on_book (AddOrder p); k p ev) Q (after_id s r).
Proof.
  intros Hok Hsy Hid Ho Hnum H.
  pose proof (synced_fresh _ _ _ o Hsy Hok ltac:(lia)) as Hfresh.
  rewrite ids_app in Hfresh. apply not_elem_of_app in Hfresh as [Hf1 Hf2].
  apply wp_new_add; [apply Hok|exact Hf1|done|].
  intros p ev b' Hr' Hp Hperm Hc Hadd. apply H; [done| |exact Hadd]. cbn [bk] in *.
  change (resting_orders (after_id s r)) with (resting_orders s) in Hperm.
  split.
  - split; [done| |cbn in Hc |- *; unfold counter; cbn; rewrite Hc; destruct Hok; unfold counter in *; cbn; lia].
    apply Forall_forall. intros x Hx. unfold counter. cbn [bk]. rewrite Hc. unfold counter. cbn.
    assert (x ∈ o :: resting_orders s) as [->|Hx']%elem_of_cons; [|done|].
    { rewrite <- Hperm. apply elem_of_app. by left. }
    eapply order_ok_mono; [|by apply sim_ok_orders]. unfold counter. lia.
  - unfold counter at 1. cbn [bk]. by rewrite Hc.
  - unfold resting_orders at 2. cbn [bk]. rewrite <- app_assoc, (Permutation_app_comm lost).
    rewrite app_assoc, Hperm. done.
  - cbn. constructor; [|apply Hsy]. rewrite ids_app. by apply not_elem_of_app.
Qed.

(** The consumer follows the messages of [addMsgs]. *)
Lemma inserted_synced s lost v o ev s' :
  synced lost v s → inserted s lost o ev s' →
  let '(msgs, selfEvicted) := evicted_msgs loc o ev in
  synced lost (replay v (if (selfEvicted : bool) then msgs else [makeAddOrderMsg loc o] ++ msgs)) s'.
Proof.
  intros [-> _ Hl] [_ Hc Hp Hnd].
  pose proof (replay_insert loc o ev _ _ Hnd Hp) as H. destruct (evicted_msgs loc o ev) as [msgs b].
  split; [done| |].
  - rewrite Hp, ids_app in Hnd. by apply NoDup_app in Hnd as [? _].
  - eapply Forall_impl; [exact Hl|]. cbn. intros x ?. lia.
Qed.

(** ** The actions *)

Lemma inserted_post s lost v o ev s' msgs :
  inserted s lost o ev s' → synced lost (replay v msgs) s' → action_post s lost v msgs s'.
Proof.
  intros [Hok Hc Hp _] Hsy. split; [done|lia| |by exists []].
  apply Permutation_length in Hp. cbn [length] in Hp. rewrite !length_app in Hp. lia.
Qed.

Lemma unchanged_post s lost v r :
  sim_ok s → synced lost v s → action_post s lost v [] (mkSim r s.(bk)).
Proof.
  intros [Hr Ho Hc] [Hv Hnd Hl]. split; [done|unfold counter in *; cbn; lia| |by exists []].
  unfold resting_orders. cbn. lia.
Qed.

Lemma round_lot k : 1 ≤ k ≤ 10 → to_i32 (to_i32 k * 100) = 100 * k.
Proof.
  intros ?. rewrite (swrap_id 32 k) by (unfold is_s; simpl; lia).
  rewrite swrap_id by (unfold is_s; simpl; lia). lia.
Qed.

Lemma place_order_post currentPrice maxOffset minLots p s lost v :
  tick_ok → is_num currentPrice → 1 ≤ maxOffset ≤ 10 → 1 ≤ minLots ≤ 10 →
  sim_ok s → room 1 s → synced lost v s →
  go_wp (place_order loc tick currentPrice maxOffset minLots p) (action_post s lost v) s.
Proof.
  intros Ht Hcp Hmax Hmin Hok [Hroom _] Hsy. pose proof (so_counter _ Hok).
  unfold place_order. wp. apply wp_Float64. intros f r1.
  set (side := if (f <? dec 5 1)%F then SideSell else SideBuy).
  assert (side = SideBuy ∨ side = SideSell) as Hside by (subst side; case_match; auto).
  wp. apply wp_IntRange; [unfold is_s; simpl; lia..|]. intros k r2 Hk.
  assert (is_finite (float_of_Z k * tick)%F) as Hoff by (apply Ht; lia).
  set (price0 := if side =? SideBuy then _ else _).
  set (price := if (price0 <? tick)%F then tick else price0).
  assert (is_num price0) as H0
    by (subst price0; case_match; apply snapPrice_num; auto with floats).
  assert (is_num price) as Hnum.
  { subst price. case_match; [|done]. pose proof (tk_finite Ht). by destruct tick. }
  wp. apply wp_IntRange; [unfold is_s; simpl; lia..|]. intros lots r3 Hlots.
  rewrite round_lot by lia.
  wp. apply wp_NextOrderID; [done..|]. wp. apply wp_pick_mpid. intros mpid r4.
  change (mkSim r4 (after_id _ _).(bk)) with (after_id s r4).
  apply (wp_insert s lost v); [done..| |done|].
  { split; cbn; [unfold counter in *; cbn in *; lia|exists lots; split; lia|done|done]. }
  intros q ev s' Hq Hin _. unfold addMsgs. wp. rewrite Hq.
  pose proof (inserted_synced _ _ _ _ _ _ Hsy Hin) as Hsy'.
  destruct (evicted_msgs _ _ _) as [msgs b]. by eapply inserted_post.
Qed.

(** Picking a resting order. *)
Lemma wp_pick_order (Q : option ptr → sim → Prop) s :
  sim_ok s → room 1 s →
  (∀ r, resting_orders s = [] → Q None (mkSim r s.(bk))) →
  (∀ p r, p ∈ book_ptrs s.(bk).(book) → Q (Some p) (mkSim r s.(bk))) →
  go_wp pick_order Q s.
Proof.
  intros Hok [_ Hroom] HN HS. unfold pick_order, on_book. wp.
  unfold TotalBidOrders, TotalAskOrders. wp. rewrite !count_orders_spec. cbn [bk].
  assert (length (resting_orders s) =
    length (side_ptrs s.(bk).(book).(Book.Bids)) + length (side_ptrs s.(bk).(book).(Book.Asks)))%nat as Hlen.
  { unfold resting_orders, abs. rewrite a_orders_abs, length_fmap. unfold book_ptrs. by rewrite length_app. }
  destruct (Z.eqb_spec (Z.of_nat (length (side_ptrs s.(bk).(book).(Book.Bids))) +
    Z.of_nat (length (side_ptrs s.(bk).(book).(Book.Asks)))) 0) as [E|E].
  { wp. destruct s. apply HN, nil_length_inv. lia. }
  wp. apply wp_Intn; [lia|]. intros i r Hi.
  destruct (Z.ltb_spec i (Z.of_nat (length (side_ptrs s.(bk).(book).(Book.Bids))))).
  - unfold RandomBidOrder. wp. cbn [bk]. rewrite nth_in_side_spec, Z.sub_0_r by lia.
    destruct (lookup_lt_is_Some_2 (side_ptrs s.(bk).(book).(Book.Bids)) (Z.to_nat i)) as [p Hp]; [lia|].
    rewrite Hp. apply HS, elem_of_app. left. by eapply list_elem_of_lookup_2.
  - unfold RandomAskOrder. wp. cbn [bk]. rewrite nth_in_side_spec by lia.
    set (j := Z.to_nat _).
    destruct (lookup_lt_is_Some_2 (side_ptrs s.(bk).(book).(Book.Asks)) j) as [p Hp]; [lia|].
    rewrite Hp. apply HS, elem_of_app. right. by eapply list_elem_of_lookup_2.
Qed.

(** A book in which the order [o] is gone, or has become [o2]. *)
Lemma removed_post s lost v o s' msgs :
  sim_ok s → synced lost v s → book_rep s'.(bk) → counter s' = counter s →
  resting_orders s ≡ₚ o :: resting_orders s' → replay v msgs = delete o.(Order.ID) v →
  action_post s lost v msgs s'.
Proof.
  intros [_ Ho Hc] [-> Hnd Hl] Hr Hc' Hp Hv. rewrite Hp in Hnd. cbn [app ids fmap list_fmap] in Hnd.
  apply NoDup_cons in Hnd as [Hn Hnd]. split.
  - split; [done| |lia]. rewrite Hc'. rewrite Hp in Ho. by apply Forall_cons in Ho as [_ ?].
  - lia.
  - apply Permutation_length in Hp. cbn [length] in Hp. lia.
  - exists []. split; [|done]. split; cbn [app]; [|done|by rewrite Hc'].
    rewrite Hv, (view_perm _ (o :: resting_orders s' ++ lost)).
    + by apply view_delete.
    + rewrite Hp. cbn [app ids fmap list_fmap]. by constructor.
    + by rewrite Hp.
Qed.

Lemma updated_post s lost v o o2 rest s' msgs :
  sim_ok s → synced lost v s → book_rep s'.(bk) → counter s' = counter s →
  resting_orders s ≡ₚ o :: rest → resting_orders s' ≡ₚ o2 :: rest →
  o2.(Order.ID) = o.(Order.ID) → order_ok (counter s) o2 →
  replay v msgs = <[o.(Order.ID) := (o2.(Order.Side), o2.(Order.Price), o2.(Order.Shares))]> v →
  action_post s lost v msgs s'.
Proof.
  intros [_ Ho Hc] [-> Hnd Hl] Hr Hc' Hp Hp2 Hid Ho2 Hv.
  assert (NoDup (ids (o :: rest ++ lost))) as Hnd1 by by rewrite Hp in Hnd.
  assert (NoDup (ids (o2 :: rest ++ lost))) as Hnd2
    by (cbn [ids fmap list_fmap] in *; by rewrite Hid).
  split.
  - split; [done| |lia]. rewrite Hc', Hp2. rewrite Hp in Ho. apply Forall_cons in Ho as [_ ?].
    by constructor.
  - lia.
  - rewrite Hp, Hp2. cbn [length]. lia.
  - exists []. split; [|done]. split; cbn [app]; [|by rewrite Hp2|by rewrite Hc'].
    rewrite Hv, (view_perm _ (o :: rest ++ lost)) by (done || by rewrite Hp).
    rewrite (view_perm (_ ++ _) (o2 :: rest ++ lost)) by (by rewrite Hp2).
    rewrite !view_cons, Hid. by rewrite insert_insert_eq.
Qed.

Lemma doCancel_post s lost v :
  sim_ok s → room 1 s → synced lost v s → go_wp (doCancel loc) (action_post s lost v) s.
Proof.
  intros Hok Hroom Hsy. unfold doCancel. wp. apply wp_pick_order; [done..| |].
  { intros r _. wp. by apply unchanged_post. }
  intros p r Hp. unfold read, on_book. wp. cbn [bk].
  pose proof (rep_find_ptr s.(bk) p (so_rep _ Hok) Hp) as Hf.
  pose proof (RemoveOrder_rep s.(bk) (deref s.(bk).(orders) p).(Order.ID) (so_rep _ Hok)) as H.
  rewrite Hf in H. destruct H as (q & b' & E & _ & Hr' & Ha & _ & _ & Hc & _).
  eapply go_wp_run; [exact E|]. wp. cbn [rng].
  destruct (find_split _ _ _ (rep_ids _ (so_rep _ Hok)) Hf) as (rest & Hp1 & Hp2 & _).
  apply (removed_post _ _ _ (deref s.(bk).(orders) p)); [done..| |done].
  unfold resting_orders at 2. cbn [bk]. rewrite Ha, Hp2. exact Hp1.
Qed.

Lemma apply_replace v oldID newID n price sd p0 n0 :
  v !! oldID = Some (sd, p0, n0) →
  apply_msg v (replace_msg loc oldID newID n price) = <[newID := (sd, price, n)]> (delete oldID v).
Proof. intros H. unfold apply_msg. cbn. by rewrite H. Qed.

Lemma rep_price_num s p :
  book_rep s → p ∈ book_ptrs s.(book) → is_num (deref s.(orders) p).(Order.Price).
Proof.
  intros Hr [Hp|Hp]%elem_of_app; apply elem_of_side_ptrs in Hp as (l & Hl & Hp);
    [destruct (rep_bids _ _ Hr) as [[_ Hls] _]|destruct (rep_asks _ _ Hr) as [[_ Hls] _]];
    rewrite Forall_forall in Hls; destruct (Hls l Hl) as (_ & _ & Hf);
    rewrite Forall_forall in Hf; by destruct (feqb_num _ _ (Hf p Hp)).
Qed.

(** A replacement: [old] gives way to [o], which pushes [ev] out.  The message
    tells of the first two. *)
Lemma replaced_post s lost v old o ev rest s' m :
  sim_ok s → synced lost v s → book_rep s'.(bk) → counter s' = counter s + 1 →
  resting_orders s ≡ₚ old :: rest → resting_orders s' ++ ev ≡ₚ o :: rest →
  o.(Order.ID) = counter s + 1 → order_ok (counter s + 1) o →
  m.(Message.Type_) = MsgOrderReplace →
  apply_msg v m = <[o.(Order.ID) := (o.(Order.Side), o.(Order.Price), o.(Order.Shares))]>
    (delete old.(Order.ID) v) →
  action_post s lost v [m] s'.
Proof.
  intros Hok Hsy Hr Hc Hp Hp2 Hid Ho Hm Hv.
  pose proof (synced_fresh _ _ _ o Hsy Hok ltac:(lia)) as Hfresh.
  destruct Hok as [_ Hos Hcs], Hsy as [-> Hnd Hl].
  rewrite Hp in Hos, Hfresh. apply Forall_cons in Hos as [_ Hrest].
  rewrite Hp in Hnd. cbn [app ids fmap list_fmap] in Hnd, Hfresh.
  apply NoDup_cons in Hnd as [Hn Hnd]. apply not_elem_of_cons in Hfresh as [_ Hfresh].
  assert ((resting_orders s' ++ ev) ++ lost ≡ₚ o :: rest ++ lost) as Hp3 by (by rewrite Hp2).
  rewrite <- app_assoc in Hp3.
  assert (NoDup (ids (o :: rest ++ lost))) as Hnd2 by (cbn [ids fmap list_fmap]; by constructor).
  assert (∀ x, x ∈ o :: rest → order_ok (counter s + 1) x) as Hall.
  { intros x [->|Hx]%elem_of_cons; [done|]. rewrite Forall_forall in Hrest.
    eapply order_ok_mono; [|by apply Hrest]. lia. }
  split.
  - split; [done| |lia]. rewrite Hc. apply Forall_forall. intros x Hx. apply Hall. rewrite <- Hp2.
    apply elem_of_app. by left.
  - lia.
  - apply Permutation_length in Hp, Hp2. rewrite length_app in Hp2. cbn [length] in *. lia.
  - exists ev. split; [|intros [Hne _]%Forall_cons; done]. split.
    + cbn [replay fold_left]. rewrite Hv, (view_perm _ (old :: rest ++ lost)).
      * rewrite view_delete, <- view_cons by done. by apply view_perm.
      * rewrite Hp. cbn [app ids fmap list_fmap]. by constructor.
      * by rewrite Hp.
    + by rewrite Hp3.
    + rewrite Hc. apply Forall_app. split.
      * apply Forall_forall. intros x Hx. apply Hall. rewrite <- Hp2. apply elem_of_app. by right.
      * eapply Forall_impl; [exact Hl|]. cbn. intros x ?. lia.
Qed.

Lemma doReplace_post currentPrice s lost v :
  tick_ok → sim_ok s → room 1 s → synced lost v s →
  go_wp (doReplace loc tick currentPrice) (action_post s lost v) s.
Proof.
  intros Ht Hok Hroom Hsy. unfold doReplace. wp. apply wp_pick_order; [done..| |].
  { intros r _. wp. by apply unchanged_post. }
  intros p r Hp. unfold read. wp. cbn [bk].
  pose proof (rep_find_ptr s.(bk) p (so_rep _ Hok) Hp) as Hf.
  pose proof (rep_price_num s.(bk) p (so_rep _ Hok) Hp) as Hnum0.
  set (old := deref s.(bk).(orders) p) in *.
  apply wp_IntRange; [unfold is_s; simpl; lia..|]. intros k r2 Hk. cbn [bk].
  assert (is_finite (float_of_Z k * tick)%F) as Hoff by (apply Ht; lia).
  set (price0 := snapPrice _ _).
  assert (is_num price0) as H0 by (apply snapPrice_num; auto with floats).
  set (price := if (price0 <? tick)%F then tick else price0).
  assert (is_num price) as Hnum.
  { subst price. case_match; [|done]. pose proof (tk_finite Ht). by destruct tick. }
  wp. apply wp_IntRange; [unfold is_s; simpl; lia..|]. intros lots r3 Hlots.
  rewrite round_lot by lia. cbn [bk]. unfold on_book. wp. cbn [bk rng].
  destruct Hroom as [Hroom _]. pose proof (so_counter _ Hok).
  assert (to_u64 (s.(bk).(orderIDCounter) + 1) = counter s + 1) as Hc
    by (apply uwrap_id; unfold is_u, counter in *; lia).
  pose proof (ReplaceOrder_rep s.(bk) old.(Order.ID) price (100 * lots) (so_rep _ Hok)) as H1.
  rewrite Hc in H1. unfold spec_ReplaceOrder in H1. rewrite Hf in H1.
  destruct (spec_AddOrder _ _) as [A' ev] eqn:Eadd.
  destruct H1 as (np & b' & E & Hr' & Ha & Hnp & Hc' & _); [|done|].
  { destruct (find_order (counter s + 1) _) as [x|] eqn:Ex; [|done]. apply find_in in Ex as [Hin Ex].
    apply (sim_ok_orders s) in Hin; [|done]. destruct Hin. lia. }
  eapply go_wp_run; [exact E|]. wp. unfold read. wp. cbn [bk]. rewrite Hnp. cbn [Order.ID].
  destruct (find_split _ _ _ (rep_ids _ (so_rep _ Hok)) Hf) as (rest & Hp1 & Hp2 & _).
  apply spec_AddOrder_perm in Eadd. rewrite Hp2 in Eadd.
  assert (order_ok (counter s) old) as [Hi1 _ Hi3 Hi4].
  { apply sim_ok_orders; [done|]. unfold resting_orders. rewrite Hp1. by left. }
  set (o := Order.mk _ _ _ _ _ _ _) in *.
  apply (replaced_post s lost v old o ev rest); try done.
  - unfold resting_orders. cbn [bk]. by rewrite Ha.
  - split; cbn; [lia|exists lots; split; lia|done|done].
  - cbn [Order.ID Order.Side Order.Price Order.Shares].
    apply (apply_replace _ _ _ _ _ _ old.(Order.Price) old.(Order.Shares)).
    destruct Hsy as [-> Hnd _]. rewrite (view_perm _ (old :: rest ++ lost)); [|done|].
    { by rewrite view_cons, lookup_insert_eq. }
    change (resting_orders s ≡ₚ old :: rest) in Hp1. by rewrite Hp1.
Qed.

(** ** Trades *)

(** What the two messages of a trade say, and which order they are about: the
    first order [o] of its side, [n] of whose shares execute. *)
Record traded (s : sim) (aggressor : Z) (o : Order.t) (n : Z) (msgs : list Message.t) (s' : sim) : Prop :=
  mk_traded {
  tr_msgs : msgs = [exec_msg loc o n (to_u64 (s.(bk).(matchCounter) + 1));
                    trade_msg loc o n (to_u64 (s.(bk).(matchCounter) + 1)) aggressor];
  tr_match : s'.(bk).(matchCounter) = to_u64 (s.(bk).(matchCounter) + 1);
  tr_shares : 0 < n ≤ o.(Order.Shares) ∧ (100 | n);
  tr_book : abs s'.(bk) = (spec_ReduceOrder o.(Order.ID) n (abs s.(bk))).2;
}.

Lemma wp_execute aggressor p (Q : list Message.t → sim → Prop) s :
  sim_ok s → p ∈ book_ptrs s.(bk).(book) →
  (∀ n msgs s', traded s aggressor (deref s.(bk).(orders) p) n msgs s' →
    book_rep s'.(bk) → counter s' = counter s → Q msgs s') →
  go_wp (execute loc aggressor (Some p)) Q s.
Proof.
  intros Hok Hp HQ. unfold execute, read. wp.
  pose proof (rep_find_ptr s.(bk) p (so_rep _ Hok) Hp) as Hf.
  set (o := deref s.(bk).(orders) p) in *.
  destruct (sim_ok_orders s o Hok) as [_ (k & Hk & Hsh) _ _]; [by apply find_in in Hf as [? _]|].
  rewrite Hsh, Z.mul_comm, Z.quot_mul by lia.
  apply wp_IntRange; [unfold is_s; simpl; lia..|]. intros j r Hj. rewrite round_lot by lia.
  destruct (Z.leb_spec (100 * j) 0); [lia|].
  unfold on_book. wp. cbn [bk rng]. unfold NextMatchNumber, go_wp at 1. cbn [fst].
  set (b1 := mkB _ _ _ _).
  destruct (ReduceOrder_rep b1 o.(Order.ID) (100 * j) (so_rep _ Hok)) as (b' & E & Hr' & Ha & Hc & _).
  wp. cbn [bk]. eapply go_wp_run; [exact E|]. wp. cbn [rng]. destruct Hc as (Hc & Hm & _).
  apply (HQ (100 * j)); [|done|exact Hc]. split; [done|exact Hm| |exact Ha].
  rewrite Hsh. split; [lia|]. exists j. lia.
Qed.

Lemma traded_post s lost v aggressor o n msgs s' :
  sim_ok s → synced lost v s → find_order o.(Order.ID) (abs s.(bk)) = Some o →
  traded s aggressor o n msgs s' → book_rep s'.(bk) → counter s' = counter s →
  action_post s lost v msgs s'.
Proof.
  intros Hok Hsy Hf [-> _ [Hn [j Hj]] Ha] Hr Hc.
  destruct (find_split _ _ _ (rep_ids _ (so_rep _ Hok)) Hf) as (rest & Hp1 & Hp2 & Hp3).
  destruct (sim_ok_orders s o Hok) as [Hi1 (k & Hk & Hsh) Hi3 Hi4]; [by apply find_in in Hf as [? _]|].
  assert (v !! o.(Order.ID) = Some (o.(Order.Side), o.(Order.Price), o.(Order.Shares))) as Hv.
  { destruct Hsy as [-> Hnd _]. change (resting_orders s ≡ₚ o :: rest) in Hp1.
    rewrite (view_perm _ (o :: rest ++ lost)); [|done|by rewrite Hp1].
    by rewrite view_cons, lookup_insert_eq. }
  unfold spec_ReduceOrder in Ha. rewrite Hf in Ha.
  rewrite swrap_id in Ha by (unfold is_s; simpl; lia).
  destruct (Z.leb_spec (o.(Order.Shares) - n) 0) as [E|E]; cbn [snd] in Ha.
  - apply (removed_post _ _ _ o); [done..| |].
    + unfold resting_orders at 2. by rewrite Ha, Hp2.
    + unfold replay. cbn [fold_left]. rewrite apply_exec, apply_trade. unfold reduce_entry. rewrite Hv.
      by destruct (Z.leb_spec (o.(Order.Shares) - n) 0); [|lia].
  - apply (updated_post _ _ _ o (Order.with_Shares o (o.(Order.Shares) - n)) rest); try done.
    + unfold resting_orders. by rewrite Ha, Hp3.
    + split; cbn; [done|exists (k - j); lia|done|done].
    + unfold replay. cbn [fold_left]. rewrite apply_exec, apply_trade. unfold reduce_entry. rewrite Hv.
      by destruct (Z.leb_spec (o.(Order.Shares) - n) 0); [lia|].
Qed.

(** [doTrade] compares both best prices with zero, and draws the aggressor. *)
Definition no_quote (s : sim) : bool :=
  (best_price s.(bk).(book).(Book.Bids) =? fzero)%F || (best_price s.(bk).(book).(Book.Asks) =? fzero)%F.
Definition drawn_aggressor (s : sim) : Z :=
  if from_option (λ d : float64 * RNG, d.1 <? dec 5 1)%F false (Rng.Float64 s.(rng)) then SideBuy else SideSell.

Lemma Float64_run r : ∃ f r', Rng.Float64 r = Some (f, r').
Proof. eexists _, _. reflexivity. Qed.

(** The first order of a side. *)
Lemma first_order d h ls :
  side_ok d h ls → (best_price ls =? fzero)%F = false →
  ∃ p o, nth_in_side 0 0 ls = Some p ∧ p ∈ side_ptrs ls ∧ deref h p = o ∧
    head (side_orders h ls) = Some o.
Proof.
  intros [[_ Hls] _] Hne. rewrite nth_in_side_spec by lia. cbn [Z.sub Z.to_nat].
  destruct ls as [|l ls]; [done|]. apply Forall_cons in Hls as [(Hl & _) _].
  unfold side_orders. rewrite side_ptrs_cons. destruct l.(PriceLevel.Orders) as [|p ps]; [done|].
  exists p, (deref h p). split_and!; [done|constructor|done|done].
Qed.

Lemma wp_doTrade (Q : list Message.t → sim → Prop) s :
  sim_ok s →
  (no_quote s = true → Q [] s) →
  (no_quote s = false → ∀ r o n msgs s', find_order o.(Order.ID) (abs s.(bk)) = Some o →
    head (if drawn_aggressor s =? SideBuy then a_asks (abs s.(bk)) else a_bids (abs s.(bk))) = Some o →
    traded (mkSim r s.(bk)) (drawn_aggressor s) o n msgs s' → book_rep s'.(bk) → counter s' = counter s →
    Q msgs s') →
  go_wp (doTrade loc) Q s.
Proof.
  intros Hok HN HS. unfold doTrade, on_book. wp. unfold BestBid, BestAsk. wp. cbn [bk].
  fold (best_price s.(bk).(book).(Book.Bids)). fold (best_price s.(bk).(book).(Book.Asks)).
  fold (no_quote s). destruct (no_quote s) eqn:Eq.
  { wp. destruct s. by apply HN. }
  specialize (HS eq_refl). unfold no_quote in Eq. apply orb_false_iff in Eq as [Eb Ea].
  unfold drawn_aggressor in HS. destruct (Float64_run s.(rng)) as (f & r & Ef). rewrite Ef in HS. cbn [from_option fst] in HS.
  unfold on_rng. rewrite go_wp_bind, go_wp_zoom. eapply go_wp_run; [exact Ef|]. cbn [bk rng].
  destruct (so_rep _ Hok) as [Hbid Hask _ _ _ _ _]. destruct (f <? dec 5 1)%F.
  - destruct (first_order _ _ _ Hask Ea) as (p & o & Hn & Hp & Ho & Hh).
    wp. unfold RandomAskOrder. wp. cbn [bk rng]. rewrite Hn.
    assert (p ∈ book_ptrs s.(bk).(book)) by (apply elem_of_app; by right).
    apply wp_execute; [by destruct Hok|done|]. cbn [bk]. rewrite Ho. intros n msgs s' Ht Hr' Hc.
    eapply HS; try done. rewrite <- Ho. by apply rep_find_ptr; [apply Hok|].
  - destruct (first_order _ _ _ Hbid Eb) as (p & o & Hn & Hp & Ho & Hh).
    wp. unfold RandomBidOrder. wp. cbn [bk rng]. rewrite Hn.
    assert (p ∈ book_ptrs s.(bk).(book)) by (apply elem_of_app; by left).
    apply wp_execute; [by destruct Hok|done|]. cbn [bk]. rewrite Ho. intros n msgs s' Ht Hr' Hc.
    eapply HS; try done. rewrite <- Ho. by apply rep_find_ptr; [apply Hok|].
Qed.

Lemma doTrade_post s lost v :
  sim_ok s → synced lost v s → go_wp (doTrade loc) (action_post s lost v) s.
Proof.
  intros Hok Hsy. apply wp_doTrade; [done|intros _; destruct s; by apply unchanged_post|].
  intros _ r o n msgs s' Hf _ Ht Hr Hc.
  apply (traded_post (mkSim r s.(bk)) lost v (drawn_aggressor s) o n) in Ht;
    [by destruct Ht|by destruct Hok|by destruct Hsy|done..].
Qed.

(** ** Steps *)

Lemma do_action_post currentPrice a s lost v :
  tick_ok → is_num currentPrice → sim_ok s → room 1 s → synced lost v s →
  go_wp (do_action loc tick currentPrice a) (action_post s lost v) s.
Proof.
  intros Ht Hcp Hok Hroom Hsy. unfold do_action, doAdd, doReplenish.
  repeat case_match;
    [by apply place_order_post|by apply doCancel_post|by apply doReplace_post|by apply doTrade_post
    |by apply place_order_post|].
  wp. destruct s. by apply unchanged_post.
Qed.

Definition no_replace (msgs : list Message.t) : Prop :=
  Forall (λ m, m.(Message.Type_) ≠ MsgOrderReplace) msgs.

Lemma Step_post currentPrice n s lost v :
  tick_ok → is_num currentPrice → sim_ok s → room (Z.of_nat n) s → synced lost v s →
  go_wp (Step loc tick currentPrice n) (λ msgs s',
    sim_ok s' ∧ counter s ≤ counter s' ≤ counter s + Z.of_nat n ∧
    (length (resting_orders s') ≤ length (resting_orders s) + n)%nat ∧
    ∃ ev, synced (ev ++ lost) (replay v msgs) s' ∧ (no_replace msgs → ev = [])) s.
Proof.
  intros Ht Hcp. revert s lost v. induction n as [|n IH]; intros s lost v Hok [Hr1 Hr2] Hsy.
  { cbn. split_and!; try done; try lia. by exists []. }
  cbn [Step]. unfold on_rng at 1. wp. destruct (Rng.WeightedPick_spec actionWeights s.(rng)) as (a & E & _); [done|].
  eapply go_wp_run; [exact E|]. wp.
  eapply go_wp_mono.
  { apply (do_action_post currentPrice a (mkSim (Rng.step s.(rng)) s.(bk)) lost v);
      [done|done|by destruct Hok|split; unfold counter, resting_orders in *; cbn [bk]; lia|by destruct Hsy]. }
  intros msgs s1 [Hok1 Hc1 Hl1 (ev1 & Hsy1 & Hev1)]. wp.
  change (counter (mkSim (Rng.step s.(rng)) s.(bk))) with (counter s) in Hc1.
  change (resting_orders (mkSim (Rng.step s.(rng)) s.(bk))) with (resting_orders s) in Hl1.
  eapply go_wp_mono; [apply (IH s1 (ev1 ++ lost)); [done|split; lia|exact Hsy1]|].
  intros msgs2 s2 (Hok2 & Hc2 & Hl2 & ev2 & Hsy2 & Hev2). wp. split_and!; [done|lia|lia|lia|].
  exists (ev2 ++ ev1). rewrite <- app_assoc, replay_app. split; [done|].
  intros [H1 H2]%Forall_app. by rewrite Hev1, Hev2.
Qed.

Lemma synced_start s : sim_ok s → synced [] (view s) s.
Proof.
  intros [Hr _ _]. split; [by rewrite app_nil_r| |done]. rewrite app_nil_r. by apply rep_ids.
Qed.

End simulator.
