(* ===== verification/SimInit.v ===== *)
(** * Seeding the book: [Simulator.Initialize]

    Ten levels of three orders on each side: no insertion is trimmed, so the
    sixty add messages describe exactly the book that results. *)
From S2P Require Import Prelude Word Float64 GoSort Rng Book BookSide BookSpec Itch Simulator SimProps.

Local Open Scope Z_scope.

(** ** Levels touched by one insertion *)

Definition has_level (price : float64) (ls : list PriceLevel.t) : Prop :=
  Exists (λ l, (l.(PriceLevel.Price) =? price)%F = true) ls.

Lemma append_to_level_length ls price p ls' :
  append_to_level ls price p = Some ls' → length ls' = length ls ∧ has_level price ls'.
Proof.
  revert ls'. induction ls as [|l ls IH]; intros ls'; cbn; [done|].
  destruct (PriceLevel.Price l =? price)%F eqn:E.
  - intros [= <-]. split; [done|]. by left.
  - destruct (append_to_level ls price p) as [ls2|]; [|done]. intros [= <-].
    destruct (IH ls2 eq_refl) as [H1 H2]. split; [cbn; by rewrite H1|by right].
Qed.

Lemma append_to_level_has ls price p : has_level price ls → append_to_level ls price p ≠ None.
Proof.
  induction 1 as [l ls E|l ls _ IH]; cbn; [by rewrite E|].
  case_match; [done|]. by destruct (append_to_level ls price p).
Qed.

Lemma addToSide_room ls p price d :
  is_num price → (length ls < MaxLevels)%nat ∨ has_level price ls →
  ∃ ls', addToSide ls p price d = (ls', []) ∧ has_level price ls' ∧
    (length ls' ≤ S (length ls))%nat ∧ (has_level price ls → length ls' = length ls).
Proof.
  intros Hnum H. unfold addToSide. destruct (append_to_level ls price p) as [ls'|] eqn:E.
  - apply append_to_level_length in E as [H1 H2]. exists ls'. split_and!; try done; lia.
  - destruct H as [Hlen|Hl]; [|by destruct (append_to_level_has _ _ p Hl)].
    assert (length (sort_slice (level_less d) (ls ++ [PriceLevel.mk price [p]])) = S (length ls)) as Hs
      by (rewrite length_sort_slice, length_app; cbn; lia).
    rewrite Hs. destruct (Nat.ltb_spec MaxLevels (S (length ls))); [lia|].
    eexists. split; [done|]. split_and!; [|lia|].
    + unfold has_level. rewrite Exists_exists. exists (PriceLevel.mk price [p]).
      split; [|by apply feqb_refl]. rewrite elem_of_sort_slice. apply elem_of_app. right. by left.
    + intros Hl. by destruct (append_to_level_has _ _ p Hl).
Qed.

Definition levels (buy : bool) (s : sim) : list PriceLevel.t :=
  if buy then s.(bk).(book).(Book.Bids) else s.(bk).(book).(Book.Asks).

Lemma AddOrder_room p s ev b' buy price :
  AddOrder p s = Some (ev, b') → (deref s.(orders) p).(Order.Price) = price →
  ((deref s.(orders) p).(Order.Side) =? SideBuy) = buy → is_num price →
  let side x := if buy then x.(book).(Book.Bids) else x.(book).(Book.Asks) in
  let other x := if buy then x.(book).(Book.Asks) else x.(book).(Book.Bids) in
  (length (side s) < MaxLevels)%nat ∨ has_level price (side s) →
  ev = [] ∧ other b' = other s ∧ has_level price (side b') ∧
  (length (side b') ≤ S (length (side s)))%nat ∧
  (has_level price (side s) → length (side b') = length (side s)).
Proof.
  intros E <- <- Hnum side other H. revert E. unfold AddOrder, insert_order.
  unfold side, other in *.
  destruct (Z.eqb_spec (deref s.(orders) p).(Order.Side) SideBuy).
  - edestruct (addToSide_room _ p _ true Hnum H) as (ls' & E & ? & ? & ?).
    cbn [Book.Bids Book.with_orderMap]. rewrite E. by intros [= <- <-].
  - edestruct (addToSide_room _ p _ false Hnum H) as (ls' & E & ? & ? & ?).
    cbn [Book.Asks Book.with_orderMap]. rewrite E. by intros [= <- <-].
Qed.

Section simulator.
Context (loc : Z) (tick : float64).

(** ** One seeded order *)

Definition side_of (buy : bool) : Z := if buy then SideBuy else SideSell.

(** What one [seed_order] at [price] on the side [buy] establishes. *)
Record seeded (buy : bool) (price : float64) (s : sim) (msgs : list Message.t) (s' : sim) : Prop :=
  mk_seeded {
  sd_ok : sim_ok loc s';
  sd_counter : counter s' = counter s + 1;
  sd_orders : length (resting_orders s') = S (length (resting_orders s));
  sd_view : replay (view s) msgs = view s';
  sd_msgs : ∃ m, msgs = [m] ∧ (m.(Message.Type_) = MsgAddOrder ∨ m.(Message.Type_) = MsgAddOrderMPID);
  sd_other : levels (negb buy) s' = levels (negb buy) s;
  sd_level : has_level price (levels buy s');
  sd_length : (length (levels buy s') ≤ S (length (levels buy s)))%nat;
  sd_same : has_level price (levels buy s) → length (levels buy s') = length (levels buy s);
}.

Lemma seed_lots n : 100 ≤ n ≤ 1000 →
  ∃ k, 1 ≤ k ≤ 10 ∧ to_i32 (Z.quot (to_i32 n) 100 * 100) = 100 * k.
Proof.
  intros Hn. rewrite (swrap_id 32 n) by (unfold is_s; simpl; lia).
  rewrite Z.quot_div_nonneg by lia. exists (n / 100).
  assert (1 ≤ n / 100 ≤ 10).
  { split; [apply Z.div_le_lower_bound|apply Z.lt_succ_r, Z.div_lt_upper_bound]; lia. }
  split; [done|]. rewrite swrap_id by (unfold is_s; simpl; lia). lia.
Qed.

Lemma add_msg_type o :
  (makeAddOrderMsg loc o).(Message.Type_) = MsgAddOrder ∨
  (makeAddOrderMsg loc o).(Message.Type_) = MsgAddOrderMPID.
Proof. unfold makeAddOrderMsg. case_decide; [by left|by right]. Qed.

Lemma seed_order_post buy price j s :
  sim_ok loc s → room 1 s → is_num price →
  (length (levels buy s) < MaxLevels)%nat ∨ has_level price (levels buy s) →
  go_wp (seed_order loc (side_of buy) price j) (seeded buy price s) s.
Proof.
  intros Hok [Hroom _] Hnum Hlev. pose proof (so_counter _ _ Hok).
  pose proof (synced_start _ _ Hok) as Hsy. unfold seed_order. wp.
  apply wp_IntRange; [unfold is_s; simpl; lia..|]. intros n r Hn.
  destruct (seed_lots n ltac:(lia)) as (k & Hk & ->).
  wp. apply wp_NextOrderID; [done..|]. wp. apply wp_pick_mpid. intros mpid r2.
  change (mkSim r2 (after_id _ _).(bk)) with (after_id s r2).
  apply (wp_insert loc s [] (view s)); [done..| |done|].
  { split; cbn; [unfold counter in *; cbn in *; lia|by exists k|done|].
    destruct buy; [by left|by right]. }
  intros p ev s' Hp Hin (s1 & Hb & Ho & E). wp. set (o := Order.mk _ _ _ _ _ _ _) in *.
  pose proof (AddOrder_room p s1 ev s'.(bk) buy price E) as Hroom2.
  cbv zeta in Hroom2. rewrite Ho, Hb in Hroom2.
  destruct Hroom2 as (-> & Hother & Hhas & Hlen & Hsame); [done|by destruct buy|done|exact Hlev|].
  pose proof (inserted_synced loc s [] (view s) o [] s' Hsy Hin) as Hsy'. cbn -[replay] in Hsy'.
  destruct Hin as [Hok' Hc Hperm _]. destruct Hsy' as [Hv _ _]. rewrite app_nil_r in Hv.
  split; try done.
  - apply Permutation_length in Hperm. rewrite !app_nil_r in Hperm. cbn [length] in Hperm. lia.
  - exists (makeAddOrderMsg loc o). split; [done|]. apply add_msg_type.
  - unfold levels. destruct buy; exact Hother.
Qed.

(** ** The loops *)

(** From [s0], [k] orders were added and announced, and all of them rest. *)
Record grown (s0 : sim) (k : nat) (msgs : list Message.t) (s : sim) : Prop := mk_grown {
  gr_ok : sim_ok loc s;
  gr_counter : counter s = counter s0 + Z.of_nat k;
  gr_orders : length (resting_orders s) = (length (resting_orders s0) + k)%nat;
  gr_view : replay (view s0) msgs = view s;
  gr_msgs : length msgs = k;
  gr_adds : Forall (λ m, m.(Message.Type_) = MsgAddOrder ∨ m.(Message.Type_) = MsgAddOrderMPID) msgs;
}.

Lemma grown_seeded s0 k msgs s buy price m s' :
  grown s0 k msgs s → seeded buy price s m s' → grown s0 (S k) (msgs ++ m) s'.
Proof.
  intros [H1 H2 H3 H4 H5 H6] [G1 G2 G3 G4 (x & -> & Hx) _ _ _ _]. split; try done; try lia.
  - by rewrite replay_app, H4.
  - rewrite length_app. cbn. lia.
  - apply Forall_app. auto.
Qed.

(** A side while the orders of level [lv] are placed at [price]: [placed] says
    whether one of them is. *)
Definition side_inv (lv : nat) (placed : bool) (price : float64) (ls : list PriceLevel.t) : Prop :=
  (length ls ≤ lv)%nat ∧ placed = false ∨ (length ls ≤ S lv)%nat ∧ has_level price ls.

Lemma side_inv_room lv placed price ls :
  (lv < MaxLevels)%nat → side_inv lv placed price ls →
  (length ls < MaxLevels)%nat ∨ has_level price ls.
Proof. intros ? [[? _]|[_ ?]]; [left; lia|by right]. Qed.

Lemma side_inv_seeded lv placed price buy s m s' :
  side_inv lv placed price (levels buy s) → seeded buy price s m s' →
  side_inv lv true price (levels buy s').
Proof.
  intros [[? _]|[Hl Hh]] Hs; right; (split; [|apply Hs]).
  - pose proof (sd_length _ _ _ _ _ Hs). lia.
  - by rewrite (sd_same _ _ _ _ _ Hs Hh).
Qed.

Lemma seed_pair_post pb pa lv placed j s0 k msgs s :
  (lv < MaxLevels)%nat → is_num pb → is_num pa → room 2 s → grown s0 k msgs s →
  side_inv lv placed pb (levels true s) → side_inv lv placed pa (levels false s) →
  go_wp (seed_pair loc pb pa msgs j) (λ msgs' s', grown s0 (k + 2) msgs' s' ∧
    side_inv lv true pb (levels true s') ∧ side_inv lv true pa (levels false s')) s.
Proof.
  intros Hlv Hpb Hpa [Hr1 Hr2] Hg Hb Ha. unfold seed_pair. wp.
  eapply go_wp_mono.
  { apply (seed_order_post true pb); [apply Hg|split; lia|done|by eapply side_inv_room]. }
  intros m1 s1 Hs1. wp. pose proof (sd_counter _ _ _ _ _ Hs1). pose proof (sd_orders _ _ _ _ _ Hs1).
  pose proof (sd_other _ _ _ _ _ Hs1) as Hother. cbn [negb] in Hother. rewrite <- Hother in Ha.
  eapply go_wp_mono.
  { apply (seed_order_post false pa); [apply Hs1|split; lia|done|by eapply side_inv_room]. }
  intros m2 s2 Hs2. wp. pose proof (sd_other _ _ _ _ _ Hs2) as Hother2. cbn [negb] in Hother2.
  split_and!.
  - rewrite app_assoc. replace (k + 2)%nat with (S (S k)) by lia.
    eapply grown_seeded; [|done]. by eapply grown_seeded.
  - rewrite Hother2. by eapply side_inv_seeded.
  - by eapply side_inv_seeded.
Qed.

Lemma seed_level_post ref lv s0 k msgs s :
  tick_ok tick → is_num ref → (lv < MaxLevels)%nat → room 6 s → grown s0 k msgs s →
  (length (levels true s) ≤ lv)%nat → (length (levels false s) ≤ lv)%nat →
  go_wp (seed_level loc tick ref msgs lv) (λ msgs' s', grown s0 (k + 6) msgs' s' ∧
    (length (levels true s') ≤ S lv)%nat ∧ (length (levels false s') ≤ S lv)%nat) s.
Proof.
  intros Ht Href Hlv [Hr1 Hr2] Hg Hb Ha. unfold seed_level.
  assert (is_finite (float_of_Z (Z.of_nat lv + 1) * tick)%F) as Hoff
    by (apply Ht; unfold MaxLevels in Hlv; lia).
  set (pb := snapPrice (ref - _)%F tick). set (pa := snapPrice (ref + _)%F tick).
  assert (is_num pb) as Hpb by (apply snapPrice_num; auto with floats).
  assert (is_num pa) as Hpa by (apply snapPrice_num; auto with floats).
  eapply go_wp_mono.
  { apply (go_wp_fold _ (λ msgs js s', grown s0 (k + 2 * (OrdersPerLevel - length js)) msgs s' ∧
      (length js ≤ OrdersPerLevel)%nat ∧
      side_inv lv (bool_decide (length js ≠ OrdersPerLevel)) pb (levels true s') ∧
      side_inv lv (bool_decide (length js ≠ OrdersPerLevel)) pa (levels false s'))).
    { cbn. rewrite Nat.add_0_r. split_and!; [done|unfold OrdersPerLevel; lia|by left|by left]. }
    intros msgs1 j js s1 (Hg1 & Hlen & Hb1 & Ha1). cbn [length] in Hlen.
    eapply go_wp_mono; [eapply seed_pair_post|]; try done.
    - pose proof (gr_counter _ _ _ _ Hg1). pose proof (gr_orders _ _ _ _ Hg1).
      pose proof (gr_counter _ _ _ _ Hg). pose proof (gr_orders _ _ _ _ Hg).
      cbn [length] in *. unfold OrdersPerLevel in *. split; lia.
    - intros msgs2 s2 (Hg2 & Hb2 & Ha2). split_and!; [|lia| |].
      + replace (k + 2 * (OrdersPerLevel - length js))%nat
          with (k + 2 * (OrdersPerLevel - length (j :: js)) + 2)%nat; [done|].
        cbn [length]. unfold OrdersPerLevel in *. lia.
      + rewrite bool_decide_true; [done|lia].
      + rewrite bool_decide_true; [done|lia]. }
  cbn. intros msgs' s' (Hg' & _ & Hb' & Ha'). split_and!; [done| |];
    unfold side_inv in *; cbn in *; intuition (lia || done).
Qed.

Lemma Initialize_post ref s0 s :
  tick_ok tick → is_num ref → room 60 s → grown s0 0 [] s →
  levels true s = [] → levels false s = [] →
  go_wp (Initialize loc tick ref) (λ msgs s', grown s0 60 msgs s') s.
Proof.
  intros Ht Href [Hr1 Hr2] Hg Hb Ha. unfold Initialize.
  eapply go_wp_mono.
  { apply (go_wp_fold _ (λ msgs ls s', ∃ lv, ls = seq lv (MaxLevels - lv) ∧ (lv ≤ MaxLevels)%nat ∧
      grown s0 (6 * lv) msgs s' ∧
      (length (levels true s') ≤ lv)%nat ∧ (length (levels false s') ≤ lv)%nat)).
    { exists 0%nat. rewrite Hb, Ha. split; [reflexivity|]. split; [apply Nat.le_0_l|].
      split; [exact Hg|]. split; apply Nat.le_0_l. }
    intros msgs l ls s1 (lv & Hls & Hlv & Hg1 & Hb1 & Ha1).
    destruct (MaxLevels - lv)%nat as [|n] eqn:En; cbn [seq] in Hls; [discriminate Hls|].
    injection Hls as -> ->.
    eapply go_wp_mono; [eapply seed_level_post|]; try done; [lia| |].
    - pose proof (gr_counter _ _ _ _ Hg1). pose proof (gr_orders _ _ _ _ Hg1).
      pose proof (gr_counter _ _ _ _ Hg). pose proof (gr_orders _ _ _ _ Hg).
      unfold MaxLevels in *. split; lia.
    - intros msgs2 s2 (Hg2 & Hb2 & Ha2). exists (S lv). split_and!; try done; [|lia|].
      + f_equal. unfold MaxLevels in *. lia.
      + by replace (6 * S lv)%nat with (6 * lv + 6)%nat by lia. }
  cbn. intros msgs s' (lv & Hls & Hlv & Hg' & _). apply (f_equal length) in Hls.
  rewrite length_seq in Hls. cbn in Hls. unfold MaxLevels in *.
  replace 60%nat with (6 * lv)%nat by lia. done.
Qed.

End simulator.
