(* ===== verification/SimTheorems.v ===== *)
(** * What the order book simulator promises

    No action panics, the book stays well formed with round lots, a trade takes
    from the front of the queue, and a consumer that replays the messages holds
    the simulator's book; the one exception, an eviction caused by a replace, is
    shown on a concrete run. *)
From S2P Require Import Prelude Word Float64 Rng Book BookSide BookSpec BookProps Itch.
From S2P Require Import Simulator SimProps SimInit.

Local Open Scope Z_scope.

(** ** Concrete simulators *)

(** One cent, and 185.00 dollars. *)
Definition cent : float64 := Eval vm_compute in dec 1 2.
Definition ref_price : float64 := Eval vm_compute in dec 18500 2.
Definition fresh_sim (seed : Z) : sim := mkSim (Rng.NewRNG 0 seed) (empty_state 1 cent 0 0).

Lemma cent_ok : tick_ok cent.
Proof.
  split; [exact I|]. intros k Hk.
  assert (k ∈ seqZ (-2) 13) as Hin by (apply elem_of_seqZ; lia).
  assert (forallb (λ k, is_finite (float_of_Z k * cent)%F) (seqZ (-2) 13) = true) as H
    by (vm_compute; reflexivity).
  rewrite forallb_forall in H. rewrite H; [exact I|]. by apply list_elem_of_In.
Qed.

Lemma fresh_ok seed : sim_ok 1 (fresh_sim seed).
Proof. split; [apply empty_rep|constructor|done]. Qed.

Lemma fresh_grown seed : grown 1 (fresh_sim seed) 0 [] (fresh_sim seed).
Proof. split; [apply fresh_ok|done..]. Qed.

Definition run {A} (d : A) (m : go sim A) (s : sim) : A * sim := default (d, s) (m s).

(** The book after [Initialize], with seed 13. *)
Definition seeded_run : list Message.t * sim :=
  Eval vm_compute in run [] (Initialize 1 cent ref_price) (fresh_sim 13).

Lemma seeded_run_eq : Initialize 1 cent ref_price (fresh_sim 13) = Some seeded_run.
Proof. vm_compute. reflexivity. Qed.

Lemma run_post {A} (m : go sim A) Q s r : go_wp m Q s → m s = Some r → Q r.1 r.2.
Proof. unfold go_wp. intros H E. rewrite E in H. by destruct r. Qed.

Lemma fresh_levels b seed : levels b (fresh_sim seed) = [].
Proof. by destruct b. Qed.

Lemma fresh_room n seed : n < 2 ^ 32 → room n (fresh_sim seed).
Proof. intros ?. split; cbn; lia. Qed.

Lemma seeded_grown : grown 1 (fresh_sim 13) 60 seeded_run.1 seeded_run.2.
Proof.
  refine (run_post _ _ _ _ _ seeded_run_eq).
  apply Initialize_post; [apply cent_ok|done|by apply fresh_room|apply fresh_grown
    |apply fresh_levels|apply fresh_levels].
Qed.

Lemma seeded_room n : n < 2 ^ 31 → room n seeded_run.2.
Proof.
  intros ?. pose proof (gr_counter _ _ _ _ _ seeded_grown) as Hc.
  pose proof (gr_orders _ _ _ _ _ seeded_grown) as Ho.
  change (counter (fresh_sim 13)) with 0 in Hc.
  change (length (resting_orders (fresh_sim 13))) with 0%nat in Ho. split; lia.
Qed.

(** ** The theorems *)

(** C2. A simulation step is safe and its messages are complete: from a
    well-formed book, [Step] with any number of actions does not panic, keeps the
    book well formed (round lots of 100 to 1000 shares, IDs up to the counter,
    the levels sorted and bounded), and a consumer that held the book before and
    replays the messages holds exactly the book after plus a list [lost] of
    orders; [lost] is empty whenever no order was replaced. *)
Theorem Step_in_sync (loc : Z) (tick currentPrice : float64) (n : nat) (s : sim)
    (Ht : tick_ok tick) (Hprice : is_num currentPrice) (Hok : sim_ok loc s)
    (Hroom : room (Z.of_nat n) s) :
  ∃ msgs s', Step loc tick currentPrice n s = Some (msgs, s') ∧ sim_ok loc s' ∧
    counter s ≤ counter s' ≤ counter s + Z.of_nat n ∧
    ∃ lost, replay (view s) msgs = view_of (resting_orders s' ++ lost) ∧
      NoDup (ids (resting_orders s' ++ lost)) ∧
      (no_replace msgs → replay (view s) msgs = view s').
Proof.
  pose proof (Step_post loc tick currentPrice n s [] (view s) Ht Hprice Hok Hroom
    (synced_start _ _ Hok)) as H.
  apply go_wp_iff in H as (msgs & s' & E & Hok' & Hc & _ & ev & [Hv Hnd _] & Hev).
  rewrite app_nil_r in *. exists msgs, s'. split_and!; try done; try lia. exists ev.
  split_and!; [done..|]. intros Hm. rewrite Hv, Hev, app_nil_r by done. done.
Qed.

Lemma Step_in_sync_witness :
  let s := seeded_run.2 in
  ∃ msgs s', Step 1 cent ref_price 3 s = Some (msgs, s') ∧ sim_ok 1 s' ∧
    counter s ≤ counter s' ≤ counter s + Z.of_nat 3 ∧
    ∃ lost, replay (view s) msgs = view_of (resting_orders s' ++ lost) ∧
      NoDup (ids (resting_orders s' ++ lost)) ∧
      (no_replace msgs → replay (view s) msgs = view s').
Proof.
  apply (Step_in_sync 1 cent ref_price 3 seeded_run.2);
    [apply cent_ok|exact I|apply seeded_grown|by apply seeded_room].
Defined.

(** C6. Seeding: on an empty book, [Initialize] announces exactly sixty orders,
    each with an add message, all sixty rest (no level is trimmed and nothing is
    evicted), and the messages rebuild the book from nothing. *)
Theorem Initialize_spec (loc : Z) (tick refPrice : float64) (s : sim)
    (Ht : tick_ok tick) (Hprice : is_num refPrice) (Hok : sim_ok loc s)
    (Hbids : s.(bk).(book).(Book.Bids) = []) (Hasks : s.(bk).(book).(Book.Asks) = [])
    (Hroom : counter s + 60 < 2 ^ 64) :
  ∃ msgs s', Initialize loc tick refPrice s = Some (msgs, s') ∧ sim_ok loc s' ∧
    length msgs = 60%nat ∧
    Forall (λ m, m.(Message.Type_) = MsgAddOrder ∨ m.(Message.Type_) = MsgAddOrderMPID) msgs ∧
    length (resting_orders s') = 60%nat ∧ counter s' = counter s + 60 ∧
    replay ∅ msgs = view s'.
Proof.
  assert (resting_orders s = []) as Hrest.
  { unfold resting_orders, abs, a_orders, abs_book, side_orders. by rewrite Hbids, Hasks. }
  assert (view s = ∅) as Hview by (unfold view; by rewrite Hrest).
  assert (grown loc s 0 [] s) as Hg by (split; try done; lia).
  assert (room 60 s) as Hr by (split; [done|rewrite Hrest; cbn; lia]).
  pose proof (Initialize_post loc tick refPrice s s Ht Hprice Hr Hg Hbids Hasks) as H.
  apply go_wp_iff in H as (msgs & s' & E & [Hok' Hc Ho Hv Hl Ha]). rewrite Hrest, Hview in *.
  by exists msgs, s'.
Qed.

Lemma Initialize_spec_witness :
  let s := fresh_sim 13 in
  ∃ msgs s', Initialize 1 cent ref_price s = Some (msgs, s') ∧ sim_ok 1 s' ∧
    length msgs = 60%nat ∧
    Forall (λ m, m.(Message.Type_) = MsgAddOrder ∨ m.(Message.Type_) = MsgAddOrderMPID) msgs ∧
    length (resting_orders s') = 60%nat ∧ counter s' = counter s + 60 ∧
    replay ∅ msgs = view s'.
Proof.
  apply (Initialize_spec 1 cent ref_price (fresh_sim 13));
    [apply cent_ok|exact I|apply fresh_ok|reflexivity|reflexivity|vm_compute; reflexivity].
Defined.

(** C3. Trades respect price-time priority.  If either best price is zero, as it is for
    an empty side, [doTrade] returns no message and changes nothing, not even the
    generator.  Otherwise it always trades: it draws the aggressor, buyer or seller
    as the first draw is below a half or not, takes the first order of the best level
    of the other side, executes a positive multiple of 100 shares not above what
    rests, emits an execution and a trade message that agree on the order, the
    shares, the price and the next match number, with that aggressor, and reduces
    exactly that order by those shares. *)
Theorem doTrade_spec (loc : Z) (s : sim) (Hok : sim_ok loc s) :
  if no_quote s then doTrade loc s = Some ([], s)
  else
    let aggressor := drawn_aggressor s in
    ∃ o n msgs s', doTrade loc s = Some (msgs, s') ∧
      head (if aggressor =? SideBuy then a_asks (abs s.(bk)) else a_bids (abs s.(bk))) = Some o ∧
      msgs = [exec_msg loc o n (to_u64 (s.(bk).(matchCounter) + 1));
              trade_msg loc o n (to_u64 (s.(bk).(matchCounter) + 1)) aggressor] ∧
      s'.(bk).(matchCounter) = to_u64 (s.(bk).(matchCounter) + 1) ∧
      0 < n ≤ o.(Order.Shares) ∧ (100 | n) ∧
      abs s'.(bk) = (spec_ReduceOrder o.(Order.ID) n (abs s.(bk))).2.
Proof.
  assert (go_wp (doTrade loc) (λ msgs s', if no_quote s then msgs = [] ∧ s' = s else
    ∃ o n, head (if drawn_aggressor s =? SideBuy then a_asks (abs s.(bk)) else a_bids (abs s.(bk))) = Some o ∧
      traded loc s (drawn_aggressor s) o n msgs s') s) as H.
  { apply (wp_doTrade loc); [done|intros E; by rewrite E|]. intros E r o n msgs s' _ Hfirst [? ? ? ?] _ _. rewrite E.
    exists o, n. by split; [|split]. }
  apply go_wp_iff in H as (msgs & s' & E & H). destruct (no_quote s); [by destruct H as [-> ->]|].
  destruct H as (o & n & Hfirst & [Hm Hc [Hn Hd] Ha]). exists o, n, msgs, s'.
  split; [exact E|]. split; [exact Hfirst|]. split; [exact Hm|]. split; [exact Hc|]. split; [exact Hn|]. split; [exact Hd|exact Ha].
Qed.

Lemma doTrade_spec_witness :
  let s := seeded_run.2 in
  if no_quote s then doTrade 1 s = Some ([], s)
  else
    let aggressor := drawn_aggressor s in
    ∃ o n msgs s', doTrade 1 s = Some (msgs, s') ∧
      head (if aggressor =? SideBuy then a_asks (abs s.(bk)) else a_bids (abs s.(bk))) = Some o ∧
      msgs = [exec_msg 1 o n (to_u64 (s.(bk).(matchCounter) + 1));
              trade_msg 1 o n (to_u64 (s.(bk).(matchCounter) + 1)) aggressor] ∧
      s'.(bk).(matchCounter) = to_u64 (s.(bk).(matchCounter) + 1) ∧
      0 < n ≤ o.(Order.Shares) ∧ (100 | n) ∧
      abs s'.(bk) = (spec_ReduceOrder o.(Order.ID) n (abs s.(bk))).2.
Proof. exact (doTrade_spec 1 seeded_run.2 (gr_ok _ _ _ _ _ seeded_grown)). Defined.

(** C35. A replace loses evictions: on the book seeded with seed 13, [doReplace]
    moves an order to a new eleventh price level, the worst level's three orders
    leave the book, and the only message is the replace, so a consumer keeps
    sixty orders where fifty-seven rest. *)
Theorem doReplace_loses_evictions :
  ∃ msgs0 s1 m s2, Initialize 1 cent ref_price (fresh_sim 13) = Some (msgs0, s1) ∧
    doReplace 1 cent ref_price s1 = Some ([m], s2) ∧ m.(Message.Type_) = MsgOrderReplace ∧
    replay ∅ msgs0 = view s1 ∧
    size (replay (view s1) [m]) = 60%nat ∧ length (resting_orders s2) = 57%nat.
Proof.
  pose proof (gr_view _ _ _ _ _ seeded_grown) as Hv.
  exists seeded_run.1, seeded_run.2.
  set (r := run [] (doReplace 1 cent ref_price) seeded_run.2).
  exists (default Message.zero (head r.1)), r.2.
  split; [apply seeded_run_eq|]. split; [vm_compute; reflexivity|].
  split; [vm_compute; reflexivity|]. split; [exact Hv|].
  split; vm_compute; reflexivity.
Qed.
