(* ===== verification/PriceProps.v ===== *)
(** * Prices on the wire

    The simulator keeps prices on a grid of one cent, as float64 products
    [n * 0.01]; the binary encoder truncates [price * 10000] and the JSON encoder
    prints four decimals.  On the grid both are exact: the rounding errors of the
    two multiplications never reach the next integer below. *)
From Stdlib Require Import SpecFloat.
From S2P Require Import Prelude Word Float64 FloatRound Itch ItchJson Simulator.

Local Open Scope Z_scope.

(** [0.01] as a float64 is a little above 1/100: 100 times its mantissa is
    [2^59 + 12]. *)
Lemma cent : dec 1 2 = S754_finite false 5764607523034235 (-59).
Proof. vm_compute. reflexivity. Qed.

Lemma ten_thousand : float_of_Z 10000 = S754_finite false 5497558138880000 (-39).
Proof. vm_compute. reflexivity. Qed.

Abbreviation Sc := 300.

Definition grid_price (n : Z) : float64 := (float_of_Z n * dec 1 2)%F.

(** The largest number of cents whose ten-thousandths fit 32 bits. *)
Definition max_cents : Z := 42949672.

Lemma scaled_int n : 1 ≤ n ≤ max_cents → scaled Sc (float_of_Z n) (n * 2 ^ Sc).
Proof.
  unfold max_cents. intros Hn. destruct (float_of_Z_exact n ltac:(lia)) as (m & e & -> & Hd & He & Hm & _).
  exists m, e. split_and!; [done|done|lia|]. rewrite Hm, <- Z.mul_assoc, <- Z.pow_add_r by lia. do 2 f_equal. lia.
Qed.

(** The grid price in units of [2^-Sc], and how far it is from [n * 0.01]. *)
Lemma grid_scaled n :
  1 ≤ n ≤ max_cents →
  ∃ v k, scaled Sc (grid_price n) v ∧ 0 ≤ k ∧ 2 ^ 52 * 2 ^ k ≤ v ∧
    2 * Z.abs (v * 2 ^ 59 - n * 2 ^ Sc * 5764607523034235) ≤ 2 ^ k * 2 ^ 59 ∧
    2 ^ 52 * 2 ^ k * 2 ^ 59 ≤ n * 2 ^ Sc * 5764607523034235.
Proof.
  intros Hn. pose proof (scaled_int n Hn) as Hs. unfold grid_price. rewrite cent. unfold max_cents in Hn.
  destruct (fmul_scaled Sc _ _ 5764607523034235 (-59) ltac:(lia) Hs) as (v & k & Hv & Hk & _ & Hlo & Hnear & Hm & _);
    [|lia|reflexivity|lia|].
  - change (2 ^ (Sc + 100)) with (2 ^ 100 * 2 ^ Sc). apply Z.mul_lt_mono_pos_r; [done|lia].
  - exists v, k. done.
Qed.

Lemma pow2_gap a b : 0 ≤ a → 0 ≤ b → 5000 * 2 ^ a < 2 ^ b → 8192 * 2 ^ a ≤ 2 ^ b.
Proof.
  intros Ha Hb H. assert (a + 13 ≤ b) as Hle.
  { destruct (Z.le_gt_cases (a + 13) b); [done|]. exfalso.
    assert (2 ^ b ≤ 2 ^ (a + 12)) as Hp by (apply Z.pow_le_mono_r; lia).
    rewrite Z.pow_add_r in Hp by lia. lia. }
  assert (2 ^ (a + 13) ≤ 2 ^ b) as Hp by (apply Z.pow_le_mono_r; lia).
  rewrite Z.pow_add_r in Hp by lia. lia.
Qed.

(** Times 10000, the product is at least [100 * n] and below the next integer. *)
Lemma grid_times_10000 n :
  1 ≤ n ≤ max_cents →
  ∃ v, scaled Sc (grid_price n * float_of_Z 10000)%F v ∧ 100 * n * 2 ^ Sc ≤ v < (100 * n + 1) * 2 ^ Sc.
Proof.
  intros Hn. destruct (grid_scaled n Hn) as (v & k & Hv & Hk & Hlo & Hnear & Hm).
  rewrite ten_thousand. unfold max_cents in Hn.
  set (W := 2 ^ Sc) in *. assert (HW : 0 < W) by (subst W; reflexivity).
  set (N := n * W) in *. assert (N ≤ 42949672 * W) by (subst N; nia). assert (W ≤ N) by (subst N; nia).
  set (U := 2 ^ k) in *. assert (HU : 0 < U) by (subst U; lia).
  destruct (fmul_scaled Sc _ _ 5497558138880000 (-39) ltac:(lia) Hv) as (w & k' & Hw & Hk' & Hdiv & Hlo' & Hnear' & Hm1 & Hm2);
    [..|reflexivity|lia|].
  { change (2 ^ (Sc + 100)) with (2 ^ 100 * W). lia. }
  { assert (2 ^ (Sc - 100) * 2 ^ 100 = W) by reflexivity. lia. }
  set (U' := 2 ^ k') in *. assert (HU' : 0 < U') by (subst U'; lia).
  change (2 ^ (- -39)) with 549755813888 in *.
  assert (8192 * U ≤ U') as Hgap by (apply pow2_gap; [done..|fold U U'; lia]).
  exists w. split; [exact Hw|]. replace (100 * n * W) with (100 * N) by (subst N; ring).
  replace ((100 * n + 1) * W) with (100 * N + W) by (subst N; ring). split; [|lia].
  destruct (Z.le_gt_cases (100 * N) w) as [|Hlt]; [done|exfalso].
  assert (w + U' ≤ 100 * N) as Hstep; [|lia].
  assert (U' | 100 * N) as [b Hb].
  { apply Z.divide_mul_r. subst N. apply Z.divide_mul_r. subst U' W.
    assert (k' ≤ Sc) by (apply (Z.pow_le_mono_r_iff 2); lia).
    exists (2 ^ (Sc - k')). rewrite <- Z.pow_add_r by lia. f_equal. lia. }
  destruct Hdiv as [a Ha]. rewrite Ha, Hb in Hlt |- *. apply Z.mul_lt_mono_pos_r in Hlt; [|exact HU'].
  rewrite <- Z.mul_succ_l. apply Z.mul_le_mono_nonneg_r; lia.
Qed.

Lemma price4_grid n : 1 ≤ n ≤ max_cents → Price4 (grid_price n) = 100 * n.
Proof.
  intros Hn. destruct (grid_times_10000 n Hn) as (v & (m & e & E & Hd & He & Hv) & Hlo & Hhi).
  unfold Price4. rewrite E. clear E. apply digits_53 in Hd. unfold max_cents in Hn.
  assert (e < 0) as Hneg.
  { destruct (Z.le_gt_cases 0 e) as [H|]; [|done]. exfalso. rewrite Hv, Z.pow_add_r in Hhi by lia.
    assert (1 ≤ 2 ^ e) by lia. assert (0 < 2 ^ Sc) by reflexivity. nia. }
  assert (Z.pos m / 2 ^ (- e) = 100 * n) as Htr.
  { symmetry. apply (Z.div_unique_pos _ _ _ (Z.pos m - 100 * n * 2 ^ (- e))); [|ring].
    assert (2 ^ Sc = 2 ^ (- e) * 2 ^ (e + Sc)) as Hs by (rewrite <- Z.pow_add_r by lia; f_equal; lia).
    rewrite Hv, Hs in *. assert (0 < 2 ^ (e + Sc)) by lia. assert (0 < 2 ^ (- e)) by lia. nia. }
  unfold uint32_of_float, int64_of_float, trunc. rewrite (proj2 (Z.leb_gt 0 e) Hneg), Htr.
  rewrite (proj2 (Z.leb_le _ _)), (proj2 (Z.ltb_lt _ _)) by lia. cbn [andb]. apply uwrap_id. unfold is_u. lia.
Qed.

(** C22. Grid prices are exact on the wire: for every price of [n] cents that the
    field can hold, the encoder's truncated product is [100 * n] ten-thousandths,
    although neither [n * 0.01] nor its product with 10000 is exact. *)
Theorem grid_price_exact (n : Z) (Hn : 1 ≤ n ≤ max_cents) : Price4 (grid_price n) = 100 * n.
Proof. by apply price4_grid. Qed.

Lemma grid_price_exact_witness : Price4 (grid_price 4016) = 401600.
Proof. apply (grid_price_exact 4016). unfold max_cents. lia. Defined.

Lemma grid_ten_thousandths n :
  1 ≤ n ≤ max_cents →
  ∃ m e, grid_price n = S754_finite false m e ∧ ten_thousandths (Z.pos m) e = 100 * n.
Proof.
  intros Hn. destruct (grid_scaled n Hn) as (v & k & (m & e & E & Hd & He & Hv) & Hk & Hlo & Hnear & Hm).
  exists m, e. split; [exact E|]. apply digits_53 in Hd. unfold max_cents in Hn.
  set (W := 2 ^ Sc) in *. assert (HW : 0 < W) by (subst W; reflexivity).
  set (N := n * W) in *. assert (N ≤ 42949672 * W) by (subst N; nia).
  set (U := 2 ^ k) in *. assert (HU : 0 < U) by (subst U; lia).
  assert (2 * Z.abs (100 * N - v * 10000) < W) as Hclose by lia.
  assert (e < 0) as Hneg.
  { destruct (Z.le_gt_cases 0 e) as [H'|]; [|done]. exfalso. rewrite Z.pow_add_r in Hv by lia. fold W in Hv.
    assert (1 ≤ 2 ^ e) by lia. nia. }
  unfold ten_thousandths. rewrite (proj2 (Z.leb_gt 0 e) Hneg).
  assert (W = 2 ^ (- e) * 2 ^ (e + Sc)) as Hs by (subst W; rewrite <- Z.pow_add_r by lia; f_equal; lia).
  assert (0 < 2 ^ (e + Sc)) as Hpos by lia. set (T := 2 ^ (e + Sc)) in *.
  apply round_half_even_unique; [lia|]. apply (Z.mul_lt_mono_pos_r T); [done|].
  rewrite <- Z.mul_assoc, <- (Z.abs_eq T) at 1 by lia. rewrite <- Z.abs_mul, <- Hs.
  replace ((100 * n * 2 ^ (- e) - Z.pos m * 10000) * T) with (100 * N - v * 10000)
    by (subst N; rewrite Hv, Hs; ring).
  exact Hclose.
Qed.

(** Binary and JSON agree on the simulator's prices: when the nearest number
    of cents of a reference price is [n], the snapped price is sent as [100 * n]
    ten-thousandths by the binary encoder and printed as exactly that by the
    JSON encoder. *)
Theorem snapped_price_wire (p : float64) (m : positive) (e : Z)
    (Hq : (p / dec 1 2)%F = S754_finite false m e) (He : e < 0) :
  let n := (Z.pos m + 2 ^ (- e - 1)) / 2 ^ (- e) in
  1 ≤ n ≤ max_cents →
  snapPrice p (dec 1 2) = grid_price n ∧ Price4 (snapPrice p (dec 1 2)) = 100 * n ∧
  formatPrice (snapPrice p (dec 1 2)) = four_decimals (100 * n).
Proof.
  intros n Hn. assert (snapPrice p (dec 1 2) = grid_price n) as ->.
  { unfold snapPrice, math_Round. rewrite Hq, (proj2 (Z.leb_gt 0 e) He). done. }
  split_and!; [done|by apply price4_grid|].
  destruct (grid_ten_thousandths n Hn) as (m' & e' & -> & Ht). cbn [formatPrice]. by rewrite Ht.
Qed.

Lemma snapped_price_wire_witness :
  let p := dec 4016 2 in
  Price4 p = 401599 ∧ Price4 (snapPrice p (dec 1 2)) = 401600 ∧
  formatPrice (snapPrice p (dec 1 2)) = "40.1600"%string.
Proof.
  split; [vm_compute; reflexivity|].
  destruct (snapped_price_wire (dec 4016 2) 8831277394296831 (-41)) as (_ & H1 & H2);
    [vm_compute; reflexivity|lia|split; vm_compute; congruence|].
  split; [exact H1|]. rewrite H2. vm_compute. reflexivity.
Defined.
