(* ===== verification/Strconv.v ===== *)
(** * The functions of strconv and strings the program uses

    On Go strings, as their characters. *)
From Stdlib Require Import Ascii.
From S2P Require Import Prelude Word.

Local Open Scope Z_scope.

Definition digit (c : ascii) : option Z :=
  let n := byte_of_ascii c in if (48 <=? n) && (n <=? 57) then Some (n - 48) else None.

Fixpoint digits (s : list ascii) (acc : Z) : option Z :=
  match s with
  | [] => Some acc
  | c :: s => d ← digit c; digits s (10 * acc + d)
  end.

(** [strconv.Atoi]: an optional sign, at least one digit, in the range of int. *)
Definition Atoi (s : string) : option Z :=
  let l := String.list_ascii_of_string s in
  let '(sign, l) := match l with
    | "-"%char :: l' => (-1, l')
    | "+"%char :: l' => (1, l')
    | _ => (1, l)
    end in
  match l with
  | [] => None
  | _ => n ← digits l 0;
         let n := sign * n in
         if (- 2 ^ 63 <=? n) && (n <? 2 ^ 63) then Some n else None
  end.

(** [strings.Split] at a one-character separator. *)
Fixpoint split_chars (sep : ascii) (cur s : list ascii) : list (list ascii) :=
  match s with
  | [] => [reverse cur]
  | c :: s => if Ascii.eqb c sep then reverse cur :: split_chars sep [] s else split_chars sep (c :: cur) s
  end.
Definition Split (s : string) (sep : ascii) : list string :=
  String.string_of_list_ascii <$> split_chars sep [] (String.list_ascii_of_string s).

Definition Contains (s : string) (c : ascii) : bool := existsb (Ascii.eqb c) (String.list_ascii_of_string s).

Example Atoi_plus : Atoi "+25" = Some 25 ∧ Atoi "-" = None ∧ Atoi "9223372036854775808" = None ∧
  Atoi "-9223372036854775808" = Some (- 2 ^ 63) ∧ Atoi "1_0" = None.
Proof. repeat split. Qed.

Example Split_two : Split "NEXO, QBIT,," "," = ["NEXO"; " QBIT"; ""; ""]%string.
Proof. reflexivity. Qed.
