(* ===== verification/Calendar.v ===== *)
(** * UTC dates and the paths of the day-files

    The calendar of the time package, as far as the archive uses it: the date of
    an instant, the layout "2006/01/02" printed by [Format] and read by [Parse],
    and the paths YYYY/MM/DD.jsonl.gz made from it, relative to <dir>/trades.
    A day is numbered by its distance from 1970-01-01; years are those of the
    proleptic Gregorian calendar, and four digits print the years 0 to 9999. *)
From Stdlib Require Import Ascii.
From S2P Require Import Prelude Word Strconv.

Local Open Scope Z_scope.

(** ** The calendar *)

Definition leap (y : Z) : bool := (y mod 4 =? 0) && (negb (y mod 100 =? 0) || (y mod 400 =? 0)).

Definition month_lengths (y : Z) : list Z :=
  [31; if leap y then 29 else 28; 31; 30; 31; 30; 31; 31; 30; 31; 30; 31].

Definition daysIn (m y : Z) : Z := nth (Z.to_nat (m - 1)) (month_lengths y) 0.

(** The number of January 1st. *)
Definition year_start (y : Z) : Z := 365 * y + (y + 3) / 4 - (y + 99) / 100 + (y + 399) / 400 - 719528.

Fixpoint sum_days (ms : list Z) : Z :=
  match ms with
  | [] => 0
  | l :: ms => l + sum_days ms
  end.

Definition day_number (y m d : Z) : Z :=
  year_start y + sum_days (take (Z.to_nat (m - 1)) (month_lengths y)) + (d - 1).

(** The year of a day: the mean length of a year gives it up to one. *)
Definition year_of (n : Z) : Z :=
  let c := (n + 719528) * 400 / 146097 in
  if n <? year_start c then c - 1 else if year_start (c + 1) <=? n then c + 1 else c.

Fixpoint month_of (ms : list Z) (k m : Z) : Z * Z :=
  match ms with
  | [] => (m, k + 1)
  | l :: ms => if k <? l then (m, k + 1) else month_of ms (k - l) (m + 1)
  end.

Definition date_of (n : Z) : Z * Z * Z :=
  let y := year_of n in
  let '(m, d) := month_of (month_lengths y) (n - year_start y) 1 in
  (y, m, d).

(** ** The layout 2006/01/02 *)

Definition digit_char (n : Z) : ascii := ascii_of_byte (48 + n mod 10).

(** The last [w] decimal digits. *)
Fixpoint padded (w : nat) (n : Z) : list ascii :=
  match w with
  | O => []
  | S w => padded w (n / 10) ++ [digit_char n]
  end.

Definition format_date (y m d : Z) : list ascii :=
  padded 4 y ++ "/"%char :: padded 2 m ++ "/"%char :: padded 2 d.

Definition number (w : nat) (s : list ascii) : option (Z * list ascii) :=
  if decide (length s < w)%nat then None
  else n ← digits (take w s) 0; Some (n, drop w s).

Definition skip (c : ascii) (s : list ascii) : option (list ascii) :=
  match s with
  | x :: s => if Ascii.eqb x c then Some s else None
  | [] => None
  end.

(** [time.Parse]: the digits of each field, then the ranges. *)
Definition parse_date (s : list ascii) : option (Z * Z * Z) :=
  '(y, s) ← number 4 s;
  s ← skip "/" s;
  '(m, s) ← number 2 s;
  if (m <=? 0) || (12 <? m) then None
  else
    s ← skip "/" s;
    '(d, s) ← number 2 s;
    if decide (s ≠ []) then None
    else if (d <? 1) || (daysIn m y <? d) then None
    else Some (y, m, d).

(** ** Paths *)

Definition fileExt : list ascii := String.list_ascii_of_string ".jsonl.gz".

Definition TrimSuffix (suffix s : list ascii) : option (list ascii) :=
  let k := (length s - length suffix)%nat in
  if decide (drop k s = suffix) then Some (take k s) else None.

(** Of the day that starts at instant [day_length * n]. *)
Definition path_of_day (n : Z) : string :=
  let '(y, m, d) := date_of n in
  String.string_of_list_ascii (format_date y m d ++ fileExt).

Definition day_of_path (rel : string) : option Z :=
  stem ← TrimSuffix fileExt (String.list_ascii_of_string rel);
  '(y, m, d) ← parse_date stem;
  Some (day_number y m d).

(** Go's [<] on strings, byte by byte. *)
Fixpoint chars_less (a b : list ascii) : bool :=
  match a, b with
  | _, [] => false
  | [], _ :: _ => true
  | x :: a, y :: b =>
      (byte_of_ascii x <? byte_of_ascii y) || ((byte_of_ascii x =? byte_of_ascii y) && chars_less a b)
  end.
Definition string_less (a b : string) : bool :=
  chars_less (String.list_ascii_of_string a) (String.list_ascii_of_string b).

Example path_2024 : path_of_day 19782 = "2024/02/29.jsonl.gz"%string ∧
  day_of_path "2024/02/29.jsonl.gz" = Some 19782 ∧ day_of_path "2023/02/29.jsonl.gz" = None ∧
  day_of_path "2024/2/29.jsonl.gz" = None ∧ day_of_path "2024/02/29.jsonl.gz.tmp" = None.
Proof. repeat split. Qed.

(** ** Years and months *)

Ltac div_lia := unfold year_start, leap in *; Z.to_euclidean_division_equations; lia.

Lemma year_start_mono y y' : y < y' → year_start y + 365 ≤ year_start y'.
Proof. intros H. div_lia. Qed.

Lemma sum_months y : sum_days (month_lengths y) = year_start (y + 1) - year_start y.
Proof.
  assert (year_start (y + 1) - year_start y = if leap y then 366 else 365) as ->; [|by unfold month_lengths; destruct (leap y)].
  unfold leap. destruct (Z.eqb_spec (y mod 4) 0), (Z.eqb_spec (y mod 100) 0), (Z.eqb_spec (y mod 400) 0); cbn; div_lia.
Qed.

Lemma year_of_spec n : year_start (year_of n) ≤ n < year_start (year_of n + 1).
Proof.
  unfold year_of. set (c := (n + 719528) * 400 / 146097).
  assert (year_start (c - 1) ≤ n ∧ n < year_start (c + 1 + 1)) as [H1 H2] by (subst c; div_lia).
  destruct (Z.ltb_spec n (year_start c)); [rewrite Z.sub_add; lia|].
  destruct (Z.leb_spec (year_start (c + 1)) n); lia.
Qed.

Lemma year_start_le y y' : y ≤ y' → year_start y ≤ year_start y'.
Proof. intros H. destruct (decide (y = y')) as [->|]; [lia|]. pose proof (year_start_mono y y'). lia. Qed.

Lemma year_of_unique n y : year_start y ≤ n < year_start (y + 1) → year_of n = y.
Proof.
  intros H. pose proof (year_of_spec n) as H'.
  destruct (Z.lt_trichotomy (year_of n) y) as [Hlt|[?|Hlt]]; [|done|].
  - pose proof (year_start_le (year_of n + 1) y). lia.
  - pose proof (year_start_le (y + 1) (year_of n)). lia.
Qed.

Lemma sum_days_nonneg ms : Forall (λ l, 0 < l) ms → 0 ≤ sum_days ms.
Proof. induction 1; cbn; lia. Qed.

Lemma take_sum_le ms i : Forall (λ l, 0 < l) ms → (i < length ms)%nat →
  0 ≤ sum_days (take i ms) ∧ sum_days (take i ms) + nth i ms 0 ≤ sum_days ms.
Proof.
  intros Hms. revert i. induction Hms as [|l ms Hl Hms IH]; intros [|i] Hi; cbn in *; try lia.
  - pose proof (sum_days_nonneg ms Hms). lia.
  - destruct (IH i); lia.
Qed.

Lemma take_sum_mono ms i j : Forall (λ l, 0 < l) ms → (i < j)%nat → (i < length ms)%nat →
  sum_days (take i ms) + nth i ms 0 ≤ sum_days (take j ms).
Proof.
  intros Hms. revert i j. induction Hms as [|l ms Hl Hms IH]; intros i j Hij Hi; [cbn in Hi; lia|].
  destruct i as [|i], j as [|j]; cbn in *; try lia.
  - pose proof (sum_days_nonneg (take j ms) (Forall_take _ _ _ Hms)). lia.
  - specialize (IH i j). lia.
Qed.

Lemma month_of_spec ms k m0 :
  Forall (λ l, 0 < l) ms → 0 ≤ k < sum_days ms →
  ∃ i, (i < length ms)%nat ∧ (month_of ms k m0).1 = m0 + Z.of_nat i ∧
    1 ≤ (month_of ms k m0).2 ≤ nth i ms 0 ∧ sum_days (take i ms) + (month_of ms k m0).2 - 1 = k.
Proof.
  intros Hms. revert k m0. induction Hms as [|l ms Hl Hms IH]; intros k m0 Hk; [cbn in Hk; lia|].
  cbn [month_of]. destruct (Z.ltb_spec k l).
  - exists 0%nat. cbn. lia.
  - destruct (IH (k - l) (m0 + 1)) as (i & Hi & E1 & E2 & E3); [cbn in Hk; lia|].
    exists (S i). cbn. rewrite E1. lia.
Qed.

Lemma month_of_unique ms k m0 i d :
  Forall (λ l, 0 < l) ms → (i < length ms)%nat → 1 ≤ d ≤ nth i ms 0 → sum_days (take i ms) + (d - 1) = k →
  month_of ms k m0 = (m0 + Z.of_nat i, d).
Proof.
  intros Hms. revert k m0 i. induction Hms as [|l ms Hl Hms IH]; intros k m0 i Hi Hd <-; [cbn in Hi; lia|].
  destruct i as [|i]; cbn [month_of take sum_days nth length] in *.
  - rewrite (proj2 (Z.ltb_lt _ _)) by lia. f_equal; lia.
  - destruct (take_sum_le ms i Hms); [lia|].
    rewrite (proj2 (Z.ltb_ge _ _)) by lia. rewrite (IH _ (m0 + 1) i) by (lia || done). f_equal. lia.
Qed.

(** ** Dates and day numbers *)

Definition valid_date (y m d : Z) : Prop := 1 ≤ m ≤ 12 ∧ 1 ≤ d ≤ daysIn m y.

Lemma month_lengths_pos y : Forall (λ l, 0 < l) (month_lengths y).
Proof. unfold month_lengths. destruct (leap y); repeat constructor; done. Qed.

Lemma date_of_spec n :
  let '(y, m, d) := date_of n in y = year_of n ∧ valid_date y m d ∧ day_number y m d = n.
Proof.
  unfold date_of. pose proof (year_of_spec n) as Hy. set (y := year_of n) in *.
  destruct (month_of_spec (month_lengths y) (n - year_start y) 1 (month_lengths_pos y)) as (i & Hi & E1 & E2 & E3).
  { rewrite sum_months. lia. }
  destruct (month_of _ _ _) as [m d]. cbn [fst snd] in *. subst m. split; [done|].
  unfold valid_date, day_number, daysIn. replace (Z.to_nat (1 + Z.of_nat i - 1)) with i by lia.
  change (length (month_lengths y)) with 12%nat in Hi. lia.
Qed.

Lemma date_of_number y m d : valid_date y m d → date_of (day_number y m d) = (y, m, d).
Proof.
  intros [Hm Hd]. unfold daysIn in Hd. unfold day_number. set (i := Z.to_nat (m - 1)) in *.
  destruct (take_sum_le (month_lengths y) i (month_lengths_pos y)) as [H0 H1]; [cbn; lia|].
  rewrite sum_months in H1.
  unfold date_of. set (n := year_start y + _ + _). rewrite (year_of_unique n y) by (subst n; lia).
  rewrite (month_of_unique _ _ 1 i d); [f_equal; f_equal; lia|apply month_lengths_pos|cbn; lia|done|subst n; lia].
Qed.

(** ** Digits *)

Lemma byte_digit_char n : byte_of_ascii (digit_char n) = 48 + n mod 10.
Proof.
  unfold digit_char. pose proof (Z.mod_pos_bound n 10 ltac:(done)).
  assert (n mod 10 ∈ [0; 1; 2; 3; 4; 5; 6; 7; 8; 9]) as Hin by (rewrite !elem_of_cons; lia).
  rewrite !elem_of_cons, elem_of_nil in Hin. repeat destruct Hin as [-> | Hin]; done.
Qed.

Lemma digit_digit_char n : digit (digit_char n) = Some (n mod 10).
Proof.
  unfold digit. rewrite byte_digit_char. pose proof (Z.mod_pos_bound n 10 ltac:(done)).
  rewrite (proj2 (Z.leb_le _ _)), (proj2 (Z.leb_le _ _)) by lia. cbn [andb]. f_equal. lia.
Qed.

Lemma digit_Some c d : digit c = Some d → c = digit_char d ∧ 0 ≤ d < 10.
Proof.
  unfold digit. destruct (_ && _) eqn:E; [|done]. intros [= <-].
  apply andb_true_iff in E as [H1%Z.leb_le H2%Z.leb_le]. split; [|lia].
  unfold digit_char. rewrite Z.mod_small by lia.
  replace (48 + (byte_of_ascii c - 48)) with (byte_of_ascii c) by lia. symmetry. apply ascii_of_byte_of_ascii.
Qed.

Lemma length_padded w n : length (padded w n) = w.
Proof. revert n. induction w as [|w IH]; intros n; [done|]. cbn. rewrite length_app, IH. cbn. lia. Qed.

Lemma digits_app a b acc : digits (a ++ b) acc = x ← digits a acc; digits b x.
Proof.
  revert acc. induction a as [|c a IH]; intros acc; [done|]. cbn [app digits].
  destruct (digit c); [|done]. cbn [mbind option_bind]. by rewrite IH.
Qed.

Lemma digits_padded w n acc : digits (padded w n) acc = Some (acc * 10 ^ Z.of_nat w + n mod 10 ^ Z.of_nat w).
Proof.
  revert n. induction w as [|w IH]; intros n; [cbn; rewrite Z.mod_1_r; f_equal; lia|].
  cbn [padded]. rewrite digits_app, IH. cbn [mbind option_bind digits]. rewrite digit_digit_char.
  cbn [mbind option_bind]. f_equal. rewrite Nat2Z.inj_succ, Z.pow_succ_r by lia.
  rewrite Z.rem_mul_r by lia. lia.
Qed.

Lemma padded_digits s n : digits s 0 = Some n → s = padded (length s) n ∧ 0 ≤ n < 10 ^ Z.of_nat (length s).
Proof.
  revert n. induction s as [|c s IH] using rev_ind; intros n; [intros [= <-]; by split|].
  rewrite digits_app. destruct (digits s 0) as [x|]; [|done]. cbn [mbind option_bind digits].
  destruct (digit c) as [d|] eqn:Hd; [|done]. cbn [mbind option_bind]. intros [= <-].
  apply digit_Some in Hd as [-> Hd]. destruct (IH x eq_refl) as [Hs Hx].
  rewrite length_app. cbn [length]. rewrite Nat.add_1_r. cbn [padded].
  rewrite Nat2Z.inj_succ, Z.pow_succ_r by lia. split; [|lia].
  assert ((10 * x + d) / 10 = x) as -> by (Z.to_euclidean_division_equations; lia).
  rewrite <- Hs. f_equal. unfold digit_char. do 3 f_equal. Z.to_euclidean_division_equations; lia.
Qed.

Lemma number_padded w n s : 0 ≤ n < 10 ^ Z.of_nat w → number w (padded w n ++ s) = Some (n, s).
Proof.
  intros Hn. unfold number. rewrite length_app, length_padded, decide_False by lia.
  rewrite take_app_length', drop_app_length' by (by rewrite length_padded). rewrite digits_padded.
  cbn. by rewrite Z.mod_small.
Qed.

Lemma number_Some w s n s' : number w s = Some (n, s') → s = padded w n ++ s' ∧ 0 ≤ n < 10 ^ Z.of_nat w.
Proof.
  unfold number. case_decide as Hl; [done|]. destruct (digits _ 0) as [x|] eqn:E; [|done].
  cbn. intros [= -> <-]. apply padded_digits in E as [E Hn]. rewrite length_take_le in E, Hn by lia.
  split; [|done]. rewrite <- E. by rewrite take_drop.
Qed.

Lemma skip_Some c s s' : skip c s = Some s' ↔ s = c :: s'.
Proof.
  destruct s as [|x s]; [done|]. cbn. destruct (Ascii.eqb_spec x c) as [->|Hx]; split; try congruence; by intros [= ?].
Qed.

(** ** Printing and reading back *)

Definition four_digits (y : Z) : Prop := 0 ≤ y < 10000.

Lemma month_days y m : 1 ≤ m ≤ 12 → 28 ≤ daysIn m y ≤ 31.
Proof.
  intros Hm. unfold daysIn. assert (Z.to_nat (m - 1) < 12)%nat as H by lia. revert H.
  generalize (Z.to_nat (m - 1)). intros i Hi. unfold month_lengths.
  destruct (leap y); do 12 (destruct i as [|i]; [cbn; lia|]); lia.
Qed.

Lemma parse_date_iff s y m d :
  parse_date s = Some (y, m, d) ↔ four_digits y ∧ valid_date y m d ∧ s = format_date y m d.
Proof.
  unfold parse_date, format_date, four_digits, valid_date. split.
  - destruct (number 4 s) as [[y' s1]|] eqn:E1; [|done]. apply number_Some in E1 as [-> Hy]. cbn [mbind option_bind].
    destruct (skip "/" s1) as [s2|] eqn:E2; [|done]. apply skip_Some in E2 as ->. cbn [mbind option_bind].
    destruct (number 2 s2) as [[m' s3]|] eqn:E3; [|done]. apply number_Some in E3 as [-> Hm]. cbn [mbind option_bind].
    destruct (_ || _) eqn:Em; [done|]. apply orb_false_iff in Em as [Em1%Z.leb_gt Em2%Z.ltb_ge].
    destruct (skip "/" s3) as [s4|] eqn:E4; [|done]. apply skip_Some in E4 as ->. cbn [mbind option_bind].
    destruct (number 2 s4) as [[d' s5]|] eqn:E5; [|done]. apply number_Some in E5 as [-> Hd]. cbn [mbind option_bind].
    case_decide as Hs; [done|]. subst s5.
    destruct (_ || _) eqn:Ed; [done|]. apply orb_false_iff in Ed as [Ed1%Z.ltb_ge Ed2%Z.ltb_ge].
    intros [= -> -> ->]. rewrite app_nil_r. cbn in Hy. split_and!; (lia || done).
  - intros (Hy & [Hm Hd] & ->). pose proof (month_days y m Hm).
    rewrite number_padded by (cbn; lia). cbn [mbind option_bind skip Ascii.eqb Bool.eqb].
    rewrite number_padded by (cbn; lia). cbn [mbind option_bind].
    rewrite (proj2 (Z.leb_gt _ _)), (proj2 (Z.ltb_ge _ _)) by lia. cbn [orb skip Ascii.eqb Bool.eqb mbind option_bind].
    rewrite <- (app_nil_r (padded 2 d)), number_padded by (cbn; lia). cbn [mbind option_bind].
    rewrite decide_False by (by intros []).
    by rewrite (proj2 (Z.ltb_ge _ _)), (proj2 (Z.ltb_ge _ _)) by lia.
Qed.

Lemma TrimSuffix_iff suf s stem : TrimSuffix suf s = Some stem ↔ s = stem ++ suf.
Proof.
  unfold TrimSuffix. split.
  - case_decide as E; [|done]. intros [= <-]. rewrite <- E at 2. by rewrite take_drop.
  - intros ->. rewrite length_app, Nat.add_sub, drop_app_length, decide_True by done. by rewrite take_app_length.
Qed.

Lemma date_of_iff n y m d : date_of n = (y, m, d) ↔ valid_date y m d ∧ day_number y m d = n.
Proof.
  split; [|by intros [Hv <-]; apply date_of_number].
  intros E. pose proof (date_of_spec n) as H. rewrite E in H. tauto.
Qed.

Lemma year_of_date n y m d : date_of n = (y, m, d) → y = year_of n.
Proof. intros E. pose proof (date_of_spec n) as H. rewrite E in H. tauto. Qed.

(** The paths the catalog reads as days are exactly the paths the archiver
    writes. *)
Lemma day_of_path_iff rel n : day_of_path rel = Some n ↔ four_digits (year_of n) ∧ rel = path_of_day n.
Proof.
  unfold day_of_path, path_of_day. split.
  - destruct (TrimSuffix _ _) as [stem|] eqn:E; [|done]. cbn [mbind option_bind].
    destruct (parse_date stem) as [[[y m] d]|] eqn:Ep; [|done]. cbn [mbind option_bind]. intros [= <-].
    apply parse_date_iff in Ep as (Hy & Hv & ->). apply TrimSuffix_iff in E.
    pose proof (date_of_number y m d Hv) as Ed. rewrite Ed, <- (year_of_date _ _ _ _ Ed). split; [done|].
    by rewrite <- E, String.string_of_list_ascii_of_string.
  - intros [Hy ->]. destruct (date_of n) as [[y m] d] eqn:E. rewrite String.list_ascii_of_string_of_list_ascii.
    rewrite (proj2 (TrimSuffix_iff _ _ _) eq_refl). cbn [mbind option_bind].
    rewrite <- (year_of_date _ _ _ _ E) in Hy. apply date_of_iff in E as [Hv <-].
    by rewrite (proj2 (parse_date_iff _ y m d)).
Qed.

(** ** Order *)

Lemma chars_less_app a b c d :
  length a = length b →
  chars_less (a ++ c) (b ++ d) = chars_less a b || (bool_decide (a = b) && chars_less c d).
Proof.
  revert b. induction a as [|x a IH]; intros [|y b] Hl; cbn in Hl; try done.
  cbn [app chars_less]. rewrite IH by lia. destruct (Z.eqb_spec (byte_of_ascii x) (byte_of_ascii y)) as [E|E].
  - assert (x = y) as ->. { rewrite <- (ascii_of_byte_of_ascii x), E. apply ascii_of_byte_of_ascii. }
    rewrite Z.ltb_irrefl. cbn. f_equal. f_equal. apply bool_decide_ext. split; [by intros ->|by intros [= ->]].
  - cbn. rewrite !orb_false_r. rewrite (bool_decide_false (x :: a = y :: b)) by (by intros [= -> _]).
    by rewrite andb_false_l, orb_false_r.
Qed.

Lemma padded_inj w x y : 0 ≤ x < 10 ^ Z.of_nat w → 0 ≤ y < 10 ^ Z.of_nat w → padded w x = padded w y → x = y.
Proof.
  intros Hx Hy E. apply (f_equal (λ l, digits l 0)) in E. rewrite !digits_padded in E.
  apply (inj Some) in E. by rewrite !Z.mod_small in E.
Qed.

Lemma padded_less w x y :
  0 ≤ x < 10 ^ Z.of_nat w → 0 ≤ y < 10 ^ Z.of_nat w → chars_less (padded w x) (padded w y) = (x <? y).
Proof.
  revert x y. induction w as [|w IH]; intros x y Hx Hy.
  { cbn in *. symmetry. apply Z.ltb_ge. lia. }
  rewrite Nat2Z.inj_succ, Z.pow_succ_r in Hx, Hy by lia. cbn [padded].
  rewrite chars_less_app by (by rewrite !length_padded).
  rewrite IH by (split; [apply Z.div_pos|apply Z.div_lt_upper_bound]; lia).
  cbn [chars_less]. rewrite !byte_digit_char, andb_false_r, orb_false_r.
  case_bool_decide as E.
  - apply padded_inj in E; [|split; [apply Z.div_pos|apply Z.div_lt_upper_bound]; lia..].
    apply Bool.eq_iff_eq_true. rewrite orb_true_iff, andb_true_iff, !Z.ltb_lt.
    Z.to_euclidean_division_equations. lia.
  - rewrite andb_false_l, orb_false_r. assert (x / 10 ≠ y / 10) by congruence.
    apply Bool.eq_iff_eq_true. rewrite !Z.ltb_lt. Z.to_euclidean_division_equations. lia.
Qed.

Lemma field_less w x y c d :
  0 ≤ x < 10 ^ Z.of_nat w → 0 ≤ y < 10 ^ Z.of_nat w →
  chars_less (padded w x ++ c) (padded w y ++ d) = (x <? y) || ((x =? y) && chars_less c d).
Proof.
  intros Hx Hy. rewrite chars_less_app by (by rewrite !length_padded). rewrite padded_less by done.
  do 2 f_equal. destruct (Z.eqb_spec x y) as [->|Hne]; [by rewrite bool_decide_true|].
  apply bool_decide_false. contradict Hne. by apply (padded_inj w).
Qed.

(** Dates compare field by field as their days do. *)
Lemma day_number_less y m d y' m' d' :
  valid_date y m d → valid_date y' m' d' →
  (y <? y') || ((y =? y') && ((m <? m') || ((m =? m') && (d <? d')))) =
  (day_number y m d <? day_number y' m' d').
Proof.
  assert (∀ y m d y' m' d', valid_date y m d → valid_date y' m' d' →
    y < y' ∨ y = y' ∧ (m < m' ∨ m = m' ∧ d < d') → day_number y m d < day_number y' m' d') as Hlt.
  { clear. intros y m d y' m' d' [Hm Hd] [Hm' Hd'] H. unfold day_number, daysIn in *.
    set (i := Z.to_nat (m - 1)) in *. set (i' := Z.to_nat (m' - 1)) in *.
    destruct (take_sum_le (month_lengths y) i (month_lengths_pos y)) as [H0 H1]; [cbn; lia|].
    destruct (take_sum_le (month_lengths y') i' (month_lengths_pos y')) as [H0' _]; [cbn; lia|].
    rewrite sum_months in H1. destruct H as [Hy|[<- [Hmm|[<- Hdd]]]]; [| |subst i i'; lia].
    - pose proof (year_start_le (y + 1) y'). lia.
    - pose proof (take_sum_mono (month_lengths y) i i' (month_lengths_pos y) ltac:(lia) ltac:(cbn; lia)). lia. }
  intros Hv Hv'. apply Bool.eq_iff_eq_true.
  rewrite !orb_true_iff, !andb_true_iff, !orb_true_iff, !andb_true_iff, !Z.ltb_lt, !Z.eqb_eq.
  split; [by apply Hlt|]. intros H.
  destruct (decide ((y, m, d) = (y', m', d'))) as [[= -> -> ->]|Hne]; [lia|].
  assert (¬ (y' < y ∨ y' = y ∧ (m' < m ∨ m' = m ∧ d' < d))) by (intros Hc; apply Hlt in Hc; [lia|done..]).
  destruct (decide (y = y')), (decide (m = m')), (decide (d = d')); subst; try done; lia.
Qed.

(** [<] on strings is a strict total order. *)
Lemma byte_of_ascii_inj x y : byte_of_ascii x = byte_of_ascii y → x = y.
Proof. intros E. by rewrite <- (ascii_of_byte_of_ascii x), E, ascii_of_byte_of_ascii. Qed.

Lemma chars_less_trans a b c : chars_less a b = true → chars_less b c = true → chars_less a c = true.
Proof.
  revert b c. induction a as [|x a IH]; intros [|y b] [|z c]; cbn [chars_less]; try done.
  rewrite !orb_true_iff, !andb_true_iff, !Z.ltb_lt, !Z.eqb_eq. intros [H1|[-> H1]] [H2|[E H2]].
  - left. lia.
  - left. lia.
  - by left.
  - right. split; [done|]. by eapply IH.
Qed.

Lemma chars_less_total a b : a ≠ b → chars_less a b = true ∨ chars_less b a = true.
Proof.
  revert b. induction a as [|x a IH]; intros [|y b] H; cbn [chars_less]; [done|by left|by right|].
  rewrite !orb_true_iff, !andb_true_iff, !Z.ltb_lt, !Z.eqb_eq.
  destruct (Z.lt_trichotomy (byte_of_ascii x) (byte_of_ascii y)) as [?|[E|?]]; [by left; left| |by right; left].
  destruct (IH b) as [?|?]; [|by left; right|by right; right].
  intros ->. apply H. by rewrite (byte_of_ascii_inj x y).
Qed.

Lemma string_less_trans a b c : string_less a b = true → string_less b c = true → string_less a c = true.
Proof. apply chars_less_trans. Qed.

Lemma string_less_total a b : a ≠ b → string_less a b = true ∨ string_less b a = true.
Proof.
  intros H. apply chars_less_total. intros E. apply H.
  by rewrite <- (String.string_of_list_ascii_of_string a), E, String.string_of_list_ascii_of_string.
Qed.

(** The paths sort like the days. *)
Lemma path_less_iff n n' :
  four_digits (year_of n) → four_digits (year_of n') →
  string_less (path_of_day n) (path_of_day n') = (n <? n').
Proof.
  intros Hy Hy'. unfold path_of_day, string_less.
  destruct (date_of n) as [[y m] d] eqn:E, (date_of n') as [[y' m'] d'] eqn:E'.
  rewrite <- (year_of_date _ _ _ _ E) in Hy. rewrite <- (year_of_date _ _ _ _ E') in Hy'.
  apply date_of_iff in E as [Hv <-]. apply date_of_iff in E' as [Hv' <-].
  rewrite <- day_number_less by done. rewrite !String.list_ascii_of_string_of_list_ascii.
  destruct Hv as [Hm Hd], Hv' as [Hm' Hd']. unfold four_digits in *.
  pose proof (month_days y m Hm). pose proof (month_days y' m' Hm').
  unfold format_date. rewrite <- !app_assoc, !app_comm_cons, <- !app_assoc.
  rewrite field_less by (cbn; lia). do 2 f_equal. cbn [chars_less app]. rewrite Z.ltb_irrefl, Z.eqb_refl. cbn [orb andb].
  rewrite field_less by (cbn; lia). do 2 f_equal. cbn [chars_less app].
  rewrite Z.ltb_irrefl, Z.eqb_refl. cbn [orb andb]. rewrite field_less by (cbn; lia).
  change (chars_less fileExt fileExt) with false. by rewrite andb_false_r, orb_false_r.
Qed.
