(* ===== verification/Symbols.v ===== *)
(** * internal/symbol/symbol.go: the universe of instruments *)
From Stdlib Require Import Ascii.
From S2P Require Import Prelude Word Float64.

Local Open Scope Z_scope.

Inductive Sector :=
  | SectorTech | SectorFinance | SectorHealthcare | SectorEnergy
  | SectorConsumer | SectorIndustrial | SectorStress | SectorETF.

Global Instance Sector_eq_dec : EqDecision Sector.
Proof. solve_decision. Defined.

Module Symbol.
Record t := mk {
  LocateCode : Z;  (* uint16 *)
  Ticker : string;
  Name : string;
  Sector_ : Sector;
  BasePrice : float64;
  TickSize : float64;
  VolatilityMultiplier : float64;
  IsStress : bool;
}.
End Symbol.

Import Symbol.

Definition AllSymbols : list Symbol.t :=
  ([mk 1 "NEXO" "Nexo Dynamics Inc" SectorTech (dec 18500 2) (dec 1 2) (dec 14 1) false;
   mk 2 "QBIT" "Qbit Quantum Corp" SectorTech (dec 9250 2) (dec 1 2) (dec 16 1) false;
   mk 3 "FLUX" "Flux Systems Ltd" SectorTech (dec 31000 2) (dec 1 2) (dec 13 1) false;
   mk 4 "SYNK" "Synk Networks Inc" SectorTech (dec 6725 2) (dec 1 2) (dec 15 1) false;
   mk 5 "PULS" "Puls Digital Corp" SectorTech (dec 14500 2) (dec 1 2) (dec 12 1) false;
   mk 6 "CYRA" "Cyra Robotics Inc" SectorTech (dec 22000 2) (dec 1 2) (dec 17 1) false;
   mk 7 "LEDG" "Ledger Capital Group" SectorFinance (dec 7850 2) (dec 1 2) (dec 8 1) false;
   mk 8 "VALT" "Vault Securities Inc" SectorFinance (dec 12500 2) (dec 1 2) (dec 7 1) false;
   mk 9 "CRDT" "Credt Financial Corp" SectorFinance (dec 5200 2) (dec 1 2) (dec 9 1) false;
   mk 10 "MNTX" "Mintex Banking Corp" SectorFinance (dec 16500 2) (dec 1 2) (dec 6 1) false;
   mk 11 "FNDX" "Fundex Asset Mgmt" SectorFinance (dec 8875 2) (dec 1 2) (dec 8 1) false;
   mk 12 "HELX" "Helix Biomedical Inc" SectorHealthcare (dec 19500 2) (dec 1 2) (dec 5 1) false;
   mk 13 "CURA" "Cura Therapeutics" SectorHealthcare (dec 7200 2) (dec 1 2) (dec 6 1) false;
   mk 14 "GENX" "GenX Genomics Corp" SectorHealthcare (dec 14850 2) (dec 1 2) (dec 7 1) false;
   mk 15 "BIOS" "Bios Pharma Ltd" SectorHealthcare (dec 5525 2) (dec 1 2) (dec 5 1) false;
   mk 16 "VOLT" "Volt Energy Corp" SectorEnergy (dec 9800 2) (dec 1 2) (dec 11 1) false;
   mk 17 "SOLR" "Solaris Power Inc" SectorEnergy (dec 4250 2) (dec 1 2) (dec 10 1) false;
   mk 18 "FUSE" "Fuse Petroleum Ltd" SectorEnergy (dec 17500 2) (dec 1 2) (dec 12 1) false;
   mk 19 "WATT" "Watt Grid Systems" SectorEnergy (dec 6300 2) (dec 1 2) (dec 10 1) false;
   mk 20 "BRND" "Brand Global Inc" SectorConsumer (dec 11200 2) (dec 1 2) (dec 8 1) false;
   mk 21 "LUXE" "Luxe Retail Corp" SectorConsumer (dec 28500 2) (dec 1 2) (dec 7 1) false;
   mk 22 "DLVR" "Deliver Express Inc" SectorConsumer (dec 7800 2) (dec 1 2) (dec 9 1) false;
   mk 23 "RSTK" "Restock Supply Corp" SectorConsumer (dec 4550 2) (dec 1 2) (dec 8 1) false;
   mk 24 "FORG" "Forge Manufacturing" SectorIndustrial (dec 13200 2) (dec 1 2) (dec 10 1) false;
   mk 25 "BLDR" "Builder Heavy Ind" SectorIndustrial (dec 8800 2) (dec 1 2) (dec 11 1) false;
   mk 26 "MACH" "Mach Precision Corp" SectorIndustrial (dec 20500 2) (dec 1 2) (dec 10 1) false;
   mk 27 "ALOY" "Aloy Materials Inc" SectorIndustrial (dec 5675 2) (dec 1 2) (dec 12 1) false;
   mk 28 "BLITZ" "Blitz Trading Corp" SectorStress (dec 12500 2) (dec 1 2) (dec 20 1) true;
   mk 29 "MKTS" "Markets Broad ETF" SectorETF (dec 35000 2) (dec 1 2) (dec 4 1) false;
   mk 30 "GRWT" "Growth Select ETF" SectorETF (dec 18000 2) (dec 1 2) (dec 5 1) false])%string.

(** [m[key] = v] over a slice: the last of equal keys stays. *)
Definition index_by {K} `{Countable K} (key : Symbol.t → K) (syms : list Symbol.t) : gmap K Symbol.t :=
  fold_left (λ m s, <[key s := s]> m) syms ∅.

Definition ByTicker : gmap string Symbol.t := index_by Ticker AllSymbols.
Definition ByLocate : gmap Z Symbol.t := index_by LocateCode AllSymbols.

Definition Sectors : list Sector :=
  [SectorTech; SectorFinance; SectorHealthcare; SectorEnergy; SectorConsumer; SectorIndustrial;
   SectorStress; SectorETF].

(** [m[s.Sector] = append(m[s.Sector], s)]; a missing key reads as the empty slice. *)
Definition SymbolsBySector (sec : Sector) : list Symbol.t :=
  fold_left (λ m s, λ sec', if decide (sec' = s.(Sector_)) then m sec' ++ [s] else m sec')
    AllSymbols (λ _, []) sec.

(** ** The table is well formed *)

(** A name as the wire carries it: at most eight characters, no trailing space. *)
Definition ticker_ok (t : string) : bool :=
  (String.length t <=? 8)%nat && negb (String.eqb t EmptyString) &&
  match List.rev (String.list_ascii_of_string t) with
  | c :: _ => negb (Ascii.eqb c " "%char)
  | [] => false
  end.

Record universe_ok (syms : list Symbol.t) : Prop := mk_universe_ok {
  u_locates : LocateCode <$> syms = seqZ 1 (Z.of_nat (length syms));
  u_tickers : NoDup (Ticker <$> syms);
  u_names : forallb (λ s, ticker_ok s.(Ticker)) syms = true;
  u_ticks : forallb (λ s, (s.(TickSize) =? dec 1 2)%F) syms = true;
}.

Lemma index_by_lookup {K} `{Countable K} (key : Symbol.t → K) syms k s :
  NoDup (key <$> syms) → index_by key syms !! k = Some s ↔ s ∈ syms ∧ key s = k.
Proof.
  unfold index_by. induction syms as [|x syms IH] using rev_ind; intros Hnd.
  { cbn. rewrite lookup_empty, elem_of_nil. by intuition. }
  rewrite fmap_app in Hnd. apply NoDup_app in Hnd as (Hnd & Hx & _). rewrite fold_left_app. cbn.
  rewrite elem_of_app, list_elem_of_singleton. destruct (decide (key x = k)) as [<-|Hne].
  - rewrite lookup_insert_eq. split; [intros [= <-]; by intuition|]. intros [[Hs| ->] Hk]; [|done].
    destruct (Hx (key s)); [by apply list_elem_of_fmap_2|]. rewrite Hk. cbn. by left.
  - rewrite lookup_insert_ne by done. rewrite IH by done. split; [by intuition|].
    by intros [[?| ->] ?].
Qed.

Lemma AllSymbols_ok : universe_ok AllSymbols.
Proof.
  split; [vm_compute; reflexivity| |vm_compute; reflexivity|vm_compute; reflexivity].
  apply (bool_decide_unpack _). vm_compute. exact I.
Qed.

(** The symbol table and its two indexes agree: thirty instruments with
    locate codes 1 to 30 and distinct tickers that fit the wire's stock field,
    all with a tick of one cent, exactly one of them the stress symbol; the sectors
    partition them in order; a ticker
    or a locate code finds the instrument that has it and nothing else. *)
Theorem AllSymbols_indexed :
  universe_ok AllSymbols ∧ length AllSymbols = 30%nat ∧
  List.filter IsStress AllSymbols = SymbolsBySector SectorStress ∧ length (SymbolsBySector SectorStress) = 1%nat ∧
  (∀ sec, sec ∈ Sectors ∧
    SymbolsBySector sec = List.filter (λ s, bool_decide (s.(Sector_) = sec)) AllSymbols) ∧
  (∀ t s, ByTicker !! t = Some s ↔ s ∈ AllSymbols ∧ s.(Ticker) = t) ∧
  (∀ l s, ByLocate !! l = Some s ↔ s ∈ AllSymbols ∧ s.(LocateCode) = l).
Proof.
  split_and!; [apply AllSymbols_ok|reflexivity|vm_compute; reflexivity|reflexivity| | |].
  - intros []; (split; [apply (bool_decide_unpack _); exact I|vm_compute; reflexivity]).
  - intros t s. apply index_by_lookup, AllSymbols_ok.
  - intros l s. apply index_by_lookup. rewrite (u_locates _ AllSymbols_ok). apply NoDup_seqZ.
Qed.
