(* ===== verification/Session.v ===== *)
(** * internal/session: client.go, manager.go and handler.go

    A client's goroutines share its format, its subscriptions and its send
    channel; a channel is the list of the frames in it.  The WebSocket connection
    is what the write pump has written to it.  Clients are referred to by their ID.
    json.Marshal is an argument; a frame is a byte list. *)
From S2P Require Import Prelude Word Float64 Symbols Itch ItchJson.

Local Open Scope Z_scope.

Abbreviation frame := (list Z).

(** ** client.go *)

Inductive Format := FormatJSON | FormatBinary.
Global Instance Format_eq_dec : EqDecision Format.
Proof. solve_decision. Defined.

Module Client.
Record t := mk {
  format : Format;
  symbols : gset Z;        (* the keys of the map; its values are all true *)
  allSymbols : bool;
  sendCh : list frame;     (* oldest first *)
  capacity : nat;          (* bufferSize *)
  Dropped : Z;             (* uint64 *)
  done : bool;             (* the channel [done] and the connection are closed *)
}.
End Client.
Import Client.

Definition NewClient (bufferSize : nat) : Client.t := mk FormatJSON ∅ false [] bufferSize 0 false.

Definition SetFormat (f : Format) (c : Client.t) : Client.t :=
  mk f c.(symbols) c.(allSymbols) c.(sendCh) c.(capacity) c.(Dropped) c.(done).
Definition set_symbols (s : gset Z) (c : Client.t) : Client.t :=
  mk c.(format) s c.(allSymbols) c.(sendCh) c.(capacity) c.(Dropped) c.(done).
Definition set_sendCh (l : list frame) (c : Client.t) : Client.t :=
  mk c.(format) c.(symbols) c.(allSymbols) l c.(capacity) c.(Dropped) c.(done).

Definition Subscribe (locates : list Z) (c : Client.t) : Client.t :=
  set_symbols (fold_left (λ s loc, {[loc]} ∪ s) locates c.(symbols)) c.
Definition SubscribeAll (c : Client.t) : Client.t :=
  mk c.(format) c.(symbols) true c.(sendCh) c.(capacity) c.(Dropped) c.(done).
Definition Unsubscribe (locates : list Z) (c : Client.t) : Client.t :=
  set_symbols (fold_left (λ s loc, s ∖ {[loc]}) locates c.(symbols)) c.

Definition IsSubscribed (locate : Z) (c : Client.t) : bool :=
  if c.(allSymbols) then true else bool_decide (locate ∈ c.(symbols)).
(** [None] is the nil slice, for all. *)
Definition SubscribedLocates (c : Client.t) : option (list Z) :=
  if c.(allSymbols) then None else Some (elements c.(symbols)).
Definition IsAllSubscribed (c : Client.t) : bool := c.(allSymbols).

Definition Send (data : frame) (c : Client.t) : bool * Client.t :=
  if decide (length c.(sendCh) < c.(capacity))%nat then (true, set_sendCh (c.(sendCh) ++ [data]) c)
  else (false, mk c.(format) c.(symbols) c.(allSymbols) c.(sendCh) c.(capacity)
                 (to_u64 (c.(Dropped) + 1)) c.(done)).

Definition Close (c : Client.t) : Client.t :=
  mk c.(format) c.(symbols) c.(allSymbols) c.(sendCh) c.(capacity) c.(Dropped) true.

(** [for _, data := range frames { c.Send(data) }] *)
Definition send_all (frames : list frame) (c : Client.t) : Client.t :=
  fold_left (λ c data, (Send data c).2) frames c.

(** ** manager.go *)

Record manager := mkManager {
  clientIDCounter : Z;              (* uint64 *)
  heap : gmap Z Client.t;           (* every client, by ID *)
  clients : gset Z;                 (* the keys of [Manager.clients] *)
}.

Definition set_client (id : Z) (c : Client.t) (m : manager) : manager :=
  mkManager m.(clientIDCounter) (<[id := c]> m.(heap)) m.(clients).
Definition update_client (id : Z) (f : Client.t → Client.t) (m : manager) : manager :=
  match m.(heap) !! id with Some c => set_client id (f c) m | None => m end.

Definition Register (bufferSize : nat) (m : manager) : Z * manager :=
  let id := to_u64 (m.(clientIDCounter) + 1) in
  (id, mkManager id (<[id := NewClient bufferSize]> m.(heap)) ({[id]} ∪ m.(clients))).

Definition Unregister (id : Z) (m : manager) : manager :=
  update_client id Close (mkManager m.(clientIDCounter) m.(heap) (m.(clients) ∖ {[id]})).

Definition ClientCount (m : manager) : Z := Z.of_nat (size m.(clients)).

(** A control message from a client. *)
Module controlMessage.
Record t := mk { Action : string; Symbols : list string; Format : string }.
End controlMessage.

Section manager.
Context (marshal : gmap string jval → option frame).
Context (syms : list Symbol.t).

Definition byTicker : gmap string Z :=
  fold_left (λ m s, <[s.(Symbol.Ticker) := s.(Symbol.LocateCode)]> m) syms ∅.

(** The loop of [ResolveTickers], with the locates found so far. *)
Fixpoint resolve_loop (tickers : list string) (locates : list Z) : list Z * bool :=
  match tickers with
  | [] => (locates, false)
  | t :: tickers =>
      if decide (t = "*"%string) then ([], true)
      else match byTicker !! t with
           | Some loc => resolve_loop tickers (locates ++ [loc])
           | None => resolve_loop tickers locates
           end
  end.
Definition ResolveTickers (tickers : list string) : list Z * bool := resolve_loop tickers [].

Definition encodeAllJSON (msgs : list Message.t) : list frame := omap (EncodeJSON marshal) msgs.
Definition encodeAllBinary (msgs : list Message.t) : list frame := omap EncodeBinary msgs.
Definition encodeAll (f : Format) (msgs : list Message.t) : list frame :=
  match f with FormatJSON => encodeAllJSON msgs | FormatBinary => encodeAllBinary msgs end.

(** The stamping loop of [Broadcast], which writes into the caller's slice. *)
Definition stamp (ts : Z) (stock : string) (m : Message.t) : Message.t :=
  let m := Message.set_Timestamp ts m in
  if decide (m.(Message.Stock) = EmptyString) then Message.set_Stock stock m else m.

(** The loop's body for one client. *)
Definition deliver (locate : Z) (msgs : list Message.t) (c : Client.t) : Client.t :=
  if IsSubscribed locate c then send_all (encodeAll c.(format) msgs) c else c.

(** [order]: the order in which the map of clients is iterated, which Go leaves
    open.  Returns the slice as the caller sees it afterwards. *)
Definition Broadcast (order : list Z) (now locate : Z) (stock : string) (msgs : list Message.t)
    (m : manager) : list Message.t * manager :=
  if decide (msgs = []) then (msgs, m)
  else
    let msgs := stamp (NanosFromMidnight now) stock <$> msgs in
    (msgs, fold_left (λ m id, update_client id (deliver locate msgs) m) order m).

Definition SendToClient (now : Z) (msgs : list Message.t) (c : Client.t) : Client.t :=
  send_all (encodeAll c.(format) (Message.set_Timestamp (NanosFromMidnight now) <$> msgs)) c.

(** ** handler.go *)

Definition directory_msg (s : Symbol.t) : Message.t :=
  Message.mk MsgStockDirectory 0 s.(Symbol.LocateCode) 0 s.(Symbol.Ticker) 0 0 0 0 fzero 0 EmptyString
    0 0 0 81 78 100 78 67 (90, 32) 80 78 32 49 78 0 78.

Definition sendStockDirectory (now : Z) (locates : list Z) (all : bool) (c : Client.t) : Client.t :=
  let listed s := all || existsb (λ loc, s.(Symbol.LocateCode) =? loc) locates in
  SendToClient now (directory_msg <$> List.filter listed syms) c.

Definition handleControl (now : Z) (ctrl : controlMessage.t) (c : Client.t) : Client.t :=
  if decide (ctrl.(controlMessage.Action) = "subscribe"%string) then
    let '(locates, all) := ResolveTickers ctrl.(controlMessage.Symbols) in
    if all then sendStockDirectory now [] true (SubscribeAll c)
    else if decide (locates = []) then c
    else sendStockDirectory now locates false (Subscribe locates c)
  else if decide (ctrl.(controlMessage.Action) = "unsubscribe"%string) then
    let '(locates, _) := ResolveTickers ctrl.(controlMessage.Symbols) in
    if decide (locates = []) then c else Unsubscribe locates c
  else if decide (ctrl.(controlMessage.Action) = "format"%string) then
    if decide (ctrl.(controlMessage.Format) = "binary"%string) then SetFormat FormatBinary c
    else if decide (ctrl.(controlMessage.Format) = "json"%string) then SetFormat FormatJSON c
    else c
  else c.
End manager.

(** ** writePump and the connection *)

Inductive messageType := TextMessage | BinaryMessage.

(** A client with its write pump: whether it runs, and what it has written. *)
Record conn := mkConn {
  client : Client.t;
  pumping : bool;
  written : list (messageType * frame);
}.

(** The frame type [writePump] picks, by the format when the frame is written. *)
Definition wire_type (c : Client.t) : messageType :=
  if decide (c.(format) = FormatBinary) then BinaryMessage else TextMessage.

(** What the goroutines of a client do, one access to its shared state at a
    time: any goroutine may send (a broadcast, the directory), the read pump
    changes format and subscriptions and closes, the write pump writes a frame,
    fails to, or ends. *)
Inductive label :=
  | LSend (data : frame) | LFormat (f : Format) | LSubscribe (locates : list Z) | LSubscribeAll
  | LUnsubscribe (locates : list Z) | LClose | LWrite | LWriteFail | LPingFail | LPumpDone.

Inductive conn_step : conn → label → conn → Prop :=
  | st_send c p w data : conn_step (mkConn c p w) (LSend data) (mkConn (Send data c).2 p w)
  | st_format c p w f : conn_step (mkConn c p w) (LFormat f) (mkConn (SetFormat f c) p w)
  | st_subscribe c p w l : conn_step (mkConn c p w) (LSubscribe l) (mkConn (Subscribe l c) p w)
  | st_all c p w : conn_step (mkConn c p w) LSubscribeAll (mkConn (SubscribeAll c) p w)
  | st_unsubscribe c p w l : conn_step (mkConn c p w) (LUnsubscribe l) (mkConn (Unsubscribe l c) p w)
  | st_close c p w : conn_step (mkConn c p w) LClose (mkConn (Close c) p w)
  | st_write c w data q :
      c.(sendCh) = data :: q → c.(done) = false →
      conn_step (mkConn c true w) LWrite (mkConn (set_sendCh q c) true (w ++ [(wire_type c, data)]))
  | st_write_fail c w data q :
      c.(sendCh) = data :: q →
      conn_step (mkConn c true w) LWriteFail (mkConn (Close (set_sendCh q c)) false w)
  | st_ping_fail c w : conn_step (mkConn c true w) LPingFail (mkConn (Close c) false w)
  | st_pump_done c w : c.(done) = true → conn_step (mkConn c true w) LPumpDone (mkConn c false w).

Inductive conn_run : conn → list label → conn → Prop :=
  | run_nil s : conn_run s [] s
  | run_step s l s' ls s'' : conn_step s l s' → conn_run s' ls s'' → conn_run s (l :: ls) s''.
