(* ===== verification/SessionProps.v ===== *)
(** * Properties of the sessions

    A broadcast reaches exactly the subscribed clients; what a client's
    connection carries is, in order, what was queued for it, and what was not
    queued is counted as dropped, whatever the goroutines' interleaving. *)
From S2P Require Import Prelude Word Float64 Symbols Itch ItchJson Decoder ItchProps Session.
Import Client.

Local Open Scope Z_scope.

(** ** Sending *)

Record client_ok (c : Client.t) : Prop := mk_client_ok {
  ok_queue : (length c.(sendCh) ≤ c.(capacity))%nat;
  ok_dropped : is_u 64 c.(Dropped);
}.

Definition room (c : Client.t) : nat := c.(capacity) - length c.(sendCh).

(** The frames that fit are queued, the others counted. *)
Definition enqueue (frames : list frame) (c : Client.t) : Client.t :=
  mk c.(format) c.(symbols) c.(allSymbols) (c.(sendCh) ++ take (room c) frames) c.(capacity)
    (to_u64 (c.(Dropped) + Z.of_nat (length frames - room c))) c.(done).

Create HintDb session.

Lemma NewClient_ok n : client_ok (NewClient n).
Proof. split; cbn; [lia|]. unfold is_u. lia. Qed.

Lemma enqueue_ok frames c : client_ok c → client_ok (enqueue frames c).
Proof.
  intros [H _]. split; cbn; [|by apply uwrap_range]. rewrite length_app, length_take. unfold room. lia.
Qed.

Lemma to_u64_add a b : to_u64 (to_u64 a + b) = to_u64 (a + b).
Proof. unfold uwrap. by rewrite Z.add_mod_idemp_l. Qed.

Lemma send_all_spec frames c : client_ok c → send_all frames c = enqueue frames c.
Proof.
  revert c. induction frames as [|data frames IH]; intros [f s a q n d b] Hc.
  { unfold enqueue, room. destruct Hc as [_ Hd]. cbn in *. rewrite take_nil, app_nil_r, Z.add_0_r, uwrap_id by done. done. }
  change (send_all (data :: frames) (mk f s a q n d b)) with (send_all frames (Send data (mk f s a q n d b)).2).
  unfold Send. cbn [sendCh capacity]. destruct (decide (length q < n)%nat) as [Hlt|Hge].
  - cbn [snd]. rewrite IH.
    + unfold enqueue, room, set_sendCh. cbn. rewrite length_app. cbn [length].
      replace (n - length q)%nat with (S (n - (length q + 1)))%nat by lia. cbn [firstn take].
      by rewrite <- app_assoc.
    + destruct Hc as [_ Hd]. split; [|exact Hd]. cbn. rewrite length_app. cbn. lia.
  - cbn [snd]. destruct Hc as [Hq _]. cbn in Hq. rewrite IH.
    + unfold enqueue, room. cbn. replace (n - length q)%nat with 0%nat by lia. cbn.
      rewrite to_u64_add. f_equal. f_equal. lia.
    + split; cbn; [done|by apply uwrap_range].
Qed.

Lemma SetFormat_ok f c : client_ok c → client_ok (SetFormat f c).
Proof. by intros []. Qed.
Lemma set_symbols_ok s c : client_ok c → client_ok (set_symbols s c).
Proof. by intros []. Qed.
Lemma SubscribeAll_ok c : client_ok c → client_ok (SubscribeAll c).
Proof. by intros []. Qed.
Lemma Close_ok c : client_ok c → client_ok (Close c).
Proof. by intros []. Qed.
#[export] Hint Resolve NewClient_ok enqueue_ok SetFormat_ok set_symbols_ok SubscribeAll_ok Close_ok : session.

(** ** Subscriptions *)

Lemma elem_of_Subscribe locates s x : x ∈ fold_left (λ s loc, {[loc]} ∪ s) locates s ↔ x ∈ (s : gset Z) ∨ x ∈ locates.
Proof.
  revert s. induction locates as [|l locates IH]; intros s; [set_solver|]. cbn [fold_left]. rewrite IH. clear IH. set_solver.
Qed.

Lemma elem_of_Unsubscribe locates s x : x ∈ fold_left (λ s loc, s ∖ {[loc]}) locates s ↔ x ∈ (s : gset Z) ∧ x ∉ locates.
Proof.
  revert s. induction locates as [|l locates IH]; intros s; [set_solver|]. cbn [fold_left]. rewrite IH. clear IH. set_solver.
Qed.

Lemma IsSubscribed_true locate c : IsSubscribed locate c = true ↔ c.(allSymbols) = true ∨ locate ∈ c.(symbols).
Proof.
  unfold IsSubscribed. destruct c.(allSymbols); [by intuition|]. rewrite bool_decide_eq_true. by intuition.
Qed.

Section manager.
Context (marshal : gmap string jval → option frame) (syms : list Symbol.t).

(** The known ones among [tickers]. *)
Definition known (tickers : list string) : list Z := omap (λ t, byTicker syms !! t) tickers.

Lemma resolve_loop_spec tickers acc :
  resolve_loop syms tickers acc =
    if decide ("*"%string ∈ tickers) then ([], true) else (acc ++ known tickers, false).
Proof.
  revert acc. induction tickers as [|t tickers IH]; intros acc.
  { rewrite decide_False by apply not_elem_of_nil. cbn. by rewrite app_nil_r. }
  cbn [resolve_loop known omap list_omap]. destruct (decide (t = "*"%string)) as [->|Hne].
  { rewrite decide_True by by left. done. }
  rewrite (decide_ext _ ("*"%string ∈ tickers)) by (rewrite elem_of_cons; intuition congruence).
  destruct (byTicker syms !! t) as [loc|]; rewrite IH; case_decide; try done.
  by rewrite <- app_assoc.
Qed.

Lemma ResolveTickers_spec tickers :
  ResolveTickers syms tickers =
    if decide ("*"%string ∈ tickers) then ([], true) else (known tickers, false).
Proof. apply resolve_loop_spec. Qed.

(** Clients are updated independently, so the order does not matter. *)
Lemma update_all_lookup order f m id :
  NoDup order →
  (fold_left (λ m id, update_client id f m) order m).(heap) !! id
  = if decide (id ∈ order) then f <$> m.(heap) !! id else m.(heap) !! id.
Proof.
  revert m. induction order as [|x order IH]; intros m Hnd; [by rewrite decide_False by apply not_elem_of_nil|].
  apply NoDup_cons in Hnd as [Hx Hnd]. cbn [fold_left]. rewrite IH by done.
  assert (∀ id', (update_client x f m).(heap) !! id' = if decide (id' = x) then f <$> m.(heap) !! x else m.(heap) !! id') as Hup.
  { intros id'. unfold update_client. destruct (m.(heap) !! x) as [c|] eqn:E.
    - cbn. destruct (decide (id' = x)) as [->|]; [by rewrite lookup_insert_eq|by rewrite lookup_insert_ne].
    - destruct (decide (id' = x)) as [->|]; [exact E|done]. }
  rewrite Hup. destruct (decide (id = x)) as [->|Hne].
  - rewrite (decide_False (P := x ∈ order)) by done.
    rewrite (decide_True (P := x ∈ x :: order)) by (by left). done.
  - apply decide_ext. rewrite elem_of_cons. tauto.
Qed.

Lemma update_all_fields order f m :
  (fold_left (λ m id, update_client id f m) order m).(clients) = m.(clients) ∧
  (fold_left (λ m id, update_client id f m) order m).(clientIDCounter) = m.(clientIDCounter).
Proof.
  revert m. induction order as [|x order IH]; intros m; [done|]. cbn. destruct (IH (update_client x f m)) as [-> ->].
  unfold update_client. by destruct (m.(heap) !! x).
Qed.

(** What a broadcast does to one client. *)
Definition received (locate : Z) (msgs : list Message.t) (c : Client.t) : Client.t :=
  if IsSubscribed locate c then enqueue (encodeAll marshal c.(format) msgs) c else c.

Definition clients_ok (m : manager) : Prop := ∀ id c, m.(heap) !! id = Some c → client_ok c.

Lemma Broadcast_result order now locate stock msgs m :
  clients_ok m → order ≡ₚ elements m.(clients) →
  let '(msgs', m') := Broadcast marshal order now locate stock msgs m in
  msgs' = stamp (NanosFromMidnight now) stock <$> msgs ∧
  m'.(clients) = m.(clients) ∧ m'.(clientIDCounter) = m.(clientIDCounter) ∧
  ∀ id, m'.(heap) !! id =
    if decide (id ∈ m.(clients)) then received locate msgs' <$> m.(heap) !! id else m.(heap) !! id.
Proof.
  intros Hok Horder. unfold Broadcast. destruct (decide (msgs = [])) as [->|Hne].
  - split_and!; [done..|]. intros id. destruct (decide _); [|done]. destruct (m.(heap) !! id) as [c|] eqn:E; [|done].
    cbn. unfold received. destruct (IsSubscribed locate c); [|done]. rewrite <- send_all_spec by by eapply Hok.
    by destruct (format c).
  - destruct (update_all_fields order (deliver marshal locate (stamp (NanosFromMidnight now) stock <$> msgs)) m) as [-> ->].
    split_and!; [done..|]. intros id. rewrite update_all_lookup.
    2:{ rewrite Horder. apply NoDup_elements. }
    rewrite (decide_ext (id ∈ order) (id ∈ m.(clients))) by (rewrite Horder; apply elem_of_elements).
    case_decide; [|done]. destruct (m.(heap) !! id) as [c|] eqn:E; [|done]. cbn. f_equal.
    unfold deliver, received. destruct (IsSubscribed locate c); [|done]. apply send_all_spec. by eapply Hok.
Qed.
End manager.

(** C23. A broadcast reaches exactly the subscribed clients.  Whatever the order in
    which the map of clients is iterated, every registered client subscribed to
    the symbol gets, after what is already queued, as many of the stamped
    messages in its own encoding as its channel has room for, the rest being
    counted as dropped; every other client, connected or not, is as before.  The
    caller's slice is stamped. *)
Theorem Broadcast_spec (marshal : gmap string jval → option frame) (order : list Z) (now locate : Z)
    (stock : string) (msgs : list Message.t) (m : manager)
    (Hok : clients_ok m) (Horder : order ≡ₚ elements m.(clients)) :
  let '(msgs', m') := Broadcast marshal order now locate stock msgs m in
  msgs' = stamp (NanosFromMidnight now) stock <$> msgs ∧
  m'.(clients) = m.(clients) ∧
  ∀ id c, m.(heap) !! id = Some c →
    m'.(heap) !! id = Some (
      if bool_decide (id ∈ m.(clients)) && IsSubscribed locate c
      then enqueue (encodeAll marshal c.(format) msgs') c else c).
Proof.
  pose proof (Broadcast_result marshal order now locate stock msgs m Hok Horder) as H.
  destruct (Broadcast marshal order now locate stock msgs m) as [msgs' m']. destruct H as (-> & -> & _ & Hm).
  split_and!; [done..|]. intros id c Hc. rewrite Hm, Hc. unfold received.
  destruct (decide (id ∈ clients m)); [rewrite bool_decide_true by done|by rewrite bool_decide_false].
  cbn. by destruct (IsSubscribed locate c).
Qed.

Definition demo_client : Client.t := SetFormat FormatBinary (Subscribe [258] (NewClient 2)).
Definition demo_manager : manager := mkManager 1 {[1 := demo_client]} {[1]}.

Lemma demo_manager_ok : clients_ok demo_manager.
Proof.
  intros id c. cbn [heap demo_manager]. intros [<- <-]%lookup_singleton_Some. apply SetFormat_ok, set_symbols_ok, NewClient_ok.
Qed.

Lemma Broadcast_spec_witness :
  let '(msgs', m') := Broadcast (λ _, None) [1] 0 258 "NEXO" [demo_add] demo_manager in
  msgs' = stamp (NanosFromMidnight 0) "NEXO" <$> [demo_add] ∧ m'.(clients) = demo_manager.(clients) ∧
  ∀ id c, demo_manager.(heap) !! id = Some c →
    m'.(heap) !! id = Some (
      if bool_decide (id ∈ demo_manager.(clients)) && IsSubscribed 258 c
      then enqueue (encodeAll (λ _, None) c.(format) msgs') c else c).
Proof. apply (Broadcast_spec (λ _, None) [1] 0 258 "NEXO" [demo_add] demo_manager demo_manager_ok). reflexivity. Defined.

(** ** Control messages *)

Section control.
Context (marshal : gmap string jval → option frame) (syms : list Symbol.t).
Context (now : Z) (ctrl : controlMessage.t) (c : Client.t).

Let action := ctrl.(controlMessage.Action).
Let tickers := ctrl.(controlMessage.Symbols).
Let wildcard := bool_decide ("*"%string ∈ tickers).
Let named (locate : Z) := bool_decide (locate ∈ known syms tickers).

Definition subscribed_after (locate : Z) : bool :=
  if decide (action = "subscribe"%string) then
    IsSubscribed locate c || wildcard || named locate
  else if decide (action = "unsubscribe"%string) then
    if wildcard then IsSubscribed locate c
    else c.(allSymbols) || (IsSubscribed locate c && negb (named locate))
  else IsSubscribed locate c.

Definition format_after : Format :=
  if decide (action = "format"%string) then
    if decide (ctrl.(controlMessage.Format) = "binary"%string) then FormatBinary
    else if decide (ctrl.(controlMessage.Format) = "json"%string) then FormatJSON
    else c.(format)
  else c.(format).

(** The directory entries a subscription is answered with, in table order. *)
Definition directory : list Message.t :=
  if decide (action = "subscribe"%string) then
    (λ s, Message.set_Timestamp (NanosFromMidnight now) (directory_msg s)) <$>
      List.filter (λ s, wildcard || named s.(Symbol.LocateCode)) syms
  else [].

Lemma sendStockDirectory_spec locates all c' :
  client_ok c' → c'.(format) = c.(format) →
  sendStockDirectory marshal syms now locates all c'
  = enqueue (encodeAll marshal c.(format)
      ((λ s, Message.set_Timestamp (NanosFromMidnight now) (directory_msg s)) <$>
        List.filter (λ s, all || bool_decide (s.(Symbol.LocateCode) ∈ locates)) syms)) c'.
Proof.
  intros Hok Hf. unfold sendStockDirectory, SendToClient. rewrite send_all_spec by done. rewrite Hf.
  rewrite <- list_fmap_compose. do 3 f_equal. apply List.filter_ext. intros s. f_equal.
  apply eq_true_iff_eq. rewrite existsb_exists, bool_decide_eq_true. split.
  - intros (l & Hl & ->%Z.eqb_eq). by apply list_elem_of_In.
  - intros H. exists (s.(Symbol.LocateCode)). split; [by apply list_elem_of_In|apply Z.eqb_refl].
Qed.

Lemma enqueue_nil c' : client_ok c' → enqueue [] c' = c'.
Proof. intros H. symmetry. exact (send_all_spec [] c' H). Qed.

Lemma encodeAll_nil f : encodeAll marshal f [] = [].
Proof. by destruct f. Qed.

(** The client after the message: changed as asked, then sent the directory. *)
Definition effect (r : Client.t) : Prop :=
  ∃ c', r = enqueue (encodeAll marshal c.(format) directory) c' ∧
    c'.(sendCh) = c.(sendCh) ∧ c'.(capacity) = c.(capacity) ∧ c'.(Dropped) = c.(Dropped) ∧ client_ok c' ∧
    c'.(format) = format_after ∧ ∀ locate, IsSubscribed locate c' = subscribed_after locate.

Lemma subscribe_effect :
  client_ok c → action = "subscribe"%string → effect (handleControl marshal syms now ctrl c).
Proof.
  intros Hok E. unfold effect, handleControl, directory, format_after, subscribed_after. fold action tickers.
  destruct (decide (action = "format"%string)); [congruence|].
  destruct (decide (action = "subscribe"%string)); [|done].
  rewrite ResolveTickers_spec. fold tickers. unfold wildcard, named.
  destruct (decide ("*"%string ∈ tickers)) as [Hw|Hw];
    [rewrite (bool_decide_true ("*"%string ∈ tickers)) by done|rewrite (bool_decide_false ("*"%string ∈ tickers)) by done].
  - exists (SubscribeAll c). rewrite sendStockDirectory_spec by auto with session.
    split_and!; try done; [auto with session|]. intros locate. cbn. by rewrite orb_true_r.
  - destruct (decide (known syms tickers = [])) as [Ek|Hk].
    + exists c. rewrite Ek, filter_nil.
      2:{ apply Forall_forall. intros s _. apply bool_decide_false, not_elem_of_nil. }
      change (_ <$> []) with (@nil Message.t). rewrite encodeAll_nil, enqueue_nil by done.
      split_and!; try done. intros locate. by rewrite !orb_false_r.
    + exists (Subscribe (known syms tickers) c). rewrite sendStockDirectory_spec by (done || by apply set_symbols_ok).
      split_and!; try done; [by apply set_symbols_ok|]. intros locate. apply eq_true_iff_eq.
      rewrite orb_false_r, orb_true_iff, bool_decide_eq_true, !IsSubscribed_true. cbn. rewrite elem_of_Subscribe. tauto.
Qed.

Lemma unsubscribe_effect :
  client_ok c → action = "unsubscribe"%string → effect (handleControl marshal syms now ctrl c).
Proof.
  intros Hok E. unfold effect, handleControl, directory, format_after, subscribed_after. fold action tickers.
  destruct (decide (action = "format"%string)); [congruence|].
  destruct (decide (action = "subscribe"%string)); [congruence|].
  destruct (decide (action = "unsubscribe"%string)); [|done]. rewrite encodeAll_nil.
  rewrite ResolveTickers_spec. fold tickers. unfold wildcard, named.
  destruct (decide ("*"%string ∈ tickers)) as [Hw|Hw];
    [rewrite (bool_decide_true ("*"%string ∈ tickers)) by done|rewrite (bool_decide_false ("*"%string ∈ tickers)) by done].
  { exists c. by rewrite enqueue_nil. }
  destruct (decide (known syms tickers = [])) as [Ek|Hk].
  - exists c. rewrite enqueue_nil by done. split_and!; try done. intros locate. rewrite Ek.
    rewrite andb_true_r. unfold IsSubscribed. by destruct c.(allSymbols).
  - exists (Unsubscribe (known syms tickers) c). rewrite enqueue_nil by by apply set_symbols_ok.
    split_and!; try done; [by apply set_symbols_ok|]. intros locate. apply eq_true_iff_eq.
    rewrite orb_true_iff, andb_true_iff, negb_true_iff, bool_decide_eq_false, !IsSubscribed_true. cbn.
    rewrite elem_of_Unsubscribe. destruct c.(allSymbols); intuition congruence.
Qed.

Lemma handleControl_effect : client_ok c → effect (handleControl marshal syms now ctrl c).
Proof.
  intros Hok. destruct (decide (action = "subscribe"%string)) as [|Hns]; [by apply subscribe_effect|].
  destruct (decide (action = "unsubscribe"%string)) as [|Hnu]; [by apply unsubscribe_effect|].
  unfold effect, handleControl, directory, format_after, subscribed_after. fold action tickers.
  destruct (decide (action = "subscribe"%string)); [done|].
  destruct (decide (action = "unsubscribe"%string)); [done|].
  rewrite encodeAll_nil. destruct (decide (action = "format"%string)) as [E|Hnf]; [|exists c; by rewrite enqueue_nil].
  destruct (decide (controlMessage.Format ctrl = "binary"%string)); [|destruct (decide _)].
  - exists (SetFormat FormatBinary c). rewrite enqueue_nil by auto with session. split_and!; try done; auto with session.
  - exists (SetFormat FormatJSON c). rewrite enqueue_nil by auto with session. split_and!; try done; auto with session.
  - exists c. by rewrite enqueue_nil.
Qed.
End control.

(** Control messages do what they say.  After [subscribe] the client has, in
    addition, the named symbols, or all of them with a wildcard, and is sent the
    directory entries of exactly those, in table order and in the format it had,
    as far as its channel has room; after [unsubscribe] the named ones are gone,
    unless the client has all symbols or the message has a wildcard, when nothing
    changes; [format] changes the format to binary or json and nothing else does;
    unknown tickers, formats and actions are ignored. *)
Theorem handleControl_spec (marshal : gmap string jval → option frame) (syms : list Symbol.t) (now : Z)
    (ctrl : controlMessage.t) (c : Client.t) (Hok : client_ok c) :
  let c' := handleControl marshal syms now ctrl c in
  (∀ locate, IsSubscribed locate c' = subscribed_after syms ctrl c locate) ∧
  c'.(format) = format_after ctrl c ∧
  c'.(sendCh) = c.(sendCh) ++ take (room c) (encodeAll marshal c.(format) (directory syms now ctrl)) ∧
  client_ok c'.
Proof.
  intros c'. destruct (handleControl_effect marshal syms now ctrl c Hok) as (c1 & E & Hq & Hc & _ & Hok' & Hf & Hs).
  subst c'. rewrite E. split_and!; [exact Hs|exact Hf| |by apply enqueue_ok].
  cbn. unfold room. by rewrite Hq, Hc.
Qed.

Lemma handleControl_spec_witness :
  let c' := handleControl (λ _, Some []) AllSymbols 0 (controlMessage.mk "subscribe" ["NEXO"] "") (NewClient 4) in
  IsSubscribed 1 c' = true ∧ IsSubscribed 2 c' = false ∧ c'.(sendCh) = [[]].
Proof.
  destruct (handleControl_spec (λ _, Some []) AllSymbols 0 (controlMessage.mk "subscribe" ["NEXO"] "")
    (NewClient 4) (NewClient_ok 4)) as (Hs & _ & Hq & _).
  split_and!; [rewrite Hs; vm_compute; reflexivity|rewrite Hs; vm_compute; reflexivity|].
  rewrite Hq. vm_compute. reflexivity.
Defined.

(** Once subscribed to everything, no control message changes that. *)
Lemma wildcard_is_forever marshal syms now ctrl c locate :
  client_ok c → c.(allSymbols) = true → IsSubscribed locate (handleControl marshal syms now ctrl c) = true.
Proof.
  intros Hok Hall. destruct (handleControl_effect marshal syms now ctrl c Hok) as (c1 & -> & _ & _ & _ & _ & _ & Hs).
  change (IsSubscribed locate (enqueue _ c1)) with (IsSubscribed locate c1). rewrite Hs. unfold subscribed_after, IsSubscribed.
  rewrite Hall. by repeat case_decide.
Qed.

(** ** A connection over time *)

(** The frames the goroutines offered. *)
Definition offered (l : label) : list frame := match l with LSend data => [data] | _ => [] end.
Definition sent (ls : list label) : list frame := concat (offered <$> ls).

Definition wire (s : conn) : list frame := snd <$> s.(written).
Definition queue (s : conn) : list frame := s.(client).(sendCh).

(** What was accepted is on the wire, in the channel, or was the one frame whose
    write failed; the rest was counted. *)
Record delivered (n : nat) (off : list frame) (s : conn) : Prop := mk_delivered {
  dv_accepted : ∃ acc lost, sublist acc off ∧ acc = wire s ++ lost ++ queue s ∧ (length lost ≤ 1)%nat ∧
    (s.(pumping) = true → lost = []) ∧
    s.(client).(Dropped) = to_u64 (Z.of_nat (length off - length acc));
  dv_capacity : s.(client).(capacity) = n;
  dv_room : (length (queue s) ≤ n)%nat;
}.

Lemma delivered_step n off s l s' :
  delivered n off s → conn_step s l s' → delivered n (off ++ offered l) s'.
Proof.
  intros [(acc & lost & Hsub & Hacc & Hlost & Hp & Hdrop) Hcap Hroom] Hstep.
  assert (length acc ≤ length off)%nat as Hlen by by apply sublist_length.
  destruct Hstep as [c p w data|c p w f|c p w l|c p w|c p w l|c p w|c w data q Hq Hd|c w data q Hq|c w|c w Hd];
    cbn [offered]; rewrite ?app_nil_r; unfold wire, queue in *;
    cbn [client pumping written] in *;
    try (split; [exists acc, lost; split_and!; (assumption || done)|assumption|assumption]).
  - unfold Send. destruct (decide (length (sendCh c) < capacity c)%nat); cbn [snd].
    + split; [|exact Hcap|cbn; rewrite length_app; cbn; lia].
      exists (acc ++ [data]), lost. split_and!; [by apply sublist_app| |done|done|].
      * cbn. by rewrite Hacc, <- !app_assoc.
      * cbn. rewrite Hdrop, !length_app. f_equal. f_equal. cbn. lia.
    + split; [|exact Hcap|exact Hroom]. exists acc, lost. split_and!; [by apply sublist_inserts_r|done..|].
      cbn. rewrite Hdrop, to_u64_add, length_app. f_equal. cbn. lia.
  - rewrite Hq in *. rewrite (Hp eq_refl) in *. split; [|exact Hcap|cbn in *; lia].
    exists acc, []. split_and!; [done| |cbn; lia|done|exact Hdrop].
    rewrite Hacc. unfold wire, queue. cbn. by rewrite fmap_app, <- app_assoc.
  - rewrite Hq in *. rewrite (Hp eq_refl) in *. split; [|exact Hcap|cbn in *; lia].
    exists acc, [data]. split_and!; [done|exact Hacc|cbn; lia|done|exact Hdrop].
Qed.

Definition fresh_conn (n : nat) : conn := mkConn (NewClient n) true [].

Lemma delivered_run n off s ls s' :
  delivered n off s → conn_run s ls s' → delivered n (off ++ sent ls) s'.
Proof.
  intros H Hrun. revert off H. induction Hrun as [s|s l s1 ls s2 Hstep _ IH]; intros off H.
  - by rewrite app_nil_r.
  - unfold sent. cbn. rewrite app_assoc. apply IH. by eapply delivered_step.
Qed.

(** A connection is a lossy FIFO: however the sends, the control messages and
    the write pump of a client interleave, its channel never exceeds its
    capacity, and the frames on the wire, then the at most one whose write
    failed, then those still in the channel are a subsequence, in order, of the
    frames sent to the client; the number left out is the drop counter. *)
Theorem conn_fifo (n : nat) (ls : list label) (s : conn) (Hrun : conn_run (fresh_conn n) ls s) :
  (length (queue s) ≤ n)%nat ∧
  ∃ lost, let acc := wire s ++ lost ++ queue s in
    sublist acc (sent ls) ∧ (length lost ≤ 1)%nat ∧ (s.(pumping) = true → lost = []) ∧
    s.(client).(Dropped) = to_u64 (Z.of_nat (length (sent ls) - length acc)).
Proof.
  destruct (delivered_run n [] (fresh_conn n) ls s) as [(acc & lost & Hsub & -> & Hl & Hp & Hd) _ Hroom]; [|done|].
  - split; [|done|cbn; lia]. exists [], []. split_and!; [apply sublist_nil|done|cbn; lia|done|reflexivity].
  - split; [done|]. exists lost. done.
Qed.

Lemma conn_fifo_witness :
  let ls := [LSend [1]; LSend [2]; LWrite; LSend [3]; LFormat FormatBinary; LWrite] in
  ∃ s, conn_run (fresh_conn 1) ls s ∧ (length (queue s) ≤ 1)%nat ∧
  ∃ lost, let acc := wire s ++ lost ++ queue s in
    sublist acc (sent ls) ∧ (length lost ≤ 1)%nat ∧ (s.(pumping) = true → lost = []) ∧
    s.(client).(Dropped) = to_u64 (Z.of_nat (length (sent ls) - length acc)).
Proof.
  intros ls. assert (∃ s, conn_run (fresh_conn 1) ls s) as [s Hs].
  { eexists. unfold fresh_conn, ls. repeat (eapply run_step; [first [apply st_write; reflexivity|constructor]|]; cbn).
    apply run_nil. }
  exists s. split; [exact Hs|]. exact (conn_fifo 1 ls s Hs).
Defined.

(** ** Delivery *)

Definition writes (ls : list label) : nat := length (List.filter (λ l, match l with LWrite => true | _ => false end) ls).

(** Once the pump has stopped nothing is written. *)
Lemma stopped_writes s ls s' : conn_run s ls s' → s.(pumping) = false → writes ls = 0%nat.
Proof.
  induction 1 as [s|s l s1 ls s2 Hstep _ IH]; [done|]. intros Hp.
  destruct Hstep; cbn in Hp; try done; unfold writes in *; cbn [List.filter]; by apply IH.
Qed.

(** The wire grows by what is at the front of the channel. *)
Lemma run_writes s ls s' :
  conn_run s ls s' → ∃ more, wire s' = wire s ++ take (writes ls) (queue s ++ more) ∧
    length (wire s') = (length (wire s) + writes ls)%nat.
Proof.
  induction 1 as [s|s l s1 ls s2 Hstep Hrun (more & E & Hlen)].
  { exists []. split; [by rewrite take_0, app_nil_r|by rewrite Nat.add_0_r]. }
  destruct Hstep as [c p w data|c p w f|c p w l|c p w|c p w l|c p w|c w data q Hq Hd|c w data q Hq|c w|c w Hd];
    unfold wire, queue in *; cbn [client written] in *; try (exists more; split; [exact E|exact Hlen]).
  - unfold Send in E. destruct (decide _); cbn [snd] in E; [|by exists more].
    exists ([data] ++ more). cbn [sendCh set_sendCh] in E. by rewrite <- app_assoc in E.
  - exists more. unfold writes in *. cbn [List.filter length]. rewrite Hq. split.
    + rewrite E, fmap_app. cbn. by rewrite <- app_assoc.
    + rewrite Hlen, fmap_app, length_app. cbn. lia.
  - exists []. unfold writes in *. cbn [List.filter]. fold (writes ls) in *.
    rewrite (stopped_writes _ _ _ Hrun eq_refl), take_0 in *. split; [exact E|exact Hlen].
Qed.

(** Queued frames are delivered.  While the connection is open and its pump
    runs, a write is possible whenever a frame is queued; and a frame at position
    [i] of the channel is on the wire, [i] places after what was there, once the
    pump has written [i + 1] times, whatever else happens in between. *)
Theorem queued_delivered (s s' : conn) (ls : list label) (i : nat) (data : frame)
    (Hq : queue s !! i = Some data) (Hrun : conn_run s ls s') (Hw : (i < writes ls)%nat) :
  wire s' !! (length (wire s) + i)%nat = Some data ∧
  (s.(pumping) = true → s.(client).(done) = false → ∃ s1, conn_step s LWrite s1).
Proof.
  split.
  - destruct (run_writes s ls s' Hrun) as (more & -> & _). rewrite lookup_app_r by lia.
    replace (length (wire s) + i - length (wire s))%nat with i by lia.
    rewrite lookup_take_lt by done. by apply lookup_app_l_Some.
  - destruct s as [c p w]. cbn. intros -> Hd. unfold queue in Hq. cbn in Hq.
    destruct (sendCh c) as [|x q] eqn:E; [done|]. eexists. by eapply st_write.
Qed.

Lemma queued_delivered_witness :
  ∃ s s', queue s !! 1%nat = Some [2] ∧ conn_run s [LWrite; LSend [3]; LWrite] s' ∧
    wire s' !! 1%nat = Some [2].
Proof.
  set (s := mkConn (set_sendCh [[1]; [2]] (NewClient 4)) true []).
  assert (∃ s', conn_run s [LWrite; LSend [3]; LWrite] s') as [s' Hs].
  { eexists. repeat (eapply run_step; [first [apply st_write; reflexivity|constructor]|]; cbn). apply run_nil. }
  exists s, s'. split_and!; [reflexivity|exact Hs|].
  exact (proj1 (queued_delivered s s' _ 1 [2] eq_refl Hs ltac:(cbn; lia))).
Defined.

(** ** Frame types *)

Definition changes_format (l : label) : bool := match l with LFormat _ => true | _ => false end.

(** As long as the format does not change, frames carry its type. *)
Lemma types_without_change s ls s' :
  conn_run s ls s' → Forall (λ l, changes_format l = false) ls →
  Forall (λ f, f.1 = wire_type s.(client)) s.(written) → 
  Forall (λ f, f.1 = wire_type s.(client)) s'.(written).
Proof.
  induction 1 as [s|s l s1 ls s2 Hstep _ IH]; [done|]. intros [Hl Hls]%Forall_cons Hw.
  assert (wire_type s1.(client) = wire_type s.(client)) as Ht.
  { destruct Hstep; cbn in *; try done. unfold Send. by case_decide. }
  rewrite Ht in IH. apply IH; [done|]. destruct Hstep; cbn in *; try done.
  apply Forall_app. by split; [|repeat constructor].
Qed.

(** A change of format mislabels what is queued: a frame encoded and queued
    as JSON is written as a binary message when the client switches before the
    pump gets to it, so the frame's type no longer tells how to read it. *)
Theorem format_switch_mislabels (n : nat) (json : frame) (Hn : (0 < n)%nat) :
  ∃ s, conn_run (fresh_conn n) [LSend json; LFormat FormatBinary; LWrite] s ∧
    s.(written) = [(BinaryMessage, json)].
Proof.
  assert (Send json (NewClient n) = (true, set_sendCh [json] (NewClient n))) as Hs.
  { unfold Send. cbn. by rewrite decide_True. }
  eexists. split.
  - eapply run_step; [apply st_send|]. rewrite Hs. eapply run_step; [apply st_format|].
    eapply run_step; [by apply st_write|]. apply run_nil.
  - reflexivity.
Qed.

Lemma format_switch_mislabels_witness :
  ∃ s, conn_run (fresh_conn 4096) [LSend [123; 125]; LFormat FormatBinary; LWrite] s ∧
    s.(written) = [(BinaryMessage, [123; 125])].
Proof. exact (format_switch_mislabels 4096 [123; 125] ltac:(lia)). Defined.

(** ** From broadcast to decoder *)

Lemma stamp_ok now stock m : msg_ok m → msg_ok (stamp (NanosFromMidnight now) stock m).
Proof.
  intros [H1 H2 H3 H4 H5]. unfold stamp. case_decide; (split; [exact H1|apply day_fits|exact H3|exact H4|exact H5]).
Qed.

Lemma stamp_encodes now stock m :
  is_Some (EncodeBinary m) → is_Some (EncodeBinary (stamp (NanosFromMidnight now) stock m)).
Proof.
  intros [b Hb]. pose proof (EncodeBinary_frame m) as E. rewrite Hb in E.
  rewrite EncodeBinary_frame, fmap_is_Some. assert (is_Some (encode_body m)) as H by (destruct (encode_body m); [by eexists|done]).
  clear -H. unfold stamp. case_decide; unfold encode_body in *; cbn;
    repeat (destruct (_ =? _); [by eexists|]); exact H.
Qed.

(** A binary subscriber decodes the broadcast: when its channel has room, the
    frames a broadcast adds to it are read by the command-line decoder as exactly
    the stamped messages, with the broadcast's time, one line each, in order. *)
Theorem broadcast_decodes (marshal : gmap string jval → option frame) (order : list Z) (now locate : Z)
    (stock : string) (msgs : list Message.t) (m : manager) (id : Z) (c : Client.t)
    (Hok : clients_ok m) (Horder : order ≡ₚ elements m.(clients))
    (Hc : m.(heap) !! id = Some c) (Hin : id ∈ m.(clients)) (Hsub : IsSubscribed locate c = true)
    (Hf : c.(format) = FormatBinary) (Hroom : (length msgs ≤ room c)%nat) (Hne : msgs ≠ [])
    (Hmsgs : Forall (λ x, msg_ok x ∧ is_Some (EncodeBinary x)) msgs) :
  let m' := (Broadcast marshal order now locate stock msgs m).2 in
  ∃ c' fs, m'.(heap) !! id = Some c' ∧ c'.(sendCh) = c.(sendCh) ++ fs ∧
    decodeBinaryFrames (concat fs) false
    = Some (concat (shown <$> (stamp (NanosFromMidnight now) stock <$> msgs))).
Proof.
  intros m'. pose proof (Broadcast_result marshal order now locate stock msgs m Hok Horder) as H. subst m'.
  destruct (Broadcast _ _ _ _ _ _ _) as [msgs' m']. destruct H as (-> & _ & _ & Hheap). cbn [snd].
  set (ms := stamp (NanosFromMidnight now) stock <$> msgs) in *.
  assert (Forall (λ x, msg_ok x ∧ is_Some (EncodeBinary x)) ms) as Hms.
  { subst ms. apply Forall_fmap. eapply Forall_impl; [exact Hmsgs|]. intros x [? ?]. split; [by apply stamp_ok|by apply stamp_encodes]. }
  assert (∃ fs, mapM EncodeBinary ms = Some fs ∧ encodeAllBinary ms = fs ∧ length fs = length ms) as (fs & Hfs & Henc & Hl).
  { clear -Hms. induction Hms as [|x ms [_ [b Hb]] _ (fs & E & E' & Hl)]; [by exists []|].
    exists (b :: fs). split_and!; [cbn; by rewrite Hb, E| |cbn; by rewrite Hl].
    change (encodeAllBinary (x :: ms))
      with (match EncodeBinary x with Some y => y :: encodeAllBinary ms | None => encodeAllBinary ms end).
    by rewrite Hb, E'. }
  exists (enqueue fs c), fs. rewrite Hheap, decide_True, Hc by done. cbn [fmap option_fmap option_map].
  unfold received. rewrite Hsub, Hf. change (encodeAll marshal FormatBinary ms) with (encodeAllBinary ms). rewrite Henc. split_and!; [done| |].
  - unfold enqueue. cbn. rewrite take_ge; [done|]. rewrite Hl. subst ms. by rewrite length_fmap.
  - apply decode_frames; [|by eapply Forall_impl; [exact Hms|intros x []]|exact Hfs].
    subst ms. by destruct msgs.
Qed.

Lemma broadcast_decodes_witness :
  let m' := (Broadcast (λ _, None) [1] 0 258 "NEXO" [demo_add; demo_exec] demo_manager).2 in
  ∃ c' fs, m'.(heap) !! 1 = Some c' ∧ c'.(sendCh) = [] ++ fs ∧
    decodeBinaryFrames (concat fs) false
    = Some (concat (shown <$> (stamp (NanosFromMidnight 0) "NEXO" <$> [demo_add; demo_exec]))).
Proof.
  apply (broadcast_decodes (λ _, None) [1] 0 258 "NEXO" [demo_add; demo_exec] demo_manager 1 demo_client);
    [apply demo_manager_ok|reflexivity|reflexivity|vm_compute; set_solver|reflexivity|reflexivity|vm_compute; lia|done|].
  pose proof demo_ok as H. repeat (apply Forall_cons in H as [? H]; constructor; [split; [done|by eexists]|]). constructor.
Defined.
