(* ===== verification/DecoderMain.v ===== *)
(** * cmd/decoder: main.go, the client

    What [main] sends after it has connected, what its read loop prints for a
    message, and the lines of its statistics.  Dialling, the interrupt handler and
    the printing itself belong to the environment; a read error ends the process. *)
From Stdlib Require Import Ascii.
From S2P Require Import Prelude Word Float64 Strconv Symbols Itch ItchProps Decoder Session.

Local Open Scope Z_scope.

(** The flags that matter after the connection is made. *)
Module options.
Record t := mk { symbols : string; useJSON : bool; statsInterval : Z; showHex : bool }.
End options.

Definition default_options : options.t := options.mk "*" false 0 false.

Section client.
Context (o : options.t).

(** [sendControl], twice, in this order. *)
Definition control_messages : list controlMessage.t :=
  let format := if o.(options.useJSON) then "json"%string else "binary"%string in
  [controlMessage.mk "format" [] format;
   controlMessage.mk "subscribe" (Split o.(options.symbols) ","%char) ""].

(** The body of the read loop for one message. *)
Definition read_message (msgType : messageType) (data : list Z) : option (list printed) :=
  match msgType with
  | TextMessage => Some [Println (string_of_bytes data)]
  | BinaryMessage =>
      if o.(options.useJSON) then Some [Println (string_of_bytes data)]
      else decodeBinaryFrames data o.(options.showHex)
  end.

(** The loop over what is received before the read error, with [msgCount]. *)
Fixpoint read_loop (msgCount : Z) (received : list (messageType * list Z)) : option (list printed * Z) :=
  match received with
  | [] => Some ([], msgCount)
  | (msgType, data) :: received =>
      out ← read_message msgType data;
      '(outs, n) ← read_loop (to_u64 (msgCount + 1)) received;
      Some (out ++ outs, n)
  end.

(** A line of the statistics: the total and the rate. *)
Definition stats_line (cur last : Z) : Z * float64 :=
  (cur, (float_of_Z (to_u64 (cur - last)) / float_of_Z o.(options.statsInterval))%F).

(** One per tick, from the counts read at the ticks. *)
Fixpoint stats_lines (last : Z) (counts : list Z) : list (Z * float64) :=
  match counts with
  | [] => []
  | cur :: counts => stats_line cur last :: stats_lines cur counts
  end.

Definition stats (counts : list Z) : list (Z * float64) :=
  if o.(options.statsInterval) >? 0 then stats_lines 0 counts else [].

End client.

(** ** One frame *)

(** A frame the server encoded is printed as the line of its message, after its
    bytes if they are asked for. *)
Lemma read_frame (o : options.t) m data :
  o.(options.useJSON) = false → msg_ok m → EncodeBinary m = Some data →
  read_message o BinaryMessage data = Some (hex_if o.(options.showHex) data ++ shown m).
Proof.
  intros Hj Hm He. unfold read_message. rewrite Hj. rewrite EncodeBinary_frame in He.
  destruct (encode_body m) as [b|] eqn:Eb; [|done]. injection He as <-.
  pose proof (decodeMessage_body m b Hm Eb) as Hd. destruct (encode_body_type m b Eb) as [_ Hs]. apply body_size_bounds in Hs.
  unfold decodeBinaryFrames. rewrite decide_False by (rewrite length_frame_of; lia).
  pose proof (Uint_frame [] b [] ltac:(lia)) as Hu. cbn [app length Nat.add] in Hu. rewrite app_nil_r in Hu. rewrite Hu.
  cbn [fmap option_fmap option_map mbind option_bind]. rewrite Nat2Z.id, decide_True by (rewrite length_frame_of; lia).
  assert (slice (frame_of b) 2 (length (frame_of b)) = Some b) as ->.
  { rewrite length_frame_of, <- (app_nil_r (frame_of b)). apply (slice_body [] b []). }
  cbn [mbind option_bind]. by rewrite Hd.
Qed.

Lemma read_loop_count o received k outs n :
  read_loop o k received = Some (outs, n) → is_u 64 k → n = to_u64 (k + Z.of_nat (length received)).
Proof.
  revert k outs. induction received as [|[ty data] received IH]; intros k outs; cbn [read_loop length].
  { intros [= <- <-] H. by rewrite Z.add_0_r, uwrap_id. }
  destruct (read_message o ty data); [|done]. cbn [mbind option_bind].
  destruct (read_loop o (to_u64 (k + 1)) received) as [[outs' n']|] eqn:E; [|done]. intros [= _ <-] H.
  rewrite (IH _ _ E) by by apply uwrap_range. unfold uwrap. rewrite Zplus_mod_idemp_l. f_equal. lia.
Qed.
