(* ===== verification/Market.v ===== *)
(** * internal/engine/market.go: the price engine

    The state of a [MarketEngine] with the generator it shares: the prices and the
    sector shocks are maps in which a missing key reads as zero; [syms] and
    [byLoc] never change and are arguments.  Each method holds the mutex for its
    whole body.  [math.Exp] and [math.Log] are arguments, as is the fuel of
    [Gaussian]. *)
From Stdlib Require Import SpecFloat.
From S2P Require Import Prelude Word Float64 Rng Gaussian Symbols Simulator.

Local Open Scope Z_scope.

Global Instance Sector_countable : Countable Sector.
Proof.
  refine (inj_countable' (λ s, match s with
    | SectorTech => 0%nat | SectorFinance => 1%nat | SectorHealthcare => 2%nat | SectorEnergy => 3%nat
    | SectorConsumer => 4%nat | SectorIndustrial => 5%nat | SectorStress => 6%nat | SectorETF => 7%nat end)
    (λ n, match n with
    | 0%nat => SectorTech | 1%nat => SectorFinance | 2%nat => SectorHealthcare | 3%nat => SectorEnergy
    | 4%nat => SectorConsumer | 5%nat => SectorIndustrial | 6%nat => SectorStress | _ => SectorETF end) _).
  by intros [].
Defined.

Definition baseDailyVol : float64 := dec 2 2.
Definition sectorBlend : float64 := dec 6 1.
Definition driftPerTick : float64 := fzero.
Definition ticksPerDay : Z := 86400.

Record MarketEngine := mkMarket {
  rng : RNG;
  prices : gmap Z float64;
  sectorShocks : gmap Sector float64;
}.

Definition on_rng {A} (m : go RNG A) : go MarketEngine A :=
  zoom rng (λ s r, mkMarket r s.(prices) s.(sectorShocks)) m.

Lemma on_rng_run {A} (k : go RNG A) m a r :
  k m.(rng) = Some (a, r) → on_rng k m = Some (a, mkMarket r m.(prices) m.(sectorShocks)).
Proof. apply (zoom_run rng). Qed.

(** The map a price engine starts with, and its index of symbols. *)
Definition base_prices (syms : list Symbol.t) : gmap Z float64 :=
  fold_left (λ m s, <[s.(Symbol.LocateCode) := s.(Symbol.BasePrice)]> m) syms ∅.
Definition byLoc (syms : list Symbol.t) : gmap Z Symbol.t := index_by Symbol.LocateCode syms.

Definition NewMarketEngine (r : RNG) (syms : list Symbol.t) : MarketEngine :=
  mkMarket r (base_prices syms) ∅.

Definition Price (locateCode : Z) (m : MarketEngine) : float64 := default fzero (m.(prices) !! locateCode).

Definition SetPrice (locateCode : Z) (price : float64) (m : MarketEngine) : MarketEngine :=
  mkMarket m.(rng) (<[locateCode := price]> m.(prices)) m.(sectorShocks).

Definition AllPrices (m : MarketEngine) : gmap Z float64 := m.(prices).

Definition set_shock (sec : Sector) (z : float64) (m : MarketEngine) : MarketEngine :=
  mkMarket m.(rng) m.(prices) (<[sec := z]> m.(sectorShocks)).

Section market.
Context (math_Exp math_Log : float64 → float64) (syms : list Symbol.t) (fuel : nat).

Definition GenerateSectorShocks : go MarketEngine unit :=
  go_fold (λ _ sec,
    z ← on_rng (Gaussian math_Log fuel);
    m ← get_state;
    put_state (set_shock sec z m)) tt Sectors.

(** [logReturn] of [Tick]. *)
Definition logReturn (sym : Symbol.t) (sectorZ idioZ : float64) : float64 :=
  let tickVol := (baseDailyVol / fsqrt (float_of_Z ticksPerDay) * sym.(Symbol.VolatilityMultiplier))%F in
  let z := (sectorBlend * sectorZ + dec 4 1 * idioZ)%F in
  (driftPerTick + tickVol * z)%F.

(** The snapping at the end of [Tick]. *)
Definition floor_price (tickSize price : float64) : float64 :=
  let price := (math_Round (price / tickSize) * tickSize)%F in
  if (price <? tickSize)%F then tickSize else price.

Definition Tick (locateCode : Z) : go MarketEngine float64 :=
  match byLoc syms !! locateCode with
  | None => mret fzero
  | Some sym =>
      m ← get_state;
      let price := Price locateCode m in
      let sectorZ := default fzero (m.(sectorShocks) !! sym.(Symbol.Sector_)) in
      idioZ ← on_rng (Gaussian math_Log fuel);
      let price := (price * math_Exp (logReturn sym sectorZ idioZ))%F in
      let price := floor_price sym.(Symbol.TickSize) price in
      m ← get_state;
      _ ← put_state (SetPrice locateCode price m);
      mret price
  end.

End market.

(** ** Snapped prices *)

Lemma floor_price_spec tick p :
  is_nonzero_finite tick → is_num p →
  is_num (floor_price tick p) ∧ (tick <=? floor_price tick p)%F = true.
Proof.
  intros Ht Hp. assert (is_num tick) as Htn by (by destruct tick).
  assert (is_num (math_Round (p / tick) * tick)%F) as Hs by auto with floats.
  unfold floor_price. fold (snapPrice p tick) in *. destruct (snapPrice p tick <? tick)%F eqn:E.
  - split; [done|]. apply fleb_not_lt; [done..|apply fltb_irrefl].
  - split; [done|]. by apply fleb_not_lt.
Qed.

(** ** Sector shocks *)

(** Enough fuel for a whole sequence of draws. *)
Lemma shocks_total math_Log secs m :
  Rng.wf m.(rng) →
  ∃ fuel m', (∀ fuel', (fuel ≤ fuel')%nat →
    go_fold (λ _ sec,
      z ← on_rng (Gaussian math_Log fuel');
      m ← get_state;
      put_state (set_shock sec z m)) tt secs m = Some (tt, m')) ∧
  Rng.wf m'.(rng) ∧ m'.(prices) = m.(prices) ∧
  dom m'.(sectorShocks) = list_to_set secs ∪ dom m.(sectorShocks).
Proof.
  revert m. induction secs as [|sec secs IH]; intros m Hwf.
  { exists 0%nat, m. split_and!; [done..|]. cbn. by rewrite (left_id_L ∅ (∪)). }
  destruct (Gaussian_total math_Log m.(rng) Hwf) as (f1 & z & r & Hg & _ & Hwf').
  destruct (IH (mkMarket r m.(prices) (<[sec := z]> m.(sectorShocks))) Hwf') as (f2 & m' & Hrest & ? & ? & Hdom).
  exists (f1 + f2)%nat, m'. split_and!; [|done..|].
  - intros fuel' Hle. cbn [go_fold]. erewrite go_bind_run; [apply Hrest; lia|].
    by rewrite (go_bind_run _ _ _ _ _ (on_rng_run _ _ _ _ (Hg fuel' ltac:(lia)))).
  - rewrite Hdom. cbn. rewrite dom_insert_L, (assoc_L (∪)). f_equal. apply (comm_L (∪)).
Qed.

(** [Tick], by the number it draws. *)
Lemma Tick_run (math_Exp math_Log : float64 → float64) (syms : list Symbol.t) (loc : Z)
    (sym : Symbol.t) (m : MarketEngine)
    (Hsym : byLoc syms !! loc = Some sym) (Ht : is_nonzero_finite sym.(Symbol.TickSize))
    (Hr : Rng.wf m.(rng)) :
  ∃ fuel idioZ r',
    let tick := sym.(Symbol.TickSize) in
    let sectorZ := default fzero (m.(sectorShocks) !! sym.(Symbol.Sector_)) in
    let moved := (Price loc m * math_Exp (logReturn sym sectorZ idioZ))%F in
    let p := if (snapPrice moved tick <? tick)%F then tick else snapPrice moved tick in
    (∀ fuel', (fuel ≤ fuel')%nat →
      Gaussian math_Log fuel' m.(rng) = Some (idioZ, r') ∧
      Tick math_Exp math_Log syms fuel' loc m =
        Some (p, mkMarket r' (<[loc := p]> m.(prices)) m.(sectorShocks))) ∧ Rng.wf r' ∧
    (is_num moved → is_num p ∧ (tick <=? p)%F = true).
Proof.
  destruct (Gaussian_total math_Log m.(rng) Hr) as (fuel & z & r & Hg & _ & Hwf).
  exists fuel, z, r. intros tick sectorZ moved p. split_and!; [|done|].
  - intros fuel' Hle. split; [by apply Hg|]. unfold Tick. rewrite Hsym. cbn [mbind].
    rewrite (go_bind_run get_state _ m m m) by done.
    rewrite (go_bind_run _ _ _ _ _ (on_rng_run _ _ _ _ (Hg fuel' Hle))). reflexivity.
  - intros Hm. by apply (floor_price_spec tick moved).
Qed.

(** C37. The price step: for a known symbol whose tick is a positive finite number,
    [Tick] terminates and returns exactly this price: the old one times
    [exp(logReturn)], rounded to a multiple of the tick, and replaced by one tick if it
    is below.  It is stored under the symbol, every other price and every sector shock
    is as before, and only the generator moves besides.  When the product is a number,
    so is the price, and it is at least one tick. *)
Theorem Tick_spec (math_Exp math_Log : float64 → float64) (syms : list Symbol.t) (loc : Z)
    (sym : Symbol.t) (m : MarketEngine)
    (Hsym : byLoc syms !! loc = Some sym) (Ht : is_nonzero_finite sym.(Symbol.TickSize))
    (Hr : Rng.wf m.(rng)) :
  ∃ fuel idioZ r',
    let tick := sym.(Symbol.TickSize) in
    let sectorZ := default fzero (m.(sectorShocks) !! sym.(Symbol.Sector_)) in
    let moved := (Price loc m * math_Exp (logReturn sym sectorZ idioZ))%F in
    let p := if (snapPrice moved tick <? tick)%F then tick else snapPrice moved tick in
    (∀ fuel', (fuel ≤ fuel')%nat →
      Gaussian math_Log fuel' m.(rng) = Some (idioZ, r') ∧
      Tick math_Exp math_Log syms fuel' loc m =
        Some (p, mkMarket r' (<[loc := p]> m.(prices)) m.(sectorShocks))) ∧ Rng.wf r' ∧
    (is_num moved → is_num p ∧ (tick <=? p)%F = true).
Proof. exact (Tick_run math_Exp math_Log syms loc sym m Hsym Ht Hr). Qed.

Lemma base_prices_lookup syms loc :
  base_prices syms !! loc = Symbol.BasePrice <$> byLoc syms !! loc.
Proof.
  unfold base_prices, byLoc, index_by. induction syms as [|s syms IH] using rev_ind; [done|].
  rewrite !fold_left_app. cbn. destruct (decide (s.(Symbol.LocateCode) = loc)) as [<-|].
  - by rewrite !lookup_insert_eq.
  - by rewrite !lookup_insert_ne.
Qed.

Lemma Tick_spec_witness :
  let m := NewMarketEngine (Rng.NewRNG 0 42) AllSymbols in
  let sym := Symbol.mk 1 "NEXO" "Nexo Dynamics Inc" SectorTech (dec 18500 2) (dec 1 2) (dec 14 1) false in
  ∃ fuel idioZ r',
    let tick := sym.(Symbol.TickSize) in
    let sectorZ := default fzero (m.(sectorShocks) !! sym.(Symbol.Sector_)) in
    let moved := (Price 1 m * one)%F in
    let p := if (snapPrice moved tick <? tick)%F then tick else snapPrice moved tick in
    (∀ fuel', (fuel ≤ fuel')%nat →
      Gaussian (λ _, float_of_Z (-1)) fuel' m.(rng) = Some (idioZ, r') ∧
      Tick (λ _, one) (λ _, float_of_Z (-1)) AllSymbols fuel' 1 m =
        Some (p, mkMarket r' (<[1 := p]> m.(prices)) m.(sectorShocks))) ∧ Rng.wf r' ∧
    (is_num moved → is_num p ∧ (tick <=? p)%F = true).
Proof.
  set (sym := Symbol.mk 1 _ _ _ _ _ _ _).
  apply (Tick_spec (λ _, one) (λ _, float_of_Z (-1)) AllSymbols 1 sym
           (NewMarketEngine (Rng.NewRNG 0 42) AllSymbols)).
  - reflexivity.
  - exact I.
  - apply Rng.NewRNG_wf.
Defined.

(** The sector shocks: [GenerateSectorShocks] terminates, leaves every price as
    it was and the generator well formed, and every sector has a shock after it,
    so that no later [Tick] reads a missing one. *)
Theorem GenerateSectorShocks_spec (math_Log : float64 → float64) (m : MarketEngine)
    (Hr : Rng.wf m.(rng)) :
  ∃ fuel m', (∀ fuel', (fuel ≤ fuel')%nat → GenerateSectorShocks math_Log fuel' m = Some (tt, m')) ∧
    Rng.wf m'.(rng) ∧ AllPrices m' = AllPrices m ∧ (∀ sec, is_Some (m'.(sectorShocks) !! sec)).
Proof.
  destruct (shocks_total math_Log Sectors m Hr) as (fuel & m' & Hrun & Hwf & Hp & Hdom).
  exists fuel, m'. split_and!; [exact Hrun|done|done|]. intros sec. apply elem_of_dom. rewrite Hdom.
  apply elem_of_union_l, elem_of_list_to_set, (bool_decide_unpack _). by destruct sec.
Qed.

Lemma GenerateSectorShocks_spec_witness :
  let m := NewMarketEngine (Rng.NewRNG 0 42) AllSymbols in
  ∃ fuel m', (∀ fuel', (fuel ≤ fuel')%nat →
      GenerateSectorShocks (λ _, float_of_Z (-1)) fuel' m = Some (tt, m')) ∧
    Rng.wf m'.(rng) ∧ AllPrices m' = AllPrices m ∧ (∀ sec, is_Some (m'.(sectorShocks) !! sec)).
Proof. apply GenerateSectorShocks_spec, Rng.NewRNG_wf. Defined.
