(* ===== verification/Stress.v ===== *)
(** * internal/engine/stress.go: the stress controller

    The controller of the stress symbol, over the generator it shares.  An instant
    or a duration is in nanoseconds; [now] is the value of [time.Now()] a method
    reads.  [math.Sin] and [math.Log] are arguments, with the fuel of [Gaussian]. *)
From Stdlib Require Import SpecFloat.
From S2P Require Import Prelude Word Float64 FloatRound Rng Gaussian.

Local Open Scope Z_scope.

Definition PhaseCalm : Z := 0.
Definition PhaseActive : Z := 1.
Definition PhaseBurst : Z := 2.

Definition phase_String (p : Z) : string :=
  if p =? PhaseCalm then "calm"%string else if p =? PhaseActive then "active"%string
  else if p =? PhaseBurst then "burst"%string else "unknown"%string.

Record StressConfig := mkConfig {
  CalmMinMs : Z; CalmMaxMs : Z;
  ActiveMinMs : Z; ActiveMaxMs : Z;
  BurstMinMs : Z; BurstMaxMs : Z;
}.

Definition DefaultStressConfig : StressConfig := mkConfig 10 50 2 10 1 2.

Record StressController := mkStress {
  s_rng : RNG;
  phase : Z;
  phaseStart : Z;
  phaseDuration : Z;
  intensity : float64;
  t : float64;
  tStep : float64;
  randomWalk : float64;
}.

Definition Millisecond : Z := 1000000.
Definition Second : Z := 1000000000.

(** [now.Sub(start)] saturates. *)
Definition time_Sub (a b : Z) : Z := Z.max (- 2 ^ 63) (Z.min (2 ^ 63 - 1) (a - b)).

Definition on_rng {A} (m : go RNG A) : go StressController A :=
  zoom s_rng (λ s r, mkStress r s.(phase) s.(phaseStart) s.(phaseDuration) s.(intensity)
                       s.(t) s.(tStep) s.(randomWalk)) m.
Definition modify (f : StressController → StressController) : go StressController unit :=
  s ← get_state; put_state (f s).

Definition set_phase (p d : Z) (s : StressController) : StressController :=
  mkStress s.(s_rng) p s.(phaseStart) d s.(intensity) s.(t) s.(tStep) s.(randomWalk).
Definition set_start (now : Z) (s : StressController) : StressController :=
  mkStress s.(s_rng) s.(phase) now s.(phaseDuration) s.(intensity) s.(t) s.(tStep) s.(randomWalk).
Definition set_intensity (x : float64) (s : StressController) : StressController :=
  mkStress s.(s_rng) s.(phase) s.(phaseStart) s.(phaseDuration) x s.(t) s.(tStep) s.(randomWalk).
Definition set_waves (x t walk : float64) (s : StressController) : StressController :=
  mkStress s.(s_rng) s.(phase) s.(phaseStart) s.(phaseDuration) x t s.(tStep) walk.

Definition randomDuration (minSec maxSec : Z) : go StressController Z :=
  secs ← on_rng (Rng.IntRange minSec maxSec);
  mret (to_i64 (secs * Second)).

Definition NewStressController (now : Z) (r : RNG) : go StressController unit :=
  _ ← put_state (mkStress r PhaseCalm now 0 fzero fzero (dec 1 2) fzero);
  d ← randomDuration 30 120;
  modify (set_phase PhaseCalm d).

Definition updatePhase : go StressController unit :=
  s ← get_state;
  if (s.(intensity) <? dec 3 1)%F then
    d ← randomDuration 30 120; modify (set_phase PhaseCalm d)
  else if (s.(intensity) <? dec 7 1)%F then
    d ← randomDuration 10 60; modify (set_phase PhaseActive d)
  else
    d ← randomDuration 5 30; modify (set_phase PhaseBurst d).

(** The two clamps of [Tick]. *)
Definition clamp01 (x : float64) : float64 :=
  let x := if (x <? fzero)%F then fzero else x in
  if (x >? one)%F then one else x.

(** One case of the switch: the interval and [base + int(intensity * scale)]. *)
Definition pace (minMs maxMs base scale : Z) (x : float64) : Z * Z :=
  let minMs := float_of_Z minMs in
  let maxMs := float_of_Z maxMs in
  let ms := (maxMs - (maxMs - minMs) * x)%F in
  (to_i64 (int64_of_float ms * Millisecond),
   to_i64 (base + int64_of_float (x * float_of_Z scale)%F)).

Definition pace_of (config : StressConfig) (phase : Z) (x : float64) : Z * Z :=
  if phase =? PhaseCalm then pace config.(CalmMinMs) config.(CalmMaxMs) 1 1 x
  else if phase =? PhaseActive then pace config.(ActiveMinMs) config.(ActiveMaxMs) 3 2 x
  else if phase =? PhaseBurst then pace config.(BurstMinMs) config.(BurstMaxMs) 5 5 x
  else (0, 0).

Section stress.
Context (math_Sin math_Log : float64 → float64) (config : StressConfig) (fuel : nat).

(** The sine component and the random walk after it moved by [g]. *)
Definition waves (g : float64) (s : StressController) : StressController :=
  let t := (s.(t) + s.(tStep))%F in
  let sineComponent := ((math_Sin t + one) / two)%F in
  let walk := ((s.(randomWalk) + g * dec 2 2) * dec 98 2)%F in
  set_waves (clamp01 (sineComponent + walk)%F) t walk s.

Definition Tick (now : Z) : go StressController (Z * Z) :=
  g ← on_rng (Gaussian math_Log fuel);
  _ ← modify (waves g);
  f ← on_rng Rng.Float64;
  _ ← (if (f <? dec 1 3)%F then modify (set_intensity one) else mret tt);
  s ← get_state;
  _ ← (if s.(phaseDuration) <=? time_Sub now s.(phaseStart) then
         _ ← modify (set_start now); updatePhase
       else mret tt);
  s ← get_state;
  let '(interval, numActions) := pace_of config s.(phase) s.(intensity) in
  mret (if interval <? Millisecond then Millisecond else interval, numActions).

End stress.

Definition Phase (s : StressController) : Z := s.(phase).
Definition Intensity (s : StressController) : float64 := s.(intensity).

(** ** The intensity *)

Definition unit_interval (x : float64) : Prop :=
  (fzero <=? x)%F = true ∧ (x <=? one)%F = true.

Lemma clamp01_unit x : is_num x → unit_interval (clamp01 x).
Proof.
  intros Hx. unfold clamp01. destruct (x <? fzero)%F eqn:E0; [done|].
  destruct (one <? x)%F eqn:E1; [done|]. split; by apply fleb_not_lt.
Qed.

Lemma clamp01_fits x : fits x → fits (clamp01 x).
Proof. intros Hx. unfold clamp01. do 2 case_match; done. Qed.

(** [int(x * c)] for [x] in [0, 1]. *)
Lemma scaled_actions (c : positive) (p : positive) (k : Z) x :
  float_of_Z (Z.pos c) = S754_finite false p (- k) → Z.pos p = Z.pos c * 2 ^ k →
  Z.pos c < 2 ^ 50 → 0 ≤ k → unit_interval x → fits x →
  0 ≤ int64_of_float (x * float_of_Z (Z.pos c))%F ≤ Z.pos c.
Proof.
  intros -> Hp Hc Hk [H0 H1] Hf. destruct x as [[]|[]| |[] m e]; try done.
  - unfold fmul, SFmul. cbn [xorb].
    assert (e ≤ -52 ∧ Z.pos m ≤ 2 ^ (- e)) as [He Hm].
    { change one with (S754_finite false (2 ^ 52) (-52)) in H1.
      apply fleb_finite in H1 as [He|[-> Hm]]; (split; [lia|]).
      - transitivity (2 ^ 53); [apply Z.lt_le_incl, Hf|]. apply Z.pow_le_mono_r; lia.
      - exact Hm. }
    destruct (round_aux_le (Z.pos c) (Z.pos (m * p)) (e + - k)) as (z & Hz & Hzc); [lia..| |].
    + rewrite Pos2Z.inj_mul, Hp. replace (- (e + - k)) with (- e + k) by lia. rewrite Z.pow_add_r by lia.
      assert (0 < 2 ^ k) by lia. nia.
    + unfold int64_of_float. rewrite Hz. destruct (_ && _) eqn:Eb; [lia|]. exfalso. lia.
Qed.

(** What a switch case gives for an intensity in [0, 1]. *)
Definition actions_range (phase : Z) : Z * Z :=
  if phase =? PhaseCalm then (1, 2) else if phase =? PhaseActive then (3, 5) else (5, 10).

Definition is_phase (p : Z) : Prop := p = PhaseCalm ∨ p = PhaseActive ∨ p = PhaseBurst.

Lemma pace_actions minMs maxMs base scale lo hi x :
  (∀ n, 0 ≤ n ≤ Z.pos scale → lo ≤ base + n ≤ hi) → is_s 64 lo → is_s 64 hi →
  0 ≤ int64_of_float (x * float_of_Z (Z.pos scale))%F ≤ Z.pos scale →
  lo ≤ (pace minMs maxMs base (Z.pos scale) x).2 ≤ hi.
Proof.
  intros Hn Hlo Hhi Hx. cbn [pace snd]. apply Hn in Hx as Hr. rewrite swrap_id; [done|done|].
  unfold is_s in *. lia.
Qed.

Lemma pace_of_actions config phase x :
  is_phase phase → unit_interval x → fits x →
  (actions_range phase).1 ≤ (pace_of config phase x).2 ≤ (actions_range phase).2.
Proof.
  intros Hp Hx Hf. destruct Hp as [-> | [-> | ->]]; cbn [actions_range pace_of Z.eqb PhaseCalm PhaseActive PhaseBurst Pos.eqb fst snd];
    (apply pace_actions; [lia|done|done|]).
  - by apply (scaled_actions 1 (2 ^ 52) 52).
  - by apply (scaled_actions 2 (2 ^ 52) 51).
  - by apply (scaled_actions 5 (5 * 2 ^ 50) 50).
Qed.

(** ** Phases *)

Definition phase_for (x : float64) : Z :=
  if (x <? dec 3 1)%F then PhaseCalm else if (x <? dec 7 1)%F then PhaseActive else PhaseBurst.
Definition seconds_range (phase : Z) : Z * Z :=
  if phase =? PhaseCalm then (30, 120) else if phase =? PhaseActive then (10, 60) else (5, 30).

Lemma ctrl_rng_run {A} (k : go RNG A) s a r :
  k s.(s_rng) = Some (a, r) →
  on_rng k s = Some (a, mkStress r s.(phase) s.(phaseStart) s.(phaseDuration) s.(intensity)
                       s.(t) s.(tStep) s.(randomWalk)).
Proof. apply (zoom_run s_rng). Qed.

Lemma randomDuration_run lo hi s :
  0 ≤ lo ≤ hi → hi ≤ 1000 → Rng.wf s.(s_rng) →
  ∃ k r, randomDuration lo hi s = Some (k * Second, mkStress r s.(phase) s.(phaseStart) s.(phaseDuration)
      s.(intensity) s.(t) s.(tStep) s.(randomWalk)) ∧ lo ≤ k ≤ hi ∧ Rng.wf r.
Proof.
  intros Hlo Hhi Hr. destruct (Rng.IntRange_spec lo hi s.(s_rng)) as (k & r & E & Hk & Er);
    [unfold is_s; lia..|lia|]. exists k, r. split_and!; [|lia..|].
  - unfold randomDuration. rewrite (go_bind_run _ _ _ _ _ (ctrl_rng_run _ _ _ _ E)).
    unfold mret, go_ret. rewrite swrap_id; [done|done|]. unfold is_s, Second. lia.
  - rewrite Er. case_match; [done|by apply Rng.step_wf].
Qed.

Lemma updatePhase_run s :
  Rng.wf s.(s_rng) →
  ∃ k r, let p := phase_for s.(intensity) in
    updatePhase s = Some (tt, mkStress r p s.(phaseStart) (k * Second) s.(intensity) s.(t) s.(tStep) s.(randomWalk)) ∧
    (seconds_range p).1 ≤ k ≤ (seconds_range p).2 ∧ Rng.wf r.
Proof.
  intros Hr. unfold updatePhase, phase_for. rewrite (go_bind_run get_state _ s s s) by done.
  destruct (_ <? dec 3 1)%F; [|destruct (_ <? dec 7 1)%F].
  1: destruct (randomDuration_run 30 120 s) as (k & r & E & Hk & Hwf); [lia|lia|done|].
  2: destruct (randomDuration_run 10 60 s) as (k & r & E & Hk & Hwf); [lia|lia|done|].
  3: destruct (randomDuration_run 5 30 s) as (k & r & E & Hk & Hwf); [lia|lia|done|].
  all: exists k, r; rewrite (go_bind_run _ _ _ _ _ E); split; [done|split; [exact Hk|done]].
Qed.

Lemma clamp01_num x : is_num (clamp01 x) → is_num x.
Proof. by destruct x as [[]|[]| |[]]. Qed.

Lemma waves_fits math_Sin g s : fits (intensity (waves math_Sin g s)).
Proof. apply clamp01_fits. auto with floats. Qed.

(** The state after the waves and the spike, and after the phase check. *)
Definition spiked (f : float64) (s : StressController) : StressController :=
  if (f <? dec 1 3)%F then set_intensity one s else s.

(** The rest of [Tick], after the generator's number [g]. *)
Lemma Tick_after math_Sin math_Log config fuel now s g r :
  Gaussian math_Log fuel s.(s_rng) = Some (g, r) → Rng.wf r →
  ∃ x s' dt, let p' := s'.(phase) in
    Tick math_Sin math_Log config fuel now s = Some (dt, s') ∧ Rng.wf s'.(s_rng) ∧
    s'.(intensity) = x ∧ (x = clamp01 ((math_Sin (s.(t) + s.(tStep)) + one) / two +
      (s.(randomWalk) + g * dec 2 2) * dec 98 2)%F ∨ x = one) ∧
    dt.1 = Z.max Millisecond (pace_of config p' x).1 ∧ dt.2 = (pace_of config p' x).2 ∧
    (if decide (s.(phaseDuration) ≤ time_Sub now s.(phaseStart)) then
       p' = phase_for x ∧ s'.(phaseStart) = now ∧
       ∃ k, s'.(phaseDuration) = k * Second ∧ (seconds_range p').1 ≤ k ≤ (seconds_range p').2
     else p' = s.(phase) ∧ s'.(phaseStart) = s.(phaseStart) ∧ s'.(phaseDuration) = s.(phaseDuration)).
Proof.
  intros Hg Hr. set (s1 := waves math_Sin g (mkStress r (phase s) (phaseStart s) (phaseDuration s) (intensity s) (t s) (tStep s) (randomWalk s))).
  set (f := (float_of_Z (Rng.output r.(state)) / float_of_Z (2 ^ 32))%F).
  set (s2 := spiked f (mkStress (Rng.step r) (phase s) (phaseStart s) (phaseDuration s)
    (intensity s1) (t s1) (tStep s) (randomWalk s1))).
  assert (Rng.wf s2.(s_rng)) as Hr2 by (unfold s2, spiked; case_match; by apply Rng.step_wf).
  assert (phase s2 = phase s ∧ phaseStart s2 = phaseStart s ∧ phaseDuration s2 = phaseDuration s) as (Ep & Es & Ed).
  { unfold s2, spiked. by case_match. }
  assert (intensity s2 = intensity s1 ∨ intensity s2 = one) as Hx.
  { unfold s2, spiked. case_match; [by right|by left]. }
  assert (∃ s', (if s2.(phaseDuration) <=? time_Sub now s2.(phaseStart)
                 then _ ← modify (set_start now); updatePhase else mret tt) s2 = Some (tt, s') ∧
    Rng.wf s'.(s_rng) ∧ s'.(intensity) = s2.(intensity) ∧
    (if decide (s.(phaseDuration) ≤ time_Sub now s.(phaseStart)) then
       s'.(phase) = phase_for s2.(intensity) ∧ s'.(phaseStart) = now ∧
       ∃ k, s'.(phaseDuration) = k * Second ∧ (seconds_range s'.(phase)).1 ≤ k ≤ (seconds_range s'.(phase)).2
     else s'.(phase) = s.(phase) ∧ s'.(phaseStart) = s.(phaseStart) ∧ s'.(phaseDuration) = s.(phaseDuration)))
    as (s' & Hrun & Hwf & Hint & Hphase).
  { rewrite Es, Ed. destruct (Z.leb_spec (phaseDuration s) (time_Sub now (phaseStart s))).
    - destruct (updatePhase_run (set_start now s2) Hr2) as (k & r3 & E & Hk & Hwf3).
      eexists. split; [exact E|]. rewrite decide_True by done. split_and!; [done..|]. by exists k.
    - exists s2. rewrite decide_False by lia. done. }
  exists (intensity s2), s'. eexists. split_and!; [|exact Hwf|exact Hint|exact Hx| | |exact Hphase].
  - unfold Tick. rewrite (go_bind_run _ _ _ _ _ (ctrl_rng_run _ _ _ _ Hg)).
    rewrite (go_bind_run (modify _) _ _ tt s1) by done.
    rewrite (go_bind_run _ _ _ f (mkStress (Rng.step r) (phase s) (phaseStart s) (phaseDuration s)
      (intensity s1) (t s1) (tStep s) (randomWalk s1))) by done.
    rewrite (go_bind_run _ _ _ tt s2) by (unfold s2, spiked; destruct (f <? dec 1 3)%F eqn:Ef; [|]; reflexivity).
    rewrite (go_bind_run get_state _ s2 s2 s2) by done.
    rewrite (go_bind_run _ _ _ _ _ Hrun), (go_bind_run get_state _ s' s' s') by done.
    rewrite Hint. rewrite (surjective_pairing (pace_of config (phase s') (intensity s2))). reflexivity.
  - cbn [fst]. destruct (Z.ltb_spec (pace_of config (phase s') (intensity s2)).1 Millisecond); lia.
  - done.
Qed.

Lemma Tick_same_gaussian math_Sin math_Log config fuel fuel' now s g r :
  Gaussian math_Log fuel s.(s_rng) = Some (g, r) → Gaussian math_Log fuel' s.(s_rng) = Some (g, r) →
  Tick math_Sin math_Log config fuel now s = Tick math_Sin math_Log config fuel' now s.
Proof.
  intros E E'. unfold Tick.
  by rewrite (go_bind_run _ _ _ _ _ (ctrl_rng_run _ _ _ _ E)), (go_bind_run _ _ _ _ _ (ctrl_rng_run _ _ _ _ E')).
Qed.

(** The stress controller: from any controller in one of the three phases,
    [Tick] terminates; the interval is never under a millisecond; unless the sum
    of the waves is not a number the intensity is in [0, 1] and the number of
    actions is the phase's (1 or 2 calm, 3 to 5 active, 5 to 10 burst); the phase
    changes only when its duration has passed, to the one the thresholds 0.3 and
    0.7 give for the intensity, with a new duration of its range in seconds. *)
Theorem stress_Tick_spec (math_Sin math_Log : float64 → float64) (config : StressConfig) (now : Z)
    (s : StressController) (Hr : Rng.wf s.(s_rng)) (Hp : is_phase s.(phase)) :
  ∃ fuel interval n s',
    (∀ fuel', (fuel ≤ fuel')%nat →
      Tick math_Sin math_Log config fuel' now s = Some ((interval, n), s')) ∧
    Rng.wf s'.(s_rng) ∧ is_phase s'.(phase) ∧ Millisecond ≤ interval ∧
    (is_num (Intensity s') → unit_interval (Intensity s') ∧
      (actions_range (Phase s')).1 ≤ n ≤ (actions_range (Phase s')).2) ∧
    (if decide (s.(phaseDuration) ≤ time_Sub now s.(phaseStart)) then
       Phase s' = phase_for (Intensity s') ∧ s'.(phaseStart) = now ∧
       ∃ k, s'.(phaseDuration) = k * Second ∧
         (seconds_range (Phase s')).1 ≤ k ≤ (seconds_range (Phase s')).2
     else Phase s' = Phase s ∧ s'.(phaseStart) = s.(phaseStart) ∧ s'.(phaseDuration) = s.(phaseDuration)).
Proof.
  destruct (Gaussian_total math_Log s.(s_rng) Hr) as (fuel & g & r & Hg & _ & Hwf).
  destruct (Tick_after math_Sin math_Log config fuel now s g r (Hg fuel ltac:(done)) Hwf)
    as (x & s' & [interval n] & Hrun & Hwf' & Hx & Hval & Hi & Hn & Hphase). cbn [fst snd] in *.
  assert (is_phase s'.(phase)) as Hp'.
  { case_decide; destruct Hphase as [-> _]; [|done]. unfold phase_for, is_phase. do 2 (case_match; auto). }
  exists fuel, interval, n, s'. split_and!; [|done|done|lia| |].
  - intros fuel' Hle. rewrite <- Hrun. by apply (Tick_same_gaussian _ _ _ _ _ _ _ _ _ (Hg _ Hle)), Hg.
  - unfold Intensity. rewrite Hx. intros Hnum.
    assert (unit_interval x ∧ fits x) as [Hu Hf].
    { destruct Hval as [->| ->]; [|by split]. split; [apply clamp01_unit, clamp01_num, Hnum|].
      apply clamp01_fits. auto with floats. }
    split; [done|]. rewrite Hn. by apply pace_of_actions.
  - unfold Phase, Intensity. by rewrite Hx.
Qed.

(** A controller as [NewStressController] leaves it. *)
Lemma NewStressController_run now r :
  Rng.wf r → ∃ s, snd <$> NewStressController now r (mkStress r 0 0 0 fzero fzero fzero fzero) = Some s ∧
    Rng.wf s.(s_rng) ∧ s.(phase) = PhaseCalm ∧ s.(intensity) = fzero.
Proof.
  intros Hr. set (s0 := mkStress r PhaseCalm now 0 fzero fzero (dec 1 2) fzero).
  destruct (randomDuration_run 30 120 s0) as (k & r' & E & Hk & Hwf); [lia|lia|done|].
  eexists. split; [|split_and!].
  - unfold NewStressController. rewrite (go_bind_run (put_state s0) _ _ tt s0) by done.
    rewrite (go_bind_run _ _ _ _ _ E). reflexivity.
  - done.
  - done.
  - done.
Qed.

Lemma stress_Tick_spec_witness :
  let s := mkStress (Rng.NewRNG 0 42) PhaseCalm 0 (30 * Second) fzero fzero (dec 1 2) fzero in
  let now := 31 * Second in
  ∃ fuel interval n s',
    (∀ fuel', (fuel ≤ fuel')%nat →
      Tick (λ x, x) (λ _, float_of_Z (-1)) DefaultStressConfig fuel' now s = Some ((interval, n), s')) ∧
    Rng.wf s'.(s_rng) ∧ is_phase s'.(phase) ∧ Millisecond ≤ interval ∧
    (is_num (Intensity s') → unit_interval (Intensity s') ∧
      (actions_range (Phase s')).1 ≤ n ≤ (actions_range (Phase s')).2) ∧
    (if decide (s.(phaseDuration) ≤ time_Sub now s.(phaseStart)) then
       Phase s' = phase_for (Intensity s') ∧ s'.(phaseStart) = now ∧
       ∃ k, s'.(phaseDuration) = k * Second ∧
         (seconds_range (Phase s')).1 ≤ k ≤ (seconds_range (Phase s')).2
     else Phase s' = Phase s ∧ s'.(phaseStart) = s.(phaseStart) ∧ s'.(phaseDuration) = s.(phaseDuration)).
Proof.
  apply (stress_Tick_spec (λ x, x) (λ _, float_of_Z (-1)) DefaultStressConfig (31 * Second)
    (mkStress (Rng.NewRNG 0 42) PhaseCalm 0 (30 * Second) fzero fzero (dec 1 2) fzero)).
  - apply Rng.NewRNG_wf.
  - left. reflexivity.
Defined.
