(* ===== verification/Snapshot.v ===== *)
(** * internal/persist/snapshot.go: saving and restoring the simulator

    [world] is the state the snapshotter sees: the heap of orders with the two
    package counters, a book for each locate code, and the price engine with the
    generator.  [database] is the tables it writes; the columns of [symbols] that
    are never read back are left out.  [Save] reads the parts of the world one
    after the other while the runners go on, so it takes what each read returned
    ([reads]); [reads_of] are the reads of a world at rest.  The order in which a
    SELECT without ORDER BY returns the orders is an argument of [Load]. *)
From Stdlib Require Import SpecFloat.
From S2P Require Import Prelude Word Float64 Rng Symbols Market Book.

Local Open Scope Z_scope.

Record world := mkWorld {
  w_heap : heap;
  w_orderID : Z;
  w_match : Z;
  w_books : gmap Z Book.t;
  w_market : MarketEngine;
}.

(** The state of one book's methods, and the world after one. *)
Definition view_book (w : world) (b : Book.t) : bstate := mkB w.(w_heap) w.(w_orderID) w.(w_match) b.
Definition put_book (loc : Z) (w : world) (s : bstate) : world :=
  mkWorld s.(orders) s.(orderIDCounter) s.(matchCounter) (<[loc := s.(book)]> w.(w_books)) w.(w_market).
Definition set_market (m : MarketEngine) (w : world) : world :=
  mkWorld w.(w_heap) w.(w_orderID) w.(w_match) w.(w_books) m.
Definition set_counters (ids matches : Z) (w : world) : world :=
  mkWorld w.(w_heap) ids matches w.(w_books) w.(w_market).

(** ** The tables *)

Module OrderRow.
Record t := mk {
  id : Z;               (* BIGINT PRIMARY KEY *)
  symbol_locate : Z;    (* SMALLINT *)
  side : list Z;        (* CHAR(1), as its bytes *)
  price : float64;
  shares : Z;           (* INTEGER *)
  priority : Z;         (* INTEGER *)
  mpid : string;
}.
End OrderRow.

Record database := mkDatabase {
  symbols : gmap Z float64;             (* locate_code to current_price *)
  orders_table : list OrderRow.t;
  rng_state : option (list Z);
  order_id_counter : option Z;          (* BIGINT *)
  match_counter : option Z;
}.

(** [string(b)] of a byte is the UTF-8 text of that code point. *)
Definition rune_text (b : Z) : list Z :=
  if b <? 128 then [b] else [Z.lor 192 (Z.shiftr b 6); Z.lor 128 (Z.land b 63)].

Definition row_of (o : Order.t) : OrderRow.t :=
  OrderRow.mk (to_i64 o.(Order.ID)) (to_i16 o.(Order.Locate)) (rune_text o.(Order.Side))
    o.(Order.Price) o.(Order.Shares) o.(Order.Priority) o.(Order.MPID).

(** The order [Load] builds; [side[0]] of an empty string panics. *)
Definition order_of (r : OrderRow.t) : option Order.t :=
  match r.(OrderRow.side) with
  | [] => None
  | s :: _ => Some (Order.mk (to_u64 r.(OrderRow.id)) (to_u16 r.(OrderRow.symbol_locate)) s
                      r.(OrderRow.price) r.(OrderRow.shares) r.(OrderRow.priority) r.(OrderRow.mpid))
  end.

(** ** Save *)

Record reads := mkReads {
  r_prices : gmap Z float64;
  r_orders : list Order.t;
  r_rng : list Z;
  r_orderID : Z;
  r_match : Z;
}.

(** [AllOrders] of every book, the books in the order the map is iterated. *)
Definition all_orders (book_order : list Z) (w : world) : list Order.t :=
  book_order ≫= λ loc,
    match w.(w_books) !! loc with
    | Some b => deref w.(w_heap) <$> (map_to_list b.(Book.orderMap)).*2
    | None => []
    end.

Definition reads_of (book_order : list Z) (w : world) : reads :=
  mkReads (AllPrices w.(w_market)) (all_orders book_order w) (Rng.StateBytes w.(w_market).(rng))
    w.(w_orderID) w.(w_match).

Definition upsert_prices (syms : list Symbol.t) (prices : gmap Z float64) (m : gmap Z float64) : gmap Z float64 :=
  fold_left (λ m s, <[to_i16 s.(Symbol.LocateCode) := default fzero (prices !! s.(Symbol.LocateCode))]> m) syms m.

(** The transaction, and whether it succeeded: it fails when two orders share
    an ID, and when a statement or the commit does ([ok] is false); nothing is
    changed then. *)
Definition Save (syms : list Symbol.t) (ok : bool) (r : reads) (d : database) : database * bool :=
  let rows := row_of <$> r.(r_orders) in
  if ok && bool_decide (NoDup (OrderRow.id <$> rows)) then
    (mkDatabase (upsert_prices syms r.(r_prices) d.(symbols)) rows (Some r.(r_rng))
       (Some (to_i64 r.(r_orderID))) (Some (to_i64 r.(r_match))), true)
  else (d, false).

(** ** Load *)

Definition load_prices (d : database) (m : MarketEngine) : MarketEngine :=
  fold_left (λ m '(locate, price), SetPrice (to_u16 locate) price m) (map_to_list d.(symbols)) m.

(** One row of the orders loop; an order without a book is skipped. *)
Definition restore_row (r : OrderRow.t) : go world unit := λ w,
  let locate := to_u16 r.(OrderRow.symbol_locate) in
  match w.(w_books) !! locate with
  | None => Some (tt, w)
  | Some b =>
      match order_of r with
      | None => None
      | Some o =>
          match (p ← new_order o; RestoreOrder p) (view_book w b) with
          | Some (_, s) => Some (tt, put_book locate w s)
          | None => None
          end
      end
  end.

Definition load_state (d : database) (w : world) : world :=
  let m := w.(w_market) in
  let w := match d.(rng_state) with
           | Some b => set_market (mkMarket (Rng.RestoreStateBytes b m.(rng)) m.(prices) m.(sectorShocks)) w
           | None => w
           end in
  set_counters (match d.(order_id_counter) with Some v => to_u64 v | None => w.(w_orderID) end)
    (match d.(match_counter) with Some v => to_u64 v | None => w.(w_match) end) w.

(** A failing query: of the symbols, or of the orders after some rows. *)
Inductive load_fault := LoadOk | SymbolsFail | OrdersFail (n : nat).

(** Whether state was found and loaded, [None] for an error. *)
Definition Load (flt : load_fault) (rows : list OrderRow.t) (d : database) : go world (option bool) := λ w,
  match flt with
  | SymbolsFail => Some (None, w)
  | _ =>
      if (size d.(symbols) =? 0)%nat then Some (Some false, w)
      else
        let w := set_market (load_prices d w.(w_market)) w in
        match flt with
        | OrdersFail n =>
            match go_fold (λ _, restore_row) tt (take n rows) w with
            | Some (_, w) => Some (None, w)
            | None => None
            end
        | _ =>
            match go_fold (λ _, restore_row) tt rows w with
            | Some (_, w) => Some (Some true, load_state d w)
            | None => None
            end
        end
  end.
