(* ===== verification/SnapshotProps.v ===== *)
(** * Restart: what a snapshot brings back

    Restoring into a fresh simulator gives every book the same orders at the same
    prices, whatever the order of the rows: no insertion evicts, since the saved
    book had at most ten levels a side. *)
From Stdlib Require Import SpecFloat.
From S2P Require Import Prelude Word Float64 Rng Symbols Market GoSort Book BookSide BookSpec BookProps Snapshot.

Local Open Scope Z_scope.

(** ** Insertions that do not evict *)

Definition level_keys (ls : list PriceLevel.t) : list (Z * Z * Z) := fkey ∘ PriceLevel.Price <$> ls.
Definition within (K : list (Z * Z * Z)) (ls : list PriceLevel.t) : Prop := ∀ k, k ∈ level_keys ls → k ∈ K.

Lemma level_keys_nodup d h ls : levels_ok d h ls → NoDup (level_keys ls).
Proof.
  intros [Hs _]. unfold prices_sorted, level_keys in *. rewrite list_fmap_compose.
  induction Hs as [|p ps Hs IH Hp]; [constructor|]. cbn. constructor; [|done].
  intros (q & Hq & Hin)%list_elem_of_fmap. rewrite Forall_forall in Hp. specialize (Hp q Hin).
  destruct (better_num _ _ _ Hp). pose proof (better_neq _ _ _ Hp) as Hne.
  rewrite (proj2 (feqb_key p q ltac:(done) ltac:(done)) Hq) in Hne. done.
Qed.

Lemma addToSide_within d h ls p K :
  side_ok d h ls → is_num (deref h p).(Order.Price) → within K ls → (length K ≤ MaxLevels)%nat →
  fkey (deref h p).(Order.Price) ∈ K →
  let '(ls', ev) := addToSide ls p (deref h p).(Order.Price) d in ev = [] ∧ within K ls'.
Proof.
  intros [Hok Hlen] Hnum HK Hroom Hin. unfold addToSide.
  destruct (append_to_level _ _ _) as [ls1|] eqn:E.
  - split; [done|]. unfold within, level_keys in *. rewrite list_fmap_compose in *.
    by rewrite (proj1 (proj2 (proj2 (append_to_level_spec _ _ _ _ _ Hok E)))).
  - apply append_to_level_None in E. set (n := PriceLevel.mk _ _).
    assert (level_ok h n) as Hn by (split_and!; [done|done|repeat constructor; by apply feqb_refl]).
    rewrite (sort_new_level d h n ls) by done.
    pose proof (level_insert_ok d h n ls Hn Hok E) as Hok1. pose proof (level_insert_perm d n ls) as Hp.
    assert (within K (level_insert d n ls)) as HK1.
    { unfold within, level_keys in *. intros k Hk. rewrite Hp in Hk. apply elem_of_cons in Hk as [->|Hk]; [done|auto]. }
    assert (length (level_insert d n ls) ≤ MaxLevels)%nat as Hle.
    { apply level_keys_nodup in Hok1. unfold level_keys in Hok1. rewrite <- (length_fmap (fkey ∘ PriceLevel.Price)).
      transitivity (length K); [|done]. apply submseteq_length, NoDup_submseteq; [done|exact HK1]. }
    destruct (Nat.ltb_spec MaxLevels (length (level_insert d n ls))); [lia|done].
Qed.

(** One side of an abstract book, and its keys in the levels. *)
Definition side_of (d : bool) (A : abook) : list Order.t := if d then a_bids A else a_asks A.
Definition levels_of (d : bool) (b : Book.t) : list PriceLevel.t := if d then b.(Book.Bids) else b.(Book.Asks).
Definition is_buy (o : Order.t) : bool := o.(Order.Side) =? SideBuy.

Lemma side_of_abs d h b : side_of d (abs_book h b) = deref h <$> side_ptrs (levels_of d b).
Proof. by destruct d. Qed.

Lemma rep_side d h b : rep h b → side_ok d h (levels_of d b).
Proof. intros Hr. destruct d; apply Hr. Qed.

Lemma insert_room h b p o (K : bool → list (Z * Z * Z)) :
  rep h b → h !! p = Some o → p ∉ book_ptrs b → b.(Book.orderMap) !! o.(Order.ID) = None →
  is_num o.(Order.Price) →
  (∀ d, within (K d) (levels_of d b) ∧ (length (K d) ≤ MaxLevels)%nat) →
  fkey o.(Order.Price) ∈ K (is_buy o) →
  let '(b', ev) := insert_order h b p in
  ev = [] ∧ rep h b' ∧ (∀ d, within (K d) (levels_of d b')) ∧
  (∀ d, side_of d (abs_book h b') ≡ₚ
    (if bool_decide (d = is_buy o) then [o] else []) ++ side_of d (abs_book h b)) ∧
  b'.(Book.Locate) = b.(Book.Locate) ∧ b'.(Book.TickSize) = b.(Book.TickSize).
Proof.
  intros Hr Ho Hp Hm Hnum HK Hin. pose proof (insert_order_refines h b p o Hr Ho Hp Hm Hnum) as Href.
  assert (deref h p = o) as Hd by (unfold deref; by rewrite Ho). revert Href. unfold insert_order. rewrite Hd.
  pose proof (addToSide_within true h b.(Book.Bids) p (K true) (rep_bids _ _ Hr)) as HB.
  pose proof (addToSide_within false h b.(Book.Asks) p (K false) (rep_asks _ _ Hr)) as HA.
  pose proof (addToSide_refines true h b.(Book.Bids) p (rep_bids _ _ Hr)) as RB.
  pose proof (addToSide_refines false h b.(Book.Asks) p (rep_asks _ _ Hr)) as RA.
  rewrite Hd in HB, HA, RB, RA. cbn [Book.with_orderMap Book.Bids Book.Asks Book.orderMap].
  destruct (HK true) as [Kb Lb], (HK false) as [Ka La]. unfold is_buy in *.
  destruct (Order.Side o =? SideBuy).
  - specialize (HB Hnum Kb Lb Hin). specialize (RB Hnum).
    destruct (addToSide (Book.Bids b) p (Order.Price o) true) as [bids ev].
    destruct HB as [-> Hw], RB as (_ & _ & Hptrs). intros (Hr' & _ & _ & Hl & Ht).
    split_and!; [done|exact Hr'|by intros []| |exact Hl|exact Ht].
    intros []; rewrite !side_of_abs; cbn [levels_of bool_decide decide_rel app].
    + rewrite app_nil_r in Hptrs. cbn. rewrite Hptrs. cbn. by rewrite Hd.
    + done.
  - specialize (HA Hnum Ka La Hin). specialize (RA Hnum).
    destruct (addToSide (Book.Asks b) p (Order.Price o) false) as [asks ev].
    destruct HA as [-> Hw], RA as (_ & _ & Hptrs). intros (Hr' & _ & _ & Hl & Ht).
    split_and!; [done|exact Hr'|by intros []| |exact Hl|exact Ht].
    intros []; rewrite !side_of_abs; cbn [levels_of bool_decide decide_rel app].
    + done.
    + rewrite app_nil_r in Hptrs. cbn. rewrite Hptrs. cbn. by rewrite Hd.
Qed.

(** ** A new order in the heap is in no other book *)

Lemma rep_fresh h b p o :
  rep h b → h !! p = None →
  rep (<[p := o]> h) b ∧ p ∉ book_ptrs b ∧ (∀ d, side_of d (abs_book (<[p := o]> h) b) = side_of d (abs_book h b)).
Proof.
  intros Hr Hn. assert (∀ q, q ∈ book_ptrs b → is_Some (h !! q)) as Ha by (apply Forall_forall, Hr).
  assert (∀ q, q ∈ book_ptrs b → p ≠ q) as Hne by (intros q Hq ->; destruct (Ha q Hq); congruence).
  assert (∀ q, q ∈ book_ptrs b → deref (<[p := o]> h) q = deref h q) as Hd.
  { intros q Hq. rewrite deref_insert, decide_False by by apply Hne. done. }
  split_and!.
  - apply (rep_heap h); [done|]. intros q Hq. rewrite Hd by done. split_and!; [|done..].
    rewrite lookup_insert_ne by by apply Hne. by apply Ha.
  - intros Hp. by destruct (Hne p Hp).
  - intros d. rewrite !side_of_abs. apply list_fmap_ext. intros i q Hq%list_elem_of_lookup_2.
    apply Hd. unfold book_ptrs. apply elem_of_app. destruct d; auto.
Qed.

(** ** Rows *)

Definition fields_ok (o : Order.t) : Prop :=
  is_u 64 o.(Order.ID) ∧ is_u 16 o.(Order.Locate) ∧
  (o.(Order.Side) = SideBuy ∨ o.(Order.Side) = SideSell).

Lemma order_of_row o : fields_ok o → order_of (row_of o) = Some o.
Proof.
  intros (Hid & Hloc & Hside). destruct o as [id loc sd price shares prio mpid]. cbn in *.
  unfold order_of, row_of. cbn -[rune_text]. rewrite !swrap_uwrap by done. by destruct Hside as [-> | ->].
Qed.

(** ** The books after some rows *)

Definition at_loc (loc : Z) (os : list Order.t) : list Order.t := List.filter (λ o, o.(Order.Locate) =? loc) os.
Definition on_side (d : bool) (os : list Order.t) : list Order.t := List.filter (λ o, Bool.eqb d (is_buy o)) os.

Section restore.
Context (K : Z → bool → list (Z * Z * Z)) (w0 : world).
Hypothesis HK : ∀ loc d, (length (K loc d) ≤ MaxLevels)%nat.

Record restored (os : list Order.t) (w : world) : Prop := mk_restored {
  rs_book : ∀ loc b, w.(w_books) !! loc = Some b →
    rep w.(w_heap) b ∧ (∀ d, within (K loc d) (levels_of d b)) ∧
    (∀ d, side_of d (abs_book w.(w_heap) b) ≡ₚ on_side d (at_loc loc os));
  rs_static : ∀ loc, (λ b, (b.(Book.Locate), b.(Book.TickSize))) <$> w.(w_books) !! loc =
                     (λ b, (b.(Book.Locate), b.(Book.TickSize))) <$> w0.(w_books) !! loc;
  rs_orderID : w.(w_orderID) = w0.(w_orderID);
  rs_match : w.(w_match) = w0.(w_match);
  rs_market : w.(w_market) = w0.(w_market);
}.

Lemma at_loc_cons loc o os :
  at_loc loc (o :: os) = (if o.(Order.Locate) =? loc then [o] else []) ++ at_loc loc os.
Proof. unfold at_loc. cbn. by destruct (_ =? _). Qed.

Lemma on_side_app d os1 os2 : on_side d (os1 ++ os2) = on_side d os1 ++ on_side d os2.
Proof. apply List.filter_app. Qed.

Lemma on_side_one d o : on_side d [o] = if bool_decide (d = is_buy o) then [o] else [].
Proof. unfold on_side. cbn. destruct d, (is_buy o); done. Qed.

Lemma elem_of_at_loc o d loc os : o ∈ on_side d (at_loc loc os) → o ∈ os.
Proof.
  unfold on_side, at_loc. rewrite !list_elem_of_In, !filter_In. tauto.
Qed.

Lemma not_in_map w os loc b o :
  restored os w → w.(w_books) !! loc = Some b → o.(Order.ID) ∉ (Order.ID <$> os) →
  b.(Book.orderMap) !! o.(Order.ID) = None.
Proof.
  intros Hw Hb Hid. destruct (rs_book _ _ Hw loc b Hb) as (Hr & _ & Hs).
  destruct (Book.orderMap b !! Order.ID o) as [q|] eqn:E; [|done]. destruct Hid.
  apply (rep_map _ _ Hr) in E as [Hq <-]. apply list_elem_of_fmap. exists (deref (w_heap w) q). split; [done|].
  unfold book_ptrs in Hq. apply elem_of_app in Hq as [Hq|Hq];
    [apply (elem_of_at_loc _ true loc); rewrite <- (Hs true)|apply (elem_of_at_loc _ false loc); rewrite <- (Hs false)];
    rewrite side_of_abs; by apply list_elem_of_fmap_2.
Qed.

Lemma restore_row_step os o w :
  restored os w → fields_ok o → o.(Order.ID) ∉ (Order.ID <$> os) → is_num o.(Order.Price) →
  fkey o.(Order.Price) ∈ K o.(Order.Locate) (is_buy o) →
  ∃ w', restore_row (row_of o) w = Some (tt, w') ∧ restored (o :: os) w'.
Proof.
  intros Hw Hf Hid Hnum Hin. unfold restore_row.
  assert (to_u16 (OrderRow.symbol_locate (row_of o)) = o.(Order.Locate)) as ->.
  { apply swrap_uwrap; [done|]. apply Hf. }
  destruct (w_books w !! Order.Locate o) as [b|] eqn:Hb.
  2: { exists w. split; [done|]. destruct Hw as [Hbooks ? ? ? ?]. split; [|done..].
       intros loc b Hloc. rewrite at_loc_cons. destruct (Z.eqb_spec (Order.Locate o) loc); [congruence|].
       by apply Hbooks. }
  rewrite order_of_row by done. unfold mbind, go_bind, new_order, RestoreOrder.
  cbn [view_book orders with_orders orderIDCounter matchCounter book]. set (p := fresh (dom (w_heap w))).
  assert (w.(w_heap) !! p = None) as Hp by (apply not_elem_of_dom, is_fresh).
  destruct (rs_book _ _ Hw _ b Hb) as (Hr & Hwithin & Hside).
  destruct (rep_fresh _ b p o Hr Hp) as (Hr1 & Hnp & Hsame).
  pose proof (insert_room (<[p := o]> (w_heap w)) b p o (K (Order.Locate o)) Hr1
    (lookup_insert_eq _ _ _) Hnp (not_in_map _ _ _ _ _ Hw Hb Hid) Hnum (λ d, conj (Hwithin d) (HK _ d)) Hin) as H.
  destruct (insert_order _ _ _) as [b' ev]. destruct H as (_ & Hr' & Hwithin' & Hside' & Hloc' & Htick').
  eexists. split; [reflexivity|]. destruct Hw as [Hbooks Hstatic Hc Hm Hmk].
  split; cbn [put_book w_books w_heap w_orderID w_match w_market with_book orders book orderIDCounter matchCounter];
    [| |done..].
  - intros loc b2 Hb2. rewrite at_loc_cons. destruct (decide (loc = Order.Locate o)) as [->|Hne].
    + rewrite lookup_insert_eq in Hb2. injection Hb2 as <-. rewrite Z.eqb_refl. split_and!; [done|done|].
      intros d. rewrite (Hside' d), on_side_app, on_side_one, Hsame. by rewrite (Hside d).
    + rewrite lookup_insert_ne in Hb2 by done. destruct (Hbooks loc b2 Hb2) as (Hr2 & Hw2 & Hs2).
      destruct (rep_fresh _ b2 p o Hr2 Hp) as (Hr3 & _ & Hs3).
      destruct (Z.eqb_spec (Order.Locate o) loc); [congruence|]. split_and!; [done|done|].
      intros d. rewrite Hs3. apply Hs2.
  - intros loc. rewrite <- Hstatic. destruct (decide (loc = Order.Locate o)) as [->|Hne].
    + rewrite lookup_insert_eq, Hb. cbn. by rewrite Hloc', Htick'.
    + by rewrite lookup_insert_ne.
Qed.

Lemma restore_rows os done w :
  restored done w → NoDup (Order.ID <$> os ++ done) →
  Forall (λ o, fields_ok o ∧ is_num o.(Order.Price) ∧ fkey o.(Order.Price) ∈ K o.(Order.Locate) (is_buy o)) os →
  ∃ w', go_fold (λ _, restore_row) tt (row_of <$> os) w = Some (tt, w') ∧ restored (reverse os ++ done) w'.
Proof.
  revert done w. induction os as [|o os IH]; intros done w Hw Hnd Hos; [by exists w|].
  apply Forall_cons in Hos as [(Hf & Hnum & Hk) Hos]. cbn [fmap list_fmap app] in Hnd.
  apply NoDup_cons in Hnd as [Hid Hnd]. rewrite fmap_app, elem_of_app in Hid.
  destruct (restore_row_step done o w Hw Hf) as (w1 & E & Hw1); [tauto|done|done|].
  destruct (IH (o :: done) w1 Hw1) as (w2 & E2 & Hw2); [|done|].
  { rewrite fmap_app in *. cbn. rewrite <- Permutation_middle. apply NoDup_cons. split; [|done].
    by rewrite elem_of_app. }
  exists w2. split; [|by rewrite reverse_cons, <- app_assoc].
  cbn [fmap list_fmap go_fold]. by rewrite (go_bind_run _ _ _ _ _ E).
Qed.

End restore.

(** ** The saved world *)

Definition book_orders (w : world) (loc : Z) : list Order.t :=
  match w.(w_books) !! loc with Some b => a_orders (abs_book w.(w_heap) b) | None => [] end.

Record world_ok (w : world) : Prop := mk_world_ok {
  wk_rep : ∀ loc b, w.(w_books) !! loc = Some b → rep w.(w_heap) b;
  wk_fields : ∀ loc o, o ∈ book_orders w loc → fields_ok o ∧ o.(Order.Locate) = loc;
  wk_ids : ∀ loc1 loc2 o1 o2, o1 ∈ book_orders w loc1 → o2 ∈ book_orders w loc2 →
    o1.(Order.ID) = o2.(Order.ID) → loc1 = loc2;
  wk_orderID : is_u 64 w.(w_orderID);
  wk_match : is_u 64 w.(w_match);
  wk_rng : Rng.wf w.(w_market).(rng);
}.

(** The same books, empty. *)
Definition fresh_for (w w0 : world) : Prop :=
  ∀ loc, w0.(w_books) !! loc = (λ b, NewBook b.(Book.Locate) b.(Book.TickSize)) <$> w.(w_books) !! loc.

Definition iterates (order : list Z) (w : world) : Prop :=
  NoDup order ∧ ∀ loc, loc ∈ order ↔ is_Some (w.(w_books) !! loc).

Definition target_keys (w : world) (loc : Z) (d : bool) : list (Z * Z * Z) :=
  match w.(w_books) !! loc with Some b => level_keys (levels_of d b) | None => [] end.

Section saved.
Context (w : world) (Hw : world_ok w).

Lemma target_room loc d : (length (target_keys w loc d) ≤ MaxLevels)%nat.
Proof.
  unfold target_keys. destruct (w_books w !! loc) as [b|] eqn:E; [|cbn; lia].
  unfold level_keys. rewrite length_fmap. apply (rep_side d _ _ (wk_rep _ Hw _ _ E)).
Qed.

Lemma saved_book loc b :
  w.(w_books) !! loc = Some b →
  (deref w.(w_heap) <$> (map_to_list b.(Book.orderMap)).*2) ≡ₚ book_orders w loc.
Proof.
  intros Hb. pose proof (wk_rep _ Hw _ _ Hb) as Hr. unfold book_orders. rewrite Hb, a_orders_abs.
  apply fmap_Permutation. rewrite (rep_map_list _ _ Hr), <- list_fmap_compose. by rewrite list_fmap_id.
Qed.

Lemma all_orders_books order : all_orders order w ≡ₚ order ≫= book_orders w.
Proof.
  unfold all_orders. induction order as [|loc order IH]; [done|]. cbn.
  rewrite IH. apply Permutation_app_tail. destruct (w_books w !! loc) as [b|] eqn:E.
  - by apply saved_book.
  - unfold book_orders. by rewrite E.
Qed.

Lemma at_loc_book loc loc' : at_loc loc (book_orders w loc') = if decide (loc = loc') then book_orders w loc' else [].
Proof.
  unfold at_loc. assert (∀ o, o ∈ book_orders w loc' → o.(Order.Locate) = loc') as H by apply Hw.
  induction (book_orders w loc') as [|o os IH]; [by case_decide|]. cbn.
  rewrite (H o) by by left. rewrite IH by (intros; apply H; by right).
  case_decide; subst; [by rewrite Z.eqb_refl|]. by rewrite (proj2 (Z.eqb_neq _ _)).
Qed.

Lemma at_loc_all loc order :
  NoDup order → at_loc loc (order ≫= book_orders w) = if decide (loc ∈ order) then book_orders w loc else [].
Proof.
  induction 1 as [|loc' order Hn Hnd IH]; [done|]. cbn [mbind list_bind].
  unfold at_loc in *. rewrite List.filter_app, IH. fold (at_loc loc (book_orders w loc')).
  rewrite at_loc_book. destruct (decide (loc = loc')) as [->|Hne].
  - rewrite (decide_False (P := loc' ∈ order)), app_nil_r by done. by rewrite decide_True by left.
  - cbn [app]. destruct (decide (loc ∈ order)); [by rewrite decide_True by by right|].
    rewrite decide_False; [done|]. by intros [|]%elem_of_cons.
Qed.

Lemma on_side_book d loc b :
  w.(w_books) !! loc = Some b → on_side d (book_orders w loc) = side_of d (abs_book w.(w_heap) b).
Proof.
  intros Hb. pose proof (wk_rep _ Hw _ _ Hb) as Hr. unfold book_orders. rewrite Hb.
  unfold a_orders. rewrite on_side_app. unfold on_side, is_buy.
  assert (∀ d', List.filter (λ o, Bool.eqb d' (Order.Side o =? SideBuy)) (a_bids (abs_book (w_heap w) b)) =
    if d' then a_bids (abs_book (w_heap w) b) else []) as ->.
  { intros d'. cbn. pose proof (rep_buy _ _ Hr) as H. unfold side_orders.
    induction H as [|p ps Hp _ IH]; [by destruct d'|]. cbn. rewrite Hp, IH. by destruct d'. }
  assert (∀ d', List.filter (λ o, Bool.eqb d' (Order.Side o =? SideBuy)) (a_asks (abs_book (w_heap w) b)) =
    if d' then [] else a_asks (abs_book (w_heap w) b)) as ->.
  { intros d'. cbn. pose proof (rep_sell _ _ Hr) as H. unfold side_orders.
    induction H as [|p ps Hp _ IH]; [by destruct d'|]. cbn. rewrite (proj2 (Z.eqb_neq _ _) Hp), IH. by destruct d'. }
  destruct d; [apply app_nil_r|done].
Qed.

Lemma saved_key loc o :
  o ∈ book_orders w loc → is_num o.(Order.Price) ∧ fkey o.(Order.Price) ∈ target_keys w loc (is_buy o).
Proof.
  unfold book_orders, target_keys. destruct (w_books w !! loc) as [b|] eqn:Hb; [|by intros ?%elem_of_nil].
  intros Ho. pose proof (wk_rep _ Hw _ _ Hb) as Hr.
  assert (o ∈ side_of (is_buy o) (abs_book (w_heap w) b)) as Hs.
  { rewrite <- (on_side_book _ _ _ Hb). unfold on_side, book_orders. rewrite Hb.
    apply list_elem_of_In, filter_In. split; [by apply list_elem_of_In|]. by destruct (is_buy o). }
  rewrite side_of_abs in Hs. apply list_elem_of_fmap in Hs as (p & -> & Hp).
  apply elem_of_side_ptrs in Hp as (l & Hl & Hp). destruct (rep_side (is_buy (deref (w_heap w) p)) _ _ Hr) as [[_ Hlv] _].
  rewrite Forall_forall in Hlv. destruct (Hlv l Hl) as (_ & _ & Heq). rewrite Forall_forall in Heq.
  specialize (Heq p Hp). destruct (feqb_num _ _ Heq) as [Hn1 Hn2]. split; [done|].
  apply feqb_key in Heq; [|done..]. unfold level_keys. rewrite Heq.
  by apply (list_elem_of_fmap_2 (fkey ∘ PriceLevel.Price)).
Qed.

Lemma saved_ids_nodup order : NoDup order → NoDup (Order.ID <$> order ≫= book_orders w).
Proof.
  induction 1 as [|loc order Hn Hnd IH]; [constructor|]. cbn. rewrite fmap_app. apply NoDup_app.
  split_and!; [| |done].
  - unfold book_orders. destruct (w_books w !! loc) as [b|] eqn:E; [|constructor].
    rewrite a_orders_abs, <- list_fmap_compose. apply rep_ids_nodup, (wk_rep _ Hw _ _ E).
  - intros id (o1 & -> & H1)%list_elem_of_fmap (o2 & E & H2)%list_elem_of_fmap.
    apply list_elem_of_bind in H2 as (loc2 & H2 & Hloc2).
    by rewrite (wk_ids _ Hw _ _ _ _ H1 H2 E) in Hn.
Qed.

End saved.

(** ** Prices *)

Lemma upsert_lookup syms prices m loc :
  Forall (λ s, is_u 16 s.(Symbol.LocateCode)) syms → loc ∈ Symbol.LocateCode <$> syms →
  upsert_prices syms prices m !! to_i16 loc = Some (default fzero (prices !! loc)).
Proof.
  unfold upsert_prices. induction syms as [|s syms IH] using rev_ind; intros Hu Hin; [by apply elem_of_nil in Hin|].
  apply Forall_app in Hu as [Hu [Hs _]%Forall_cons].
  rewrite fold_left_app. cbn. rewrite fmap_app, elem_of_app in Hin.
  destruct (decide (s.(Symbol.LocateCode) = loc)) as [<-|Hne]; [by rewrite lookup_insert_eq|].
  destruct Hin as [Hin|Hin]; [|apply list_elem_of_singleton in Hin; congruence].
  rewrite lookup_insert_ne; [by apply IH|]. intros E. apply Hne.
  assert (is_u 16 loc) as Hloc.
  { apply list_elem_of_fmap in Hin as (s' & -> & Hs'). rewrite Forall_forall in Hu. by apply Hu. }
  apply (f_equal to_u16) in E. by rewrite !swrap_uwrap in E by done.
Qed.

Lemma upsert_keys syms prices m :
  (∀ k, is_Some (m !! k) → is_s 16 k) → ∀ k, is_Some (upsert_prices syms prices m !! k) → is_s 16 k.
Proof.
  unfold upsert_prices. revert m. induction syms as [|s syms IH]; intros m Hm; [done|]. cbn. apply IH.
  intros k. destruct (decide (to_i16 s.(Symbol.LocateCode) = k)) as [<-|]; [intros _; by apply swrap_range|].
  rewrite lookup_insert_ne by done. apply Hm.
Qed.

Lemma load_prices_lookup d m k p :
  (∀ k, is_Some (d.(symbols) !! k) → is_s 16 k) → d.(symbols) !! k = Some p →
  Price (to_u16 k) (load_prices d m) = p ∧ rng (load_prices d m) = rng m.
Proof.
  intros Hkeys Hk. apply elem_of_map_to_list in Hk. unfold load_prices.
  pose proof (NoDup_fst_map_to_list d.(symbols)) as Hnd.
  assert (∀ k' p', (k', p') ∈ map_to_list d.(symbols) → is_s 16 k') as Hs
    by (intros k' p' H%elem_of_map_to_list; apply Hkeys; by exists p').
  induction (map_to_list d.(symbols)) as [|[k' p'] l IH] using rev_ind; [by apply elem_of_nil in Hk|].
  rewrite fold_left_app. cbn [fold_left].
  assert (rng (fold_left (λ m '(locate, price), SetPrice (to_u16 locate) price m) l m) = rng m) as Hrng.
  { clear. revert m. induction l as [|[]]; intros m; [done|]. cbn. by rewrite IHl. }
  split; [|done]. rewrite fmap_app in Hnd. apply NoDup_app in Hnd as (Hnd & Hdis & _).
  apply elem_of_app in Hk as [Hk|Hk%list_elem_of_singleton].
  - unfold Price, SetPrice. cbn [prices]. rewrite lookup_insert_ne.
    + apply IH; [done|done|]. intros; eapply Hs; apply elem_of_app; eauto.
    + intros E. apply (Hdis k'); [|by left]. apply list_elem_of_fmap. exists (k, p). split; [|done]. cbn.
      apply (f_equal to_i16) in E. rewrite !uwrap_swrap in E; try done; eapply Hs;
        apply elem_of_app; [by left|right; by left].
  - injection Hk as -> ->. unfold Price, SetPrice. cbn [prices]. by rewrite lookup_insert_eq.
Qed.

Lemma load_prices_books d w : (set_market (load_prices d (w_market w)) w).(w_books) = w.(w_books).
Proof. done. Qed.

(** ** The round trip *)

Lemma row_ids_nodup os :
  Forall fields_ok os → NoDup (Order.ID <$> os) → NoDup (OrderRow.id <$> (row_of <$> os)).
Proof.
  intros Hf Hnd. rewrite <- list_fmap_compose.
  assert (OrderRow.id ∘ row_of <$> os = to_i64 <$> (Order.ID <$> os)) as -> by (by rewrite <- list_fmap_compose).
  apply NoDup_fmap_2_strong; [|done]. intros x y Hx Hy E. apply (f_equal to_u64) in E.
  apply list_elem_of_fmap in Hx as (o1 & -> & H1), Hy as (o2 & -> & H2). rewrite Forall_forall in Hf.
  rewrite !swrap_uwrap in E; [done|done|apply Hf, H2|done|apply Hf, H1].
Qed.

Lemma new_book_restored K h loc (b : Book.t) :
  let b0 := NewBook b.(Book.Locate) b.(Book.TickSize) in
  rep h b0 ∧ (∀ d, within (K loc d) (levels_of d b0)) ∧
  (∀ d, side_of d (abs_book h b0) ≡ₚ on_side d (at_loc loc [])).
Proof.
  intros b0. split_and!.
  - split; cbn; try constructor; try (cbn; lia); try (split; constructor); [done|].
    by intros [?%elem_of_nil _].
  - intros [] k Hk; by apply elem_of_nil in Hk.
  - by intros [].
Qed.

(** What [Save] collects can be restored: valid rows with distinct IDs, each at a
    price its side held. *)
Lemma saved_orders_ok (w : world) (order : list Z) (Hw : world_ok w) (Hnd : NoDup order) :
  Forall (λ o, fields_ok o ∧ is_num o.(Order.Price) ∧
    fkey o.(Order.Price) ∈ target_keys w o.(Order.Locate) (is_buy o)) (all_orders order w) ∧
  NoDup (Order.ID <$> all_orders order w).
Proof.
  rewrite (all_orders_books w Hw order). split; [|by apply saved_ids_nodup].
  apply Forall_forall. intros o (loc & Ho & Hloc)%list_elem_of_bind.
  destruct (wk_fields _ Hw _ _ Ho) as [Hf ->]. split; [done|]. by apply saved_key.
Qed.

(** The rows, in any order, go into fresh books without an eviction. *)
Lemma restore_saved (w w00 : world) (order : list Z) os
    (Hw : world_ok w) (Hfresh : fresh_for w w00) (Hnd : NoDup order) (Hperm : all_orders order w ≡ₚ os) :
  ∃ w1, go_fold (λ _, restore_row) tt (row_of <$> os) w00 = Some (tt, w1) ∧
    restored (target_keys w) w00 (reverse os) w1.
Proof.
  destruct (saved_orders_ok w order Hw Hnd) as [Hos Hids].
  destruct (restore_rows (target_keys w) w00 (target_room w Hw) os [] w00) as (w1 & E & Hres).
  - split; [|done..]. intros loc b Hb. rewrite Hfresh in Hb.
    apply fmap_Some in Hb as (b0 & _ & ->). by apply new_book_restored.
  - by rewrite app_nil_r, <- Hperm.
  - by rewrite <- Hperm.
  - exists w1. split; [done|]. by rewrite app_nil_r in Hres.
Qed.

(** The restored books hold the orders of the saved ones. *)
Lemma restored_books (w w00 w1 : world) (order : list Z) os loc b
    (Hw : world_ok w) (Hfresh : fresh_for w w00) (Horder : iterates order w) (Hperm : all_orders order w ≡ₚ os)
    (Hres : restored (target_keys w) w00 (reverse os) w1) (Hb : w.(w_books) !! loc = Some b) :
  ∃ b1, w1.(w_books) !! loc = Some b1 ∧
    rep w1.(w_heap) b1 ∧ b1.(Book.Locate) = b.(Book.Locate) ∧ b1.(Book.TickSize) = b.(Book.TickSize) ∧
    ∀ side, side_of side (abs_book w1.(w_heap) b1) ≡ₚ side_of side (abs_book w.(w_heap) b).
Proof.
  destruct Horder as [Hnd Hdom]. pose proof (rs_static _ _ _ _ Hres loc) as Hst.
  rewrite Hfresh, Hb in Hst. cbn in Hst. apply fmap_Some in Hst as (b1 & Hb1 & [= Hl Ht]). exists b1.
  destruct (rs_book _ _ _ _ Hres loc b1 Hb1) as (Hr & _ & Hs). split_and!; [done|done|done|done|].
  intros side. rewrite (Hs side), <- (on_side_book w Hw side _ _ Hb). apply filter_perm.
  transitivity (at_loc loc (all_orders order w)); [apply filter_perm; by rewrite reverse_Permutation, Hperm|].
  transitivity (at_loc loc (order ≫= book_orders w)); [apply filter_perm, (all_orders_books w Hw)|].
  by rewrite at_loc_all, decide_True by (try done; by apply Hdom).
Qed.

(** C19. Crash recovery: a snapshot of a well-formed simulator is saved, and loading
    it into a fresh one, in whatever order the database returns the orders, brings
    back the counters, the generator's state and every symbol's price, and gives
    every book a well-formed state with exactly the saved orders on each side
    (their order within a price is not kept). *)
Theorem snapshot_roundtrip (syms : list Symbol.t) (order : list Z) (w w0 : world) (d0 : database)
    (Hw : world_ok w) (Hfresh : fresh_for w w0) (Horder : iterates order w)
    (Hsyms : Forall (λ s, is_u 16 s.(Symbol.LocateCode)) syms ∧ syms ≠ [])
    (Hdb : ∀ k, is_Some (d0.(symbols) !! k) → is_s 16 k) :
  ∃ d, Save syms true (reads_of order w) d0 = (d, true) ∧
  ∀ rows, rows ≡ₚ d.(orders_table) →
  ∃ w1, Load LoadOk rows d w0 = Some (Some true, w1) ∧
    w1.(w_orderID) = w.(w_orderID) ∧ w1.(w_match) = w.(w_match) ∧
    Rng.State w1.(w_market).(rng) = Rng.State w.(w_market).(rng) ∧
    (∀ loc, loc ∈ Symbol.LocateCode <$> syms → Price loc w1.(w_market) = Price loc w.(w_market)) ∧
    (∀ loc b, w.(w_books) !! loc = Some b → ∃ b1, w1.(w_books) !! loc = Some b1 ∧
      rep w1.(w_heap) b1 ∧ b1.(Book.Locate) = b.(Book.Locate) ∧ b1.(Book.TickSize) = b.(Book.TickSize) ∧
      ∀ side, side_of side (abs_book w1.(w_heap) b1) ≡ₚ side_of side (abs_book w.(w_heap) b)).
Proof.
  destruct Hsyms as [Hu16 Hne]. destruct (saved_orders_ok w order Hw (proj1 Horder)) as [Hos Hids].
  unfold Save, reads_of. cbn [r_orders r_prices r_rng r_orderID r_match andb].
  rewrite bool_decide_true by (apply row_ids_nodup; [eapply Forall_impl; [exact Hos|]; by intros ? [? _]|done]).
  eexists. split; [reflexivity|]. intros rows Hrows. cbn [orders_table] in Hrows.
  apply Permutation_map_inv in Hrows as (os & -> & Hperm).
  set (d := mkDatabase _ _ _ _ _) in *.
  assert (∀ k, is_Some (d.(symbols) !! k) → is_s 16 k) as Hkeys by by apply upsert_keys.
  assert (∀ loc, loc ∈ Symbol.LocateCode <$> syms →
    d.(symbols) !! to_i16 loc = Some (Price loc w.(w_market))) as Hsym by (intros; by apply upsert_lookup).
  set (w00 := set_market (load_prices d w0.(w_market)) w0).
  destruct (restore_saved w w00 order os Hw Hfresh (proj1 Horder) Hperm) as (w1 & E & Hres).
  exists (load_state d w1). split_and!.
  - unfold Load. destruct (Nat.eqb_spec (size (symbols d)) 0) as [H0|_].
    { apply map_size_empty_inv in H0. destruct syms as [|s syms]; [done|].
      specialize (Hsym s.(Symbol.LocateCode) ltac:(by left)). by rewrite H0, lookup_empty in Hsym. }
    fold w00. change (map row_of os) with (row_of <$> os). by rewrite E.
  - cbn. apply swrap_uwrap; [done|apply Hw].
  - cbn. apply swrap_uwrap; [done|apply Hw].
  - unfold d, load_state. cbn [rng_state set_counters set_market w_market rng].
    by rewrite Rng.RestoreStateBytes_StateBytes by apply Hw.
  - intros loc Hloc. cbn [load_state d rng_state]. cbn. rewrite (rs_market _ _ _ _ Hres).
    assert (is_u 16 loc) as Hu.
    { apply list_elem_of_fmap in Hloc as (s & -> & Hs). rewrite Forall_forall in Hu16. by apply Hu16. }
    rewrite <- (swrap_uwrap 16 loc) at 1 by done.
    apply (load_prices_lookup d w0.(w_market) (to_i16 loc)); [done|by apply Hsym].
  - intros loc b Hb. exact (restored_books w w00 w1 order os loc b Hw Hfresh Horder Hperm Hres Hb).
Qed.

(** ** A concrete restart *)

Definition saved_world : world :=
  mkWorld demo.(orders) 20 7 {[1 := demo.(book)]} (NewMarketEngine (Rng.NewRNG 0 42) AllSymbols).
Definition new_world : world :=
  mkWorld ∅ 0 0 {[1 := NewBook 1 demo.(book).(Book.TickSize)]} (NewMarketEngine (Rng.NewRNG 0 7) AllSymbols).
Definition empty_database : database := mkDatabase ∅ [] None None None.

Lemma saved_book_orders loc o : o ∈ book_orders saved_world loc → loc = 1 ∧ fields_ok o ∧ o.(Order.Locate) = 1.
Proof.
  unfold book_orders, saved_world. cbn [w_books w_heap]. destruct (decide (loc = 1)) as [->|Hne].
  - rewrite lookup_singleton_eq. intros Ho. split; [done|].
    assert (forallb (λ o, (0 <=? o.(Order.ID)) && (o.(Order.ID) <? 100) && (o.(Order.Locate) =? 1) &&
      ((o.(Order.Side) =? SideBuy) || (o.(Order.Side) =? SideSell)))
      (a_orders (abs_book (orders demo) (book demo))) = true) as H by (vm_compute; reflexivity).
    rewrite forallb_forall in H. apply list_elem_of_In, H in Ho.
    rewrite !andb_true_iff, orb_true_iff, !Z.eqb_eq, Z.leb_le, Z.ltb_lt in Ho.
    unfold fields_ok, is_u. destruct Ho as [[[? ?] ->] ?]. split_and!; [lia|lia|lia|lia|done|done].
  - rewrite lookup_singleton_ne by done. by intros ?%elem_of_nil.
Qed.

Lemma saved_world_ok : world_ok saved_world.
Proof.
  split.
  - intros loc b Hb. cbn [saved_world w_books] in Hb. apply lookup_singleton_Some in Hb as [_ <-]. apply demo_rep.
  - intros loc o Ho. destruct (saved_book_orders _ _ Ho) as (-> & ? & ?). done.
  - intros loc1 loc2 o1 o2 (-> & _)%saved_book_orders (-> & _)%saved_book_orders. done.
  - done.
  - done.
  - apply Rng.NewRNG_wf.
Qed.

Lemma snapshot_roundtrip_witness :
  ∃ d, Save AllSymbols true (reads_of [1] saved_world) empty_database = (d, true) ∧
  ∀ rows, rows ≡ₚ d.(orders_table) →
  ∃ w1, Load LoadOk rows d new_world = Some (Some true, w1) ∧
    w1.(w_orderID) = 20 ∧ w1.(w_match) = 7 ∧
    Rng.State w1.(w_market).(rng) = Rng.State saved_world.(w_market).(rng) ∧
    (∀ loc, loc ∈ Symbol.LocateCode <$> AllSymbols → Price loc w1.(w_market) = Price loc saved_world.(w_market)) ∧
    (∀ loc b, saved_world.(w_books) !! loc = Some b → ∃ b1, w1.(w_books) !! loc = Some b1 ∧
      rep w1.(w_heap) b1 ∧ b1.(Book.Locate) = b.(Book.Locate) ∧ b1.(Book.TickSize) = b.(Book.TickSize) ∧
      ∀ side, side_of side (abs_book w1.(w_heap) b1) ≡ₚ side_of side (abs_book saved_world.(w_heap) b)).
Proof.
  apply (snapshot_roundtrip AllSymbols [1] saved_world new_world empty_database).
  - apply saved_world_ok.
  - intros loc. cbn [new_world saved_world w_books]. destruct (decide (loc = 1)) as [->|].
    + rewrite !lookup_singleton_eq. reflexivity.
    + by rewrite !lookup_singleton_ne.
  - split; [apply NoDup_singleton|]. intros loc. cbn [saved_world w_books].
    rewrite list_elem_of_singleton. destruct (decide (loc = 1)) as [->|Hne].
    + rewrite lookup_singleton_eq. split; [by eexists|done].
    + rewrite lookup_singleton_ne by done. split; [done|]. by intros [].
  - split; [|done]. apply (bool_decide_unpack _). vm_compute. exact I.
  - intros k Hk. cbn in Hk. rewrite lookup_empty in Hk. by destruct Hk.
Defined.

(** The order within a price is that of the rows: two orders of one level come
    back swapped when the SELECT returns them so. *)
Definition two_orders (swap : bool) : list Order.t :=
  let a := Order.mk 1 1 SideBuy (dec 100 0) 100 0 "" in
  let b := Order.mk 2 1 SideBuy (dec 100 0) 200 1 "" in
  if swap then [b; a] else [a; b].

Lemma restore_loses_priority :
  let load swap := match go_fold (λ _, restore_row) tt (row_of <$> two_orders swap) new_world with
                   | Some (_, w) => book_orders w 1
                   | None => [] end in
  load false = two_orders false ∧ load true = two_orders true ∧
  Permutation (two_orders false) (two_orders true) ∧ two_orders false ≠ two_orders true.
Proof.
  split_and!; [vm_compute; reflexivity|vm_compute; reflexivity|apply perm_swap|discriminate].
Qed.

(** A load that fails among the orders reports an error, on which main seeds the
    books as for a fresh start; but the rows already read stay in the books and the
    counter is that of the new process: the next order takes the ID of one of them. *)
Lemma failed_load_reuses_ids :
  let d := mkDatabase {[1 := dec 100 0]} (row_of <$> two_orders false) None (Some 2) None in
  ∃ w b s, Load (OrdersFail 1) d.(orders_table) d new_world = Some (None, w) ∧
    w.(w_books) !! 1 = Some b ∧ Order.ID <$> book_orders w 1 = [1] ∧
    NextOrderID (view_book w b) = Some (1, s).
Proof.
  eexists _, _, _. split; [vm_compute; reflexivity|]. split; [vm_compute; reflexivity|].
  split; vm_compute; reflexivity.
Qed.

(** The spare of the Gaussian is not saved: a restored generator has none. *)
Lemma restore_drops_spare r r0 :
  Rng.wf r → (Rng.RestoreStateBytes (Rng.StateBytes r) r0).(hasSpare) = false.
Proof. intros Hr. by rewrite Rng.RestoreStateBytes_StateBytes. Qed.
