(* ===== verification/Trades.v ===== *)
(** * internal/persist/queries.go: trades, candles and their queries

    An instant is the number of nanoseconds since the Unix epoch (UTC).  The
    trades table is the list of its rows, in no particular order; a query is the
    relational reading of its SQL text: WHERE is a filter, ORDER BY a sort (the
    order of equal keys, which SQL leaves open, is that of the sort), LIMIT and
    OFFSET are [take] and [drop]. *)
From S2P Require Import Prelude Word Float64.

Local Open Scope Z_scope.

(** ** Instants *)

Definition second : Z := 1000000000.
Definition day_ns : Z := 86400 * second.

(** [t.Unix()]: whole seconds, rounded towards the past. *)
Definition Unix (t : Z) : Z := t / second.

(** The zero [time.Time], 1 January of year 1. *)
Definition zero_time : Z := -62135596800 * second.
Definition IsZero (t : Z) : bool := t =? zero_time.

(** ** Data *)

Module Trade.
Record t := mk {
  MatchNumber : Z;   (* int64 *)
  Ticker : string;
  Price : float64;
  Shares : Z;        (* int32 *)
  Aggressor : string;
  ExecutedAt : Z;
}.
End Trade.

(** A row of the table; [tradeDoc] of the archive mirrors it. *)
Module TradeRow.
Record t := mk {
  MatchNumber : Z;
  SymbolLocate : Z;  (* int16 *)
  Ticker : string;
  Price : float64;
  Shares : Z;
  Aggressor : string;
  ExecutedAt : Z;
}.
Definition to_Trade (d : t) : Trade.t :=
  Trade.mk d.(MatchNumber) d.(Ticker) d.(Price) d.(Shares) d.(Aggressor) d.(ExecutedAt).
End TradeRow.

Module TradeFilter.
Record t := mk {
  SymbolLocate : Z;  (* uint16 *)
  Limit : Z;
  Offset : Z;
  From : option Z;
  To : option Z;
}.
End TradeFilter.

Module MultiTradeFilter.
Record t := mk {
  Locates : list Z;
  Limit : Z;
  Offset : Z;
  From : option Z;
  To : option Z;
}.
End MultiTradeFilter.

Module Candle.
Record t := mk {
  Bucket : Z;
  Open : float64;
  High : float64;
  Low : float64;
  Close : float64;
  Volume : Z;        (* int64 *)
  Count : Z;         (* int64 *)
}.
(** [Candle{Bucket: b}] *)
Definition empty (b : Z) : t := mk b fzero fzero fzero fzero 0 0.
End Candle.

Module CandleFilter.
Record t := mk {
  SymbolLocate : Z;
  Interval : string;
  Limit : Z;
  From : option Z;
  To : option Z;
  Before : option Z;
  Fill : bool;
}.
End CandleFilter.

Module TradeStats.
Record t := mk { TotalTrades : Z; TotalVolume : Z }.
End TradeStats.

(** ** Limits and intervals *)

Definition DefaultLimit : Z := 100.
Definition MaxLimit : Z := 1000.

Definition ClampLimit (n : Z) : Z :=
  if n <=? 0 then DefaultLimit else if n >? MaxLimit then MaxLimit else n.

Definition intervalSeconds : list (string * Z) :=
  [("1m", 60); ("5m", 300); ("15m", 900); ("1h", 3600); ("4h", 14400); ("1d", 86400)]%string.

Definition IntervalSeconds (s : string) : option Z :=
  snd <$> List.find (λ p, bool_decide (p.1 = s)) intervalSeconds.
Definition ValidInterval (s : string) : bool := bool_decide (is_Some (IntervalSeconds s)).

(** ** Zero filling *)

(** Go's [%] truncates towards zero. *)
Definition alignDown (t secs : Z) : Z := (Unix t - Z.rem (Unix t) secs) * second.

Definition fillBounds (f : CandleFilter.t) (secs : Z) (candles : list Candle.t) : option (Z * Z) :=
  let hi :=
    match f.(CandleFilter.Before), f.(CandleFilter.To), candles with
    | Some b, _, _ => Some (alignDown (b - secs * second) secs)
    | None, Some t, _ => Some (alignDown t secs)
    | None, None, c :: _ => Some c.(Candle.Bucket)
    | None, None, [] => None
    end in
  match hi with
  | None => None
  | Some hi =>
      let lo :=
        match f.(CandleFilter.From), last candles with
        | Some t, _ => alignDown t secs
        | None, Some c => c.(Candle.Bucket)
        | None, None => hi
        end in
      let lo := if lo >? hi then hi else lo in
      Some (hi, lo)
  end.

(** The map from bucket to candle: a later duplicate wins. *)
Definition by_bucket (candles : list Candle.t) : gmap Z Candle.t :=
  fold_left (λ m c, <[Unix c.(Candle.Bucket) := c]> m) candles ∅.

(** The loop of [zeroFill] from [t] down, with [room] places left. *)
Fixpoint fill_loop (room : nat) (m : gmap Z Candle.t) (t lo step : Z) : list Candle.t :=
  match room with
  | O => []
  | S room' =>
      if t >=? lo then
        (match m !! t with Some c => c | None => Candle.empty (t * second) end)
        :: fill_loop room' m (t - step) lo step
      else []
  end.

Definition zeroFill (dbCandles : list Candle.t) (hi lo secs limit : Z) : list Candle.t :=
  fill_loop (Z.to_nat limit) (by_bucket dbCandles) (Unix hi) (Unix lo) secs.

Definition FillCandles (candles : list Candle.t) (f : CandleFilter.t) (secs limit : Z) : list Candle.t :=
  match fillBounds f secs candles with
  | Some (hi, lo) => zeroFill candles hi lo secs limit
  | None => candles
  end.

(** ** The SQL queries *)

Definition newer (a b : TradeRow.t) : Prop := b.(TradeRow.ExecutedAt) ≤ a.(TradeRow.ExecutedAt).
Definition older (a b : TradeRow.t) : Prop := a.(TradeRow.ExecutedAt) ≤ b.(TradeRow.ExecutedAt).
Global Instance newer_dec a b : Decision (newer a b) := decide (_ ≤ _).
Global Instance older_dec a b : Decision (older a b) := decide (_ ≤ _).

(** [$n::timestamptz IS NULL OR executed_at >= $n] and its variants. *)
Definition at_or_after (from : option Z) (t : Z) : bool := match from with Some f => f <=? t | None => true end.
Definition at_or_before (to : option Z) (t : Z) : bool := match to with Some f => t <=? f | None => true end.
Definition strictly_before (before : option Z) (t : Z) : bool :=
  match before with Some f => t <? f | None => true end.

Definition in_range (from to : option Z) (r : TradeRow.t) : bool :=
  at_or_after from r.(TradeRow.ExecutedAt) && at_or_before to r.(TradeRow.ExecutedAt).

(** [int16(locate)] against the column. *)
Definition of_symbol (locate : Z) (r : TradeRow.t) : bool := r.(TradeRow.SymbolLocate) =? to_i16 locate.

Definition page {A} (limit offset : Z) (l : list A) : list A :=
  take (Z.to_nat limit) (drop (Z.to_nat offset) l).

(** PostgreSQL refuses a negative OFFSET. *)
Definition Pg_QueryTrades (table : list TradeRow.t) (f : TradeFilter.t) : option (list Trade.t) :=
  if f.(TradeFilter.Offset) <? 0 then None
  else
  let rows := List.filter (λ r, of_symbol f.(TradeFilter.SymbolLocate) r &&
                                in_range f.(TradeFilter.From) f.(TradeFilter.To) r) table in
  Some (TradeRow.to_Trade <$>
    page (ClampLimit f.(TradeFilter.Limit)) f.(TradeFilter.Offset) (merge_sort newer rows)).

(** [ORDER BY executed_at DESC, ticker ASC] *)
Definition newer_ticker (a b : TradeRow.t) : Prop :=
  b.(TradeRow.ExecutedAt) < a.(TradeRow.ExecutedAt) ∨
  a.(TradeRow.ExecutedAt) = b.(TradeRow.ExecutedAt) ∧
  String.compare a.(TradeRow.Ticker) b.(TradeRow.Ticker) ≠ Gt.
Global Instance newer_ticker_dec a b : Decision (newer_ticker a b).
Proof. unfold newer_ticker. apply _. Defined.

Definition Pg_QueryTradesMulti (table : list TradeRow.t) (f : MultiTradeFilter.t)
    : option (list Trade.t) :=
  match f.(MultiTradeFilter.Locates) with
  | [] => Some []
  | _ =>
      if f.(MultiTradeFilter.Offset) <? 0 then None
      else
      let rows := List.filter (λ r, existsb (λ l, of_symbol l r) f.(MultiTradeFilter.Locates) &&
                    in_range f.(MultiTradeFilter.From) f.(MultiTradeFilter.To) r) table in
      Some (TradeRow.to_Trade <$>
        page (ClampLimit f.(MultiTradeFilter.Limit)) f.(MultiTradeFilter.Offset)
          (merge_sort newer_ticker rows))
  end.

(** The aggregates of one group of rows, in ascending order of time. *)
Definition fmax (a b : float64) : float64 := if (b >? a)%F then b else a.
Definition fmin (a b : float64) : float64 := if (b <? a)%F then b else a.
Definition total_volume (rows : list TradeRow.t) : Z :=
  fold_right (λ r n, r.(TradeRow.Shares) + n) 0 rows.

Definition sql_bar (bucket : Z) (rows : list TradeRow.t) : Candle.t :=
  let prices := TradeRow.Price <$> rows in
  let open := default fzero (head prices) in
  Candle.mk (bucket * second) open (fold_left fmax prices open) (fold_left fmin prices open)
    (default fzero (last prices)) (total_volume rows) (Z.of_nat (length rows)).

(** [floor(extract(epoch FROM executed_at) / $2) * $2] *)
Definition sql_bucket (secs : Z) (r : TradeRow.t) : Z :=
  let e := Unix r.(TradeRow.ExecutedAt) in e - e mod secs.

(** [GROUP BY bucket ORDER BY bucket DESC] over rows in ascending order. *)
Definition sql_group (secs : Z) (rows : list TradeRow.t) : list Candle.t :=
  (λ b, sql_bar b (List.filter (λ r, sql_bucket secs r =? b) rows)) <$>
    merge_sort Z.ge (remove_dups (sql_bucket secs <$> rows)).

Definition candle_rows (table : list TradeRow.t) (f : CandleFilter.t) : list TradeRow.t :=
  merge_sort older (List.filter (λ r, of_symbol f.(CandleFilter.SymbolLocate) r &&
    in_range f.(CandleFilter.From) f.(CandleFilter.To) r &&
    strictly_before f.(CandleFilter.Before) r.(TradeRow.ExecutedAt)) table).

(** [None] is the error for an unsupported interval. *)
Definition Pg_QueryCandles (table : list TradeRow.t) (f : CandleFilter.t) : option (list Candle.t) :=
  secs ← IntervalSeconds f.(CandleFilter.Interval);
  let limit := ClampLimit f.(CandleFilter.Limit) in
  let candles := take (Z.to_nat limit) (sql_group secs (candle_rows table f)) in
  Some (if f.(CandleFilter.Fill) then FillCandles candles f secs limit else candles).

Definition Pg_QueryTradeStats (table : list TradeRow.t) : TradeStats.t :=
  TradeStats.mk (Z.of_nat (length table)) (total_volume table).
