(* ===== verification/Retention.v ===== *)
(** * internal/persist: retention.go and size.go

    The size monitor of [RunRetention] and the storage arithmetic; [prune] is with
    the archiver, on the same table.  What the monitor logs is a list of events:
    the numbers of each line, without the text around them.  The size query is an
    argument, [None] when it fails. *)
From Stdlib Require Import SpecFloat.
From S2P Require Import Prelude Word Float64 Trades.

Local Open Scope Z_scope.

(** ** size.go *)

Definition SizeBudgetBytes : Z := Z.shiftl 2 30.
Definition HeadroomBytes : Z := Z.shiftl 1600 20.
Definition HighWaterPct : float64 := float_of_Z 80.
Definition BytesPerTradeEstimate : float64 := float_of_Z 150.
Definition TradesPerSecEstimate : float64 := float_of_Z 75.

Definition SafeRetentionDays (bytesPerTrade tradesPerSec : float64) (budgetBytes : Z) : float64 :=
  let bytesPerDay := (bytesPerTrade * tradesPerSec * float_of_Z 86400)%F in
  if (bytesPerDay <=? fzero)%F then S754_infinity false
  else (float_of_Z budgetBytes / bytesPerDay)%F.

Module DBSize.
Record t := mk { DatabaseBytes : Z; TradesBytes : Z; TradesIndexBytes : Z (* int64 *) }.
End DBSize.

Definition PctOfBudget (s : DBSize.t) : float64 :=
  (float_of_Z s.(DBSize.DatabaseBytes) / float_of_Z SizeBudgetBytes * float_of_Z 100)%F.

(** ** retention.go *)

Record sizeMonitor := mkMonitor {
  prevBytes : Z;
  prevTime : Z;
  havesPrev : bool;
  warned : bool;
}.

Definition fresh_monitor : sizeMonitor := mkMonitor 0 zero_time false false.

Definition set_warned (w : bool) (m : sizeMonitor) : sizeMonitor :=
  mkMonitor m.(prevBytes) m.(prevTime) m.(havesPrev) w.

(** Returns [(warn, cleared)]. *)
Definition updateHighWater (pct : float64) (m : sizeMonitor) : (bool * bool) * sizeMonitor :=
  if (pct >=? HighWaterPct)%F && negb m.(warned) then ((true, false), set_warned true m)
  else if (pct <? HighWaterPct - float_of_Z 5)%F && m.(warned) then ((false, true), set_warned false m)
  else ((false, false), m).

(** [d.Seconds()] of a duration. *)
Definition Seconds (d : Z) : float64 :=
  (float_of_Z (Z.quot d second) + float_of_Z (Z.rem d second) / float_of_Z second)%F.

Inductive event :=
  | EvError                                       (* the size query failed *)
  | EvSize (size : DBSize.t) (growth : option (float64 * float64))  (* bytes per day, days to the cap *)
  | EvWarn (pct : float64)
  | EvCleared (pct : float64).

Definition growth (size : DBSize.t) (now : Z) (m : sizeMonitor) : option (float64 * float64) :=
  if m.(havesPrev) then
    let dt := Seconds (now - m.(prevTime)) in
    let grew := to_i64 (size.(DBSize.DatabaseBytes) - m.(prevBytes)) in
    if (dt >? fzero)%F && (0 <? grew) then
      let bytesPerDay := (float_of_Z grew / dt * float_of_Z 86400)%F in
      let remaining := float_of_Z (to_i64 (SizeBudgetBytes - size.(DBSize.DatabaseBytes))) in
      Some (bytesPerDay, (remaining / bytesPerDay)%F)
    else None
  else None.

Definition reportAt (query : option DBSize.t) (now : Z) (m : sizeMonitor) : list event * sizeMonitor :=
  match query with
  | None => ([EvError], m)
  | Some size =>
      let g := growth size now m in
      let pct := PctOfBudget size in
      let '((warn, cleared), m) := updateHighWater pct m in
      ([EvSize size g] ++ (if warn then [EvWarn pct] else if cleared then [EvCleared pct] else []),
       mkMonitor size.(DBSize.DatabaseBytes) now true m.(warned))
  end.

(** The reports of [RunRetention], one at the start and one for each tick. *)
Fixpoint reports (ticks : list (option DBSize.t * Z)) (m : sizeMonitor) : list event * sizeMonitor :=
  match ticks with
  | [] => ([], m)
  | (query, now) :: ticks =>
      let '(evs, m) := reportAt query now m in
      let '(evs', m) := reports ticks m in
      (evs ++ evs', m)
  end.

(** ** The warnings *)

(** The WARN and clear lines of a log. *)
Definition alarms (evs : list event) : list (bool * float64) :=
  omap (λ e, match e with EvWarn p => Some (true, p) | EvCleared p => Some (false, p) | _ => None end) evs.

(** Alternating, starting with a warning unless one is latched, each with its
    own condition on the size. *)
Fixpoint alternating (latched : bool) (l : list (bool * float64)) : Prop :=
  match l with
  | [] => True
  | (w, p) :: l =>
      w = negb latched ∧
      (if w then (p >=? HighWaterPct)%F = true else (p <? HighWaterPct - float_of_Z 5)%F = true) ∧
      alternating w l
  end.

Lemma alarms_app l1 l2 : alarms (l1 ++ l2) = alarms l1 ++ alarms l2.
Proof. apply omap_app. Qed.

Lemma alternating_app b l1 l2 :
  alternating b l1 → alternating (default b (fst <$> last l1)) l2 → alternating b (l1 ++ l2).
Proof.
  revert b. induction l1 as [|[w p] l1 IH]; intros b; [done|]. cbn [alternating app].
  intros (Hw & Hp & Hl) H2. split_and!; [done..|]. apply IH; [done|].
  destruct l1 as [|x l1]; [exact H2|]. rewrite last_cons_cons in H2.
  destruct (last (x :: l1)) eqn:E; [exact H2|]. by apply last_None in E.
Qed.

Lemma reportAt_alarms query now m :
  let '(evs, m') := reportAt query now m in
  alternating m.(warned) (alarms evs) ∧ m'.(warned) = default m.(warned) (fst <$> last (alarms evs)).
Proof.
  destruct query as [size|]; [|done]. unfold reportAt, updateHighWater.
  destruct (HighWaterPct <=? PctOfBudget size)%F eqn:E1; destruct (warned m) eqn:Ew; cbn [negb andb];
    [destruct (_ <? _)%F eqn:E2| |destruct (_ <? _)%F eqn:E2|rewrite andb_false_r]; cbn; rewrite ?Ew; done.
Qed.

(** C40. The size monitor warns once per crossing: over any sequence of reports,
    with any sizes and any failures of the size query, the WARN and clear lines
    alternate beginning with a WARN, a WARN is logged only at 80% of the budget
    or more and a clear only below 75%, and the latch says which came last. *)
Theorem reports_alternate (ticks : list (option DBSize.t * Z)) :
  let '(evs, m) := reports ticks fresh_monitor in
  alternating false (alarms evs) ∧ m.(warned) = default false (fst <$> last (alarms evs)).
Proof.
  change false with (warned fresh_monitor). generalize fresh_monitor.
  induction ticks as [|[query now] ticks IH]; intros m; [done|]. cbn [reports].
  pose proof (reportAt_alarms query now m) as H1. destruct (reportAt query now m) as [evs m1].
  specialize (IH m1). destruct (reports ticks m1) as [evs' m2]. destruct H1 as [Ha Hw], IH as [Ha' Hw'].
  rewrite alarms_app. split.
  - apply alternating_app; [done|]. by rewrite <- Hw.
  - rewrite Hw', last_app. destruct (last (alarms evs')); [done|]. cbn. by rewrite Hw.
Qed.

(** The estimates of size.go do not give the default of two days: in the soft
    target [HeadroomBytes] they fit 1.72 days of trades, and two days fit only the
    hard budget. *)
Lemma default_retention :
  let safe := SafeRetentionDays BytesPerTradeEstimate TradesPerSecEstimate in
  trunc (safe HeadroomBytes * float_of_Z 100)%F = Some 172 ∧
  (safe HeadroomBytes <? float_of_Z 2)%F = true ∧ (float_of_Z 2 <? safe SizeBudgetBytes)%F = true.
Proof. split_and!; vm_compute; reflexivity. Qed.
