(* ===== verification/Archive.v ===== *)
(** * internal/archive: catalog.go, reader.go, candles.go and history.go

    The archive directory is the list of the files found under <dir>/trades: for
    each its path from there and its decoded lines (none if it cannot be opened,
    gunzipped or decoded).  gzip, JSON and the directory walk belong to the
    standard library.  The context is never cancelled. *)
From S2P Require Import Prelude Word Float64 GoSort Calendar Trades.

Local Open Scope Z_scope.

(** ** catalog.go *)

Module DayFile.
Record t := mk { Date : Z; Content : option (list TradeRow.t) }.
End DayFile.

Record file := mkFile { rel : string; content : option (list TradeRow.t) }.

(** The midnight of the path's day; a path of another form is skipped. *)
Definition parsed (f : file) : option Z := (λ n, n * day_ns) <$> day_of_path f.(rel).

(** [dir]: [None] when archiving is disabled. *)
Abbreviation catalog := (option (list file)).

Definition dayOf (t : Z) : Z := t / day_ns * day_ns.

Definition day_files (files : list file) : list DayFile.t :=
  omap (λ f, (λ d, DayFile.mk d f.(content)) <$> parsed f) files.

Definition date_less (a b : DayFile.t) : bool := a.(DayFile.Date) <? b.(DayFile.Date).

(** Distinct paths have distinct dates, so every sort gives the same list. *)
Definition Days (c : catalog) : list DayFile.t :=
  match c with
  | None => []
  | Some files => sort_slice date_less (day_files files)
  end.

Definition Bounds (c : catalog) : option (Z * Z) :=
  match Days c with
  | [] => None
  | d :: _ => Some (d.(DayFile.Date), default 0 (DayFile.Date <$> last (Days c)))
  end.

Definition Resolve (c : catalog) (from to : Z) : list DayFile.t :=
  if from >? to then []
  else
    let lo := dayOf from in
    let hi := dayOf to in
    List.filter (λ df, negb ((df.(DayFile.Date) <? lo) || (df.(DayFile.Date) >? hi))) (Days c).

Definition Enabled (c : catalog) : bool := bool_decide (is_Some c).

(** ** The tail ring buffer of reader.go *)

Section tail.
Context {A : Type} (zero : A).

Record tail := mkTail { buf : list A; count : nat; head_ : nat }.

Definition newTail (capacity : Z) : tail :=
  mkTail (replicate (Z.to_nat (if capacity <? 0 then 0 else capacity)) zero) 0 0.

Definition push (v : A) (t : tail) : tail :=
  if decide (length t.(buf) = 0%nat) then t
  else if decide (t.(count) < length t.(buf))%nat then
    mkTail (<[((t.(head_) + t.(count)) `mod` length t.(buf))%nat := v]> t.(buf)) (S t.(count)) t.(head_)
  else
    mkTail (<[t.(head_) := v]> t.(buf)) t.(count) ((t.(head_) + 1) `mod` length t.(buf))%nat.

(** [out[count-1-i] = buf[(head+i)%len]] for [i < count]. *)
Definition newestFirst (t : tail) : list A :=
  reverse ((λ i, nth ((t.(head_) + i) `mod` length t.(buf)) t.(buf) zero) <$> seq 0 t.(count)).
End tail.
Arguments tail : clear implicits.

(** ** reader.go *)

Module ReadFilter.
Record t := mk {
  SymbolLocate : Z;
  From : Z;  (* zero: unbounded *)
  To : Z;    (* zero: unbounded *)
  Limit : Z;
}.
End ReadFilter.

Definition zero_trade : Trade.t := Trade.mk 0 EmptyString fzero 0 EmptyString zero_time.

(** [time.Time{}.AddDate(1,0,0)] and the last second of the year 9999. *)
Definition earliest : Z := -62104060800 * second.
Definition latest : Z := 253402300799 * second.

Definition window (from to : Z) : Z * Z :=
  (if IsZero from then earliest else from, if IsZero to then latest else to).

(** The three [continue]s of a scan loop. *)
Definition selected (locate from to : Z) (d : TradeRow.t) : bool :=
  negb (negb (to_u16 d.(TradeRow.SymbolLocate) =? locate)
        || (negb (IsZero from) && (d.(TradeRow.ExecutedAt) <? from))
        || (negb (IsZero to) && (d.(TradeRow.ExecutedAt) >? to))).

Definition readDayTail (docs : option (list TradeRow.t)) (locate from to keep : Z)
    : option (tail Trade.t) :=
  docs ← docs;
  Some (fold_left (λ t d, if selected locate from to d then push (TradeRow.to_Trade d) t else t)
          docs (newTail zero_trade keep)).

(** The loop of [Read] over the day-files, newest first. *)
Fixpoint read_days (days : list DayFile.t) (locate from to remaining : Z) : option (list Trade.t) :=
  match days with
  | [] => Some []
  | df :: days =>
      if remaining >? 0 then
        t ← readDayTail df.(DayFile.Content) locate from to remaining;
        let dayTrades := newestFirst zero_trade t in
        rest ← read_days days locate from to (remaining - Z.of_nat (length dayTrades));
        Some (dayTrades ++ rest)
      else Some []
  end.

Definition Read (c : catalog) (f : ReadFilter.t) : option (list Trade.t) :=
  let limit := ClampLimit f.(ReadFilter.Limit) in
  let '(lo, hi) := window f.(ReadFilter.From) f.(ReadFilter.To) in
  read_days (reverse (Resolve c lo hi)) f.(ReadFilter.SymbolLocate)
    f.(ReadFilter.From) f.(ReadFilter.To) limit.

(** ** candles.go *)

Module candleAgg.
Record t := mk { open : float64; high : float64; low : float64; close : float64; volume : Z; count : Z }.
End candleAgg.

Definition agg_update (a : option candleAgg.t) (d : TradeRow.t) : candleAgg.t :=
  let p := d.(TradeRow.Price) in
  match a with
  | None => candleAgg.mk p p p p d.(TradeRow.Shares) 1
  | Some a =>
      candleAgg.mk a.(candleAgg.open)
        (if (p >? a.(candleAgg.high))%F then p else a.(candleAgg.high))
        (if (p <? a.(candleAgg.low))%F then p else a.(candleAgg.low))
        p
        (to_i64 (a.(candleAgg.volume) + d.(TradeRow.Shares)))
        (to_i64 (a.(candleAgg.count) + 1))
  end.

Definition bucketStart (secs : Z) (d : TradeRow.t) : Z :=
  Unix d.(TradeRow.ExecutedAt) - Z.rem (Unix d.(TradeRow.ExecutedAt)) secs.

Definition bucket_docs (docs : list TradeRow.t) (locate from to secs : Z) (before : option Z)
    : gmap Z candleAgg.t :=
  fold_left (λ buckets d,
    if selected locate from to d then
      let b := bucketStart secs d in
      if match before with Some t => b >=? Unix t | None => false end then buckets
      else <[b := agg_update (buckets !! b) d]> buckets
    else buckets) docs ∅.

Definition candle_of (p : Z * candleAgg.t) : Candle.t :=
  let '(start, a) := p in
  Candle.mk (start * second) a.(candleAgg.open) a.(candleAgg.high) a.(candleAgg.low)
    a.(candleAgg.close) a.(candleAgg.volume) a.(candleAgg.count).

Definition bucket_after (a b : Candle.t) : Prop := b.(Candle.Bucket) ≤ a.(Candle.Bucket).
Global Instance bucket_after_dec a b : Decision (bucket_after a b) := decide (_ ≤ _).

(** The map is listed in some order and sorted by bucket, newest first; the
    buckets are distinct, so every sort gives the same list. *)
Definition readDayCandles (docs : option (list TradeRow.t)) (locate from to secs : Z)
    (before : option Z) : option (list Candle.t) :=
  docs ← docs;
  Some (merge_sort bucket_after
          (candle_of <$> map_to_list (bucket_docs docs locate from to secs before))).

Fixpoint candle_days (days : list DayFile.t) (locate from to secs : Z) (before : option Z)
    (limit : Z) (result : list Candle.t) : option (list Candle.t) :=
  match days with
  | [] => Some result
  | df :: days =>
      if Z.of_nat (length result) <? limit then
        bars ← readDayCandles df.(DayFile.Content) locate from to secs before;
        candle_days days locate from to secs before limit (result ++ bars)
      else Some result
  end.

Definition ReadCandles (c : catalog) (locate from to secs limit : Z) (before : option Z)
    : option (list Candle.t) :=
  if secs <=? 0 then None
  else
    let limit := ClampLimit limit in
    let '(lo, hi) := window from to in
    result ← candle_days (reverse (Resolve c lo hi)) locate from to secs before limit [];
    Some (take (Z.to_nat limit) result).

(** ** history.go *)

(** The live reader a [History] wraps: what its methods return, [None] for an
    error.  [PgReader] is the implementation over the trades table. *)
Class TradeReader := {
  QueryTrades : TradeFilter.t → option (list Trade.t);
  QueryCandles : CandleFilter.t → option (list Candle.t);
}.

Definition PgReader (table : list TradeRow.t) : TradeReader := {|
  QueryTrades := Pg_QueryTrades table;
  QueryCandles := Pg_QueryCandles table;
|}.

Module Meta.
Record t := mk {
  RetentionDays : Z;
  ArchiveEnabled : bool;
  ArchiveMinDay : option Z;
  ArchiveMaxDay : option Z;
}.
End Meta.


Section history.
Context (live : TradeReader) (archive : catalog) (retentionDays : Z) (now : Z).

Definition archiveActive : bool := Enabled archive && (retentionDays >? 0).

(** [now.AddDate(0, 0, -retentionDays)], in UTC. *)
Definition cutoff : Z := now - retentionDays * day_ns.

Definition History_QueryTrades (f : TradeFilter.t) : option (list Trade.t) :=
  if negb archiveActive then QueryTrades f
  else
    let limit := ClampLimit f.(TradeFilter.Limit) in
    let offset := if f.(TradeFilter.Offset) <? 0 then 0 else f.(TradeFilter.Offset) in
    let need := if offset + limit >? MaxLimit then MaxLimit else offset + limit in
    combined ←
      (if match f.(TradeFilter.To) with None => true | Some t => negb (t <? cutoff) end then
         let liveFrom := match f.(TradeFilter.From) with
                         | Some t => if t >? cutoff then t else cutoff
                         | None => cutoff
                         end in
         QueryTrades (TradeFilter.mk f.(TradeFilter.SymbolLocate) need 0 (Some liveFrom) f.(TradeFilter.To))
       else Some []);
    combined ←
      (if (Z.of_nat (length combined) <? need)
          && match f.(TradeFilter.From) with None => true | Some t => t <? cutoff end then
         let archiveTo := match f.(TradeFilter.To) with
                          | Some t => if t <? cutoff - 1 then t else cutoff - 1
                          | None => cutoff - 1
                          end in
         let archiveFrom := default zero_time f.(TradeFilter.From) in
         cold ← Read archive (ReadFilter.mk f.(TradeFilter.SymbolLocate) archiveFrom archiveTo
                                (need - Z.of_nat (length combined)));
         Some (combined ++ cold)
       else Some combined);
    if offset >=? Z.of_nat (length combined) then Some []
    else
      let e := offset + limit in
      let e := if e >? Z.of_nat (length combined) then Z.of_nat (length combined) else e in
      Some (take (Z.to_nat (e - offset)) (drop (Z.to_nat offset) combined)).

Definition History_QueryCandles (f : CandleFilter.t) : option (list Candle.t) :=
  if negb archiveActive then QueryCandles f
  else
    secs ← IntervalSeconds f.(CandleFilter.Interval);
    let limit := ClampLimit f.(CandleFilter.Limit) in
    match Bounds archive with
    | None => QueryCandles f
    | Some (_, archiveMax) =>
        let split := archiveMax + day_ns in
        merged ←
          (if match f.(CandleFilter.To) with None => true | Some t => negb (t <? split) end then
             let liveFrom := match f.(CandleFilter.From) with
                             | Some t => if t >? split then t else split
                             | None => split
                             end in
             QueryCandles (CandleFilter.mk f.(CandleFilter.SymbolLocate) f.(CandleFilter.Interval)
               limit (Some liveFrom) f.(CandleFilter.To) f.(CandleFilter.Before) false)
           else Some []);
        merged ←
          (if (Z.of_nat (length merged) <? limit)
              && match f.(CandleFilter.From) with None => true | Some t => t <? split end then
             let archiveTo := match f.(CandleFilter.To) with
                              | Some t => if t <? split - 1 then t else split - 1
                              | None => split - 1
                              end in
             let archiveFrom := default zero_time f.(CandleFilter.From) in
             cold ← ReadCandles archive f.(CandleFilter.SymbolLocate) archiveFrom archiveTo secs
                      (limit - Z.of_nat (length merged)) f.(CandleFilter.Before);
             Some (merged ++ cold)
           else Some merged);
        let merged := if f.(CandleFilter.Fill) then FillCandles merged f secs limit else merged in
        Some (take (Z.to_nat limit) merged)
    end.

Definition HistoryMeta : Meta.t :=
  if Enabled archive then
    match Bounds archive with
    | Some (mn, mx) => Meta.mk retentionDays true (Some mn) (Some mx)
    | None => Meta.mk retentionDays true None None
    end
  else Meta.mk retentionDays false None None.

End history.
