(* ===== verification/ArchiveProps.v ===== *)
(** * The cold archive: what its readers return

    The ring buffer keeps the newest items, [Read] returns the newest matching
    trades of the whole archive, and [History] the page of the merged sequence. *)
From stdpp Require Import sorting.
From S2P Require Import Prelude Word Float64 GoSort Calendar Trades Archive.

Local Open Scope Z_scope.

(** ** The ring buffer *)

Section ring.
Context {A : Type} (zero : A).

Definition last_n (n : nat) (l : list A) : list A := drop (length l - n) l.

(** The retained items, oldest first. *)
Definition items (t : tail A) : list A :=
  (λ i, nth ((t.(head_) + i) `mod` length t.(buf)) t.(buf) zero) <$> seq 0 t.(count).

Record ring_ok (cap : nat) (t : tail A) : Prop := mk_ring_ok {
  ro_cap : length t.(buf) = cap;
  ro_count : (t.(count) ≤ cap)%nat;
  ro_head : (t.(head_) < cap)%nat;
}.

Lemma ring_index h c i :
  (h < c)%nat → (i < c)%nat →
  ((h + i) `mod` c)%nat = if decide (h + i < c)%nat then (h + i)%nat else (h + i - c)%nat.
Proof.
  intros Hh Hi. case_decide; [by apply Nat.mod_small|].
  replace (h + i)%nat with (h + i - c + 1 * c)%nat at 1 by lia.
  rewrite Nat.Div0.mod_add. apply Nat.mod_small. lia.
Qed.

Lemma nth_insert (l : list A) i j v :
  (i < length l)%nat → nth j (<[i := v]> l) zero = if decide (i = j) then v else nth j l zero.
Proof.
  intros Hi. rewrite !nth_lookup. case_decide as H.
  - subst. by rewrite list_lookup_insert_eq.
  - by rewrite list_lookup_insert_ne.
Qed.

Lemma items_length t : length (items t) = t.(count).
Proof. unfold items. by rewrite length_fmap, length_seq. Qed.

Lemma items_lookup t i :
  (i < t.(count))%nat → items t !! i = Some (nth ((t.(head_) + i) `mod` length t.(buf)) t.(buf) zero).
Proof. intros Hi. unfold items. by rewrite list_lookup_fmap, lookup_seq_lt. Qed.

Lemma items_eq t l :
  length l = t.(count) →
  (∀ i, (i < t.(count))%nat → l !! i = Some (nth ((t.(head_) + i) `mod` length t.(buf)) t.(buf) zero)) →
  items t = l.
Proof.
  intros Hlen H. apply list_eq. intros i. destruct (decide (i < t.(count))%nat) as [Hi|Hi].
  - rewrite items_lookup by done. symmetry. by apply H.
  - rewrite !lookup_ge_None_2; [done| |rewrite items_length]; lia.
Qed.

Lemma push_ok cap v t : ring_ok cap t → ring_ok cap (push v t).
Proof.
  intros [Hc Hn Hh]. unfold push. rewrite decide_False by lia.
  case_decide as Hlt; split; cbn; rewrite ?length_insert; try lia.
  rewrite Hc. apply Nat.mod_upper_bound. lia.
Qed.

Lemma push_items cap v t :
  ring_ok cap t →
  items (push v t) = (if decide (t.(count) < cap)%nat then items t else drop 1 (items t)) ++ [v].
Proof.
  intros [Hc Hn Hh]. unfold push. rewrite decide_False by lia. rewrite Hc.
  destruct (decide (t.(count) < cap)%nat) as [Hlt|Hge].
  - apply items_eq; cbn [count buf head_]; [rewrite length_app, items_length; cbn; lia|].
    intros i Hi. rewrite length_insert, Hc, nth_insert by (rewrite Hc; apply Nat.mod_upper_bound; lia).
    rewrite !ring_index by lia. destruct (decide (i = t.(count))) as [->|Hne].
    + rewrite (decide_True (P := _ = _)) by done.
      rewrite lookup_app_r by (rewrite items_length; lia). by rewrite items_length, Nat.sub_diag.
    + rewrite decide_False by (repeat case_decide; lia).
      rewrite lookup_app_l by (rewrite items_length; lia). rewrite items_lookup by lia.
      by rewrite Hc, ring_index by lia.
  - assert (t.(count) = cap) as Hfull by lia.
    apply items_eq; cbn [count buf head_].
    { rewrite length_app, length_drop, items_length. cbn. lia. }
    intros i Hi. rewrite length_insert, Hc, nth_insert by lia.
    assert (((t.(head_) + 1) `mod` cap + i) `mod` cap = (t.(head_) + (1 + i)) `mod` cap)%nat as ->
      by (rewrite Nat.Div0.add_mod_idemp_l; f_equal; lia).
    destruct (decide (i = cap - 1)%nat) as [->|Hne].
    + replace (t.(head_) + (1 + (cap - 1)))%nat with (t.(head_) + 1 * cap)%nat by lia.
      rewrite Nat.Div0.mod_add, Nat.mod_small, decide_True by done.
      rewrite lookup_app_r by (rewrite length_drop, items_length; lia).
      rewrite length_drop, items_length. replace (cap - 1 - (t.(count) - 1))%nat with 0%nat by lia. done.
    + rewrite ring_index by lia. rewrite decide_False by (case_decide; lia).
      rewrite lookup_app_l by (rewrite length_drop, items_length; lia).
      rewrite lookup_drop, items_lookup by lia. by rewrite Hc, ring_index by lia.
Qed.

Lemma last_n_app n (l : list A) v :
  (0 < n)%nat →
  last_n n (l ++ [v]) = (if decide (length (last_n n l) < n)%nat then last_n n l else drop 1 (last_n n l)) ++ [v].
Proof.
  intros Hn. unfold last_n. rewrite length_app, length_drop. cbn [length].
  case_decide as H.
  - replace (length l + 1 - n)%nat with 0%nat by lia. by replace (length l - n)%nat with 0%nat by lia.
  - rewrite drop_app_le by lia. rewrite drop_drop. do 2 f_equal. lia.
Qed.

Lemma push_all vs cap t l :
  ring_ok cap t → items t = last_n cap l →
  items (fold_left (λ t v, push v t) vs t) = last_n cap (l ++ vs) ∧
  ring_ok cap (fold_left (λ t v, push v t) vs t).
Proof.
  revert t l. induction vs as [|v vs IH]; intros t l Hok Hi; cbn [fold_left].
  { by rewrite app_nil_r. }
  replace (l ++ v :: vs) with ((l ++ [v]) ++ vs) by by rewrite <- app_assoc.
  apply IH; [by apply push_ok|]. rewrite (push_items cap) by done.
  pose proof (ro_head _ _ Hok). rewrite last_n_app by lia.
  rewrite <- Hi, items_length. done.
Qed.

Lemma push_zero (vs : list A) (t : tail A) : length t.(buf) = 0%nat → fold_left (λ t v, push v t) vs t = t.
Proof.
  intros H. induction vs as [|v vs IH]; [done|]. cbn [fold_left].
  assert (push v t = t) as -> by (unfold push; by rewrite decide_True). exact IH.
Qed.

Lemma tail_newest (cap : Z) (vs : list A) :
  newestFirst zero (fold_left (λ t v, push v t) vs (newTail zero cap)) = take (Z.to_nat cap) (reverse vs).
Proof.
  unfold newestFirst. fold (items (fold_left (λ t v, push v t) vs (newTail zero cap))).
  destruct (decide (0 < cap)) as [Hc|Hc].
  - unfold newTail. destruct (Z.ltb_spec cap 0); [lia|].
    edestruct (push_all vs (Z.to_nat cap) (mkTail (replicate (Z.to_nat cap) zero) 0 0) []) as [-> _].
    + split; cbn; rewrite ?length_replicate; lia.
    + done.
    + cbn [app]. unfold last_n. by rewrite take_reverse.
  - rewrite push_zero by (unfold newTail; case_match; cbn; rewrite length_replicate; lia).
    replace (Z.to_nat cap) with 0%nat by lia. done.
Qed.
End ring.

(** ** Reading the archive *)

Definition docs_of (df : DayFile.t) : list TradeRow.t := default [] df.(DayFile.Content).

(** Every archived row, in the order of the catalog. *)
Definition archived (c : catalog) : list TradeRow.t := concat (docs_of <$> Days c).

Definition time_le (a b : TradeRow.t) : Prop := a.(TradeRow.ExecutedAt) ≤ b.(TradeRow.ExecutedAt).

(** The files the archiver writes: one per UTC day, readable, with that day's
    rows in ascending order. *)
Record day_ok (df : DayFile.t) : Prop := mk_day_ok {
  dy_readable : is_Some df.(DayFile.Content);
  dy_midnight : (day_ns | df.(DayFile.Date));
  dy_rows : Forall (λ d, df.(DayFile.Date) ≤ d.(TradeRow.ExecutedAt) < df.(DayFile.Date) + day_ns ∧
                         earliest ≤ d.(TradeRow.ExecutedAt) ≤ latest) (docs_of df);
  dy_sorted : StronglySorted time_le (docs_of df);
}.

Definition archive_ok (files : list file) : Prop :=
  NoDup (DayFile.Date <$> day_files files) ∧ Forall day_ok (day_files files).

Lemma dayOf_spec t D : (day_ns | D) → D ≤ t < D + day_ns → dayOf t = D.
Proof.
  intros [k ->] H. unfold dayOf. f_equal. symmetry.
  apply (Z.div_unique_pos _ _ _ (t - k * day_ns)); [unfold day_ns, second in *; lia|lia].
Qed.

Lemma dayOf_mono a b : a ≤ b → dayOf a ≤ dayOf b.
Proof.
  intros H. unfold dayOf. apply Z.mul_le_mono_nonneg_r; [done|]. by apply Z.div_le_mono.
Qed.

Lemma Days_perm files : Days (Some files) ≡ₚ day_files files.
Proof. apply sort_slice_perm. Qed.

Lemma Days_ok files : archive_ok files → Forall day_ok (Days (Some files)).
Proof. intros [_ H]. by rewrite Days_perm. Qed.

Lemma dates_comparable dfs :
  NoDup (DayFile.Date <$> dfs) → ForallOrdPairs (comparable date_less) dfs.
Proof. apply keys_comparable. Qed.

(** Files with distinct paths are of distinct days. *)
Lemma paths_dates files : NoDup (rel <$> files) → NoDup (DayFile.Date <$> day_files files).
Proof.
  assert (∀ f D, parsed f = Some D → rel f = path_of_day (D / day_ns)) as Hpath.
  { intros f D. unfold parsed. destruct (day_of_path (rel f)) as [n|] eqn:E; [|done]. intros [= <-].
    apply day_of_path_iff in E as [_ ->]. by rewrite Z.div_mul. }
  induction files as [|f files IH]; [constructor|]. cbn [fmap list_fmap]. intros [Hn Hnd]%NoDup_cons.
  unfold day_files. cbn [omap list_omap]. destruct (parsed f) as [D|] eqn:E; cbn [fmap option_fmap option_map]; [|by apply IH].
  cbn [list_fmap DayFile.Date]. apply NoDup_cons. split; [|by apply IH].
  intros (df & -> & (f' & Hf' & Hdf)%list_elem_of_omap)%list_elem_of_fmap. apply Hn.
  destruct (parsed f') as [D'|] eqn:E'; [|done]. injection Hdf as <-. cbn in E.
  rewrite (Hpath _ _ E), <- (Hpath _ _ E'). by apply list_elem_of_fmap_2.
Qed.

Lemma Days_sorted files :
  archive_ok files → StronglySorted (λ a b, a.(DayFile.Date) < b.(DayFile.Date)) (Days (Some files)).
Proof.
  intros [Hnd _]. eapply ssorted_impl.
  2: { apply (sort_slice_sorted date_less); [unfold date_less; intros ???; rewrite !Z.ltb_lt; lia|].
       by apply dates_comparable. }
  intros a b. unfold lt_of, date_less. apply Z.ltb_lt.
Qed.

(** The rows of the whole archive are in ascending order. *)
Lemma archived_sorted files : archive_ok files → StronglySorted time_le (archived (Some files)).
Proof.
  intros Hok. pose proof (Days_ok _ Hok) as Hd. pose proof (Days_sorted _ Hok) as Hs.
  unfold archived. revert Hd. induction Hs as [|df dfs Hs IH Hdf]; intros Hd; [constructor|].
  apply Forall_cons in Hd as [Hd1 Hd]. cbn. apply StronglySorted_app_2; [|apply Hd1|by apply IH].
  intros x y Hx (l & Hy & (df2 & -> & Hdf2)%list_elem_of_fmap)%elem_of_concat.
  rewrite Forall_forall in Hdf, Hd. pose proof (dy_rows _ Hd1) as H1.
  pose proof (dy_rows _ (Hd _ Hdf2)) as H2. rewrite Forall_forall in H1, H2.
  specialize (Hdf _ Hdf2). destruct (H1 x Hx) as [? _], (H2 y Hy) as [? _].
  destruct (dy_midnight _ Hd1) as [k1 E1], (dy_midnight _ (Hd _ Hdf2)) as [k2 E2].
  unfold time_le. unfold day_ns, second in *. nia.
Qed.

(** The days [Resolve] leaves out hold no selected row. *)
Definition in_days (lo hi : Z) (df : DayFile.t) : bool :=
  negb ((df.(DayFile.Date) <? dayOf lo) || (df.(DayFile.Date) >? dayOf hi)).

Lemma resolve_filter c locate from to :
  Forall day_ok (Days c) →
  let '(lo, hi) := window from to in
  List.filter (selected locate from to) (archived c)
  = List.filter (selected locate from to) (concat (docs_of <$> Resolve c lo hi)).
Proof.
  intros Hok. unfold archived. rewrite !filter_concat, <- !list_fmap_compose.
  destruct (window from to) as [lo hi] eqn:Ew. unfold window in Ew. injection Ew as <- <-.
  assert (∀ df d, day_ok df → d ∈ docs_of df → selected locate from to d = true →
    (if IsZero from then earliest else from) ≤ d.(TradeRow.ExecutedAt) ≤ (if IsZero to then latest else to)
    ∧ dayOf d.(TradeRow.ExecutedAt) = df.(DayFile.Date)) as Hsel.
  { intros df d [_ Hm Hr _] Hd Hs. rewrite Forall_forall in Hr. destruct (Hr d Hd) as [? [??]].
    split; [|by apply dayOf_spec]. unfold selected in Hs.
    apply negb_true_iff, orb_false_iff in Hs as [[_ Hf]%orb_false_iff Ht].
    destruct (IsZero from), (IsZero to); cbn in *; rewrite ?Z.ltb_ge, ?Z.gtb_ltb, ?Z.ltb_ge in *; lia. }
  set (lo := if IsZero from then _ else _) in *. set (hi := if IsZero to then _ else _) in *.
  unfold Resolve. destruct (Z.gtb_spec lo hi) as [Hlt|Hle].
  - cbn. induction Hok as [|df dfs Hdf _ IH]; [done|]. cbn. rewrite IH, app_nil_r.
    apply filter_nil, Forall_forall. intros d Hd. apply not_true_is_false. intros Hs.
    destruct (Hsel df d Hdf Hd Hs). lia.
  - induction Hok as [|df dfs Hdf _ IH]; [done|]. cbn. rewrite IH.
    destruct (negb _) eqn:E; cbn; rewrite ?List.filter_app; [done|]. rewrite (filter_nil _ (docs_of df)); [done|].
    apply Forall_forall. intros d Hd. apply not_true_is_false. intros Hs.
    destruct (Hsel df d Hdf Hd Hs) as [[H1 H2] H3].
    apply dayOf_mono in H1, H2. rewrite H3 in *.
    apply negb_false_iff, orb_true_iff in E as [E|E]; rewrite ?Z.ltb_lt, ?Z.gtb_ltb, ?Z.ltb_lt in E; lia.
Qed.

Lemma read_days_spec ds locate from to rem :
  Forall day_ok ds →
  read_days ds locate from to rem = Some (take (Z.to_nat rem)
    (TradeRow.to_Trade <$> concat ((λ df, reverse (List.filter (selected locate from to) (docs_of df))) <$> ds))).
Proof.
  intros Hok. revert rem. induction Hok as [|df ds Hdf _ IH]; intros rem; cbn.
  { by rewrite take_nil. }
  destruct (Z.gtb_spec rem 0) as [Hr|Hr].
  - destruct (dy_readable _ Hdf) as [docs Hd]. unfold readDayTail. rewrite Hd. cbn.
    rewrite fold_filter, (fold_map TradeRow.to_Trade (λ t v, push v t)), tail_newest.
    rewrite IH. cbn. f_equal. unfold docs_of at 2. rewrite Hd. cbn.
    rewrite fmap_app, take_take_app, <- fmap_reverse.
    unfold reverse. f_equal. f_equal. lia.
  - by replace (Z.to_nat rem) with 0%nat by lia.
Qed.

Lemma Read_newest files f :
  archive_ok files →
  Read (Some files) f = Some (take (Z.to_nat (ClampLimit f.(ReadFilter.Limit)))
    (TradeRow.to_Trade <$> reverse (List.filter
      (selected f.(ReadFilter.SymbolLocate) f.(ReadFilter.From) f.(ReadFilter.To)) (archived (Some files))))).
Proof.
  intros Hok. pose proof (Days_ok _ Hok) as Hd. unfold Read.
  pose proof (resolve_filter (Some files) f.(ReadFilter.SymbolLocate) f.(ReadFilter.From) f.(ReadFilter.To) Hd) as H.
  destruct (window _ _) as [lo hi]. rewrite read_days_spec.
  - do 3 f_equal. rewrite H, filter_concat, reverse_concat, <- fmap_reverse, <- list_fmap_compose, <- fmap_reverse, <- list_fmap_compose. done.
  - rewrite Forall_forall in Hd |- *. intros x Hx. apply Hd. rewrite elem_of_reverse in Hx.
    unfold Resolve in Hx. case_match; [by apply elem_of_nil in Hx|].
    apply list_elem_of_In, List.filter_In in Hx as [Hx _]. by apply list_elem_of_In.
Qed.
