(* ===== verification/HistoryProps.v ===== *)
(** * Properties of the live and cold history

    [History] answers a trade query from two stores.  What it returns is the
    page of one newest-first sequence: the live rows at or after the retention
    cutoff followed by the archived rows before it. *)
From stdpp Require Import sorting.
From S2P Require Import Prelude Word Float64 GoSort Trades Archive ArchiveProps.

Local Open Scope Z_scope.

(** ** Limits, pages and filters *)

Lemma ClampLimit_range n : 1 ≤ ClampLimit n ≤ MaxLimit.
Proof.
  unfold ClampLimit, DefaultLimit, MaxLimit. destruct (Z.leb_spec n 0); [lia|].
  destruct (Z.gtb_spec n 1000); lia.
Qed.

Lemma ClampLimit_id n : 1 ≤ n ≤ MaxLimit → ClampLimit n = n.
Proof.
  unfold ClampLimit, MaxLimit. intros ?. destruct (Z.leb_spec n 0); [lia|].
  destruct (Z.gtb_spec n 1000); lia.
Qed.

Global Instance newer_total : Total newer.
Proof. intros a b. unfold newer. lia. Qed.
Global Instance newer_trans : Transitive newer.
Proof. intros a b c. unfold newer. lia. Qed.
Global Instance older_total : Total older.
Proof. intros a b. unfold older. lia. Qed.
Global Instance older_trans : Transitive older.
Proof. intros a b c. unfold older. lia. Qed.

Lemma filter_ext_elem {A} (p q : A → bool) l :
  (∀ x, x ∈ l → p x = q x) → List.filter p l = List.filter q l.
Proof. intros H. apply List.filter_ext_in. intros x Hx%list_elem_of_In. auto. Qed.

Lemma filter_filter {A} (p q : A → bool) l :
  List.filter p (List.filter q l) = List.filter (λ x, q x && p x) l.
Proof. induction l as [|x l IH]; [done|]. cbn. destruct (q x); cbn; by rewrite IH. Qed.

Lemma elem_of_filter_bool {A} (p : A → bool) l x : x ∈ List.filter p l ↔ x ∈ l ∧ p x = true.
Proof. by rewrite !list_elem_of_In, List.filter_In. Qed.

Lemma list_filter_reverse {A} (p : A → bool) l : List.filter p (reverse l) = reverse (List.filter p l).
Proof.
  induction l as [|x l IH]; [done|]. rewrite reverse_cons, List.filter_app, IH. cbn [List.filter].
  destruct (p x); [by rewrite reverse_cons|by rewrite app_nil_r].
Qed.

Lemma ssorted_filter {A} (R : A → A → Prop) (p : A → bool) l :
  StronglySorted R l → StronglySorted R (List.filter p l).
Proof.
  induction 1 as [|x l _ IH Hx]; cbn; [constructor|]. case_match; [|done]. constructor; [done|].
  rewrite Forall_forall in Hx |- *. intros y [Hy _]%elem_of_filter_bool. by apply Hx.
Qed.

Lemma ssorted_reverse {A} (R : A → A → Prop) l :
  StronglySorted R l → StronglySorted (flip R) (reverse l).
Proof.
  induction 1 as [|x l _ IH Hx]; [constructor|]. rewrite reverse_cons.
  apply StronglySorted_app_2; [|done|repeat constructor].
  intros y z Hy ->%list_elem_of_singleton. apply (proj1 (elem_of_reverse _ _)) in Hy.
  rewrite Forall_forall in Hx. by apply Hx.
Qed.

(** A page does not look past the rows it needs. *)
Lemma page_take {A} (limit offset need : Z) (l : list A) :
  0 ≤ limit → 0 ≤ offset → offset + limit ≤ need →
  page limit offset (take (Z.to_nat need) l) = page limit offset l.
Proof.
  intros ???. unfold page.
  apply list_eq. intros i. destruct (decide (i < Z.to_nat limit)%nat).
  - rewrite !lookup_take_lt, !lookup_drop, lookup_take_lt by lia. done.
  - by rewrite !lookup_take_ge by lia.
Qed.

(** The slice [combined[offset:end]] with its bounds clipped. *)
Lemma clipped_slice {A} (limit offset : Z) (l : list A) :
  0 ≤ limit → 0 ≤ offset →
  (if offset >=? Z.of_nat (length l) then Some []
   else
     let e := offset + limit in
     let e := if e >? Z.of_nat (length l) then Z.of_nat (length l) else e in
     Some (take (Z.to_nat (e - offset)) (drop (Z.to_nat offset) l)))
  = Some (page limit offset l).
Proof.
  intros ??. unfold page. rewrite Z.geb_leb. destruct (Z.leb_spec (Z.of_nat (length l)) offset).
  - by rewrite drop_ge, take_nil by lia.
  - cbn zeta. destruct (Z.gtb_spec (offset + limit) (Z.of_nat (length l))).
    + f_equal. rewrite !take_ge; rewrite ?length_drop; [done|lia..].
    + do 2 f_equal. lia.
Qed.

(** ** The merged sequence *)

Definition row_time (r : TradeRow.t) : Z := r.(TradeRow.ExecutedAt).

(** Rows of the requested symbol and range. *)
Definition wanted (f : TradeFilter.t) (r : TradeRow.t) : bool :=
  of_symbol f.(TradeFilter.SymbolLocate) r && in_range f.(TradeFilter.From) f.(TradeFilter.To) r.

Definition typed (r : TradeRow.t) : Prop := is_s 16 r.(TradeRow.SymbolLocate).

Lemma symbol_columns locate r :
  is_u 16 locate → typed r → (to_u16 r.(TradeRow.SymbolLocate) =? locate) = of_symbol locate r.
Proof.
  intros Hl Hr. unfold of_symbol. unfold typed in Hr. apply eq_true_iff_eq. rewrite !Z.eqb_eq. split.
  - intros <-. by rewrite uwrap_swrap by (done || lia).
  - intros ->. by apply swrap_uwrap.
Qed.

Section queries.
Context (table : list TradeRow.t) (files : list file) (retentionDays now : Z).
Context (Hok : archive_ok files) (Hactive : 0 < retentionDays).
Context (Htyped : Forall typed (archived (Some files))).

Let cut := cutoff retentionDays now.

(** The part of each store a query may read, newest first. *)
Definition live_part (f : TradeFilter.t) : list TradeRow.t :=
  merge_sort newer (List.filter (λ r, wanted f r && (cut <=? row_time r)) table).
Definition cold_part (f : TradeFilter.t) : list TradeRow.t :=
  reverse (List.filter (λ r, wanted f r && (row_time r <? cut)) (archived (Some files))).

Lemma live_branch f need :
  1 ≤ need ≤ MaxLimit →
  (if match f.(TradeFilter.To) with None => true | Some t => negb (t <? cut) end then
     QueryTrades (TradeReader := PgReader table)
       (TradeFilter.mk f.(TradeFilter.SymbolLocate) need 0
         (Some (match f.(TradeFilter.From) with Some t => if t >? cut then t else cut | None => cut end))
         f.(TradeFilter.To))
   else Some [])
  = Some (TradeRow.to_Trade <$> take (Z.to_nat need) (live_part f)).
Proof.
  intros Hneed. destruct (match f.(TradeFilter.To) with None => true | Some t => negb (t <? cut) end) eqn:E.
  - cbn. unfold Pg_QueryTrades. cbn. rewrite ClampLimit_id by done. unfold page. rewrite drop_0.
    do 3 f_equal. unfold live_part. f_equal. apply filter_ext_elem. intros r _.
    unfold wanted, in_range, at_or_after, row_time. destruct f as [sym lim off [fr|] to]; cbn.
    + destruct (Z.gtb_spec fr cut), (of_symbol sym r), (at_or_before to (TradeRow.ExecutedAt r)); cbn;
        rewrite ?andb_true_r, ?andb_false_r; try done; apply eq_true_iff_eq;
        rewrite ?andb_true_iff, !Z.leb_le; lia.
    + destruct (of_symbol sym r), (at_or_before to (TradeRow.ExecutedAt r)); cbn;
        by rewrite ?andb_true_r, ?andb_false_r.
  - unfold live_part. rewrite filter_nil; [by rewrite (take_nil (A := TradeRow.t))|].
    apply Forall_forall. intros r _. unfold wanted, in_range, at_or_before, row_time.
    destruct f as [sym lim off fr [t|]]; cbn in *; [|done]. apply negb_false_iff, Z.ltb_lt in E.
    destruct (Z.leb_spec (TradeRow.ExecutedAt r) t); rewrite ?andb_false_r; [|done].
    destruct (Z.leb_spec cut (TradeRow.ExecutedAt r)); [lia|]. by rewrite andb_false_r.
Qed.

Lemma archived_elem r :
  r ∈ archived (Some files) → earliest ≤ row_time r ≤ latest ∧ typed r.
Proof.
  intros Hr. rewrite Forall_forall in Htyped. split; [|by apply Htyped].
  pose proof (Days_ok _ Hok) as Hd. unfold archived in Hr.
  apply elem_of_concat in Hr as (l & Hr & (df & -> & Hdf)%list_elem_of_fmap).
  rewrite Forall_forall in Hd. pose proof (dy_rows _ (Hd _ Hdf)) as H. rewrite Forall_forall in H.
  by apply H.
Qed.

(** The rows the archive reader selects up to [archiveTo]. *)
Lemma cold_filter f :
  is_u 16 f.(TradeFilter.SymbolLocate) → earliest < cut → f.(TradeFilter.To) ≠ Some zero_time →
  List.filter (selected f.(TradeFilter.SymbolLocate) (default zero_time f.(TradeFilter.From))
     (match f.(TradeFilter.To) with Some t => if t <? cut - 1 then t else cut - 1 | None => cut - 1 end))
    (archived (Some files))
  = List.filter (λ r, wanted f r && (row_time r <? cut)) (archived (Some files)).
Proof.
  intros Hsym Hcut Hto. apply filter_ext_elem. intros r Hr. destruct (archived_elem r Hr) as [[He Hl] Ht].
  unfold selected, wanted, row_time, in_range, at_or_after, at_or_before in *.
  rewrite symbol_columns by done. destruct (of_symbol _ r); [cbn|done].
  set (t := TradeRow.ExecutedAt r) in *. unfold IsZero. fold zero_time.
  assert (zero_time < earliest) by (vm_compute; done).
  assert (Hf : (negb (default zero_time f.(TradeFilter.From) =? zero_time)
     && (t <? default zero_time f.(TradeFilter.From)))
     = negb (match f.(TradeFilter.From) with Some x => x <=? t | None => true end)).
  { destruct f.(TradeFilter.From) as [x|]; cbn [default from_option]; [|by rewrite Z.eqb_refl].
    unfold id. destruct (Z.eqb_spec x zero_time), (Z.leb_spec x t), (Z.ltb_spec t x); cbn; try done; lia. }
  rewrite Hf. clear Hf. destruct (match f.(TradeFilter.From) with Some x => x <=? t | None => true end); cbn; [|done].
  destruct f.(TradeFilter.To) as [x|].
  - destruct (Z.ltb_spec x (cut - 1)).
    + destruct (Z.eqb_spec x zero_time), (Z.gtb_spec t x), (Z.leb_spec t x), (Z.ltb_spec t cut);
        cbn; try done; lia || congruence.
    + destruct (Z.eqb_spec (cut - 1) zero_time), (Z.gtb_spec t (cut - 1)), (Z.leb_spec t x), (Z.ltb_spec t cut);
        cbn; try done; lia.
  - destruct (Z.eqb_spec (cut - 1) zero_time), (Z.gtb_spec t (cut - 1)), (Z.ltb_spec t cut); cbn; try done; lia.
Qed.

Lemma cold_branch f k :
  is_u 16 f.(TradeFilter.SymbolLocate) → earliest < cut → f.(TradeFilter.To) ≠ Some zero_time →
  1 ≤ k ≤ MaxLimit →
  Read (Some files) (ReadFilter.mk f.(TradeFilter.SymbolLocate) (default zero_time f.(TradeFilter.From))
    (match f.(TradeFilter.To) with Some t => if t <? cut - 1 then t else cut - 1 | None => cut - 1 end) k)
  = Some (TradeRow.to_Trade <$> take (Z.to_nat k) (cold_part f)).
Proof.
  intros Hsym Hcut Hto Hk. rewrite Read_newest by done. cbn [ReadFilter.SymbolLocate ReadFilter.From ReadFilter.To ReadFilter.Limit].
  rewrite cold_filter by done. rewrite ClampLimit_id by done. unfold cold_part. by rewrite fmap_take.
Qed.

Lemma no_cold f t : f.(TradeFilter.From) = Some t → cut ≤ t → cold_part f = [].
Proof.
  intros Hf Ht. unfold cold_part. rewrite filter_nil; [done|]. apply Forall_forall. intros r _.
  unfold wanted, in_range, at_or_after, row_time. rewrite Hf.
  destruct (Z.leb_spec t (TradeRow.ExecutedAt r)), (Z.ltb_spec (TradeRow.ExecutedAt r) cut);
    rewrite ?andb_false_r; try done; lia.
Qed.

(** The page of the merged sequence, whatever the stores hold. *)
Lemma History_page f :
  is_u 16 f.(TradeFilter.SymbolLocate) → earliest < cut → f.(TradeFilter.To) ≠ Some zero_time →
  History_QueryTrades (PgReader table) (Some files) retentionDays now f
  = Some (TradeRow.to_Trade <$>
      page (ClampLimit f.(TradeFilter.Limit)) (Z.max 0 f.(TradeFilter.Offset))
        (take (Z.to_nat MaxLimit) (live_part f ++ cold_part f))).
Proof.
  intros Hsym Hcut Hto. unfold History_QueryTrades, archiveActive, Enabled.
  rewrite bool_decide_true by done. destruct (Z.gtb_spec retentionDays 0); [|lia]. cbn [andb negb].
  pose proof (ClampLimit_range f.(TradeFilter.Limit)) as Hlim.
  set (limit := ClampLimit _) in *.
  assert ((if f.(TradeFilter.Offset) <? 0 then 0 else f.(TradeFilter.Offset)) = Z.max 0 f.(TradeFilter.Offset)) as ->
    by (destruct (Z.ltb_spec f.(TradeFilter.Offset) 0); lia).
  set (offset := Z.max 0 _). set (need := if offset + limit >? MaxLimit then MaxLimit else offset + limit).
  assert (need = Z.min MaxLimit (offset + limit)) as Hneed
    by (subst need; destruct (Z.gtb_spec (offset + limit) MaxLimit); lia).
  assert (0 ≤ offset) by lia.
  fold cut. rewrite (live_branch f need) by (unfold MaxLimit in *; lia). cbn [mbind option_bind].
  set (L := live_part f). set (C := cold_part f).
  match goal with |- ?m ≫= _ = _ =>
    assert (m = Some (TradeRow.to_Trade <$> take (Z.to_nat need) (L ++ C))) as -> end.
  { rewrite length_fmap, length_take, take_take_app, length_take.
    destruct (Z.ltb_spec (Z.of_nat (Z.to_nat need `min` length L)) need) as [Hlt|Hge]; cbn [andb].
    - destruct (match f.(TradeFilter.From) with None => true | Some t => t <? cut end) eqn:E.
      + rewrite cold_branch by (done || (unfold MaxLimit in *; lia)). cbn [mbind option_bind].
        rewrite fmap_app. do 3 f_equal. f_equal. lia.
      + destruct f.(TradeFilter.From) as [t|] eqn:Ef; [|done]. apply Z.ltb_ge in E.
        subst C. rewrite (no_cold f t) by done. by rewrite take_nil, app_nil_r.
    - replace (Z.to_nat need - Z.to_nat need `min` length L)%nat with 0%nat by lia.
      by rewrite take_0, app_nil_r. }
  cbn [mbind option_bind]. rewrite clipped_slice by lia. unfold page. rewrite <- fmap_drop, <- fmap_take. do 2 f_equal.
  change (page limit offset (take (Z.to_nat need) (L ++ C)) = page limit offset (take (Z.to_nat MaxLimit) (L ++ C))).
  destruct (Z.le_gt_cases MaxLimit (offset + limit)).
  - replace need with MaxLimit by lia. done.
  - rewrite Hneed, Z.min_r by lia. rewrite !page_take by (unfold MaxLimit in *; lia). done.
Qed.

Lemma live_sorted f : StronglySorted newer (live_part f).
Proof. apply StronglySorted_merge_sort; apply _. Qed.

Lemma cold_sorted f : StronglySorted newer (cold_part f).
Proof.
  unfold cold_part. apply (ssorted_impl (flip time_le)); [done|]. apply ssorted_reverse, ssorted_filter.
  by apply archived_sorted.
Qed.

Lemma merged_sorted f : StronglySorted newer (live_part f ++ cold_part f).
Proof.
  apply StronglySorted_app_2; [|apply live_sorted|apply cold_sorted].
  intros x y Hx Hy. unfold live_part in Hx. rewrite merge_sort_Permutation in Hx.
  unfold cold_part in Hy. rewrite elem_of_reverse in Hy.
  apply elem_of_filter_bool in Hx as [_ [_ Hx]%andb_true_iff].
  apply elem_of_filter_bool in Hy as [_ [_ Hy]%andb_true_iff].
  apply Z.leb_le in Hx. apply Z.ltb_lt in Hy. unfold newer, row_time in *. lia.
Qed.

Lemma merged_perm f all :
  all ≡ₚ List.filter (λ r, cut <=? row_time r) table ++
         List.filter (λ r, row_time r <? cut) (archived (Some files)) →
  live_part f ++ cold_part f ≡ₚ List.filter (wanted f) all.
Proof.
  intros H. rewrite (filter_perm _ _ _ H), List.filter_app, !filter_filter.
  unfold live_part, cold_part. rewrite merge_sort_Permutation, reverse_Permutation.
  f_equiv; erewrite filter_ext_elem; [done|intros; apply andb_comm|done|intros; apply andb_comm].
Qed.
End queries.

(** C17. Trades across the live and cold stores: if the rows recorded are exactly
    the live rows at or after the retention cutoff and the archived rows before
    it, a trade query answers with the requested page of one newest-first
    sequence of all rows of that symbol and range (limits clamped, a negative
    offset read as 0, the first [MaxLimit] rows at most), whichever of the two
    stores the page comes from. *)
Theorem History_QueryTrades_spec (table all : list TradeRow.t) (files : list file)
    (retentionDays now : Z) (f : TradeFilter.t)
    (Hok : archive_ok files) (Htyped : Forall typed (archived (Some files)))
    (Hactive : 0 < retentionDays) (Hcut : earliest < cutoff retentionDays now)
    (Hsym : is_u 16 f.(TradeFilter.SymbolLocate)) (Hto : f.(TradeFilter.To) ≠ Some zero_time)
    (Hall : all ≡ₚ List.filter (λ r, cutoff retentionDays now <=? row_time r) table ++
                   List.filter (λ r, row_time r <? cutoff retentionDays now) (archived (Some files))) :
  ∃ full, full ≡ₚ List.filter (wanted f) all ∧ StronglySorted newer full ∧
    History_QueryTrades (PgReader table) (Some files) retentionDays now f
    = Some (TradeRow.to_Trade <$>
        page (ClampLimit f.(TradeFilter.Limit)) (Z.max 0 f.(TradeFilter.Offset))
          (take (Z.to_nat MaxLimit) full)).
Proof.
  exists (live_part table retentionDays now f ++ cold_part files retentionDays now f).
  split_and!; [by apply merged_perm|by apply merged_sorted|by apply History_page].
Qed.

(** A store with one archived day and one live row. *)
Definition demo_row (k t : Z) : TradeRow.t := TradeRow.mk k 7 "LEDG" fzero 100 "B" t.
Definition demo_files : list file := [mkFile "1970/01/01.jsonl.gz" (Some [demo_row 1 5; demo_row 2 9])].
Definition demo_table : list TradeRow.t := [demo_row 3 (3 * day_ns)].
Definition demo_filter : TradeFilter.t := TradeFilter.mk 7 10 1 None None.

Lemma demo_archive_ok : archive_ok demo_files.
Proof.
  split; [repeat constructor; set_solver|]. constructor; [|done].
  split; [by eexists|by exists 0| |].
  - repeat constructor; vm_compute; done.
  - repeat constructor; vm_compute; done.
Qed.

Lemma History_QueryTrades_spec_witness :
  let all := demo_table ++ [demo_row 1 5; demo_row 2 9] in
  ∃ full, full ≡ₚ List.filter (wanted demo_filter) all ∧ StronglySorted newer full ∧
    History_QueryTrades (PgReader demo_table) (Some demo_files) 2 (4 * day_ns) demo_filter
    = Some (TradeRow.to_Trade <$>
        page (ClampLimit demo_filter.(TradeFilter.Limit)) (Z.max 0 demo_filter.(TradeFilter.Offset))
          (take (Z.to_nat MaxLimit) full)).
Proof.
  apply (History_QueryTrades_spec demo_table _ demo_files 2 (4 * day_ns) demo_filter);
    [apply demo_archive_ok|repeat constructor; vm_compute; done|lia|vm_compute; reflexivity
    |split; vm_compute; congruence|done|reflexivity].
Defined.
