(* ===== verification/Archiver.v ===== *)
(** * internal/archive/archiver.go and the pruning of internal/persist/retention.go

    The durable state: the rows of the trades table, the archive cursor and the
    day-files, by the midnight of their day.  A day-file appears complete under
    its name by the rename that ends [commit], so an aborted one leaves no
    trace.  Each day's work can fail at three points ([fault]); saving the cursor
    can fail too and is then only logged. *)
From stdpp Require Import sorting.
From S2P Require Import Prelude Word Float64 GoSort Calendar Trades Archive.

Local Open Scope Z_scope.

Record store := mkStore {
  trades : list TradeRow.t;
  cursor : option Z;
  day_file : gmap Z (list TradeRow.t);
}.

Definition dayUTC (t : Z) : Z := t / day_ns * day_ns.

(** The name [newDayWriter] gives the file of a day, under <dir>/trades. *)
Definition day_path (day : Z) : string := path_of_day (day / day_ns).

(** [WHERE executed_at >= $1 AND executed_at < $2] *)
Definition in_day (day next : Z) (r : TradeRow.t) : bool :=
  (day <=? r.(TradeRow.ExecutedAt)) && (r.(TradeRow.ExecutedAt) <? next).

(** Where a day's work fails: while rows are read or written to the temporary
    file or at its commit, or at the DELETE after the commit. *)
Inductive fault := NoFault | WriteFault | DeleteFault.

(** [archiveDay]: the state after, and the count or the error. *)
Definition archiveDay (flt : fault) (day next : Z) (s : store) : store * option Z :=
  let rows := merge_sort older (List.filter (in_day day next) s.(trades)) in
  match flt with
  | WriteFault => (s, None)
  | _ =>
      if decide (rows = []) then (s, Some 0)
      else
        let s := mkStore s.(trades) s.(cursor) (<[day := rows]> s.(day_file)) in
        match flt with
        | DeleteFault => (s, None)
        | _ => (mkStore (List.filter (λ r, negb (in_day day next r)) s.(trades)) s.(cursor) s.(day_file),
                Some (Z.of_nat (length rows)))
        end
  end.

Definition saveCursor (saved : bool) (t : Z) (s : store) : store :=
  if saved then mkStore s.(trades) (Some t) s.(day_file) else s.

Definition min_time (rows : list TradeRow.t) : option Z :=
  match rows with
  | [] => None
  | r :: rows => Some (fold_left (λ m r, Z.min m r.(TradeRow.ExecutedAt)) rows r.(TradeRow.ExecutedAt))
  end.

Definition startDay (s : store) : option Z :=
  match s.(cursor) with
  | Some c => Some (dayUTC c)
  | None => dayUTC <$> min_time s.(trades)
  end.

(** The loop of [cycle]: the state after, and whether it reached [cutoffDay].
    [flt] and [saved] say, for each day, what fails. *)
Fixpoint cycle_loop (fuel : nat) (flt : Z → fault) (saved : Z → bool) (day cutoffDay : Z) (s : store)
    : store * bool :=
  if day <? cutoffDay then
    match fuel with
    | O => (s, false)
    | S fuel' =>
        let next := day + day_ns in
        match archiveDay (flt day) day next s with
        | (s, None) => (s, false)
        | (s, Some _) => cycle_loop fuel' flt saved next cutoffDay (saveCursor (saved day) next s)
        end
    end
  else (s, true).

(** The archiving part of [cycle] at instant [now], up to the call of [rotate], with
    [maxAge] in nanoseconds: the state after, and whether that call is reached.  An
    error before the loop leaves everything as it is; a cancellation inside it is a
    failure at the next day. *)
Definition cycle_days (flt : Z → fault) (saved : Z → bool) (maxAge now : Z) (s : store) : store * bool :=
  let cutoffDay := dayUTC (now - maxAge) in
  match startDay s with
  | None => (s, false)
  | Some day => cycle_loop (Z.to_nat ((cutoffDay - day) / day_ns)) flt saved day cutoffDay s
  end.

(** ** rotate *)

(** What a rotation meets on the disk besides the day-files it can see and remove:
    the other files under <dir>/trades with their sizes, such as the temporary file a
    failed [commit] leaves; the day-files the walk gets an error for, and passes over;
    the files [os.Remove] fails on. *)
Record surroundings := mkSur {
  others : list (string * Z);
  unseen : string → bool;
  stuck : string → bool;
}.

Definition clean : surroundings := mkSur [] (λ _, false) (λ _, false).

(** [entry] of [rotate], and the day whose file it is, if it is one. *)
Record dir_entry := mkEntry { e_path : string; e_size : Z; e_day : option Z }.

Section rotate.
(** The size of a day-file on disk, after gzip. *)
Context (file_size : list TradeRow.t → Z).

(** [filepath.Walk]: [files], and their [total]. *)
Definition walk (e : surroundings) (m : gmap Z (list TradeRow.t)) : list dir_entry :=
  ((λ p, mkEntry (day_path p.1) (file_size p.2) (Some p.1))
    <$> List.filter (λ p, negb (e.(unseen) (day_path p.1))) (map_to_list m)) ++
  ((λ p, mkEntry p.1 p.2 None) <$> e.(others)).

Definition total_size (l : list dir_entry) : Z := fold_right (λ f n, f.(e_size) + n) 0 l.

Definition path_less (a b : dir_entry) : bool := string_less a.(e_path) b.(e_path).

Definition drop_entry (f : dir_entry) (m : gmap Z (list TradeRow.t)) : gmap Z (list TradeRow.t) :=
  match f.(e_day) with Some D => delete D m | None => m end.

(** The deletions, oldest file first, until [total <= maxBytes]. *)
Fixpoint rotate_loop (e : surroundings) (maxBytes total : Z) (l : list dir_entry)
    (m : gmap Z (list TradeRow.t)) : gmap Z (list TradeRow.t) :=
  match l with
  | [] => m
  | f :: l =>
      if total <=? maxBytes then m
      else if e.(stuck) f.(e_path) then rotate_loop e maxBytes total l m
      else rotate_loop e maxBytes (total - f.(e_size)) l (drop_entry f m)
  end.

(** By path, of which the code says that it sorts like the date. *)
Definition rotate (e : surroundings) (maxBytes : Z) (s : store) : store :=
  let files := walk e s.(day_file) in
  let total := total_size files in
  if total <=? maxBytes then s
  else mkStore s.(trades) s.(cursor) (rotate_loop e maxBytes total (sort_slice path_less files) s.(day_file)).

Definition cycle (e : surroundings) (flt : Z → fault) (saved : Z → bool) (maxBytes maxAge now : Z) (s : store) : store :=
  match cycle_days flt saved maxAge now s with
  | (s, true) => rotate e maxBytes s
  | (s, false) => s
  end.
End rotate.

(** ** retention.go: [prune] *)

Definition prune (retentionDays now : Z) (s : store) : store :=
  let cutoff := now - retentionDays * day_ns in
  mkStore (List.filter (λ r, negb (r.(TradeRow.ExecutedAt) <? cutoff)) s.(trades)) s.(cursor) s.(day_file).

(** ** Writing trades: snapshot.go, [SaveTrade] *)

(** [ON CONFLICT (match_number) DO NOTHING] *)
Definition insert_trade (r : TradeRow.t) (s : store) : store :=
  if existsb (λ x, x.(TradeRow.MatchNumber) =? r.(TradeRow.MatchNumber)) s.(trades) then s
  else mkStore (r :: s.(trades)) s.(cursor) s.(day_file).

(** The archive as its readers see it. *)
Definition catalog_of (s : store) : catalog :=
  Some ((λ p, mkFile (day_path p.1) (Some p.2)) <$> map_to_list s.(day_file)).
