(* ===== verification/ArchiverProps.v ===== *)
(** * Properties of the archiver and of its interplay with pruning and queries

    Archiving alone never loses a trade, whatever fails; rotation keeps the
    newest files within the budget. *)
From stdpp Require Import sorting.
From S2P Require Import Prelude Word Float64 GoSort Calendar Trades Archive ArchiveProps HistoryProps Archiver.

Local Open Scope Z_scope.

(** ** Nothing is lost *)

(** The row is in the table or in its day-file. *)
Definition stored (r : TradeRow.t) (s : store) : Prop :=
  r ∈ s.(trades) ∨ ∃ D rows, s.(day_file) !! D = Some rows ∧ r ∈ rows.

Definition midnight (D : Z) : Prop := (day_ns | D).
Global Instance midnight_dec D : Decision (midnight D).
Proof. refine (cast_if (decide (D mod day_ns = 0))); unfold midnight; by rewrite <- Z.mod_divide. Defined.

(** A day-file belongs to a day over before [bound], and is either a copy of
    rows still in the table or the only copy of a day with no row left there. *)
Record consistent (bound : Z) (s : store) : Prop := mk_consistent {
  cs_day : ∀ D rows, s.(day_file) !! D = Some rows → midnight D ∧ D + day_ns ≤ bound;
  cs_rows : ∀ D rows r, s.(day_file) !! D = Some rows → r ∈ rows → in_day D (D + day_ns) r = true;
  cs_copy : ∀ D rows, s.(day_file) !! D = Some rows →
    (∀ r, r ∈ rows → r ∈ s.(trades)) ∨ (∀ r, r ∈ s.(trades) → in_day D (D + day_ns) r = false);
  cs_sorted : ∀ D rows, s.(day_file) !! D = Some rows → rows ≠ [] ∧ StronglySorted older rows;
}.

Lemma day_rows_elem D next s r :
  r ∈ merge_sort older (List.filter (in_day D next) s.(trades)) ↔
  r ∈ s.(trades) ∧ in_day D next r = true.
Proof. by rewrite merge_sort_Permutation, elem_of_filter_bool. Qed.

Lemma no_rows D next s :
  merge_sort older (List.filter (in_day D next) s.(trades)) = [] →
  ∀ r, r ∈ s.(trades) → in_day D next r = false.
Proof.
  intros E r Hr. apply not_true_is_false. intros Hin.
  assert (r ∈ merge_sort older (List.filter (in_day D next) s.(trades))) as H
    by by apply day_rows_elem. rewrite E in H. by apply elem_of_nil in H.
Qed.

Lemma in_day_unique D D' r :
  midnight D → midnight D' → in_day D (D + day_ns) r = true → in_day D' (D' + day_ns) r = true → D = D'.
Proof.
  intros [k ->] [k' ->]. unfold in_day. rewrite !andb_true_iff, !Z.leb_le, !Z.ltb_lt.
  unfold day_ns, second. intros. f_equal. nia.
Qed.

(** Writing the day-file of [D] with the rows of the table, and deleting them. *)
Lemma write_file_keeps D bound s :
  midnight D → D + day_ns ≤ bound → consistent bound s →
  let rows := merge_sort older (List.filter (in_day D (D + day_ns)) s.(trades)) in
  rows ≠ [] →
  let s1 := mkStore s.(trades) s.(cursor) (<[D := rows]> s.(day_file)) in
  consistent bound s1 ∧ ∀ r, stored r s → stored r s1.
Proof.
  intros HD Hb [Hc1 Hc2 Hc3 Hc4] rows Hne s1.
  assert (∀ r, r ∈ rows ↔ r ∈ s.(trades) ∧ in_day D (D + day_ns) r = true) as Hrows
    by apply day_rows_elem.
  split.
  - split; cbn; intros D' rows'; destruct (decide (D = D')) as [<-|Hd];
      rewrite ?lookup_insert_eq, ?lookup_insert_ne by done.
    + by intros [= <-].
    + apply Hc1.
    + by intros r [= <-] [_ ?]%Hrows.
    + intros r. apply Hc2.
    + intros [= <-]. left. by intros r [? _]%Hrows.
    + apply Hc3.
    + intros [= <-]. split; [done|]. apply StronglySorted_merge_sort; apply _.
    + apply Hc4.
  - intros r [Hr|(D' & rows' & H & Hr)]; [by left|]. destruct (decide (D = D')) as [<-|Hd].
    + left. destruct (Hc3 _ _ H) as [Hcopy|Hgone]; [by apply Hcopy|].
      destruct rows as [|x l]; [done|]. destruct (proj1 (Hrows x)) as [Hx Hin]; [by left|].
      rewrite (Hgone x Hx) in Hin. done.
    + right. exists D', rows'. split; [|done]. cbn. by rewrite lookup_insert_ne.
Qed.

Lemma delete_day_keeps D bound s rows :
  midnight D → consistent bound s → s.(day_file) !! D = Some rows →
  (∀ r, r ∈ s.(trades) → in_day D (D + day_ns) r = true → r ∈ rows) →
  let s1 := mkStore (List.filter (λ r, negb (in_day D (D + day_ns) r)) s.(trades)) s.(cursor) s.(day_file) in
  consistent bound s1 ∧ ∀ r, stored r s → stored r s1.
Proof.
  intros HD [Hc1 Hc2 Hc3 Hc4] Hfile Hall s1.
  assert (∀ r, r ∈ s1.(trades) ↔ r ∈ s.(trades) ∧ in_day D (D + day_ns) r = false) as Hleft
    by (intros r; cbn; by rewrite elem_of_filter_bool, negb_true_iff).
  split.
  - split; [exact Hc1|exact Hc2| |exact Hc4]. intros D' rows' H. destruct (decide (D = D')) as [<-|Hd].
    { right. by intros r [_ ?]%Hleft. }
    destruct (Hc3 _ _ H) as [Hcopy|Hgone]; [left|right; intros r [? _]%Hleft; by apply Hgone].
    intros r Hr. apply Hleft. split; [by apply Hcopy|]. apply not_true_is_false. intros Hin. apply Hd.
    eapply in_day_unique; [done| |exact Hin|by eapply Hc2]. by eapply Hc1.
  - intros r [Hr|H]; [|by right]. destruct (in_day D (D + day_ns) r) eqn:E.
    + right. exists D, rows. split; [exact Hfile|by apply Hall].
    + left. by apply Hleft.
Qed.

(** Whatever fails, a day's work loses nothing. *)
Lemma archiveDay_keeps flt D bound s :
  midnight D → D + day_ns ≤ bound → consistent bound s →
  let s' := (archiveDay flt D (D + day_ns) s).1 in
  consistent bound s' ∧ ∀ r, stored r s → stored r s'.
Proof.
  intros HD Hb Hc. unfold archiveDay. set (rows := merge_sort older _).
  destruct (decide (rows = [])) as [He|He]; [by destruct flt|].
  destruct (write_file_keeps D bound s HD Hb Hc He) as [Hc1 Hs1].
  destruct flt; cbn [fst]; [|done|done].
  destruct (delete_day_keeps D bound _ rows HD Hc1) as [Hc2 Hs2].
  - cbn. by rewrite lookup_insert_eq.
  - cbn. intros r Hr Hin. by apply day_rows_elem.
  - split; [exact Hc2|]. auto.
Qed.

Lemma midnight_step D C : midnight D → midnight C → D < C → D + day_ns ≤ C.
Proof.
  intros [k ->] [k' ->] H. apply Z.mul_lt_mono_pos_r in H; [|done].
  replace (k * day_ns + day_ns) with ((k + 1) * day_ns) by ring.
  apply Z.mul_le_mono_nonneg_r; [done|lia].
Qed.

Lemma cycle_loop_keeps fuel flt saved D cutoffDay s :
  midnight D → midnight cutoffDay → consistent cutoffDay s →
  let s' := (cycle_loop fuel flt saved D cutoffDay s).1 in
  consistent cutoffDay s' ∧ ∀ r, stored r s → stored r s'.
Proof.
  intros HD Hcut. revert D s HD. induction fuel as [|fuel IH]; intros D s HD Hc; cbn.
  { by case_match. }
  destruct (Z.ltb_spec D cutoffDay) as [Hlt|]; [|done].
  pose proof (midnight_step D cutoffDay HD Hcut Hlt) as Hle.
  destruct (archiveDay_keeps (flt D) D cutoffDay s HD Hle Hc) as [Hc1 Hs1].
  destruct (archiveDay (flt D) D (D + day_ns) s) as [s1 [n|]]; cbn in *; [|done].
  destruct (IH (D + day_ns) (saveCursor (saved D) (D + day_ns) s1)) as [Hc2 Hs2].
  - apply Z.divide_add_r; [exact HD|apply Z.divide_refl].
  - unfold saveCursor. destruct (saved D); [|done]. by destruct Hc1.
  - split; [done|]. intros r Hr. apply Hs2. unfold saveCursor. destruct (saved D); by apply Hs1.
Qed.

Lemma dayUTC_midnight t : midnight (dayUTC t).
Proof. by exists (t / day_ns). Qed.

Lemma dayUTC_le t : dayUTC t ≤ t.
Proof. unfold dayUTC. pose proof (Z.mul_div_le t day_ns ltac:(done)). lia. Qed.

Lemma dayUTC_mono a b : a ≤ b → dayUTC a ≤ dayUTC b.
Proof. apply dayOf_mono. Qed.

Lemma startDay_midnight s day : startDay s = Some day → midnight day.
Proof.
  unfold startDay. destruct (cursor s); [intros [= <-]; apply dayUTC_midnight|].
  destruct (min_time (trades s)); [intros [= <-]; apply dayUTC_midnight|done].
Qed.

Lemma cycle_loop_done fuel flt saved day cut s : cut ≤ day → cycle_loop fuel flt saved day cut s = (s, true).
Proof. intros H. destruct fuel; cbn; by rewrite (proj2 (Z.ltb_ge _ _) H). Qed.

Lemma consistent_mono b b' s : b ≤ b' → consistent b s → consistent b' s.
Proof.
  intros Hb [H1 H2 H3 H4]. split; [|exact H2|exact H3|exact H4]. intros D rows H.
  destruct (H1 D rows H) as [? ?]. split; [done|lia].
Qed.

(** ** What rotation leaves alone *)

Lemma rotate_id file_size e maxBytes s :
  total_size (walk file_size e s.(day_file)) ≤ maxBytes → rotate file_size e maxBytes s = s.
Proof. intros H. unfold rotate. by rewrite (proj2 (Z.leb_le _ _) H). Qed.

Lemma rotate_rest file_size e maxBytes s :
  (rotate file_size e maxBytes s).(trades) = s.(trades) ∧ (rotate file_size e maxBytes s).(cursor) = s.(cursor).
Proof. unfold rotate. by destruct (_ <=? _). Qed.

Lemma drop_entry_sub f m : drop_entry f m ⊆ m.
Proof. unfold drop_entry. destruct (e_day f); [apply delete_subseteq|done]. Qed.

Lemma rotate_loop_sub e maxBytes total l m : rotate_loop e maxBytes total l m ⊆ m.
Proof.
  revert total m. induction l as [|f l IH]; intros total m; cbn [rotate_loop]; [done|].
  destruct (total <=? maxBytes); [done|]. destruct (stuck e (e_path f)); [apply IH|].
  etrans; [apply IH|apply drop_entry_sub].
Qed.

Lemma rotate_sub file_size e maxBytes s D rows :
  (rotate file_size e maxBytes s).(day_file) !! D = Some rows → s.(day_file) !! D = Some rows.
Proof.
  unfold rotate. destruct (_ <=? _); [done|]. cbn [day_file]. intros H.
  eapply lookup_weaken; [exact H|apply rotate_loop_sub].
Qed.

Lemma rotate_consistent file_size e maxBytes bound s :
  consistent bound s → consistent bound (rotate file_size e maxBytes s).
Proof.
  intros [H1 H2 H3 H4]. destruct (rotate_rest file_size e maxBytes s) as [Ht _].
  split; intros D rows; [|intros r| |]; intros H%rotate_sub; rewrite ?Ht; eauto.
Qed.

(** An archive without day-files stays so. *)
Lemma rotate_empty file_size e maxBytes rows c : rotate file_size e maxBytes (mkStore rows c ∅) = mkStore rows c ∅.
Proof.
  unfold rotate. destruct (_ <=? _); [done|]. cbn [trades cursor day_file]. f_equal.
  apply map_empty. intros D. eapply eq_None_not_Some. intros [x H].
  pose proof (lookup_weaken _ _ _ _ H (rotate_loop_sub _ _ _ _ _)) as H'. by rewrite lookup_empty in H'.
Qed.

Section life.
Context (file_size : list TradeRow.t → Z) (maxBytes maxAge : Z).

(** Trades are written at their time and cycles run, with any failures, as the
    clock goes on. *)
Inductive arch_step : Z * store → Z * store → Prop :=
  | as_insert c s r : c ≤ row_time r → arch_step (c, s) (row_time r, insert_trade r s)
  | as_cycle c s now e flt saved :
      c ≤ now → arch_step (c, s) (now, cycle file_size e flt saved maxBytes maxAge now s).

(** From [s] to [s'] is a cycle at [now] whose rotation found more than [maxBytes] on
    the disk and deleted a day-file that [r] was in. *)
Inductive rotated_out (r : TradeRow.t) (now : Z) (s : store) : store → Prop :=
  | rotated_out_by e flt saved s1 D rows :
      cycle_days flt saved maxAge now s = (s1, true) →
      maxBytes < total_size (walk file_size e s1.(day_file)) →
      s1.(day_file) !! D = Some rows → r ∈ rows →
      (rotate file_size e maxBytes s1).(day_file) !! D = None →
      rotated_out r now s (cycle file_size e flt saved maxBytes maxAge now s).

Definition clock_ok (cs : Z * store) : Prop := consistent (dayUTC (cs.1 - maxAge)) cs.2.

(** The days' loop loses nothing. *)
Lemma cycle_days_keeps flt saved c now s :
  c ≤ now → clock_ok (c, s) →
  let s' := (cycle_days flt saved maxAge now s).1 in
  clock_ok (now, s') ∧ ∀ r, stored r s → stored r s'.
Proof.
  intros Hc Hok. unfold cycle_days. set (cut := dayUTC (now - maxAge)).
  assert (consistent cut s) as Hok' by (eapply consistent_mono; [|exact Hok]; apply dayUTC_mono; cbn; lia).
  destruct (startDay s) as [day|] eqn:Ed; [|done].
  by apply cycle_loop_keeps; [eapply startDay_midnight|apply dayUTC_midnight|].
Qed.

Lemma rotate_keeps e r s :
  stored r s → stored r (rotate file_size e maxBytes s) ∨
    maxBytes < total_size (walk file_size e s.(day_file)) ∧
    ∃ D rows, s.(day_file) !! D = Some rows ∧ r ∈ rows ∧ (rotate file_size e maxBytes s).(day_file) !! D = None.
Proof.
  intros Hr. destruct (Z.le_gt_cases (total_size (walk file_size e s.(day_file))) maxBytes) as [Hle|Hgt].
  { left. by rewrite rotate_id. }
  destruct Hr as [Hr|(D & rows & H & Hr)].
  { left. left. by rewrite (proj1 (rotate_rest _ _ _ _)). }
  destruct ((rotate file_size e maxBytes s).(day_file) !! D) as [rows'|] eqn:E.
  - left. right. exists D, rows. split; [|done]. pose proof (rotate_sub _ _ _ _ _ _ E). congruence.
  - right. split; [lia|]. by exists D, rows.
Qed.

Lemma cycle_keeps e flt saved c now s :
  c ≤ now → clock_ok (c, s) →
  let s' := cycle file_size e flt saved maxBytes maxAge now s in
  clock_ok (now, s') ∧ ∀ r, stored r s → stored r s' ∨ rotated_out r now s s'.
Proof.
  intros Hc Hok s'. destruct (cycle_days_keeps flt saved c now s Hc Hok) as [H1 H2].
  destruct (cycle_days flt saved maxAge now s) as [s1 []] eqn:E; cbn [fst] in *.
  - assert (s' = rotate file_size e maxBytes s1) as Es by (subst s'; unfold cycle; by rewrite E).
    split; [rewrite Es; by apply rotate_consistent|]. intros r Hr.
    destruct (rotate_keeps e r s1 (H2 r Hr)) as [Hs|(Hgt & D & rows & HD & Hin & Hgone)]; [left; by rewrite Es|].
    right. by eapply rotated_out_by.
  - assert (s' = s1) as -> by (subst s'; unfold cycle; by rewrite E). auto.
Qed.

Lemma insert_keeps (Hage : 0 ≤ maxAge) c s r :
  c ≤ row_time r → clock_ok (c, s) →
  clock_ok (row_time r, insert_trade r s) ∧ ∀ x, stored x s → stored x (insert_trade r s).
Proof.
  intros Hc Hok. unfold insert_trade. assert (clock_ok (row_time r, s)) as Hok'.
  { eapply consistent_mono; [|exact Hok]. apply dayUTC_mono. cbn. lia. }
  destruct (existsb _ _); [done|]. split.
  - destruct Hok as [H1 _ _ _], Hok' as [H1' H2 H3 H4]. split; cbn in *; [exact H1'|exact H2| |exact H4].
    intros D rows H. destruct (H3 D rows H) as [Hcopy|Hgone]; [left|right].
    + intros x Hx. right. by apply Hcopy.
    + intros x [->|Hx]%elem_of_cons; [|by apply Hgone]. destruct (H1 D rows H) as [_ Hb].
      unfold in_day. apply andb_false_intro2, Z.ltb_ge. pose proof (dayUTC_le (c - maxAge)).
      unfold row_time in Hc. lia.
  - intros x [Hx|Hx]; [left; by right|by right].
Qed.

Lemma arch_step_keeps cs cs' :
  0 ≤ maxAge → arch_step cs cs' → clock_ok cs →
  clock_ok cs' ∧ ∀ r, stored r cs.2 → stored r cs'.2 ∨ rotated_out r cs'.1 cs.2 cs'.2.
Proof.
  intros Hage [c s r Hc|c s now e flt saved Hc] Hok.
  - destruct (insert_keeps Hage c s r Hc Hok) as [H1 H2]. split; [done|]. intros x Hx. left. by apply H2.
  - by apply (cycle_keeps e flt saved c now s).
Qed.

Lemma arch_run_ok cs cs' : 0 ≤ maxAge → rtc arch_step cs cs' → clock_ok cs → clock_ok cs'.
Proof.
  intros Hage. induction 1 as [cs|cs1 cs2 cs3 Hstep _ IH]; intros Hok; [done|].
  apply IH. by eapply arch_step_keeps.
Qed.
End life.

(** A run whose every step keeps [P], or else does [Q], keeps [P] or does [Q] somewhere. *)
Lemma run_keeps_or {A} (step : A → A → Prop) (I P : A → Prop) (Q : A → A → Prop) x y :
  (∀ x y, step x y → I x → I y ∧ (P x → P y ∨ Q x y)) →
  rtc step x y → I x → P x → P y ∨ ∃ u v, rtc step x u ∧ step u v ∧ Q u v ∧ rtc step v y.
Proof.
  intros Hstep. induction 1 as [x|x y z Hs Hr IH]; intros HI HP; [by left|].
  destruct (Hstep x y Hs HI) as [HI' H]. destruct (H HP) as [HP'|HQ].
  - destruct (IH HI' HP') as [?|(u & v & Hu & Hrest)]; [by left|]. right. exists u, v. split; [by eapply rtc_l|done].
  - right. exists x, y. by split_and!; [apply rtc_refl|..].
Qed.

Definition empty_store : store := mkStore [] None ∅.

Lemma empty_clock_ok maxAge c : clock_ok maxAge (c, empty_store).
Proof. split; cbn; intros ??; by rewrite lookup_empty. Qed.

(** C20. Archiving loses a trade only by rotating it out: in any history of trades
    being written and archive cycles being run, with the day's work failing at any
    point and the cursor failing to be saved, and whatever other files are in the
    directory or cannot be deleted, a row once in the table stays in the table or in
    its day-file, unless at some cycle the files on the disk were together larger
    than [maxBytes] and that cycle's rotation deleted the day-file it was in (and
    nothing prunes the table). *)
Theorem archive_keeps_trades (file_size : list TradeRow.t → Z) (maxBytes maxAge : Z)
    (Hage : 0 ≤ maxAge) (c0 : Z) (cs1 cs2 : Z * store) (r : TradeRow.t)
    (H1 : rtc (arch_step file_size maxBytes maxAge) (c0, empty_store) cs1)
    (H2 : rtc (arch_step file_size maxBytes maxAge) cs1 cs2) :
  stored r cs1.2 →
  stored r cs2.2 ∨
  ∃ u v, rtc (arch_step file_size maxBytes maxAge) cs1 u ∧ arch_step file_size maxBytes maxAge u v ∧
    rotated_out file_size maxBytes maxAge r v.1 u.2 v.2 ∧ rtc (arch_step file_size maxBytes maxAge) v cs2.
Proof.
  apply (run_keeps_or _ (clock_ok maxAge) (λ cs, stored r cs.2)
    (λ u v, rotated_out file_size maxBytes maxAge r v.1 u.2 v.2)); [|done|].
  - intros x y Hs Hok. destruct (arch_step_keeps file_size maxBytes maxAge x y Hage Hs Hok) as [H H']. auto.
  - eapply arch_run_ok; [done|exact H1|apply empty_clock_ok].
Qed.

(** A file of a thousand bytes, a temporary file left over, and the first DELETE fails. *)
Lemma archive_keeps_trades_witness :
  let r := demo_row 1 (5 * day_ns) in
  let s1 := insert_trade r empty_store in
  let size rows := 1000 * Z.of_nat (length rows) in
  let left_over := mkSur [("1970/01/05.jsonl.gz.tmp"%string, 10)] (λ _, false) (λ _, false) in
  let flt D := if D =? 5 * day_ns then DeleteFault else NoFault in
  let s2 := cycle size left_over flt (λ _, true) 5000 day_ns (8 * day_ns) s1 in
  let step := arch_step size 5000 day_ns in
  stored r s2 ∨
  ∃ u v, rtc step (5 * day_ns, s1) u ∧ step u v ∧
    rotated_out size 5000 day_ns r v.1 u.2 v.2 ∧ rtc step v (8 * day_ns, s2).
Proof.
  intros r s1 size left_over flt s2 step.
  apply (archive_keeps_trades size 5000 day_ns ltac:(done) 0 (5 * day_ns, s1) (8 * day_ns, s2) r).
  - apply rtc_once. apply (as_insert _ _ _ 0 empty_store r). vm_compute. done.
  - apply rtc_once. apply as_cycle. vm_compute. done.
  - left. by left.
Defined.

(** ** A cycle without failures *)

(** The rows of day [D], as its file holds them. *)
Definition day_rows (D : Z) (rows : list TradeRow.t) : list TradeRow.t :=
  merge_sort older (List.filter (in_day D (D + day_ns)) rows).

(** The file of day [D] after the days from [day] to [cut] are archived. *)
Definition file_after (day cut : Z) (s : store) (D : Z) : option (list TradeRow.t) :=
  if decide (midnight D ∧ day ≤ D < cut ∧ day_rows D s.(trades) ≠ []) then Some (day_rows D s.(trades))
  else s.(day_file) !! D.

Definition left_rows (day cut : Z) (rows : list TradeRow.t) : list TradeRow.t :=
  List.filter (λ r, negb (in_day day cut r)) rows.

Lemma left_rows_split day mid cut rows :
  day ≤ mid ≤ cut → left_rows mid cut (left_rows day mid rows) = left_rows day cut rows.
Proof.
  intros H. unfold left_rows. rewrite filter_filter. apply filter_ext_elem. intros r _. unfold in_day.
  rewrite <- negb_orb. f_equal. apply eq_true_iff_eq.
  rewrite orb_true_iff, !andb_true_iff, !Z.leb_le, !Z.ltb_lt. lia.
Qed.

Lemma left_rows_none day cut rows : cut ≤ day → left_rows day cut rows = rows.
Proof.
  intros H. unfold left_rows. induction rows as [|r rows IH]; [done|]. cbn. rewrite IH.
  unfold in_day. by destruct (Z.leb_spec day (TradeRow.ExecutedAt r)), (Z.ltb_spec (TradeRow.ExecutedAt r) cut);
    cbn; try done; lia.
Qed.

Lemma day_rows_left day D rows :
  midnight day → midnight D → day ≠ D → day_rows D (left_rows day (day + day_ns) rows) = day_rows D rows.
Proof.
  intros Hday HD Hne. unfold day_rows, left_rows. rewrite filter_filter. f_equal. apply filter_ext_elem.
  intros r _. destruct (in_day D (D + day_ns) r) eqn:E; [|by rewrite andb_false_r].
  destruct (in_day day (day + day_ns) r) eqn:E'; [|done]. by destruct Hne; eapply in_day_unique.
Qed.

Lemma left_rows_empty day rows :
  day_rows day rows = [] → left_rows day (day + day_ns) rows = rows.
Proof.
  intros H. unfold left_rows. unfold day_rows in H.
  induction rows as [|r rows IH]; [done|]. cbn in *.
  destruct (in_day day (day + day_ns) r) eqn:E; cbn; [|by rewrite IH].
  pose proof (merge_sort_Permutation older (r :: List.filter (in_day day (day + day_ns)) rows)) as Hp.
  rewrite H in Hp. by apply Permutation_nil_cons in Hp.
Qed.

(** One day, without failures. *)
Lemma archiveDay_ok day s :
  ∃ files n, archiveDay NoFault day (day + day_ns) s
    = (mkStore (left_rows day (day + day_ns) s.(trades)) s.(cursor) files, Some n) ∧
    ∀ D, files !! D = if decide (D = day ∧ day_rows day s.(trades) ≠ [])
                      then Some (day_rows day s.(trades)) else s.(day_file) !! D.
Proof.
  unfold archiveDay. fold (day_rows day s.(trades)). destruct (decide (day_rows day s.(trades) = [])) as [He|He].
  - exists s.(day_file), 0. rewrite left_rows_empty by done. split; [by destruct s|].
    intros D. by rewrite decide_False by tauto.
  - eexists _, _. split; [reflexivity|]. intros D. cbn. destruct (decide (D = day)) as [->|Hd].
    + by rewrite lookup_insert_eq, decide_True.
    + by rewrite lookup_insert_ne, decide_False by (tauto || done).
Qed.

Lemma cycle_loop_ok (k : nat) : ∀ fuel day s, (k ≤ fuel)%nat → midnight day →
  let cut := day + Z.of_nat k * day_ns in
  ∃ files, cycle_loop fuel (λ _, NoFault) (λ _, true) day cut s
    = (mkStore (left_rows day cut s.(trades)) (if decide (k = 0%nat) then s.(cursor) else Some cut) files, true) ∧
    ∀ D, files !! D = file_after day cut s D.
Proof.
  induction k as [|k IH]; intros fuel day s Hk Hday cut.
  - assert (cut = day) as -> by (subst cut; cbn; lia). exists s.(day_file). rewrite decide_True by done.
    rewrite left_rows_none by lia. split.
    + destruct fuel, s; cbn; by rewrite Z.ltb_irrefl.
    + intros D. unfold file_after. rewrite decide_False; [done|]. lia.
  - destruct fuel as [|fuel]; [lia|]. cbn [cycle_loop].
    assert (day < cut) as Hlt by (subst cut; unfold day_ns, second; lia).
    rewrite (proj2 (Z.ltb_lt _ _) Hlt).
    destruct (archiveDay_ok day s) as (files & n & -> & Hfiles). unfold saveCursor.
    set (s1 := mkStore _ _ _). assert (midnight (day + day_ns)) as Hnext
      by (apply Z.divide_add_r; [exact Hday|apply Z.divide_refl]).
    assert (day + day_ns + Z.of_nat k * day_ns = cut) as Hcut by (subst cut; lia).
    destruct (IH fuel (day + day_ns) s1 ltac:(lia) Hnext) as (files' & E & Hfiles').
    clearbody cut. assert (0 < day_ns) as Hpos by reflexivity.
    rewrite Hcut in E, Hfiles'. exists files'. rewrite E. clear E. split.
    + f_equal. f_equal.
      * cbn. apply left_rows_split. lia.
      * rewrite (decide_False (P := S k = 0%nat)) by lia. case_decide; [|done]. subst k. subst s1. cbn. f_equal. lia.
    + intros D. rewrite Hfiles'. unfold file_after, s1. cbn [trades day_file].
      destruct (decide (D = day)) as [->|Hne].
      * rewrite decide_False by lia. rewrite Hfiles.
        destruct (decide (day_rows day s.(trades) = [])).
        -- by rewrite !decide_False by tauto.
        -- rewrite !decide_True; [reflexivity|split_and!; assumption || lia|tauto].
      * rewrite Hfiles, (decide_False (P := D = day ∧ _)) by tauto.
        destruct (decide (midnight D)) as [HD|HD].
        2:{ by rewrite !decide_False by tauto. }
        rewrite day_rows_left by done. apply decide_ext.
        assert (day < D → day + day_ns ≤ D) by (apply midnight_step; done).
        split; intros (_ & ? & ?); split_and!; assumption || lia.
Qed.

Lemma cycle_ok file_size e maxBytes maxAge now s day :
  startDay s = Some day →
  let cut := dayUTC (now - maxAge) in
  ∃ files, cycle file_size e (λ _, NoFault) (λ _, true) maxBytes maxAge now s
    = rotate file_size e maxBytes
        (mkStore (left_rows day cut s.(trades)) (if day <? cut then Some cut else s.(cursor)) files) ∧
    ∀ D, files !! D = file_after day cut s D.
Proof.
  intros Hday cut. assert (midnight day) as Hm by by eapply startDay_midnight.
  unfold cycle, cycle_days. rewrite Hday. fold cut. destruct (Z.ltb_spec day cut) as [Hlt|Hge].
  - destruct (dayUTC_midnight (now - maxAge)) as [b Hb]. fold cut in Hb. destruct Hm as [a ->].
    assert (a < b) by (apply (Z.mul_lt_mono_pos_r day_ns); [done|lia]).
    replace ((cut - a * day_ns) / day_ns) with (b - a) by (rewrite Hb, <- Z.mul_sub_distr_r, Z.div_mul; done).
    destruct (cycle_loop_ok (Z.to_nat (b - a)) (Z.to_nat (b - a)) (a * day_ns) s ltac:(done) ltac:(by exists a))
      as (files & E & Hfiles).
    rewrite Z2Nat.id in E, Hfiles by lia. replace (a * day_ns + (b - a) * day_ns) with cut in E, Hfiles by lia.
    exists files. rewrite E. rewrite decide_False by lia. done.
  - exists s.(day_file). rewrite cycle_loop_done by done. split; [by rewrite left_rows_none; destruct s|].
    intros D. unfold file_after. rewrite decide_False; [done|lia].
Qed.

(** C29. A cycle without failures archives exactly the whole days that are old
    enough.  From the cursor's day (or the oldest trade's) to the day of
    [now - maxAge], excluded, each day with trades gets a file of its trades in
    ascending order, those trades leave the table, the cursor moves to the end,
    and what rotation then does is on that state; every other day-file and row is
    as before.  The loop's fuel is enough. *)
Theorem cycle_archives (file_size : list TradeRow.t → Z) (e : surroundings) (maxBytes maxAge now : Z) (s : store) (day : Z)
    (Hday : startDay s = Some day) :
  let cut := dayUTC (now - maxAge) in
  ∃ files, cycle file_size e (λ _, NoFault) (λ _, true) maxBytes maxAge now s
    = rotate file_size e maxBytes
        (mkStore (left_rows day cut s.(trades)) (if day <? cut then Some cut else s.(cursor)) files) ∧
    ∀ D, files !! D = file_after day cut s D.
Proof. by apply cycle_ok. Qed.

Lemma cycle_archives_witness :
  let s := insert_trade (demo_row 1 (5 * day_ns + 7)) empty_store in
  ∃ files, cycle (λ _, 1) clean (λ _, NoFault) (λ _, true) 10 day_ns (8 * day_ns) s
    = rotate (λ _, 1) clean 10
        (mkStore (left_rows (5 * day_ns) (7 * day_ns) s.(trades)) (Some (7 * day_ns)) files) ∧
    ∀ D, files !! D = file_after (5 * day_ns) (7 * day_ns) s D.
Proof. intros s. exact (cycle_archives (λ _, 1) clean 10 day_ns (8 * day_ns) s (5 * day_ns) eq_refl). Defined.

(** ** Rotation *)

(** The day of an instant of the years 0 to 9999, at midnight. *)
Definition dated (D : Z) : Prop := midnight D ∧ four_digits (year_of (D / day_ns)).

Lemma dated_less D D' : dated D → dated D' → string_less (day_path D) (day_path D') = (D <? D').
Proof.
  intros [[k ->] H] [[k' ->] H']. unfold day_path. rewrite path_less_iff by done.
  rewrite !Z.div_mul by done. apply Bool.eq_iff_eq_true. rewrite !Z.ltb_lt. by apply Z.mul_lt_mono_pos_r.
Qed.

Definition drop_entries (l : list dir_entry) (m : gmap Z (list TradeRow.t)) : gmap Z (list TradeRow.t) :=
  fold_left (λ m f, drop_entry f m) l m.

(** [k] of the files are removed, which brings [total] within [maxBytes] if removing
    them all does, and no fewer would. *)
Definition least_drop (maxBytes total : Z) (k : nat) (l : list dir_entry) : Prop :=
  (k = length l ∨ total - total_size (take k l) ≤ maxBytes) ∧
  ∀ j, (j < k)%nat → maxBytes < total - total_size (take j l).

Lemma least_drop_none maxBytes total l : total ≤ maxBytes → least_drop maxBytes total 0 l.
Proof. intros H. split; [right; change (total_size (take 0 l)) with 0; lia|intros j Hj; lia]. Qed.

Lemma rotate_loop_spec e maxBytes l total m :
  let removable := List.filter (λ f, negb (e.(stuck) f.(e_path))) l in
  ∃ k, (k ≤ length removable)%nat ∧
    rotate_loop e maxBytes total l m = drop_entries (take k removable) m ∧ least_drop maxBytes total k removable.
Proof.
  revert total m. induction l as [|f l IH]; intros total m; cbn [rotate_loop List.filter].
  { exists 0%nat. split_and!; [done|done|]. split; [by left|lia]. }
  destruct (Z.leb_spec total maxBytes) as [Hle|Hgt].
  { exists 0%nat. split_and!; [lia|done|by apply least_drop_none]. }
  destruct (stuck e (e_path f)); cbn [negb]; [apply IH|].
  destruct (IH (total - e_size f) (drop_entry f m)) as (k & Hk & E & Hd & Hmin). exists (S k).
  split_and!; [cbn; lia|exact E|]. split.
  - destruct Hd as [->|Hd]; [by left|right]. cbn [take total_size fold_right]. unfold total_size in Hd. lia.
  - intros [|j] Hj; cbn [take total_size fold_right]; [lia|]. specialize (Hmin j ltac:(lia)). unfold total_size in Hmin. lia.
Qed.

Lemma total_size_perm l l' : l ≡ₚ l' → total_size l = total_size l'.
Proof. unfold total_size. induction 1; cbn [fold_right]; lia. Qed.

(** The files the walk sees of days in the calendar come in the order of the days. *)
Lemma walk_days file_size e m : omap e_day (walk file_size e m) ⊆ (map_to_list m).*1.
Proof.
  intros D. unfold walk. rewrite list_elem_of_omap. intros (f & [Hf|Hf]%elem_of_app & E); apply list_elem_of_fmap in Hf as (p & -> & Hp).
  - apply elem_of_filter_bool in Hp as [Hp _]. injection E as <-. by apply list_elem_of_fmap_2.
  - discriminate.
Qed.

Lemma omap_sorted {A B} (f : A → option B) (R : A → A → Prop) (S : B → B → Prop) l :
  (∀ x y b c, x ∈ l → y ∈ l → f x = Some b → f y = Some c → R x y → S b c) →
  StronglySorted R l → StronglySorted S (omap f l).
Proof.
  intros H Hs. revert H. induction Hs as [|x l Hs IH Hx]; intros H; [constructor|]. cbn.
  assert (StronglySorted S (omap f l)) as IH' by (apply IH; intros y z b c ??; apply H; by right).
  destruct (f x) as [b|] eqn:E; [|done]. constructor; [done|]. apply Forall_forall.
  intros c (y & Hy & Ey)%list_elem_of_omap. rewrite Forall_forall in Hx.
  eapply (H x y); [by left|by right|done|done|by apply Hx].
Qed.

Lemma walk_sorted file_size e m :
  (∀ D, is_Some (m !! D) → dated D) → NoDup (e_path <$> walk file_size e m) →
  StronglySorted Z.lt (omap e_day (sort_slice path_less (walk file_size e m))).
Proof.
  intros Hm Hnd. set (l := walk file_size e m) in *.
  assert (∀ f D, f ∈ l → e_day f = Some D → e_path f = day_path D ∧ dated D) as Hday.
  { intros f D [Hf|Hf]%elem_of_app E; apply list_elem_of_fmap in Hf as ([D' rows] & -> & Hp); [|discriminate].
    injection E as <-. split; [done|]. apply elem_of_filter_bool in Hp as [Hp%elem_of_map_to_list _]. apply Hm. by exists rows. }
  eapply omap_sorted; [|apply sort_slice_sorted].
  - cbn. intros f g D D' Hf Hg Ef Eg. rewrite elem_of_sort_slice in Hf, Hg.
    destruct (Hday f D Hf Ef) as [Pf HD], (Hday g D' Hg Eg) as [Pg HD']. unfold lt_of, path_less.
    rewrite Pf, Pg, dated_less by done. apply Z.ltb_lt.
  - intros ???. apply string_less_trans.
  - clearbody l. induction l as [|f l IH]; [constructor|]. cbn in Hnd. apply NoDup_cons in Hnd as [Hn Hnd].
    constructor; [|apply IH; [done|intros ??? ; eapply Hday; by right]]. apply Forall_forall. intros g Hg.
    apply string_less_total. intros E. apply Hn. rewrite E. by apply list_elem_of_fmap_2.
Qed.

Lemma parsed_iff f D : parsed f = Some D ↔ dated D ∧ f.(rel) = day_path D.
Proof.
  unfold parsed, dated, day_path. split.
  - destruct (day_of_path (rel f)) as [n|] eqn:E; [|done]. intros [= <-]. rewrite Z.div_mul by done.
    apply day_of_path_iff in E as [Hy E]. split; [split; [by eexists|done]|done].
  - intros [[[k ->] Hy] E]. rewrite Z.div_mul in * by done. by rewrite (proj2 (day_of_path_iff _ k)).
Qed.

(** The archiver's file names and the catalog's reading of them agree: the
    catalog takes a file for the day [D] exactly if its path is the one the
    archiver gives [D], for every midnight [D] of the years 0 to 9999; so it
    skips temporary files and anything else, and no two files are of one day. *)
Theorem day_file_names (f : file) (D : Z) :
  parsed f = Some D ↔ midnight D ∧ 0 ≤ year_of (D / day_ns) < 10000 ∧ f.(rel) = day_path D.
Proof. rewrite parsed_iff. unfold dated, four_digits. tauto. Qed.

(** Rotation deletes the oldest files, as few of them as bring what is on the disk
    within [maxBytes], and nothing else: of the files it can delete, in the order of
    their paths, which for day-files of the years 0 to 9999 is the order of their days,
    as the code's comment says, it deletes a prefix, of which no shorter one would
    do.  A file that cannot be deleted is passed over, and still counted. *)
Theorem rotate_spec (file_size : list TradeRow.t → Z) (e : surroundings) (maxBytes : Z) (s : store)
    (Hdated : ∀ D, is_Some (s.(day_file) !! D) → dated D)
    (Hpaths : NoDup (e_path <$> walk file_size e s.(day_file))) :
  let files := sort_slice path_less (walk file_size e s.(day_file)) in
  let removable := List.filter (λ f, negb (e.(stuck) f.(e_path))) files in
  StronglySorted Z.lt (omap e_day files) ∧
  ∃ k, (k ≤ length removable)%nat ∧
    rotate file_size e maxBytes s = mkStore s.(trades) s.(cursor) (drop_entries (take k removable) s.(day_file)) ∧
    least_drop maxBytes (total_size files) k removable.
Proof.
  intros files removable. split; [by apply walk_sorted|].
  assert (total_size files = total_size (walk file_size e s.(day_file))) as E.
  { apply total_size_perm, sort_slice_perm. }
  unfold rotate. rewrite <- E. destruct (Z.leb_spec (total_size files) maxBytes) as [Hle|Hgt].
  - exists 0%nat. split_and!; [lia|by destruct s|by apply least_drop_none].
  - destruct (rotate_loop_spec e maxBytes files (total_size files) s.(day_file)) as (k & Hk & E' & Hl).
    exists k. fold files. rewrite E'. by split_and!.
Qed.

(** Two days' files of a byte each, and one byte to keep. *)
Lemma rotate_spec_witness :
  let s := mkStore [] None {[19782 * day_ns := [demo_row 1 0]; 19783 * day_ns := [demo_row 2 0]]} in
  let files := sort_slice path_less (walk (λ _, 1) clean s.(day_file)) in
  let removable := List.filter (λ f, negb (clean.(stuck) f.(e_path))) files in
  StronglySorted Z.lt (omap e_day files) ∧
  ∃ k, (k ≤ length removable)%nat ∧
    rotate (λ _, 1) clean 1 s = mkStore s.(trades) s.(cursor) (drop_entries (take k removable) s.(day_file)) ∧
    least_drop 1 (total_size files) k removable.
Proof.
  intros s. apply (rotate_spec (λ _, 1) clean 1 s).
  - intros D [rows H]. cbn [s day_file] in H. apply lookup_insert_Some in H as [[<- _]|[_ [<- _]%lookup_singleton_Some]];
      (split; [by eexists|split; vm_compute; congruence]).
  - apply (bool_decide_unpack _). vm_compute. done.
Defined.
