(* ===== verification/Lifecycle.v ===== *)
(** * A trade's life: live, archived, pruned, queried

    The archiver, the retention pruner and the history reader share the trades
    table and the archive.  What the archiver writes is what the reader reads;
    but the pruner's and the history's idea of where a trade lives, the retention
    cutoff, is not the archiver's, and trades are hidden or lost between them. *)
From stdpp Require Import sorting.
From S2P Require Import Prelude Word Float64 GoSort Calendar Trades Archive ArchiveProps HistoryProps Archiver ArchiverProps.

Local Open Scope Z_scope.

(** ** The archiver's files are what the reader expects *)

Definition files_of (s : store) : list file :=
  (λ p, mkFile (day_path p.1) (Some p.2)) <$> map_to_list s.(day_file).

Definition in_calendar (r : TradeRow.t) : Prop := earliest ≤ row_time r ≤ latest.

Definition all_dated (s : store) : Prop := ∀ D, is_Some (s.(day_file) !! D) → dated D.

Lemma day_files_of s :
  all_dated s → day_files (files_of s) = (λ p, DayFile.mk p.1 (Some p.2)) <$> map_to_list s.(day_file).
Proof.
  intros Hs. assert (Forall (λ p, dated p.1) (map_to_list s.(day_file))) as H.
  { apply Forall_forall. intros [D rows] Hp%elem_of_map_to_list. apply Hs. by exists rows. }
  unfold files_of, day_files. induction H as [|[D rows] l HD _ IH]; [done|].
  cbn [fmap list_fmap omap list_omap fst snd] in *. rewrite (proj2 (parsed_iff (mkFile (day_path D) (Some rows)) D) (conj HD eq_refl)). cbn. by rewrite <- IH.
Qed.

(** The day of an instant within the calendar has a four-digit year. *)
Lemma dated_of D t : midnight D → D ≤ t < D + day_ns → earliest ≤ t ≤ latest → dated D.
Proof.
  intros HD Ht Hcal. split; [done|]. destruct HD as [k ->]. rewrite Z.div_mul by done.
  assert (year_start 0 ≤ k < year_start 10000) as Hk.
  { change (year_start 0) with (-719528). change (year_start 10000) with 2932897.
    unfold earliest, latest, day_ns, second in *. lia. }
  pose proof (year_of_spec k) as Hy. unfold four_digits. split.
  - destruct (Z.le_gt_cases 0 (year_of k)) as [|Hlt]; [done|].
    pose proof (year_start_le (year_of k + 1) 0). lia.
  - destruct (Z.lt_ge_cases (year_of k) 10000) as [|Hge]; [done|]. pose proof (year_start_le 10000 (year_of k)). lia.
Qed.

Lemma consistent_dated bound s :
  consistent bound s → (∀ r, stored r s → in_calendar r) → all_dated s.
Proof.
  intros [H1 H2 _ H4] Hcal D [rows Hf]. destruct (H4 _ _ Hf) as [Hne _]. destruct rows as [|r rows]; [done|].
  assert (r ∈ r :: rows) as Hr by by left. pose proof (H2 _ _ _ Hf Hr) as Hin. unfold in_day in Hin.
  rewrite andb_true_iff, Z.leb_le, Z.ltb_lt in Hin. apply (dated_of D (row_time r)); [by eapply H1|done|].
  apply Hcal. right. by exists D, (r :: rows).
Qed.

Lemma catalog_ok bound s :
  consistent bound s → (∀ r, stored r s → in_calendar r) → archive_ok (files_of s).
Proof.
  intros Hc Hcal. pose proof (consistent_dated _ _ Hc Hcal) as Hd. destruct Hc as [H1 H2 _ H4].
  split; rewrite day_files_of by done.
  - rewrite <- list_fmap_compose. cbn. apply NoDup_fst_map_to_list.
  - apply Forall_fmap, Forall_forall. intros [D rows] Hp%elem_of_map_to_list. cbn. split; cbn; [by eexists| | |].
    + by eapply H1.
    + apply Forall_forall. intros r Hr. split; [|apply Hcal; right; by exists D, rows].
      pose proof (H2 _ _ _ Hp Hr) as Hin. unfold in_day in Hin.
      rewrite andb_true_iff, Z.leb_le, Z.ltb_lt in Hin. exact Hin.
    + apply (ssorted_impl older); [done|]. by eapply H4.
Qed.

(** All rows of the archive, in no particular order. *)
Definition file_rows (s : store) : list TradeRow.t := concat (snd <$> map_to_list s.(day_file)).

Lemma archived_files s : all_dated s → archived (Some (files_of s)) ≡ₚ file_rows s.
Proof.
  intros Hd. unfold archived, file_rows. rewrite Days_perm, day_files_of, <- list_fmap_compose by done. done.
Qed.

(** C36. What is in the archive can be read: after any history of writes and archive
    cycles, whatever failed or was rotated out in them, with all trades at times the
    file names can carry, the reader answers every filter with the newest selected
    rows of the day-files there are, newest first, and never fails on a file. *)
Theorem archived_is_readable (file_size : list TradeRow.t → Z) (maxBytes maxAge c0 c : Z) (s : store)
    (f : ReadFilter.t)
    (Hage : 0 ≤ maxAge)
    (Hrun : rtc (arch_step file_size maxBytes maxAge) (c0, empty_store) (c, s))
    (Hcal : ∀ r, stored r s → in_calendar r) :
  ∃ rows, rows ≡ₚ file_rows s ∧ StronglySorted newer rows ∧
    Read (catalog_of s) f = Some (TradeRow.to_Trade <$> take (Z.to_nat (ClampLimit f.(ReadFilter.Limit)))
      (List.filter (selected f.(ReadFilter.SymbolLocate) f.(ReadFilter.From) f.(ReadFilter.To)) rows)).
Proof.
  pose proof (arch_run_ok file_size maxBytes maxAge _ _ Hage Hrun (empty_clock_ok maxAge c0)) as Hok.
  pose proof (catalog_ok _ s Hok Hcal) as Hfiles.
  exists (reverse (archived (Some (files_of s)))). split_and!.
  - rewrite reverse_Permutation. apply archived_files. by eapply consistent_dated.
  - apply (ssorted_impl (flip time_le)); [done|]. by apply ssorted_reverse, archived_sorted.
  - change (catalog_of s) with (Some (files_of s)). rewrite Read_newest by done.
    by rewrite fmap_take, list_filter_reverse.
Qed.

(** Two days archived, a thousand bytes each, and rotation has kept the second. *)
Lemma archived_is_readable_witness :
  let size rows := 1000 * Z.of_nat (length rows) in
  let r := demo_row 1 (5 * day_ns) in
  let r2 := demo_row 2 (6 * day_ns) in
  let s := cycle size clean (λ _, NoFault) (λ _, true) 1500 day_ns (8 * day_ns) (insert_trade r2 (insert_trade r empty_store)) in
  let f := ReadFilter.mk 7 zero_time zero_time 10 in
  ∃ rows, rows ≡ₚ file_rows s ∧ StronglySorted newer rows ∧
    Read (catalog_of s) f = Some (TradeRow.to_Trade <$> take (Z.to_nat (ClampLimit f.(ReadFilter.Limit)))
      (List.filter (selected f.(ReadFilter.SymbolLocate) f.(ReadFilter.From) f.(ReadFilter.To)) rows)).
Proof.
  intros size r r2 s f.
  apply (archived_is_readable size 1500 day_ns 0 (8 * day_ns) s f ltac:(done)).
  - eapply rtc_l; [by apply (as_insert _ _ _ 0 empty_store r)|].
    eapply rtc_l; [by apply (as_insert _ _ _ (5 * day_ns) _ r2)|]. apply rtc_once. by apply as_cycle.
  - intros x [Hx|(D & rows & HD & Hx)].
    + by apply elem_of_nil in Hx.
    + assert (day_file s = {[6 * day_ns := [r2]]}) as E by (vm_compute; reflexivity). rewrite E in HD.
      apply lookup_singleton_Some in HD as [_ <-]. apply list_elem_of_singleton in Hx as ->.
      split; vm_compute; congruence.
Defined.

(** ** One trade through the archiver *)

Definition only (r : TradeRow.t) : store := insert_trade r empty_store.

(** The store once the one trade is archived: its day's file is all there is. *)
Definition only_archived (cut : Z) (r : TradeRow.t) : store :=
  mkStore [] (Some cut) {[dayUTC (row_time r) := [r]]}.

Lemma in_own_day r : in_day (dayUTC (row_time r)) (dayUTC (row_time r) + day_ns) r = true.
Proof.
  unfold in_day, dayUTC. fold (row_time r). rewrite andb_true_iff, Z.leb_le, Z.ltb_lt.
  pose proof (Z.div_mod (row_time r) day_ns ltac:(done)).
  pose proof (Z.mod_pos_bound (row_time r) day_ns ltac:(done)). lia.
Qed.

Lemma archive_only file_size maxBytes maxAge now r :
  row_time r < dayUTC (now - maxAge) → 0 ≤ maxBytes → file_size [r] ≤ maxBytes →
  cycle file_size clean (λ _, NoFault) (λ _, true) maxBytes maxAge now (only r)
  = only_archived (dayUTC (now - maxAge)) r.
Proof.
  intros Hlt Hmax Hsize. set (cut := dayUTC (now - maxAge)) in *. set (D := dayUTC (row_time r)).
  pose proof (dayUTC_le (row_time r)) as HD. fold D in HD.
  destruct (cycle_ok file_size clean maxBytes maxAge now (only r) D eq_refl) as (files & -> & Hfiles).
  fold cut in Hfiles |- *. rewrite (proj2 (Z.ltb_lt _ _)) by lia.
  pose proof (in_own_day r) as Hin. fold D in Hin.
  assert (∀ D', day_rows D' [r] = if in_day D' (D' + day_ns) r then [r] else []) as Hrows.
  { intros D'. unfold day_rows. cbn. by destruct (in_day D' _ r). }
  assert (left_rows D cut [r] = []) as Hleft.
  { unfold left_rows. cbn. unfold in_day. fold (row_time r).
    rewrite (proj2 (Z.leb_le _ _)), (proj2 (Z.ltb_lt _ _)) by lia. done. }
  assert (files = {[D := [r]]}) as ->.
  { apply map_eq. intros D'. rewrite Hfiles. unfold file_after. cbn [only insert_trade trades empty_store existsb day_file].
    rewrite Hrows, lookup_empty. destruct (decide (D' = D)) as [->|Hne].
    - rewrite lookup_singleton_eq, Hin. apply decide_True. split_and!; [apply dayUTC_midnight|lia..|done].
    - rewrite lookup_singleton_ne by done. apply decide_False. intros (Hm & _ & Hr).
      destruct (in_day D' (D' + day_ns) r) eqn:E; [|done]. apply Hne.
      eapply in_day_unique; [exact Hm|apply dayUTC_midnight|exact E|exact Hin]. }
  unfold only_archived. fold D. cbn [only insert_trade trades empty_store existsb]. rewrite Hleft.
  apply rotate_id. cbn [day_file]. unfold walk. rewrite map_to_list_singleton. cbn. lia.
Qed.

(** ** Hidden trades *)

Lemma only_startDay r : startDay (only r) = Some (dayUTC (row_time r)).
Proof. done. Qed.

Lemma only_archived_consistent cut r : consistent (dayUTC (row_time r) + day_ns) (only_archived cut r).
Proof.
  split; cbn [only_archived day_file trades]; intros D rows; [intros [<- <-]%lookup_singleton_Some|..].
  - split; [apply dayUTC_midnight|apply Z.le_refl].
  - intros x [<- <-]%lookup_singleton_Some ->%list_elem_of_singleton. apply in_own_day.
  - intros _. right. intros x Hx. by apply elem_of_nil in Hx.
  - intros [<- <-]%lookup_singleton_Some. split; [done|repeat constructor].
Qed.

Lemma only_archived_stored cut r x : stored x (only_archived cut r) → x = r.
Proof.
  intros [Hx|(D & rows & HD & Hx)]; [by apply elem_of_nil in Hx|].
  cbn in HD. apply lookup_singleton_Some in HD as [_ <-]. by apply list_elem_of_singleton in Hx.
Qed.

Lemma only_archived_ok cut r :
  in_calendar r → archive_ok (files_of (only_archived cut r)).
Proof.
  intros Hr. eapply catalog_ok; [apply only_archived_consistent|].
  by intros x ->%only_archived_stored.
Qed.

Lemma only_archived_rows cut r : in_calendar r → archived (Some (files_of (only_archived cut r))) = [r].
Proof.
  intros Hr. apply Permutation_singleton_r. rewrite archived_files.
  - unfold file_rows. cbn [only_archived day_file]. by rewrite map_to_list_singleton.
  - eapply consistent_dated; [apply only_archived_consistent|]. by intros x ->%only_archived_stored.
Qed.

(** A trade the archiver has moved is hidden until it is older than the
    retention cutoff.  A row older than the archiver's cutoff day but not than
    the retention cutoff leaves the table for its day-file; the history looks for
    rows after the retention cutoff in the table only, so every trade query
    comes back empty. *)
Theorem archived_trade_hidden (file_size : list TradeRow.t → Z) (maxBytes maxAge now retentionDays : Z)
    (r : TradeRow.t) (f : TradeFilter.t)
    (Hold : row_time r < dayUTC (now - maxAge)) (Hkept : cutoff retentionDays now ≤ row_time r)
    (Hmax : 0 ≤ maxBytes) (Hsize : file_size [r] ≤ maxBytes)
    (Hret : 0 < retentionDays) (Hcut : earliest < cutoff retentionDays now)
    (Hcal : in_calendar r) (Hr : typed r)
    (Hsym : is_u 16 f.(TradeFilter.SymbolLocate)) (Hto : f.(TradeFilter.To) ≠ Some zero_time) :
  let s := cycle file_size clean (λ _, NoFault) (λ _, true) maxBytes maxAge now (only r) in
  s.(trades) = [] ∧ s.(day_file) = {[dayUTC (row_time r) := [r]]} ∧
  History_QueryTrades (PgReader s.(trades)) (catalog_of s) retentionDays now f = Some [].
Proof.
  intros s. subst s. rewrite archive_only by done. split_and!; [done..|].
  set (cut := dayUTC (now - maxAge)).
  change (catalog_of (only_archived cut r)) with (Some (files_of (only_archived cut r))).
  rewrite History_page; [|by apply only_archived_ok|done|by rewrite only_archived_rows by done; apply Forall_singleton|done..].
  unfold cold_part. rewrite only_archived_rows by done. cbn [List.filter].
  rewrite (proj2 (Z.ltb_ge _ _) Hkept), andb_false_r.
  change (_ ++ _) with (@nil TradeRow.t). unfold page. by rewrite take_nil, drop_nil, take_nil.
Qed.

(** The default settings, at noon: archive after 24 hours, keep two days. *)
Lemma archived_trade_hidden_witness :
  let now := 20 * day_ns + 12 * 3600 * second in
  let r := demo_row 1 (18 * day_ns + 18 * 3600 * second) in
  let f := TradeFilter.mk 7 10 0 None None in
  let s := cycle (λ _, 1) clean (λ _, NoFault) (λ _, true) 4294967296 (24 * 3600 * second) now (only r) in
  s.(trades) = [] ∧ s.(day_file) = {[dayUTC (row_time r) := [r]]} ∧
  History_QueryTrades (PgReader s.(trades)) (catalog_of s) 2 now f = Some [].
Proof.
  intros now r f.
  apply (archived_trade_hidden (λ _, 1) 4294967296 (24 * 3600 * second) now 2 r f);
    try (vm_compute; congruence); split; vm_compute; congruence.
Defined.

(** Whenever trades are kept for longer than they wait to be archived, as the
    settings are meant to be, there are such moments. *)
Lemma hidden_window maxAge retentionDays :
  maxAge < retentionDays * day_ns →
  ∃ now, cutoff retentionDays now < dayUTC (now - maxAge).
Proof.
  intros H. exists maxAge. rewrite Z.sub_diag. unfold cutoff. change (dayUTC 0) with 0. lia.
Qed.

(** ** Lost trades *)

(** Pruning can destroy a trade before it is archived: if, at the last cycle,
    the trade's day was not yet wholly older than [maxAge], a prune before the
    next cycle deletes the row once it is older than the retention, and it is in
    no day-file. *)
Theorem pruned_before_archived (file_size : list TradeRow.t → Z) (e : surroundings) (maxBytes maxAge t1 t2 retentionDays : Z)
    (r : TradeRow.t)
    (Hyoung : dayUTC (t1 - maxAge) ≤ dayUTC (row_time r)) (Hpruned : row_time r < cutoff retentionDays t2)
    (Hmax : 0 ≤ maxBytes) :
  let s1 := cycle file_size e (λ _, NoFault) (λ _, true) maxBytes maxAge t1 (only r) in
  stored r s1 ∧
    let s2 := prune retentionDays t2 s1 in
    s2.(trades) = [] ∧ s2.(day_file) = ∅.
Proof.
  intros s1. assert (s1 = only r) as ->.
  { subst s1. unfold cycle, cycle_days. rewrite only_startDay, cycle_loop_done by done. apply rotate_empty. }
  split; [left; by left|]. unfold prune. cbn. fold (row_time r).
  fold (cutoff retentionDays t2). by rewrite (proj2 (Z.ltb_lt _ _) Hpruned).
Qed.

(** Defaults: the cycle runs just before midnight, the next is six hours later,
    and the hourly prune at five deletes the trades of the first five hours of a
    day that was not archived. *)
Lemma pruned_before_archived_witness :
  let r := demo_row 1 (19 * day_ns + 4 * 3600 * second) in
  let t1 := 21 * day_ns - second in
  let t2 := 21 * day_ns + 5 * 3600 * second in
  let s1 := cycle (λ _, 1) clean (λ _, NoFault) (λ _, true) 4294967296 (24 * 3600 * second) t1 (only r) in
  stored r s1 ∧
    let s2 := prune 2 t2 s1 in
    s2.(trades) = [] ∧ s2.(day_file) = ∅.
Proof.
  intros r t1 t2.
  apply (pruned_before_archived (λ _, 1) clean 4294967296 (24 * 3600 * second) t1 t2 2 r);
    vm_compute; congruence.
Defined.

(** ** Settings under which pruning is safe *)

Lemma insert_all_elem rows s x :
  x ∈ (fold_right insert_trade s rows).(trades) → x ∈ rows ∨ x ∈ s.(trades).
Proof.
  induction rows as [|r rows IH]; [by right|]. cbn. unfold insert_trade at 1.
  destruct (existsb _ _).
  - intros [?|?]%IH; [left; by right|by right].
  - cbn. intros [->|[?|?]%IH]%elem_of_cons; [left; by left|left; by right|by right].
Qed.

Lemma cycle_rows file_size e maxBytes maxAge now s day r :
  startDay s = Some day → (∀ r, r ∈ s.(trades) → day ≤ row_time r) →
  r ∈ (cycle file_size e (λ _, NoFault) (λ _, true) maxBytes maxAge now s).(trades) →
  dayUTC (now - maxAge) ≤ row_time r.
Proof.
  intros Hday Hrows Hr. destruct (cycle_ok file_size e maxBytes maxAge now s day Hday) as (files & E & _).
  rewrite E, (proj1 (rotate_rest _ _ _ _)) in Hr. cbn in Hr. apply elem_of_filter_bool in Hr as [Hr Hin].
  specialize (Hrows r Hr). apply negb_true_iff in Hin. unfold in_day in Hin.
  apply andb_false_iff in Hin as [H%Z.leb_gt|H%Z.ltb_ge]; unfold row_time in *; lia.
Qed.

Lemma prune_nothing retentionDays now s :
  (∀ r, r ∈ s.(trades) → cutoff retentionDays now ≤ row_time r) → prune retentionDays now s = s.
Proof.
  intros H. unfold prune. fold (cutoff retentionDays now). destruct s as [l cur files]. f_equal. cbn in *.
  induction l as [|r l IH]; [done|]. cbn. fold (row_time r).
  rewrite (proj2 (Z.ltb_ge _ _)) by (apply H; by left). cbn. f_equal. apply IH. intros x Hx. apply H. by right.
Qed.

(** When the retention covers the archiver's age, one more day for the
    alignment and the time between two cycles, pruning destroys nothing: after a
    cycle without failures, and whatever trades are written since, a prune before
    the next cycle changes nothing. *)
Theorem prune_after_archive (file_size : list TradeRow.t → Z) (e : surroundings) (maxBytes maxAge t1 t2 interval retentionDays : Z)
    (s : store) (day : Z) (new : list TradeRow.t)
    (Hday : startDay s = Some day) (Hrows : ∀ r, r ∈ s.(trades) → day ≤ row_time r)
    (Hage : 0 ≤ maxAge) (Hset : maxAge + day_ns + interval ≤ retentionDays * day_ns)
    (Ht : t2 ≤ t1 + interval) (Hnew : ∀ r, r ∈ new → t1 ≤ row_time r) :
  let s1 := cycle file_size e (λ _, NoFault) (λ _, true) maxBytes maxAge t1 s in
  let s2 := fold_right insert_trade s1 new in
  prune retentionDays t2 s2 = s2.
Proof.
  intros s1 s2. apply prune_nothing. intros r Hr.
  assert (t1 - maxAge < dayUTC (t1 - maxAge) + day_ns) as Hmid.
  { unfold dayUTC. pose proof (Z.div_mod (t1 - maxAge) day_ns ltac:(done)).
    pose proof (Z.mod_pos_bound (t1 - maxAge) day_ns ltac:(done)). lia. }
  assert (cutoff retentionDays t2 ≤ dayUTC (t1 - maxAge)) as Hcut by (unfold cutoff; lia).
  apply insert_all_elem in Hr as [Hr|Hr].
  - specialize (Hnew r Hr). pose proof (dayUTC_le (t1 - maxAge)). lia.
  - etrans; [exact Hcut|]. by eapply cycle_rows.
Qed.

(** Archive after a day, every six hours: three days are enough. *)
Lemma prune_after_archive_witness :
  let r := demo_row 1 (19 * day_ns + 4 * 3600 * second) in
  let r2 := demo_row 2 (21 * day_ns) in
  let s1 := cycle (λ _, 1) clean (λ _, NoFault) (λ _, true) 10 day_ns (21 * day_ns - second) (only r) in
  let s2 := fold_right insert_trade s1 [r2] in
  prune 3 (21 * day_ns + 5 * 3600 * second) s2 = s2.
Proof.
  intros r r2.
  apply (prune_after_archive (λ _, 1) clean 10 day_ns (21 * day_ns - second) _ (6 * 3600 * second) 3
    (only r) (19 * day_ns) [r2] eq_refl).
  - intros x ->%list_elem_of_singleton. vm_compute. congruence.
  - vm_compute. congruence.
  - vm_compute. congruence.
  - vm_compute. congruence.
  - intros x ->%list_elem_of_singleton. vm_compute. congruence.
Defined.
