(* ===== verification/DayWriter.v ===== *)
(** * internal/archive/archiver.go: a day's work, statement by statement

    Archiver models the work on a day as one transition that may fail at three
    points.  Here it is the sequence of file and database operations it is in the
    code: [archiveDay] with the [dayWriter] it streams to, each operation of which may
    fail; other goroutines insert trades in between, and the process may be killed
    anywhere.  Every state it can be killed in is one of the transition's. *)
From stdpp Require Import sorting.
From S2P Require Import Prelude Word Float64 GoSort Calendar Trades Archive ArchiveProps HistoryProps Archiver ArchiverProps Lifecycle.

Local Open Scope Z_scope.

(** A file under <dir>/trades: the documents in its gzip stream, and whether the
    stream has been closed, without which it cannot be read to its end. *)
Record gzfile := mkGz { docs : list TradeRow.t; closed : bool }.
Abbreviation disk := (gmap string gzfile).

Definition tmp_path (day : Z) : string := (day_path day ++ ".tmp")%string.

(** Before the operation of the constructor's name.  [Scan]: the rows not scanned
    yet, whether [w] is not nil, and [count]. *)
Inductive day_pc :=
  | Query
  | Scan (rows : list TradeRow.t) (opened : bool) (count : Z)
  | Encode (r : TradeRow.t) (rows : list TradeRow.t) (count : Z)
  | Abort
  | GzClose (count : Z) | Sync (count : Z) | FileClose (count : Z) | Rename (count : Z) | Delete (count : Z)
  | Returned (res : option Z).

(** [d_kept]: what would be left of the disk after a power failure. *)
Record work := mkWork { d_rows : list TradeRow.t; d_disk : disk; d_kept : disk; d_pc : day_pc }.

Section day.
Context (day next : Z).

Definition day_rows_of (rows : list TradeRow.t) : list TradeRow.t := merge_sort older (List.filter (in_day day next) rows).
Definition other_rows (rows : list TradeRow.t) : list TradeRow.t := List.filter (λ r, negb (in_day day next r)) rows.

(** After an error inside the loop. *)
Definition failed (opened : bool) : day_pc := if opened then Abort else Returned None.

Inductive day_step : work → work → Prop :=
  (** the query and the loop over its rows *)
  | dy_query rows d k : day_step (mkWork rows d k Query) (mkWork rows d k (Scan (day_rows_of rows) false 0))
  | dy_query_error rows d k : day_step (mkWork rows d k Query) (mkWork rows d k (Returned None))
  | dy_scan_error rows d k l opened n :
      day_step (mkWork rows d k (Scan l opened n)) (mkWork rows d k (failed opened))
  | dy_next rows d k r l n : day_step (mkWork rows d k (Scan (r :: l) true n)) (mkWork rows d k (Encode r l n))
  | dy_open rows d k r l n :
      day_step (mkWork rows d k (Scan (r :: l) false n))
               (mkWork rows (<[tmp_path day := mkGz [] false]> d) k (Encode r l n))
  | dy_open_error rows d k r l n :
      day_step (mkWork rows d k (Scan (r :: l) false n)) (mkWork rows d k (Returned None))
  | dy_encode rows d k r l n f :
      d !! tmp_path day = Some f →
      day_step (mkWork rows d k (Encode r l n))
               (mkWork rows (<[tmp_path day := mkGz (f.(docs) ++ [r]) false]> d) k (Scan l true (n + 1)))
  | dy_encode_error rows d k r l n f : (** whatever part of it was written *)
      f.(closed) = false →
      day_step (mkWork rows d k (Encode r l n)) (mkWork rows (<[tmp_path day := f]> d) k Abort)
  | dy_abort rows d k : day_step (mkWork rows d k Abort) (mkWork rows (delete (tmp_path day) d) k (Returned None))
  | dy_abort_left rows d k f :
      day_step (mkWork rows d k Abort) (mkWork rows (<[tmp_path day := f]> d) k (Returned None))
  | dy_none rows d k n : day_step (mkWork rows d k (Scan [] false n)) (mkWork rows d k (Returned (Some 0)))
  | dy_end rows d k n : day_step (mkWork rows d k (Scan [] true n)) (mkWork rows d k (GzClose n))
  (** [commit]; its errors leave the temporary file *)
  | dy_close rows d k n f :
      d !! tmp_path day = Some f →
      day_step (mkWork rows d k (GzClose n)) (mkWork rows (<[tmp_path day := mkGz f.(docs) true]> d) k (Sync n))
  | dy_sync rows d k n f :
      d !! tmp_path day = Some f →
      day_step (mkWork rows d k (Sync n)) (mkWork rows d (<[tmp_path day := f]> k) (FileClose n))
  | dy_file_close rows d k n : day_step (mkWork rows d k (FileClose n)) (mkWork rows d k (Rename n))
  | dy_rename rows d k n f :
      d !! tmp_path day = Some f →
      day_step (mkWork rows d k (Rename n))
               (mkWork rows (<[day_path day := f]> (delete (tmp_path day) d)) k (Delete n))
  | dy_commit_error rows d k c n :
      c = GzClose n ∨ c = Sync n ∨ c = FileClose n ∨ c = Rename n →
      day_step (mkWork rows d k c) (mkWork rows d k (Returned None))
  (** the DELETE, which may also take effect although an error is reported *)
  | dy_delete rows d k n res :
      res = Some n ∨ res = None →
      day_step (mkWork rows d k (Delete n)) (mkWork (other_rows rows) d k (Returned res))
  | dy_delete_error rows d k n : day_step (mkWork rows d k (Delete n)) (mkWork rows d k (Returned None))
  (** others: a trade of a later day is inserted; the system writes the disk out *)
  | dy_insert rows d k c r : next ≤ row_time r → day_step (mkWork rows d k c) (mkWork (r :: rows) d k c)
  | dy_flush rows d k c : day_step (mkWork rows d k c) (mkWork rows d d c).

End day.

(** The catalog of a disk: a file whose stream was not closed cannot be read. *)
Definition disk_catalog (d : disk) : catalog :=
  Some ((λ p, mkFile p.1 (if p.2.(closed) then Some p.2.(docs) else None)) <$> map_to_list d).

(** ** Every state is one of the transition's *)

Section invariant.
Context (day next : Z) (rows0 : list TradeRow.t) (d0 : disk).

Abbreviation today := (day_rows_of day next rows0).

Definition late (r : TradeRow.t) : Prop := next ≤ row_time r.

Lemma late_out r : late r → in_day day next r = false.
Proof. intros H. apply andb_false_intro2, Z.ltb_ge. exact H. Qed.

Lemma late_today L : Forall late L → day_rows_of day next (L ++ rows0) = today.
Proof.
  intros HL. unfold day_rows_of. f_equal. induction HL as [|r L Hr _ IH]; [done|]. cbn. by rewrite late_out.
Qed.

Lemma late_other r rows : late r → other_rows day next (r :: rows) = r :: other_rows day next rows.
Proof. intros Hr. unfold other_rows. cbn. by rewrite late_out. Qed.

(** The disk but for the temporary file. *)
Definition unwritten (d : disk) : Prop := ∀ p, p ≠ tmp_path day → d !! p = d0 !! p.
Definition written (d : disk) : Prop :=
  today ≠ [] ∧ ∀ p, p ≠ tmp_path day → d !! p = <[day_path day := mkGz today true]> d0 !! p.

(** What is in the temporary file. *)
Definition holds (d : disk) (l : list TradeRow.t) (c : bool) : Prop := d !! tmp_path day = Some (mkGz l c).

Definition pc_ok (R : list TradeRow.t) (rows : list TradeRow.t) (d : disk) (c : day_pc) : Prop :=
  match c with
  | Query | Abort => rows = R ∧ unwritten d
  | Scan l opened n => rows = R ∧ unwritten d ∧ ∃ l0, l0 ++ l = today ∧ n = Z.of_nat (length l0) ∧
      if (opened : bool) then l0 ≠ [] ∧ holds d l0 false else l0 = []
  | Encode r l n => rows = R ∧ unwritten d ∧ ∃ l0, l0 ++ r :: l = today ∧ n = Z.of_nat (length l0) ∧ holds d l0 false
  | GzClose n => rows = R ∧ unwritten d ∧ today ≠ [] ∧ n = Z.of_nat (length today) ∧ holds d today false
  | Sync n | FileClose n | Rename n =>
      rows = R ∧ unwritten d ∧ today ≠ [] ∧ n = Z.of_nat (length today) ∧ holds d today true
  | Delete n => rows = R ∧ written d ∧ n = Z.of_nat (length today)
  | Returned (Some n) =>
      n = Z.of_nat (length today) ∧
      ((today = [] ∧ rows = R ∧ unwritten d) ∨ (rows = other_rows day next R ∧ written d))
  | Returned None =>
      (rows = R ∧ unwritten d) ∨ ((rows = R ∨ rows = other_rows day next R) ∧ written d)
  end.

Definition work_ok (x : work) : Prop :=
  ∃ L, Forall late L ∧ pc_ok (L ++ rows0) x.(d_rows) x.(d_disk) x.(d_pc).

Lemma unwritten_tmp d f : unwritten d → unwritten (<[tmp_path day := f]> d).
Proof. intros H p Hp. rewrite lookup_insert_ne by done. by apply H. Qed.

Lemma unwritten_delete d : unwritten d → unwritten (delete (tmp_path day) d).
Proof. intros H p Hp. rewrite lookup_delete_ne by done. by apply H. Qed.

Lemma unwritten_rename d f : unwritten d → today ≠ [] → holds d today true → d !! tmp_path day = Some f →
  written (<[day_path day := f]> (delete (tmp_path day) d)).
Proof.
  intros H Hne Ht Hf. split; [done|]. intros p Hp. unfold holds in Ht. assert (f = mkGz today true) as -> by congruence.
  destruct (decide (p = day_path day)) as [->|Hd]; [by rewrite !lookup_insert_eq|].
  rewrite !lookup_insert_ne, lookup_delete_ne by done. by apply H.
Qed.

Lemma pc_late R rows d c r : late r → pc_ok R rows d c → pc_ok (r :: R) (r :: rows) d c.
Proof.
  intros Hr. destruct c as [|l o n|r' l n| |n|n|n|n|n|[n|]]; cbn [pc_ok]; try (intros [-> H]; by split).
  - intros [-> [(H0 & -> & H)|[-> H]]]; split; try done; [by left|right]. by rewrite late_other.
  - intros [[-> H]|[[-> | ->] H]]; [by left|right; split; [by left|done]|].
    right. rewrite late_other by done. split; [by right|done].
Qed.

Lemma day_step_ok x y : day_step day next x y → work_ok x → work_ok y.
Proof.
  intros Hs (L & HL & Hok). destruct Hs; cbn in Hok;
    lazymatch goal with H : next ≤ _ |- _ => idtac | _ => exists L; split; [exact HL|] end; cbn.
  - destruct Hok as [-> Hd]. split_and!; [done|done|]. exists []. by rewrite late_today.
  - left. done.
  - destruct Hok as (-> & Hd & _). destruct opened; cbn; [done|by left].
  - destruct Hok as (-> & Hd & l0 & E & -> & _ & Ht). split_and!; [done|done|]. by exists l0.
  - destruct Hok as (-> & Hd & l0 & E & -> & ->). split_and!; [done|by apply unwritten_tmp|].
    exists []. split_and!; [done|done|]. apply lookup_insert_eq.
  - left. by destruct Hok as (-> & Hd & _).
  - destruct Hok as (-> & Hd & l0 & E & -> & Ht). split_and!; [done|by apply unwritten_tmp|].
    exists (l0 ++ [r]). unfold holds in Ht. assert (f = mkGz l0 false) as -> by congruence.
    split_and!; [by rewrite <- app_assoc|rewrite length_app; cbn; lia|by destruct l0|apply lookup_insert_eq].
  - destruct Hok as (-> & Hd & _). split; [done|by apply unwritten_tmp].
  - left. destruct Hok as [-> Hd]. split; [done|by apply unwritten_delete].
  - left. destruct Hok as [-> Hd]. split; [done|by apply unwritten_tmp].
  - destruct Hok as (-> & Hd & l0 & E & -> & ->). rewrite <- E. split; [done|]. by left.
  - destruct Hok as (-> & Hd & l0 & E & -> & Hne & Ht). rewrite app_nil_r in E. subst l0. by split_and!.
  - destruct Hok as (-> & Hd & Hne & -> & Ht). split_and!; [done|by apply unwritten_tmp|done|done|].
    unfold holds in *. rewrite lookup_insert_eq. by assert (f = mkGz today false) as -> by congruence.
  - exact Hok.
  - exact Hok.
  - destruct Hok as (-> & Hd & Hne & -> & Ht). split_and!; [done| |done]. by eapply unwritten_rename.
  - left. destruct H as [-> |[-> |[-> | ->]]]; cbn in Hok; by destruct Hok as (-> & Hd & _).
  - destruct Hok as (-> & Hd & ->). destruct H as [-> | ->]; [split; [done|by right]|right; split; [by right|done]].
  - destruct Hok as (-> & Hd & ->). right. split; [by left|done].
  - exists (r :: L). split; [by constructor|]. by apply pc_late.
  - exact Hok.
Qed.

Lemma day_run_ok k0 x : rtc (day_step day next) (mkWork rows0 d0 k0 Query) x → work_ok x.
Proof.
  intros Hr. assert (work_ok (mkWork rows0 d0 k0 Query)) as H by by exists [].
  induction Hr as [|x y z Hs _ IH]; [done|]. by apply IH, (day_step_ok x).
Qed.
End invariant.

(** ** What the readers find *)

(** The disk holds exactly the day-files of [m], complete. *)
Definition looks (d : disk) (m : gmap Z (list TradeRow.t)) : Prop :=
  ∀ D, dated D → d !! day_path D = (λ rows, mkGz rows true) <$> m !! D.

Lemma list_ascii_app a b :
  String.list_ascii_of_string (a ++ b)%string = String.list_ascii_of_string a ++ String.list_ascii_of_string b.
Proof. induction a as [|x a IH]; [done|]. exact (f_equal (cons x) IH). Qed.

Lemma tmp_not_final day D : day_path D ≠ tmp_path day.
Proof.
  intros E%(f_equal String.list_ascii_of_string). unfold tmp_path in E. rewrite list_ascii_app in E.
  unfold day_path at 1, path_of_day in E. destruct (date_of (D / day_ns)) as [[y m] d].
  rewrite String.list_ascii_of_string_of_list_ascii in E. apply (f_equal reverse) in E. rewrite !reverse_app in E. done.
Qed.

Lemma day_path_inj D D' : dated D → dated D' → day_path D = day_path D' → D = D'.
Proof.
  intros H H' E. pose proof (proj2 (parsed_iff (mkFile (day_path D) None) D) (conj H eq_refl)) as H1.
  pose proof (proj2 (parsed_iff (mkFile (day_path D) None) D') (conj H' E)) as H2. congruence.
Qed.

Lemma looks_unwritten day d0 d m : unwritten day d0 d → looks d0 m → looks d m.
Proof. intros Hu Hl D HD. rewrite Hu by apply tmp_not_final. by apply Hl. Qed.

Lemma looks_written day next rows0 d0 d m :
  dated day → written day next rows0 d0 d → looks d0 m → looks d (<[day := day_rows_of day next rows0]> m).
Proof.
  intros Hday [_ Hw] Hl D HD. rewrite Hw by apply tmp_not_final. destruct (decide (D = day)) as [->|Hne].
  - by rewrite !lookup_insert_eq.
  - rewrite !lookup_insert_ne; [by apply Hl|done|]. intros E. apply Hne. symmetry. by apply day_path_inj.
Qed.

Lemma Days_of_perm files files' :
  NoDup (DayFile.Date <$> day_files files) → day_files files ≡ₚ day_files files' → Days (Some files) = Days (Some files').
Proof.
  intros Hnd Hp. assert (NoDup (DayFile.Date <$> day_files files')) as Hnd' by by rewrite <- Hp.
  cbn [Days]. apply (sort_slice_unique date_less); try (unfold date_less; intros; rewrite ?Z.ltb_lt, ?Z.ltb_ge in *; lia);
    [by apply dates_comparable| |by rewrite sort_slice_perm].
  apply sort_slice_sorted; [unfold date_less; intros ???; rewrite !Z.ltb_lt; lia|by apply dates_comparable].
Qed.

Lemma disk_days d s : looks d s.(day_file) → all_dated s → Days (disk_catalog d) = Days (catalog_of s).
Proof.
  intros Hl Hd. assert (NoDup (DayFile.Date <$> day_files (default [] (disk_catalog d)))) as Hnd.
  { apply paths_dates. cbn. rewrite <- list_fmap_compose. apply NoDup_fst_map_to_list. }
  apply Days_of_perm; [exact Hnd|]. change (files_of s) with (default [] (catalog_of s)).
  apply NoDup_Permutation; [by eapply NoDup_fmap_1| |].
  - change (NoDup (day_files (files_of s))). rewrite day_files_of by done. apply (NoDup_fmap_1 DayFile.Date).
    rewrite <- list_fmap_compose. apply NoDup_fst_map_to_list.
  - intros [D c]. change (DayFile.mk D c ∈ day_files (default [] (disk_catalog d)) ↔ DayFile.mk D c ∈ day_files (files_of s)).
    rewrite day_files_of by done. unfold day_files. rewrite list_elem_of_omap, list_elem_of_fmap. split.
    + intros (f & Hf & E). cbn in Hf. apply list_elem_of_fmap in Hf as ([p g] & -> & Hg%elem_of_map_to_list).
      destruct (parsed _) as [D'|] eqn:Ep; [|done]. cbn in E. injection E as <- <-.
      apply parsed_iff in Ep as [HD Ep]. cbn in Ep. subst p. rewrite Hl in Hg by done.
      destruct (s.(day_file) !! D') as [rows|] eqn:Em; [|done]. injection Hg as <-.
      exists (D', rows). split; [done|]. by apply elem_of_map_to_list.
    + intros ([D' rows] & E & Hin%elem_of_map_to_list). injection E as -> ->.
      assert (dated D') as HD by (apply Hd; by eexists).
      exists (mkFile (day_path D') (Some rows)). split.
      * cbn. apply list_elem_of_fmap. exists (day_path D', mkGz rows true). split; [done|].
        apply elem_of_map_to_list. by rewrite Hl, Hin.
      * by rewrite (proj2 (parsed_iff (mkFile (day_path D') (Some rows)) D') (conj HD eq_refl)).
Qed.

(** ** Refinement *)

(** The transition's outcome on a table of [rows] and the day-files [m]. *)
Definition outcome (flt : fault) (day next : Z) (rows : list TradeRow.t) (c : option Z) (m : gmap Z (list TradeRow.t)) : store * option Z :=
  archiveDay flt day next (mkStore rows c m).

Lemma outcome_write day next rows c m : outcome WriteFault day next rows c m = (mkStore rows c m, None).
Proof. done. Qed.

Lemma outcome_delete day next rows c m :
  day_rows_of day next rows ≠ [] →
  outcome DeleteFault day next rows c m = (mkStore rows c (<[day := day_rows_of day next rows]> m), None).
Proof. intros H. unfold outcome, archiveDay. by rewrite decide_False. Qed.

Lemma outcome_none day next rows c m :
  day_rows_of day next rows = [] → outcome NoFault day next rows c m = (mkStore rows c m, Some 0).
Proof. intros H. unfold outcome, archiveDay. by rewrite decide_True. Qed.

Lemma outcome_done day next rows c m :
  day_rows_of day next rows ≠ [] →
  outcome NoFault day next rows c m =
    (mkStore (other_rows day next rows) c (<[day := day_rows_of day next rows]> m), Some (Z.of_nat (length (day_rows_of day next rows)))).
Proof. intros H. unfold outcome, archiveDay. by rewrite decide_False. Qed.

(** What a state says of the transition: its table and disk, and the result. *)
Lemma pc_outcome day next rows0 d0 m0 c R x :
  dated day → looks d0 m0 → day_rows_of day next R = day_rows_of day next rows0 →
  pc_ok day next rows0 d0 R x.(d_rows) x.(d_disk) x.(d_pc) →
  ∃ flt s res, outcome flt day next R c m0 = (s, res) ∧ x.(d_rows) = s.(trades) ∧ looks x.(d_disk) s.(day_file) ∧
    ∀ n, x.(d_pc) = Returned (Some n) → res = Some n.
Proof.
  intros Hday Hl HR. destruct x as [rows d k c']. cbn [d_rows d_disk d_pc].
  assert (rows = R ∧ unwritten day d0 d → (∀ n, c' ≠ Returned (Some n)) →
    ∃ flt s res, outcome flt day next R c m0 = (s, res) ∧ rows = s.(trades) ∧ looks d s.(day_file) ∧
    ∀ n, c' = Returned (Some n) → res = Some n) as Hun.
  { intros [-> Hu] Hc. exists WriteFault. eexists _, _. split; [apply outcome_write|]. cbn.
    split; [done|]. split; [by eapply looks_unwritten|]. intros n E. by destruct (Hc n E). }
  assert (written day next rows0 d0 d → looks d (<[day := day_rows_of day next R]> m0) ∧ day_rows_of day next R ≠ []) as Hwr.
  { intros Hw. rewrite HR. split; [by eapply looks_written|apply Hw]. }
  destruct c' as [|l o n|r' l n| |n|n|n|n|n|[n|]]; cbn [pc_ok]; intros H; try (apply Hun; [naive_solver|done]).
  - destruct H as (-> & Hw & ->). destruct (Hwr Hw) as [H1 H2].
    exists DeleteFault. eexists _, _. split; [by apply outcome_delete|]. by cbn.
  - destruct H as [-> [(Ht & -> & Hu)|[-> Hw]]].
    + exists NoFault. eexists _, _. split; [apply outcome_none; by rewrite HR|]. cbn.
      split; [done|]. split; [by eapply looks_unwritten|]. intros n [= <-]. by rewrite Ht.
    + destruct (Hwr Hw) as [H1 H2]. exists NoFault. eexists _, _. split; [by apply outcome_done|]. cbn.
      split; [done|]. split; [done|]. intros n [= <-]. by rewrite HR.
  - destruct H as [H|[[-> | ->] Hw]]; [by apply Hun| |]; destruct (Hwr Hw) as [H1 H2].
    + exists DeleteFault. eexists _, _. split; [by apply outcome_delete|]. by cbn.
    + exists NoFault. eexists _, _. split; [by apply outcome_done|]. by cbn.
Qed.

(** C13. Killing the archiver anywhere is safe.  Whatever operations of a day's work
    fail, whatever is inserted meanwhile with a later time, and wherever the process
    is killed, the table and the disk are those of one of the three outcomes of the
    one-step [archiveDay], taken after the insertions: untouched, file written, or
    file written and rows deleted; a returned count is the outcome's; and the catalog
    lists the outcome's complete day-files and never a file half written. *)
Theorem killed_day_is_whole (day next : Z) (rows0 : list TradeRow.t) (d0 k0 : disk) (m0 : gmap Z (list TradeRow.t))
    (c : option Z) (x : work)
    (Hday : dated day) (Hlooks : looks d0 m0) (Hm0 : ∀ D, is_Some (m0 !! D) → dated D)
    (Hrun : rtc (day_step day next) (mkWork rows0 d0 k0 Query) x) :
  ∃ L flt s res, Forall (λ r, next ≤ row_time r) L ∧
    archiveDay flt day next (mkStore (L ++ rows0) c m0) = (s, res) ∧
    x.(d_rows) = s.(trades) ∧ looks x.(d_disk) s.(day_file) ∧
    (∀ n, x.(d_pc) = Returned (Some n) → res = Some n) ∧
    Days (disk_catalog x.(d_disk)) = Days (catalog_of s).
Proof.
  destruct (day_run_ok day next rows0 d0 k0 x Hrun) as (L & HL & Hok).
  destruct (pc_outcome day next rows0 d0 m0 c (L ++ rows0) x Hday Hlooks (late_today day next rows0 L HL) Hok)
    as (flt & s & res & E & Hrows & Hd & Hres).
  exists L, flt, s, res. split_and!; [exact HL|exact E|exact Hrows|exact Hd|exact Hres|].
  apply disk_days; [exact Hd|]. intros D. unfold outcome, archiveDay in E.
  destruct flt; [|injection E as <- <-; apply Hm0|]; destruct (decide (_ = [])); injection E as <- <-; try apply Hm0;
    cbn [day_file]; (destruct (decide (D = day)) as [->|Hne]; [done|rewrite lookup_insert_ne by done; apply Hm0]).
Qed.

(** ** Every outcome happens *)

Section runs.
Context (day next : Z).
Abbreviation runs := (rtc (day_step day next)).

Lemma scan_all rows k l : ∀ l0 d n, holds day d l0 false →
  ∃ d', runs (mkWork rows d k (Scan l true n)) (mkWork rows d' k (Scan [] true (n + Z.of_nat (length l)))) ∧
    holds day d' (l0 ++ l) false ∧ unwritten day d d'.
Proof.
  induction l as [|r l IH]; intros l0 d n Hd.
  { exists d. rewrite app_nil_r, Z.add_0_r. by split_and!; [apply rtc_refl|..]. }
  destruct (IH (l0 ++ [r]) (<[tmp_path day := mkGz (l0 ++ [r]) false]> d) (n + 1)) as (d' & Hr & Hh & Hu); [apply lookup_insert_eq|].
  exists d'. rewrite <- app_assoc in Hh. split_and!; [|exact Hh|].
  - eapply rtc_l; [apply dy_next|]. eapply rtc_l; [by eapply dy_encode|].
    cbn [docs length] in *. replace (n + Z.of_nat (S (length l))) with (n + 1 + Z.of_nat (length l)) by lia. exact Hr.
  - intros p Hp. rewrite Hu, lookup_insert_ne by done. done.
Qed.

(** Up to the DELETE. *)
Lemma commits rows d0 k0 :
  day_rows_of day next rows ≠ [] →
  ∃ d k, runs (mkWork rows d0 k0 Query) (mkWork rows d k (Delete (Z.of_nat (length (day_rows_of day next rows))))) ∧
    written day next rows d0 d.
Proof.
  intros Hne. destruct (day_rows_of day next rows) as [|r l] eqn:El; [done|].
  destruct (scan_all rows k0 l [r] (<[tmp_path day := mkGz [r] false]> (<[tmp_path day := mkGz [] false]> d0)) 1) as (d & Hr & Hh & Hu);
    [apply lookup_insert_eq|].
  exists (<[day_path day := mkGz (r :: l) true]> (delete (tmp_path day) (<[tmp_path day := mkGz (r :: l) true]> d))).
  exists (<[tmp_path day := mkGz (r :: l) true]> k0). split.
  - eapply rtc_l; [apply dy_query|]. rewrite El. eapply rtc_l; [apply dy_open|].
    eapply rtc_l; [eapply dy_encode; apply lookup_insert_eq|]. etrans; [exact Hr|].
    eapply rtc_l; [apply dy_end|]. eapply rtc_l; [by eapply dy_close|].
    eapply rtc_l; [eapply dy_sync; apply lookup_insert_eq|]. eapply rtc_l; [apply dy_file_close|].
    replace (1 + Z.of_nat (length l)) with (Z.of_nat (length (r :: l))) by (cbn [length]; lia).
    eapply rtc_l; [eapply dy_rename; apply lookup_insert_eq|]. apply rtc_refl.
  - split; [by rewrite El|]. intros p Hp. rewrite El.
    destruct (decide (p = day_path day)) as [->|Hd]; [by rewrite !lookup_insert_eq|].
    rewrite !lookup_insert_ne, lookup_delete_ne, lookup_insert_ne by done. rewrite Hu by done. by rewrite !lookup_insert_ne.
Qed.
End runs.

(** C33. A day's work can come out in each of the three ways, and comes out by itself:
    there is a run to a result for every outcome of the one-step [archiveDay], with
    its table, its day-files and its result. *)
Theorem every_outcome_happens (flt : fault) (day next : Z) (rows0 : list TradeRow.t) (d0 k0 : disk)
    (m0 : gmap Z (list TradeRow.t)) (c : option Z) (Hday : dated day) (Hlooks : looks d0 m0) :
  ∃ x, rtc (day_step day next) (mkWork rows0 d0 k0 Query) x ∧
    let '(s, res) := archiveDay flt day next (mkStore rows0 c m0) in
    x.(d_pc) = Returned res ∧ x.(d_rows) = s.(trades) ∧ looks x.(d_disk) s.(day_file).
Proof.
  change (archiveDay flt day next (mkStore rows0 c m0)) with (outcome flt day next rows0 c m0).
  assert (flt = WriteFault ∨ flt ≠ WriteFault) as [->|Hw] by (destruct flt; [right|left|right]; done).
  { eexists. split; [apply rtc_once, dy_query_error|]. done. }
  destruct (decide (day_rows_of day next rows0 = [])) as [He|Hne].
  - assert (outcome flt day next rows0 c m0 = (mkStore rows0 c m0, Some 0)) as ->.
    { unfold outcome, archiveDay. rewrite decide_True by exact He. by destruct flt. }
    eexists. split; [eapply rtc_l; [apply dy_query|]; rewrite He; apply rtc_once, dy_none|]. done.
  - destruct (commits day next rows0 d0 k0 Hne) as (d & k & Hr & Hd).
    pose proof (looks_written day next rows0 d0 d m0 Hday Hd Hlooks) as Hl. destruct flt; [|done|].
    + eexists. split; [eapply rtc_r; [exact Hr|apply dy_delete; by left]|]. by rewrite outcome_done.
    + eexists. split; [eapply rtc_r; [exact Hr|apply dy_delete_error]|]. by rewrite outcome_delete.
Qed.

(** ** A file on disk is not yet a name on disk *)

(** A power failure can lose a day.  The temporary file is synced before the
    rename but its directory is not synced after it, so the rows may be deleted, for
    good, while the rename is not: on the concrete day below the work returns its
    count, the table is empty, and the disk that comes back has the rows under the
    temporary name only, which no reader looks at. *)
Theorem power_failure_loses_day :
  let r := demo_row 1 (5 * day_ns + 7) in
  ∃ x, rtc (day_step (5 * day_ns) (6 * day_ns)) (mkWork [r] ∅ ∅ Query) x ∧
    x.(d_pc) = Returned (Some 1) ∧ x.(d_rows) = [] ∧
    DayFile.Content <$> Days (disk_catalog x.(d_disk)) = [Some [r]] ∧
    Days (disk_catalog x.(d_kept)) = [] ∧ x.(d_kept) = {[tmp_path (5 * day_ns) := mkGz [r] true]}.
Proof.
  intros r. assert (day_rows_of (5 * day_ns) (6 * day_ns) [r] = [r]) as Hr by (vm_compute; reflexivity).
  eexists. split.
  - eapply rtc_l; [apply dy_query|]. rewrite Hr. eapply rtc_l; [apply dy_open|].
    eapply rtc_l; [eapply dy_encode; apply lookup_insert_eq|]. eapply rtc_l; [apply dy_end|].
    eapply rtc_l; [eapply dy_close; apply lookup_insert_eq|]. eapply rtc_l; [eapply dy_sync; apply lookup_insert_eq|].
    eapply rtc_l; [apply dy_file_close|]. eapply rtc_l; [eapply dy_rename; apply lookup_insert_eq|].
    eapply rtc_l; [apply dy_delete; by left|]. apply rtc_refl.
  - split_and!; vm_compute; reflexivity.
Qed.

(** ** Doing a day again *)

(** Archiving a day again can lose what was archived.  When the DELETE of a
    committed day fails, the next cycle writes the day's file again from what is
    left in the table; if the retention has pruned some of the day in between, as it
    does with the default settings, those rows were only in the file, and are gone. *)
Theorem retry_overwrites_archive :
  let hour := 3600 * second in
  let r1 := demo_row 1 (5 * day_ns + hour) in
  let r2 := demo_row 2 (5 * day_ns + 20 * hour) in
  let cycle_at t flt := cycle (λ rows, 1000 * Z.of_nat (length rows)) clean flt (λ _, true) 5000 (24 * hour) t in
  let s0 := mkStore [r2; r1] None ∅ in
  let s1 := cycle_at (7 * day_ns + hour) (λ _, DeleteFault) s0 in
  let s2 := prune 2 (7 * day_ns + 2 * hour) s1 in
  let s3 := cycle_at (7 * day_ns + 7 * hour) (λ _, NoFault) s2 in
  s1.(day_file) !! (5 * day_ns) = Some [r1; r2] ∧ stored r1 s2 ∧
  s3.(day_file) !! (5 * day_ns) = Some [r2] ∧ s3.(trades) = [] ∧ ¬ stored r1 s3.
Proof.
  intros hour r1 r2 cycle_at s0 s1 s2 s3.
  assert (s1.(day_file) !! (5 * day_ns) = Some [r1; r2]) as H1 by (vm_compute; reflexivity).
  assert (s3 = mkStore [] s3.(cursor) {[5 * day_ns := [r2]]}) as H3 by (vm_compute; reflexivity).
  split; [exact H1|]. split.
  { right. exists (5 * day_ns), [r1; r2]. split; [exact H1|by left]. }
  rewrite H3. cbn [trades day_file]. split; [apply lookup_singleton_eq|]. split; [done|].
  intros [H|(D & rows & H & Hr)]; cbn in *; [by apply elem_of_nil in H|].
  apply lookup_singleton_Some in H as [_ <-]. apply list_elem_of_singleton in Hr. discriminate.
Qed.

(** The work on a day of one trade, killed before its rename. *)
Lemma killed_day_is_whole_witness :
  let r := demo_row 1 (5 * day_ns + 7) in
  let x := mkWork [r] {[tmp_path (5 * day_ns) := mkGz [r] true]} ∅ (Sync 1) in
  ∃ L flt s res, Forall (λ r, 6 * day_ns ≤ row_time r) L ∧
    archiveDay flt (5 * day_ns) (6 * day_ns) (mkStore (L ++ [r]) None ∅) = (s, res) ∧
    x.(d_rows) = s.(trades) ∧ looks x.(d_disk) s.(day_file) ∧
    (∀ n, x.(d_pc) = Returned (Some n) → res = Some n) ∧
    Days (disk_catalog x.(d_disk)) = Days (catalog_of s).
Proof.
  intros r x.
  apply (killed_day_is_whole (5 * day_ns) (6 * day_ns) [r] ∅ ∅ ∅ None x).
  - by apply (dated_of _ (5 * day_ns)); [exists 5| |vm_compute; split].
  - intros D _. by rewrite !lookup_empty.
  - intros D [? H]. by rewrite lookup_empty in H.
  - assert (day_rows_of (5 * day_ns) (6 * day_ns) [r] = [r]) as Hr by (vm_compute; reflexivity).
    eapply rtc_l; [apply dy_query|]. rewrite Hr. eapply rtc_l; [apply dy_open|].
    eapply rtc_l; [eapply dy_encode; apply lookup_insert_eq|]. eapply rtc_l; [apply dy_end|].
    eapply rtc_l; [eapply dy_close; apply lookup_insert_eq|]. apply rtc_refl.
Defined.

Lemma every_outcome_happens_witness :
  let r := demo_row 1 (5 * day_ns + 7) in
  ∃ x, rtc (day_step (5 * day_ns) (6 * day_ns)) (mkWork [r] ∅ ∅ Query) x ∧
    let '(s, res) := archiveDay DeleteFault (5 * day_ns) (6 * day_ns) (mkStore [r] None ∅) in
    x.(d_pc) = Returned res ∧ x.(d_rows) = s.(trades) ∧ looks x.(d_disk) s.(day_file).
Proof.
  intros r. apply (every_outcome_happens DeleteFault (5 * day_ns) (6 * day_ns) [r] ∅ ∅ ∅ None).
  - by apply (dated_of _ (5 * day_ns)); [exists 5| |vm_compute; split].
  - intros D _. by rewrite !lookup_empty.
Defined.
