(* ===== verification/Services.v ===== *)
(** * The periodic services: the loops of the archiver and of the retention

    [Archiver.Run] and [RunRetention] as what they do at the start and at each tick.
    A tick carries the instant it is served at and what its queries and files make
    of it; [None] is a panic, which ends the whole process. *)
From stdpp Require Import sorting.
From S2P Require Import Prelude Word Float64 GoSort Calendar Strconv Config Trades Retention Archive ArchiveProps HistoryProps Archiver ArchiverProps Lifecycle.

Local Open Scope Z_scope.

(** [time.NewTicker] panics if the interval is not positive. *)
Definition NewTicker (d : Z) : option unit := if 0 <? d then Some tt else None.

(** ** archiver.go *)

Definition hour : Z := 3600 * second.

Module Archiver.
Record t := mk { maxBytes : Z; interval : Z; maxAge : Z (* int64 *) }.
End Archiver.

Definition New (maxGB intervalHours afterHours : Z) : Archiver.t :=
  Archiver.mk (to_i64 (Z.shiftl maxGB 30)) (to_i64 (intervalHours * hour)) (to_i64 (afterHours * hour)).

(** When a cycle runs, what fails in it, and what its rotation meets on the disk. *)
Record tick := mkTick { t_now : Z; t_fault : Z → fault; t_saved : Z → bool; t_disk : surroundings }.

Section archiver.
Context (file_size : list TradeRow.t → Z) (a : Archiver.t).

Definition cycle_at (s : store) (t : tick) : store :=
  cycle file_size t.(t_disk) t.(t_fault) t.(t_saved) a.(Archiver.maxBytes) a.(Archiver.maxAge) t.(t_now) s.

(** [Run] up to the last of [ticks]. *)
Definition Run (start : tick) (ticks : list tick) (s : store) : option store :=
  let s := cycle_at s start in
  _ ← NewTicker a.(Archiver.interval);
  Some (fold_left cycle_at ticks s).
End archiver.

(** ** retention.go *)

(** A tick of the retention: its instant, and the answer of the size query. *)
Definition retain (retentionDays : Z) (sm : store * sizeMonitor) (t : option DBSize.t * Z) : store * sizeMonitor :=
  (prune retentionDays t.2 sm.1, (reportAt t.1 t.2 sm.2).2).

Definition RunRetention (retentionDays : Z) (ticks : list (option DBSize.t * Z)) (s : store) : store * list event :=
  if retentionDays <=? 0 then (s, [])
  else ((fold_left (retain retentionDays) ticks (s, fresh_monitor)).1, (reports ticks fresh_monitor).1).

Lemma prune_twice d t1 t2 s : prune d t2 (prune d t1 s) = prune d (Z.max t1 t2) s.
Proof.
  unfold prune. cbn. f_equal. induction s.(trades) as [|r l IH]; [done|]. cbn.
  destruct (Z.ltb_spec r.(TradeRow.ExecutedAt) (t1 - d * day_ns)), (Z.ltb_spec r.(TradeRow.ExecutedAt) (Z.max t1 t2 - d * day_ns));
    cbn; try lia; [exact IH|rewrite (proj2 (Z.ltb_lt _ _)) by lia; exact IH|].
  rewrite (proj2 (Z.ltb_ge _ _)) by lia. cbn. by rewrite IH.
Qed.

Lemma retain_state d ticks s m :
  (fold_left (retain d) ticks (s, m)).1 = fold_left (λ s t, prune d t.2 s) ticks s.
Proof. revert s m. induction ticks as [|t ticks IH]; intros s m; [done|]. apply IH. Qed.

(** At the end of its ticks the retention has pruned the table once, at the latest
    of their instants, whatever the size queries answered; disabled, nothing. *)
Lemma RunRetention_table d t ticks s :
  (RunRetention d (t :: ticks) s).1 = if d <=? 0 then s else prune d (fold_left (λ m t, Z.max m t.2) ticks t.2) s.
Proof.
  unfold RunRetention. destruct (d <=? 0); [done|]. cbn [fst]. rewrite retain_state. cbn [fold_left].
  generalize t.2. clear t. revert s. induction ticks as [|t ticks IH]; intros s now; [done|]. cbn [fold_left].
  by rewrite prune_twice, IH.
Qed.

(** ** The settings the loops depend on *)

(** With hours that fit, [New] is exact. *)
Lemma New_exact maxGB intervalHours afterHours :
  0 ≤ maxGB < 2 ^ 33 → 0 ≤ intervalHours < 2 ^ 20 → 0 ≤ afterHours < 2 ^ 20 →
  New maxGB intervalHours afterHours = Archiver.mk (maxGB * 2 ^ 30) (intervalHours * hour) (afterHours * hour).
Proof.
  intros H1 H2 H3. unfold New. rewrite Z.shiftl_mul_pow2 by lia.
  unfold hour, second. by rewrite !swrap_id by (unfold is_s; change (2 ^ (64 - 1)) with 9223372036854775808; lia).
Qed.

(** An archive interval of zero hours, which the environment can set, lets the
    archiver do its first cycle and then ends the process: the ticker panics.  A
    positive one of less than 2^20 hours does not. *)
Theorem archive_interval_panics file_size maxGB afterHours start ticks s :
  (∀ Getenv, Getenv "ARCHIVE_INTERVAL_HOURS"%string = "0"%string → envInt Getenv "ARCHIVE_INTERVAL_HOURS" 6 = 0) ∧
  Run file_size (New maxGB 0 afterHours) start ticks s = None ∧
  ∀ h, 0 < h < 2 ^ 20 → is_Some (Run file_size (New maxGB h afterHours) start ticks s).
Proof.
  split; [intros Getenv E; unfold envInt; by rewrite E|]. split; [done|]. intros h Hh. unfold Run, NewTicker, New. cbn [Archiver.interval].
  rewrite (swrap_id 64 (h * hour)) by (unfold is_s, hour, second; change (2 ^ (64 - 1)) with 9223372036854775808; lia).
  assert (0 <? h * hour = true) as -> by (apply Z.ltb_lt; unfold hour, second; lia). by eexists.
Qed.

(** ** The two loops together *)

(** The day up to which everything is archived: no row of the table is older, and
    the cursor is not ahead of it. *)
Record archived_upto (k : Z) (s : store) : Prop := mk_upto {
  au_rows : ∀ r, r ∈ s.(trades) → k ≤ row_time r;
  au_cursor : ∀ c, s.(cursor) = Some c → midnight c ∧ c ≤ k;
}.

Lemma upto_mono k k' s : k ≤ k' → (∀ r, r ∈ s.(trades) → k' ≤ row_time r) → archived_upto k s → archived_upto k' s.
Proof. intros Hk Hr [_ Hc]. split; [done|]. intros c Hcur. destruct (Hc c Hcur). split; [done|lia]. Qed.

Lemma next_midnight D : midnight D → midnight (D + day_ns).
Proof. intros H. apply Z.divide_add_r; [exact H|apply Z.divide_refl]. Qed.

(** A row from [D] on is of the day [D] or after it. *)
Lemma not_in_day D r : D ≤ row_time r → in_day D (D + day_ns) r = false → D + day_ns ≤ row_time r.
Proof. unfold in_day, row_time. intros H [E%Z.leb_gt|E%Z.ltb_ge]%andb_false_iff; lia. Qed.

Lemma archiveDay_upto flt D s :
  archived_upto D s → let '(s', res) := archiveDay flt D (D + day_ns) s in
  archived_upto D s' ∧ (is_Some res → archived_upto (D + day_ns) s') ∧ s'.(trades) ⊆ s.(trades).
Proof.
  intros [Hr Hc]. assert (0 < day_ns) as Hpos by done.
  assert (∀ c, s.(cursor) = Some c → midnight c ∧ c ≤ D + day_ns) as Hc'.
  { intros c H. destruct (Hc c H). split; [done|lia]. }
  unfold archiveDay. destruct (decide (_ = [])) as [E|_].
  - assert (∀ r, r ∈ s.(trades) → D + day_ns ≤ row_time r) as Hr'.
    { intros r H. apply not_in_day; [by apply Hr|]. by eapply no_rows. }
    destruct flt; (split; [done|split; [intros [x H]; by try discriminate|done]]).
  - destruct flt; [|by split_and!; [|intros []|]|by split_and!; [|intros []|]].
    assert (∀ r, r ∈ List.filter (λ r, negb (in_day D (D + day_ns) r)) s.(trades) → r ∈ s.(trades) ∧ D + day_ns ≤ row_time r) as Hr'.
    { intros r [H Hn%negb_true_iff]%elem_of_filter_bool. split; [done|]. apply not_in_day; [by apply Hr|done]. }
    split_and!; [|intros _|intros r H; by apply Hr']; split; cbn; try done; intros r H; destruct (Hr' r H); [lia|done].
Qed.

Lemma saveCursor_upto b k s : midnight k → archived_upto k s → archived_upto k (saveCursor b k s).
Proof. intros Hk [Hr Hc]. unfold saveCursor. destruct b; split; try done. cbn. intros c [= <-]. done. Qed.

(** Whatever fails, the loop ends at a day up to which everything is archived. *)
Lemma cycle_loop_upto fuel flt saved D cut s :
  midnight D → midnight cut → archived_upto D s →
  ∃ k, midnight k ∧ D ≤ k ∧ (k = D ∨ k ≤ cut) ∧ archived_upto k (cycle_loop fuel flt saved D cut s).1 ∧
    (cycle_loop fuel flt saved D cut s).1.(trades) ⊆ s.(trades).
Proof.
  intros HD Hcut. revert D s HD. induction fuel as [|fuel IH]; intros D s HD Hs; cbn.
  { exists D. split_and!; [done|lia|by left|by case_match|by case_match]. }
  destruct (Z.ltb_spec D cut) as [Hlt|]; [|exists D; split_and!; [done|lia|by left|done|done]].
  pose proof (midnight_step D cut HD Hcut Hlt) as Hle. pose proof (archiveDay_upto (flt D) D s Hs) as Ha.
  destruct (archiveDay (flt D) D (D + day_ns) s) as [s1 [n|]]; destruct Ha as (H1 & H2 & H3).
  - destruct (IH (D + day_ns) (saveCursor (saved D) (D + day_ns) s1)) as (k & Hm & Hk & Hkc & Hu & Hsub).
    + by apply next_midnight.
    + apply saveCursor_upto; [by apply next_midnight|by apply H2].
    + exists k. assert (0 < day_ns) by done.
      split_and!; [done|lia|right; destruct Hkc; lia|exact Hu|]. etrans; [exact Hsub|]. unfold saveCursor. by destruct (saved D).
  - exists D. split_and!; [done|lia|by left|exact H1|exact H3].
Qed.

Section service.
Context (file_size : list TradeRow.t → Z) (maxBytes maxAge interval retentionDays : Z).

(** The clock, when the last cycle without failures ran, and the store.  A prune
    comes at most [interval] after the last such cycle. *)
Inductive service_step : Z * Z * store → Z * Z * store → Prop :=
  | sv_insert c tc s r : c ≤ row_time r → service_step (c, tc, s) (row_time r, tc, insert_trade r s)
  | sv_cycle c tc s now e flt saved :
      c ≤ now → service_step (c, tc, s) (now, tc, cycle file_size e flt saved maxBytes maxAge now s)
  | sv_complete c tc s now e :
      c ≤ now → service_step (c, tc, s) (now, now, cycle file_size e (λ _, NoFault) (λ _, true) maxBytes maxAge now s)
  | sv_prune c tc s now :
      c ≤ now → now ≤ tc + interval → service_step (c, tc, s) (now, tc, prune retentionDays now s).

Context (Hage : 0 ≤ maxAge) (Hset : maxAge + day_ns + interval ≤ retentionDays * day_ns).

Record service_ok (x : Z * Z * store) : Prop := mk_service_ok {
  so_clock : clock_ok maxAge (x.1.1, x.2);
  so_last : x.1.2 ≤ x.1.1;
  so_upto : ∃ k, midnight k ∧ archived_upto k x.2 ∧ dayUTC (x.1.2 - maxAge) ≤ k ∧ k ≤ dayUTC (x.1.1 - maxAge);
}.

Lemma min_time_le rows t r : min_time rows = Some t → r ∈ rows → t ≤ row_time r.
Proof.
  destruct rows as [|x rows]; [done|]. cbn. intros [= <-].
  assert (∀ m, fold_left (λ m r, Z.min m r.(TradeRow.ExecutedAt)) rows m ≤ m ∧
    ∀ y, y ∈ rows → fold_left (λ m r, Z.min m r.(TradeRow.ExecutedAt)) rows m ≤ row_time y) as H.
  { induction rows as [|y rows IH]; intros m; cbn; [split; [done|by intros y ?%elem_of_nil]|].
    destruct (IH (Z.min m y.(TradeRow.ExecutedAt))) as [H1 H2]. split; [lia|].
    intros z [->|Hz]%elem_of_cons; [unfold row_time; lia|by apply H2]. }
  intros [->|Hr]%elem_of_cons; [exact (proj1 (H _))|by apply (proj2 (H _))].
Qed.

(** A cycle, whatever fails, does not lose what is known. *)
Lemma days_upto flt saved now s k :
  midnight k → archived_upto k s → k ≤ dayUTC (now - maxAge) →
  ∃ k', midnight k' ∧ k ≤ k' ∧ k' ≤ dayUTC (now - maxAge) ∧
    archived_upto k' (cycle_days flt saved maxAge now s).1.
Proof.
  intros Hm Hs Hk. unfold cycle_days. destruct (startDay s) as [day|] eqn:Ed; [|by exists k].
  pose proof (startDay_midnight s day Ed) as Hday. set (cut := dayUTC (now - maxAge)) in *.
  destruct (Z.le_gt_cases cut day) as [Hle|Hgt].
  { rewrite cycle_loop_done by done. by exists k. }
  assert (archived_upto day s) as Hd.
  { destruct Hs as [Hr Hc]. unfold startDay in Ed. destruct (s.(cursor)) as [c|] eqn:Ec.
    - injection Ed as <-. destruct (Hc c eq_refl) as [[q ->] Hck]. unfold dayUTC. rewrite Z.div_mul by done.
      split; [intros r H; specialize (Hr r H); lia|]. intros c Hcc. assert (c = q * day_ns) as -> by congruence. split; [by exists q|lia].
    - destruct (min_time s.(trades)) as [t|] eqn:Et; [|done]. injection Ed as <-.
      split; [|intros c Hcc; congruence]. intros r H. etrans; [apply dayUTC_le|]. exact (min_time_le _ _ _ Et H). }
  destruct (cycle_loop_upto (Z.to_nat ((cut - day) / day_ns)) flt saved day cut s Hday (dayUTC_midnight _) Hd) as (k1 & Hm1 & H1 & H2 & H3 & H4).
  exists (Z.max k k1). split_and!.
  - destruct (Z.max_spec k k1) as [[_ ->]|[_ ->]]; done.
  - lia.
  - destruct H2; lia.
  - eapply upto_mono; [|  |exact H3]; [lia|]. intros r Hr. pose proof (au_rows _ _ H3 r Hr). pose proof (au_rows _ _ Hs r (H4 _ Hr)). lia.
Qed.

Lemma rotate_upto e k s : archived_upto k s → archived_upto k (rotate file_size e maxBytes s).
Proof. destruct (rotate_rest file_size e maxBytes s) as [Ht Hc]. intros [H1 H2]. by split; rewrite ?Ht, ?Hc. Qed.

Lemma cycle_upto e flt saved now s k :
  midnight k → archived_upto k s → k ≤ dayUTC (now - maxAge) →
  ∃ k', midnight k' ∧ k ≤ k' ∧ k' ≤ dayUTC (now - maxAge) ∧
    archived_upto k' (cycle file_size e flt saved maxBytes maxAge now s).
Proof.
  intros Hm Hs Hk. destruct (days_upto flt saved now s k Hm Hs Hk) as (k' & H1 & H2 & H3 & H4).
  exists k'. split_and!; [done..|]. unfold cycle. destruct (cycle_days _ _ _ _ _) as [s' []]; [by apply rotate_upto|done].
Qed.

(** After a complete one nothing older than the cut is left. *)
Lemma complete_rows e now s k :
  archived_upto k s → ∀ r, r ∈ (cycle file_size e (λ _, NoFault) (λ _, true) maxBytes maxAge now s).(trades) →
  dayUTC (now - maxAge) ≤ row_time r.
Proof.
  intros [Hr Hc] r Hin. destruct (startDay s) as [day|] eqn:Ed.
  - eapply cycle_rows; [exact Ed| |exact Hin]. intros x Hx. unfold startDay in Ed. destruct (s.(cursor)) as [c|] eqn:Ec.
    + injection Ed as <-. destruct (Hc c eq_refl) as [_ Hck]. pose proof (dayUTC_le c). specialize (Hr x Hx). lia.
    + destruct (min_time s.(trades)) as [t|] eqn:Et; [|done]. injection Ed as <-. etrans; [apply dayUTC_le|]. exact (min_time_le _ _ _ Et Hx).
  - unfold cycle, cycle_days in Hin. rewrite Ed in Hin. destruct s as [tr cur files]. unfold startDay in Ed. cbn in *.
    destruct cur; [done|]. destruct tr; [by apply elem_of_nil in Hin|done].
Qed.

Lemma cut_time tc : tc - maxAge < dayUTC (tc - maxAge) + day_ns.
Proof.
  unfold dayUTC. pose proof (Z.div_mod (tc - maxAge) day_ns ltac:(done)).
  pose proof (Z.mod_pos_bound (tc - maxAge) day_ns ltac:(done)). lia.
Qed.

(** A cycle's rotation deleted the file of [r], of more than [maxBytes] on the disk. *)
Definition rotation_of (r : TradeRow.t) (x y : Z * Z * store) : Prop :=
  rotated_out file_size maxBytes maxAge r y.1.1 x.2 y.2.

Lemma service_cycle_ok c tc s now e flt saved :
  c ≤ now → service_ok (c, tc, s) →
  let s' := cycle file_size e flt saved maxBytes maxAge now s in
  service_ok (now, tc, s') ∧
  (∃ k, midnight k ∧ archived_upto k s' ∧ k ≤ dayUTC (now - maxAge)) ∧
  ∀ r, stored r s → stored r s' ∨ rotated_out file_size maxBytes maxAge r now s s'.
Proof.
  intros Hc [Hok Hl (k & Hm & Hu & Hk1 & Hk2)] s'. cbn in *.
  destruct (cycle_keeps file_size maxBytes maxAge e flt saved c now s Hc Hok) as [Hok' Hs].
  pose proof (dayUTC_mono (c - maxAge) (now - maxAge) ltac:(lia)).
  destruct (cycle_upto e flt saved now s k Hm Hu) as (k' & Hm' & H1 & H2 & H3); [lia|].
  split; [|split; [by exists k'|exact Hs]]. split; cbn; [exact Hok'|lia|]. exists k'. split_and!; [done|done|lia|done].
Qed.

Lemma service_prune_ok c tc s now :
  c ≤ now → now ≤ tc + interval → service_ok (c, tc, s) →
  prune retentionDays now s = s ∧ service_ok (now, tc, s).
Proof.
  intros Hc Ht [Hok Hl (k & Hm & Hu & Hk1 & Hk2)]. cbn in *. split.
  { apply prune_nothing. intros r Hr. pose proof (au_rows _ _ Hu r Hr). pose proof (cut_time tc). unfold cutoff. lia. }
  pose proof (dayUTC_mono (c - maxAge) (now - maxAge) ltac:(lia)). split; cbn; [|lia|].
  - eapply consistent_mono; [|exact Hok]. done.
  - exists k. split_and!; [done|done|done|lia].
Qed.

Lemma service_step_ok x y :
  service_step x y → service_ok x → service_ok y ∧ ∀ r, stored r x.2 → stored r y.2 ∨ rotation_of r x y.
Proof.
  destruct 1 as [c tc s r Hc|c tc s now e flt saved Hc|c tc s now e Hc|c tc s now Hc Ht]; intros Hok.
  - destruct Hok as [Hok Hl (k & Hm & Hu & Hk1 & Hk2)]. cbn in *.
    destruct (insert_keeps maxAge Hage c s r Hc Hok) as [Hok' Hs]. split; [|intros x Hx; left; by apply Hs].
    split; cbn; [exact Hok'|lia|].
    exists k. pose proof (dayUTC_mono (c - maxAge) (row_time r - maxAge) ltac:(lia)). pose proof (dayUTC_le (c - maxAge)).
    split_and!; [done| |done|lia]. unfold insert_trade. destruct (existsb _ _); [done|]. destruct Hu as [Hr Hcur].
    split; [|exact Hcur]. cbn. intros x [->|Hx]%elem_of_cons; [lia|by apply Hr].
  - destruct (service_cycle_ok c tc s now e flt saved Hc Hok) as (H1 & _ & H2). by split.
  - destruct (service_cycle_ok c tc s now e (λ _, NoFault) (λ _, true) Hc Hok) as ([H1 H2 _] & (k' & Hm' & Hu' & Hk') & Hs).
    split; [|exact Hs]. split; cbn in *; [exact H1|lia|].
    exists (dayUTC (now - maxAge)). split_and!; [apply dayUTC_midnight| |done|done].
    eapply upto_mono; [exact Hk'| |exact Hu']. destruct (so_upto _ Hok) as (k & _ & Hu & _). by apply complete_rows with (k := k).
  - destruct (service_prune_ok c tc s now Hc Ht Hok) as [-> H]. split; [done|]. intros x Hx. by left.
Qed.

Lemma service_run_ok x y : rtc service_step x y → service_ok x → service_ok y.
Proof. induction 1 as [x|x y z Hs _ IH]; intros Hok; [done|]. apply IH. by eapply service_step_ok. Qed.

Lemma service_start_ok t0 : service_ok (t0, t0, empty_store).
Proof.
  split; cbn; [|lia|].
  - split; cbn; intros ??; by rewrite lookup_empty.
  - exists (dayUTC (t0 - maxAge)). split_and!; [apply dayUTC_midnight| |done|done]. split; [by intros r ?%elem_of_nil|done].
Qed.

End service.

(** C14. Archiving and pruning side by side lose nothing but what is rotated out, under
    the right settings.  In any history of trades written at their time, of archive
    cycles failing anywhere, and of prunes, a trade once in the table is always in the
    table or in its day-file, unless at some cycle the files on the disk were together
    larger than [maxBytes] and that cycle's rotation deleted the file it was in; if the
    retention covers the archiver's age, one more day for the alignment and [interval],
    and no prune comes later than [interval] after a cycle without failures. *)
Theorem services_keep_trades (file_size : list TradeRow.t → Z) (maxBytes maxAge interval retentionDays t0 : Z)
    (x y : Z * Z * store) (r : TradeRow.t)
    (Hage : 0 ≤ maxAge) (Hset : maxAge + day_ns + interval ≤ retentionDays * day_ns)
    (H1 : rtc (service_step file_size maxBytes maxAge interval retentionDays) (t0, t0, empty_store) x)
    (H2 : rtc (service_step file_size maxBytes maxAge interval retentionDays) x y) :
  let step := service_step file_size maxBytes maxAge interval retentionDays in
  stored r x.2 →
  stored r y.2 ∨ ∃ u v, rtc step x u ∧ step u v ∧ rotation_of file_size maxBytes maxAge r u v ∧ rtc step v y.
Proof.
  apply (run_keeps_or _ (service_ok maxAge) (λ x, stored r x.2) (rotation_of file_size maxBytes maxAge r)); [|done|].
  - intros u v Hs Hok. destruct (service_step_ok file_size maxBytes maxAge interval retentionDays Hage Hset u v Hs Hok). auto.
  - eapply service_run_ok; [done..|exact H1|apply service_start_ok].
Qed.

(** Archive after a day, every six hours, keep three days, a thousand bytes a row: the
    DELETE of a day fails, the next cycle does it again, and a prune follows. *)
Lemma services_keep_trades_witness :
  let size rows := 1000 * Z.of_nat (length rows) in
  let r := demo_row 1 (19 * day_ns + 4 * hour) in
  let s0 := insert_trade r empty_store in
  let s1 := cycle size clean (λ _, DeleteFault) (λ _, true) 5000 day_ns (21 * day_ns) s0 in
  let s2 := cycle size clean (λ _, NoFault) (λ _, true) 5000 day_ns (21 * day_ns + 6 * hour) s1 in
  let s3 := prune 3 (21 * day_ns + 11 * hour) s2 in
  let x := (19 * day_ns + 4 * hour, 19 * day_ns, s0) in
  let y := (21 * day_ns + 11 * hour, 21 * day_ns + 6 * hour, s3) in
  let step := service_step size 5000 day_ns (6 * hour) 3 in
  stored r s3 ∨ ∃ u v, rtc step x u ∧ step u v ∧ rotation_of size 5000 day_ns r u v ∧ rtc step v y.
Proof.
  intros size r s0 s1 s2 s3 x y step.
  apply (services_keep_trades size 5000 day_ns (6 * hour) 3 (19 * day_ns) x y r);
    [done|vm_compute; discriminate| | |left; by left].
  - apply rtc_once. apply (sv_insert _ _ _ _ _ (19 * day_ns) (19 * day_ns) empty_store r). vm_compute. discriminate.
  - eapply rtc_l; [apply (sv_cycle _ _ _ _ _ _ _ _ (21 * day_ns) clean (λ _, DeleteFault) (λ _, true)); vm_compute; discriminate|].
    eapply rtc_l; [apply (sv_complete _ _ _ _ _ _ _ _ (21 * day_ns + 6 * hour) clean); vm_compute; discriminate|].
    apply rtc_once. apply sv_prune; vm_compute; discriminate.
Defined.
