(* ===== verification/Feed.v ===== *)
(** * cmd/feedsim/main.go: the runners and the trade pipeline

    One iteration of a symbol's runner over everything it shares with the others:
    the world (books, counters, price engine with the generator), the session
    manager and the trade channel.  The channel's two writers save trades into the
    trades table; what they hold is part of the pipeline's state.  Starting the
    goroutines and servers is not modelled. *)
From S2P Require Import Prelude Word Float64 Rng Gaussian Symbols Market Stress Book Itch Simulator.
From S2P Require Import ItchJson Session Snapshot Trades Archive Archiver.

Local Open Scope Z_scope.

Module tradeRecord.
Record t := mk {
  matchNumber : Z;   (* uint64 *)
  locate : Z;        (* uint16 *)
  price : float64;
  shares : Z;        (* int32 *)
  aggressor : Z;     (* byte *)
}.
End tradeRecord.

(** The capacity of the channel main makes. *)
Definition tradeChCap : nat := 4096.

Definition record_of (locate : Z) (m : Message.t) : tradeRecord.t :=
  tradeRecord.mk m.(Message.MatchNumber) locate m.(Message.Price) m.(Message.Shares) m.(Message.Side).

(** [enqueueTrades]: the channel after. *)
Definition enqueueTrades (cap : nat) (locate : Z) (msgs : list Message.t) (ch : list tradeRecord.t)
    : list tradeRecord.t :=
  fold_left (λ ch m,
    if negb (m.(Message.Type_) =? MsgTrade) then ch
    else if (length ch <? cap)%nat then ch ++ [record_of locate m] else ch) msgs ch.

(** ** One iteration of a runner *)

Record feed := mkFeed {
  f_world : world;
  f_mgr : manager;
  f_trades : list tradeRecord.t;
}.

Definition on_market {A} (m : go MarketEngine A) : go feed A :=
  zoom (λ s, s.(f_world).(w_market)) (λ s k, mkFeed (set_market k s.(f_world)) s.(f_mgr) s.(f_trades)) m.

(** The simulator of a book: the shared generator and the book's state. *)
Definition sim_of (w : world) (b : Book.t) : sim := mkSim w.(w_market).(Market.rng) (view_book w b).
Definition put_sim (loc : Z) (w : world) (s : sim) : world :=
  put_book loc (set_market (mkMarket s.(Simulator.rng) w.(w_market).(prices) w.(w_market).(sectorShocks)) w) s.(bk).

Definition on_sim {A} (loc : Z) (m : go sim A) : go feed A := λ s,
  match s.(f_world).(w_books) !! loc with
  | None => None
  | Some b =>
      match m (sim_of s.(f_world) b) with
      | Some (a, s') => Some (a, mkFeed (put_sim loc s.(f_world) s') s.(f_mgr) s.(f_trades))
      | None => None
      end
  end.

(** [1 + int(OrderCount() % 3)] and its clamps. *)
Definition num_actions (orderCount : Z) : Z :=
  let n := 1 + Z.rem orderCount 3 in
  let n := if n >? 3 then 3 else n in
  if n <? 1 then 1 else n.

Section runner.
Context (math_Exp math_Log math_Sin : float64 → float64) (marshal : gmap string jval → option frame).
Context (fuel : nat) (syms : list Symbol.t) (sym : Symbol.t).

Definition publish (order : list Z) (now : Z) (msgs : list Message.t) : go feed unit :=
  let loc := sym.(Symbol.LocateCode) in
  s ← get_state;
  let ch := enqueueTrades tradeChCap loc msgs s.(f_trades) in
  let '(_, mgr) := Broadcast marshal order now loc sym.(Symbol.Ticker) msgs s.(f_mgr) in
  put_state (mkFeed s.(f_world) mgr ch).

(** The body of the loop of [symbolRunner]; [order] is the order in which the
    broadcast visits the clients. *)
Definition symbolRunner_tick (order : list Z) (now : Z) : go feed unit :=
  let loc := sym.(Symbol.LocateCode) in
  _ ← on_market (GenerateSectorShocks math_Log fuel);
  price ← on_market (Market.Tick math_Exp math_Log syms fuel loc);
  count ← on_sim loc (Simulator.on_book OrderCount);
  msgs ← on_sim loc (Step loc sym.(Symbol.TickSize) price (Z.to_nat (num_actions count)));
  publish order now msgs.

(** The body of [stressRunner], with the controller beside the feed; its generator
    is the shared one. *)
Definition on_ctrl {A} (m : go StressController A) : go (feed * StressController) A := λ '(s, c),
  let w := s.(f_world) in
  match m (mkStress w.(w_market).(Market.rng) c.(phase) c.(phaseStart) c.(phaseDuration) c.(intensity)
             c.(t) c.(tStep) c.(randomWalk)) with
  | Some (a, c') =>
      let k := mkMarket c'.(s_rng) w.(w_market).(prices) w.(w_market).(sectorShocks) in
      Some (a, (mkFeed (set_market k w) s.(f_mgr) s.(f_trades), c'))
  | None => None
  end.

Definition on_feed {A} (m : go feed A) : go (feed * StressController) A :=
  zoom fst (λ s f, (f, s.2)) m.

Definition burst_msg : Message.t :=
  message [Message.set_Type_ MsgSystemEvent; Message.set_StockLocate sym.(Symbol.LocateCode);
           Message.set_EventCode EventStartOfMarket].

(** Returns the interval it then sleeps; [nowc] is the controller's clock. *)
Definition stressRunner_tick (config : StressConfig) (order order' : list Z) (nowc now now' : Z)
    : go (feed * StressController) Z :=
  let loc := sym.(Symbol.LocateCode) in
  d ← on_ctrl (Stress.Tick math_Sin math_Log config fuel nowc);
  _ ← on_feed (on_market (GenerateSectorShocks math_Log fuel));
  price ← on_feed (on_market (Market.Tick math_Exp math_Log syms fuel loc));
  msgs ← on_feed (on_sim loc (Step loc sym.(Symbol.TickSize) price (Z.to_nat d.2)));
  _ ← on_feed (publish order now msgs);
  s ← get_state;
  _ ← (if (Phase s.2 =? PhaseBurst) && (Intensity s.2 >? dec 9 1)%F then
         on_feed (f ← get_state;
                  put_state (mkFeed f.(f_world)
                    (Broadcast marshal order' now' loc sym.(Symbol.Ticker) [burst_msg] f.(f_mgr)).2 f.(f_trades)))
       else mret tt);
  mret d.1.

End runner.

(** ** The start of main

    The books are seeded from the base prices unless state was restored; an error
    of [Load] is only logged. *)
Definition initialize_books (syms : list Symbol.t) : go feed unit :=
  go_fold (λ _ s, _ ← on_sim s.(Symbol.LocateCode)
                        (Initialize s.(Symbol.LocateCode) s.(Symbol.TickSize) s.(Symbol.BasePrice));
                  mret tt) tt syms.

Definition startup (syms : list Symbol.t) (flt : load_fault) (rows : list OrderRow.t) (d : database) : go feed unit :=
  restored ← zoom f_world (λ s w, mkFeed w s.(f_mgr) s.(f_trades)) (Load flt rows d);
  if decide (restored = Some true) then mret tt else initialize_books syms.

(** ** The writers *)

(** The row [SaveTrade] inserts; a locate without a ticker gives the empty one. *)
Definition tickerMap (syms : list Symbol.t) : gmap Z string :=
  fold_left (λ m s, <[s.(Symbol.LocateCode) := s.(Symbol.Ticker)]> m) syms ∅.

Definition trade_row (syms : list Symbol.t) (now : Z) (r : tradeRecord.t) : TradeRow.t :=
  TradeRow.mk (to_i64 r.(tradeRecord.matchNumber)) (to_i16 r.(tradeRecord.locate))
    (default EmptyString (tickerMap syms !! r.(tradeRecord.locate))) r.(tradeRecord.price)
    r.(tradeRecord.shares) (string_of_bytes (rune_text r.(tradeRecord.aggressor))) now.

Definition SaveTrade (syms : list Symbol.t) (now : Z) (r : tradeRecord.t) (s : store) : store :=
  insert_trade (trade_row syms now r) s.

(** The channel, what the writers took and have not saved, and the table; [sent],
    [dropped] and [failed] record what was offered, refused and lost to an error. *)
Record pipeline := mkPipeline {
  p_ch : list tradeRecord.t;
  p_held : list tradeRecord.t;
  p_store : store;
  p_sent : list tradeRecord.t;
  p_dropped : list tradeRecord.t;
  p_saved : list tradeRecord.t;
  p_failed : list tradeRecord.t;
}.

Inductive pipe_step (cap writers : nat) (syms : list Symbol.t) : pipeline → pipeline → Prop :=
  | ps_send ch h st sent dr sv fl r :
      (length ch < cap)%nat →
      pipe_step cap writers syms (mkPipeline ch h st sent dr sv fl) (mkPipeline (ch ++ [r]) h st (r :: sent) dr sv fl)
  | ps_drop ch h st sent dr sv fl r :
      (cap ≤ length ch)%nat →
      pipe_step cap writers syms (mkPipeline ch h st sent dr sv fl) (mkPipeline ch h st (r :: sent) (r :: dr) sv fl)
  | ps_take ch h st sent dr sv fl r :
      (length h < writers)%nat →
      pipe_step cap writers syms (mkPipeline (r :: ch) h st sent dr sv fl) (mkPipeline ch (r :: h) st sent dr sv fl)
  | ps_save ch h1 h2 st sent dr sv fl r now :
      pipe_step cap writers syms (mkPipeline ch (h1 ++ r :: h2) st sent dr sv fl)
        (mkPipeline ch (h1 ++ h2) (SaveTrade syms now r st) sent dr (r :: sv) fl)
  | ps_fail ch h1 h2 st sent dr sv fl r :
      pipe_step cap writers syms (mkPipeline ch (h1 ++ r :: h2) st sent dr sv fl)
        (mkPipeline ch (h1 ++ h2) st sent dr sv (r :: fl)).
