(* ===== verification/Schema.v ===== *)
(** * internal/persist/schema.go, and the SQL of Save, SaveTrade and saveCursor

    The four tables as the DDL declares them, and a small executable reading of the
    SQL the program sends: CREATE TABLE IF NOT EXISTS, INSERT with its conflict
    clause, DELETE, all with the checks PostgreSQL makes: columns, types and their
    ranges, NOT NULL, defaults, primary and unique keys.  The refinement theorem
    says that the transaction of Save, sent statement by statement to such a
    database, does what [Save] of Snapshot does to the state it stands for. *)
From S2P Require Import Prelude Word Float64 Symbols Book Snapshot Trades Archiver Feed.

Local Open Scope Z_scope.

(** ** Values, columns, tables *)

Inductive sqltype := SMALLINT | INTEGER | BIGINT | DOUBLE | BOOLEAN | TEXT | CHAR1 | BYTEA | TIMESTAMPTZ.
Inductive sqlval :=
  | VNull | VInt (z : Z) | VFloat (f : float64) | VBool (b : bool) | VText (s : list Z)   (* UTF-8 *)
  | VBytes (l : list Z) | VTime (ns : Z).

Definition text (s : string) : list Z := byte_of_ascii <$> String.list_ascii_of_string s.

(** Characters of a UTF-8 text. *)
Definition chars (s : list Z) : nat := length (List.filter (λ b, negb ((128 <=? b) && (b <? 192))) s).
Definition int_fits (w z : Z) : bool := (- 2 ^ (w - 1) <=? z) && (z <? 2 ^ (w - 1)).

Definition has_type (ty : sqltype) (v : sqlval) : bool :=
  match ty, v with
  | SMALLINT, VInt z => int_fits 16 z
  | INTEGER, VInt z => int_fits 32 z
  | BIGINT, VInt z => int_fits 64 z
  | DOUBLE, VFloat _ | BOOLEAN, VBool _ | TEXT, VText _ | BYTEA, VBytes _ | TIMESTAMPTZ, VTime _ => true
  | CHAR1, VText s => (chars s <=? 1)%nat
  | _, _ => false
  end.

(** CHAR(1) is padded, a timestamp has microseconds. *)
Definition micro (ns : Z) : Z := ns - ns mod 1000.
Definition as_stored (ty : sqltype) (v : sqlval) : sqlval :=
  match ty, v with
  | CHAR1, VText [] => VText [32]
  | TIMESTAMPTZ, VTime t => VTime (micro t)
  | _, _ => v
  end.

Inductive default_value := NoDefault | Now | Const (v : sqlval).
Record column := mkColumn { col : string; type : sqltype; not_null : bool; dflt : default_value }.
Record table := mkTable { name : string; columns : list column; primary : string; unique : list string }.

Definition required (c : string) (ty : sqltype) : column := mkColumn c ty true NoDefault.

(** [CreateTables]'s DDL; the two indexes constrain nothing. *)
Definition symbols_def : table := mkTable "symbols"
  [required "locate_code" SMALLINT; required "ticker" TEXT; required "name" TEXT; required "sector" TEXT;
   required "base_price" DOUBLE; required "current_price" DOUBLE; required "tick_size" DOUBLE;
   required "volatility" DOUBLE; mkColumn "is_stress" BOOLEAN true (Const (VBool false))] "locate_code" ["ticker"].
Definition orders_def : table := mkTable "orders"
  [required "id" BIGINT; required "symbol_locate" SMALLINT; required "side" CHAR1; required "price" DOUBLE;
   required "shares" INTEGER; mkColumn "priority" INTEGER true (Const (VInt 0));
   mkColumn "mpid" TEXT true (Const (VText []))] "id" [].
Definition trades_def : table := mkTable "trades"
  [required "match_number" BIGINT; required "symbol_locate" SMALLINT; required "ticker" TEXT; required "price" DOUBLE;
   required "shares" INTEGER; required "aggressor" CHAR1; mkColumn "executed_at" TIMESTAMPTZ true Now] "match_number" [].
Definition sim_state_def : table := mkTable "sim_state"
  [required "key" TEXT; mkColumn "value_bytes" BYTEA false NoDefault; mkColumn "value_int" BIGINT false NoDefault;
   mkColumn "value_time" TIMESTAMPTZ false NoDefault; mkColumn "updated_at" TIMESTAMPTZ true Now] "key" [].
Definition ddl : list table := [symbols_def; orders_def; trades_def; sim_state_def].

(** ** The statements *)

(** A row, a value for each column of its table in their order. *)
Abbreviation row := (list (string * sqlval)).
Abbreviation sqldb := (gmap string (table * list row)).

Fixpoint get (k : string) (r : row) : option sqlval :=
  match r with
  | [] => None
  | (c, v) :: r => if String.eqb c k then Some v else get k r
  end.

(** [CREATE TABLE IF NOT EXISTS] *)
Definition create (D : sqldb) (t : table) : sqldb :=
  match D !! t.(name) with Some _ => D | None => <[t.(name) := (t, [])]> D end.
Definition CreateTables (ok : bool) (D : sqldb) : option sqldb := if ok then Some (fold_left create ddl D) else None.

Inductive on_conflict := Raise | DoNothing (key : string) | DoUpdate (key : string) (set : list string).
Inductive stmt :=
  | Insert (into : string) (cols : list string) (vals : list sqlval) (c : on_conflict)
  | Delete (from : string).

(** Rows clash on a key if they have the same; a null clashes with nothing. *)
Definition key_eq (v w : option sqlval) : bool :=
  match v, w with
  | Some (VInt a), Some (VInt b) => a =? b
  | Some (VText a), Some (VText b) => bool_decide (a = b)
  | _, _ => false
  end.
Definition same (k : string) (r s : row) : bool := key_eq (get k r) (get k s).

(** The value for a column, stored, if it may be. *)
Definition cell (now : Z) (given : row) (c : column) : option (string * sqlval) :=
  let v := match get c.(col) given with
           | Some v => v
           | None => match c.(dflt) with NoDefault => VNull | Now => VTime now | Const v => v end
           end in
  match v with
  | VNull => if c.(not_null) then None else Some (c.(col), VNull)
  | _ => if has_type c.(type) v then Some (c.(col), as_stored c.(type) v) else None
  end.

Definition new_row (now : Z) (t : table) (cols : list string) (vals : list sqlval) : option row :=
  if bool_decide (NoDup cols) && (length cols =? length vals)%nat &&
     forallb (λ k, existsb (λ c, String.eqb c.(col) k) t.(columns)) cols
  then mapM (cell now (zip cols vals)) t.(columns) else None.

(** [SET k = EXCLUDED.k] for the listed columns. *)
Definition overwrite (set : list string) (new old : row) : row :=
  (λ cv, if existsb (String.eqb cv.1) set then (cv.1, default cv.2 (get cv.1 new)) else cv) <$> old.

Definition append (t : table) (r : row) (rows : list row) : option (list row) :=
  if existsb (λ k, existsb (same k r) rows) (t.(primary) :: t.(unique)) then None else Some (rows ++ [r]).

Definition insert_row (t : table) (c : on_conflict) (r : row) (rows : list row) : option (list row) :=
  match c with
  | Raise => append t r rows
  | DoNothing k => if existsb (same k r) rows then Some rows else append t r rows
  | DoUpdate k set =>
      if existsb (same k r) rows then Some ((λ s, if same k r s then overwrite set r s else s) <$> rows)
      else append t r rows
  end.

Definition exec (now : Z) (s : stmt) (D : sqldb) : option sqldb :=
  match s with
  | Insert into cols vals c =>
      '(t, rows) ← D !! into; r ← new_row now t cols vals; rows ← insert_row t c r rows; Some (<[into := (t, rows)]> D)
  | Delete from => '(t, _) ← D !! from; Some (<[from := (t, [])]> D)
  end.

Fixpoint exec_all (now : Z) (l : list stmt) (D : sqldb) : option sqldb :=
  match l with [] => Some D | s :: l => exec now s D ≫= exec_all now l end.

(** ** What the program sends *)

Definition sector_name (s : Sector) : string :=
  match s with
  | SectorTech => "Tech" | SectorFinance => "Finance" | SectorHealthcare => "Healthcare" | SectorEnergy => "Energy"
  | SectorConsumer => "Consumer" | SectorIndustrial => "Industrial" | SectorStress => "Stress" | SectorETF => "ETF"
  end%string.

Definition upsert_symbol (s : Symbol.t) (price : float64) : stmt :=
  Insert "symbols" ["locate_code"; "ticker"; "name"; "sector"; "base_price"; "current_price"; "tick_size"; "volatility"; "is_stress"]
    [VInt (to_i16 s.(Symbol.LocateCode)); VText (text s.(Symbol.Ticker)); VText (text s.(Symbol.Name));
     VText (text (sector_name s.(Symbol.Sector_))); VFloat s.(Symbol.BasePrice); VFloat price; VFloat s.(Symbol.TickSize);
     VFloat s.(Symbol.VolatilityMultiplier); VBool s.(Symbol.IsStress)]
    (DoUpdate "locate_code" ["current_price"]).

(** A row of the COPY. *)
Definition copy_order (o : OrderRow.t) : stmt :=
  Insert "orders" ["id"; "symbol_locate"; "side"; "price"; "shares"; "priority"; "mpid"]
    [VInt o.(OrderRow.id); VInt o.(OrderRow.symbol_locate); VText o.(OrderRow.side); VFloat o.(OrderRow.price);
     VInt o.(OrderRow.shares); VInt o.(OrderRow.priority); VText (text o.(OrderRow.mpid))] Raise.

Definition upsert_state (key value : string) (v : sqlval) (now : Z) : stmt :=
  Insert "sim_state" ["key"; value; "updated_at"] [VText (text key); v; VTime now] (DoUpdate "key" [value; "updated_at"]).

Definition Save_statements (syms : list Symbol.t) (now : Z) (r : reads) : list stmt :=
  ((λ s, upsert_symbol s (default fzero (r.(r_prices) !! s.(Symbol.LocateCode)))) <$> syms) ++
  [Delete "orders"] ++ (copy_order <$> (row_of <$> r.(r_orders))) ++
  [upsert_state "rng_state" "value_bytes" (VBytes r.(r_rng)) now;
   upsert_state "order_id_counter" "value_int" (VInt (to_i64 r.(r_orderID))) now;
   upsert_state "match_counter" "value_int" (VInt (to_i64 r.(r_match))) now].

(** The transaction: [ok] is false when a statement or the commit fails for a reason outside the data. *)
Definition Save_sql (syms : list Symbol.t) (now : Z) (ok : bool) (r : reads) (D : sqldb) : sqldb * bool :=
  match exec_all now (Save_statements syms now r) D with
  | Some D' => if ok then (D', true) else (D, false)
  | None => (D, false)
  end.

Definition insert_trade_sql (r : TradeRow.t) : stmt :=
  Insert "trades" ["match_number"; "symbol_locate"; "ticker"; "price"; "shares"; "aggressor"; "executed_at"]
    [VInt r.(TradeRow.MatchNumber); VInt r.(TradeRow.SymbolLocate); VText (text r.(TradeRow.Ticker)); VFloat r.(TradeRow.Price);
     VInt r.(TradeRow.Shares); VText (text r.(TradeRow.Aggressor)); VTime r.(TradeRow.ExecutedAt)] (DoNothing "match_number").

Definition save_cursor_sql (t now : Z) : stmt := upsert_state "archive_cursor" "value_time" (VTime t) now.

(** ** What a database stands for *)

(** Rows as they are stored. *)
Definition symbol_row (x : Symbol.t * float64) : row :=
  let s := x.1 in
  [("locate_code", VInt (to_i16 s.(Symbol.LocateCode))); ("ticker", VText (text s.(Symbol.Ticker)));
   ("name", VText (text s.(Symbol.Name))); ("sector", VText (text (sector_name s.(Symbol.Sector_))));
   ("base_price", VFloat s.(Symbol.BasePrice)); ("current_price", VFloat x.2); ("tick_size", VFloat s.(Symbol.TickSize));
   ("volatility", VFloat s.(Symbol.VolatilityMultiplier)); ("is_stress", VBool s.(Symbol.IsStress))]%string.

Definition order_row (o : OrderRow.t) : row :=
  [("id", VInt o.(OrderRow.id)); ("symbol_locate", VInt o.(OrderRow.symbol_locate)); ("side", VText o.(OrderRow.side));
   ("price", VFloat o.(OrderRow.price)); ("shares", VInt o.(OrderRow.shares)); ("priority", VInt o.(OrderRow.priority));
   ("mpid", VText (text o.(OrderRow.mpid)))]%string.

Definition trade_sql_row (r : TradeRow.t) : row :=
  [("match_number", VInt r.(TradeRow.MatchNumber)); ("symbol_locate", VInt r.(TradeRow.SymbolLocate));
   ("ticker", VText (text r.(TradeRow.Ticker))); ("price", VFloat r.(TradeRow.Price)); ("shares", VInt r.(TradeRow.Shares));
   ("aggressor", VText (text r.(TradeRow.Aggressor))); ("executed_at", VTime r.(TradeRow.ExecutedAt))]%string.

(** A row of sim_state. *)
Record state_entry := mkEntry { e_key : list Z; e_bytes : option (list Z); e_int : option Z; e_time : option Z; e_updated : Z }.
Definition nullable {A} (f : A → sqlval) (x : option A) : sqlval := from_option f VNull x.
Definition state_row (e : state_entry) : row :=
  [("key", VText e.(e_key)); ("value_bytes", nullable VBytes e.(e_bytes)); ("value_int", nullable VInt e.(e_int));
   ("value_time", nullable VTime e.(e_time)); ("updated_at", VTime e.(e_updated))]%string.
Definition entry (l : list state_entry) (key : string) : option state_entry := List.find (λ e, bool_decide (e.(e_key) = text key)) l.

Definition loc16 (x : Symbol.t * float64) : Z := to_i16 x.1.(Symbol.LocateCode).

(** The tables are the program's, the prices, the orders and the counters those of
    [d], the trades and the cursor those of [s]. *)
Record stands_for (syms : list Symbol.t) (D : sqldb) (d : database) (s : store) : Prop := mk_stands_for {
  sf_symbols : ∃ l, D !! "symbols"%string = Some (symbols_def, symbol_row <$> l) ∧ NoDup (loc16 <$> l) ∧
    d.(symbols) = list_to_map ((λ x, (loc16 x, x.2)) <$> l) ∧
    ∀ x sym, x ∈ l → sym ∈ syms → x.1.(Symbol.Ticker) = sym.(Symbol.Ticker) → loc16 x = to_i16 sym.(Symbol.LocateCode);
  sf_orders : D !! "orders"%string = Some (orders_def, order_row <$> d.(orders_table));
  sf_trades : ∃ l, D !! "trades"%string = Some (trades_def, trade_sql_row <$> l) ∧ l ≡ₚ s.(trades);
  sf_state : ∃ l, D !! "sim_state"%string = Some (sim_state_def, state_row <$> l) ∧
    d.(rng_state) = entry l "rng_state" ≫= e_bytes ∧ d.(order_id_counter) = entry l "order_id_counter" ≫= e_int ∧
    d.(match_counter) = entry l "match_counter" ≫= e_int ∧ s.(cursor) = entry l "archive_cursor" ≫= e_time;
}.

(** ** Statement by statement *)

Lemma int_fits_s w z : 0 < w → is_s w z → int_fits w z = true.
Proof. intros Hw [H1 H2]. unfold int_fits. apply andb_true_iff. split; [by apply Z.leb_le|by apply Z.ltb_lt]. Qed.

Lemma text_inj a b : text a = text b → a = b.
Proof.
  unfold text. intros H. rewrite <- (String.string_of_list_ascii_of_string a), <- (String.string_of_list_ascii_of_string b). f_equal.
  revert H. generalize (String.list_ascii_of_string b). induction (String.list_ascii_of_string a) as [|x l IH]; intros [|y l']; cbn; try done.
  intros [= H1 H2]. f_equal; [|by apply IH]. by rewrite <- (ascii_of_byte_of_ascii x), H1, ascii_of_byte_of_ascii.
Qed.

Lemma same_key_state e e' : same "key" (state_row e) (state_row e') = bool_decide (e.(e_key) = e'.(e_key)).
Proof. reflexivity. Qed.

Lemma symbol_new_row now s price : ∃ cols vals, upsert_symbol s price = Insert "symbols" cols vals (DoUpdate "locate_code" ["current_price"]) ∧
  new_row now symbols_def cols vals = Some (symbol_row (s, price)).
Proof.
  eexists _, _. split; [reflexivity|]. unfold new_row. set (b := _ && _ && _). assert (b = true) as -> by (vm_compute; reflexivity).
  cbn -[int_fits to_i16]. rewrite int_fits_s; [reflexivity|done|by apply swrap_range].
Qed.

Lemma Z_eqb_bool x y : (x =? y) = bool_decide (x = y).
Proof. destruct (Z.eqb_spec x y); symmetry; [by apply bool_decide_eq_true_2|by apply bool_decide_eq_false_2]. Qed.

(** The clash of a row with those of a table, by what the key is of. *)
Lemma clash_key {A K} `{EqDecision K} (f : A → row) (g : A → K) k x l :
  (∀ y, same k (f x) (f y) = bool_decide (g x = g y)) → existsb (same k (f x)) (f <$> l) = bool_decide (g x ∈ g <$> l).
Proof.
  intros H. induction l as [|y l IH]; cbn [fmap list_fmap existsb].
  - symmetry. apply bool_decide_eq_false_2, not_elem_of_nil.
  - rewrite IH, H, <- bool_decide_or. apply bool_decide_ext. by rewrite elem_of_cons.
Qed.

Lemma insert_other (D : sqldb) k k' x y : k ≠ k' → D !! k = x → <[k' := y]> D !! k = x.
Proof. intros Hne <-. by apply lookup_insert_ne. Qed.

(** The Go types of an order's row. *)
Record order_fits (o : OrderRow.t) : Prop := mk_order_fits {
  of_id : is_s 64 o.(OrderRow.id);
  of_locate : is_s 16 o.(OrderRow.symbol_locate);
  of_side : o.(OrderRow.side) ≠ [] ∧ (chars o.(OrderRow.side) ≤ 1)%nat;
  of_shares : is_s 32 o.(OrderRow.shares);
  of_priority : is_s 32 o.(OrderRow.priority);
}.

Lemma exec_order now o D l :
  order_fits o → D !! "orders"%string = Some (orders_def, order_row <$> l) →
  exec now (copy_order o) D = if bool_decide (o.(OrderRow.id) ∈ OrderRow.id <$> l) then None
    else Some (<["orders"%string := (orders_def, order_row <$> l ++ [o])]> D).
Proof.
  intros [H1 H2 [H3 H3'] H4 H5] HD. unfold exec, copy_order. rewrite HD. cbn [mbind option_bind].
  assert (∀ cols vals, (cols, vals) = (["id"; "symbol_locate"; "side"; "price"; "shares"; "priority"; "mpid"]%string,
    [VInt o.(OrderRow.id); VInt o.(OrderRow.symbol_locate); VText o.(OrderRow.side); VFloat o.(OrderRow.price);
     VInt o.(OrderRow.shares); VInt o.(OrderRow.priority); VText (text o.(OrderRow.mpid))]) →
    new_row now orders_def cols vals = Some (order_row o)) as Hn.
  { intros cols vals [= -> ->]. unfold new_row. set (b := _ && _ && _). assert (b = true) as -> by (vm_compute; reflexivity).
    apply Nat.leb_le in H3'. cbn -[int_fits Nat.leb chars]. rewrite !int_fits_s, H3' by done. unfold order_row. by destruct (OrderRow.side o). }
  rewrite (Hn _ _ eq_refl). cbn [mbind option_bind insert_row]. unfold append. cbn [existsb primary unique orders_def].
  rewrite orb_false_r, (clash_key order_row OrderRow.id).
  - case_bool_decide; [done|]. by rewrite fmap_app.
  - intros y. apply Z_eqb_bool.
Qed.

Lemma exec_orders now rows D l rest :
  Forall order_fits rows → D !! "orders"%string = Some (orders_def, order_row <$> l) → NoDup (OrderRow.id <$> l) →
  exec_all now ((copy_order <$> rows) ++ rest) D =
    if bool_decide (NoDup (OrderRow.id <$> l ++ rows))
    then exec_all now rest (<["orders"%string := (orders_def, order_row <$> l ++ rows)]> D) else None.
Proof.
  intros Hf. revert D l. induction Hf as [|o rows Ho _ IH]; intros D l HD Hl; cbn [fmap list_fmap app exec_all].
  { rewrite app_nil_r, bool_decide_eq_true_2 by done. by rewrite insert_id. }
  rewrite (exec_order now o D l Ho HD). case_bool_decide as Hin.
  - rewrite bool_decide_eq_false_2; [done|]. rewrite fmap_app. intros Hn. apply NoDup_app in Hn as (_ & Hn & _).
    apply (Hn _ Hin). left.
  - cbn [mbind option_bind]. rewrite (IH _ (l ++ [o])); [|by rewrite lookup_insert_eq|].
    + rewrite <- app_assoc. cbn [app]. by rewrite insert_insert_eq.
    + rewrite fmap_app. apply NoDup_app. split; [done|]. split; [|apply NoDup_singleton].
      intros x Hx ->%list_elem_of_singleton. done.
Qed.

(** A symbol's price, upserted. *)
Definition put_symbol (s : Symbol.t) (price : float64) (l : list (Symbol.t * float64)) : list (Symbol.t * float64) :=
  if bool_decide (loc16 (s, price) ∈ loc16 <$> l) then (λ x, if loc16 x =? loc16 (s, price) then (x.1, price) else x) <$> l
  else l ++ [(s, price)].

Lemma exec_symbol now s price D l :
  D !! "symbols"%string = Some (symbols_def, symbol_row <$> l) →
  (∀ x, x ∈ l → x.1.(Symbol.Ticker) = s.(Symbol.Ticker) → loc16 x = to_i16 s.(Symbol.LocateCode)) →
  exec now (upsert_symbol s price) D = Some (<["symbols"%string := (symbols_def, symbol_row <$> put_symbol s price l)]> D).
Proof.
  intros HD Ht. destruct (symbol_new_row now s price) as (cols & vals & -> & E). unfold exec. rewrite HD. cbn [mbind option_bind].
  rewrite E. cbn [mbind option_bind insert_row]. unfold put_symbol.
  assert (∀ x y, same "locate_code" (symbol_row x) (symbol_row y) = bool_decide (loc16 x = loc16 y)) as Hsame by (intros; apply Z_eqb_bool).
  rewrite (clash_key symbol_row loc16) by done. case_bool_decide as Hin.
  - cbn [mbind option_bind]. do 4 f_equal. rewrite <- list_fmap_compose, <- list_fmap_compose. apply list_fmap_ext. intros i x Hx.
    cbn [compose]. rewrite Hsame, <- Z_eqb_bool, Z.eqb_sym. by destruct (loc16 x =? loc16 (s, price)).
  - unfold append. cbn [primary unique symbols_def existsb]. rewrite (clash_key symbol_row loc16) by done.
    rewrite bool_decide_eq_false_2 by done. rewrite (clash_key symbol_row (λ x, text x.1.(Symbol.Ticker))) by (intros; reflexivity).
    rewrite bool_decide_eq_false_2; [cbn; by rewrite fmap_app|].
    intros (x & Hx & Hin')%list_elem_of_fmap. apply Hin. apply text_inj in Hx. apply list_elem_of_fmap. exists x. split; [|done].
    symmetry. by apply Ht.
Qed.

Abbreviation prices_of l := (list_to_map (M := gmap Z float64) ((λ x, (loc16 x, x.2)) <$> l)).

Lemma put_symbol_locs s price l :
  loc16 <$> put_symbol s price l = (loc16 <$> l) ++ (if bool_decide (loc16 (s, price) ∈ loc16 <$> l) then [] else [loc16 (s, price)]).
Proof.
  unfold put_symbol. case_bool_decide; [|by rewrite fmap_app]. rewrite app_nil_r, <- list_fmap_compose. apply list_fmap_ext.
  intros i x _. cbn. by destruct (loc16 x =? loc16 (s, price)).
Qed.

Lemma put_symbol_nodup s price l : NoDup (loc16 <$> l) → NoDup (loc16 <$> put_symbol s price l).
Proof.
  intros H. rewrite put_symbol_locs. case_bool_decide; [by rewrite app_nil_r|]. apply NoDup_app. split; [done|].
  split; [|apply NoDup_singleton]. intros x Hx ->%list_elem_of_singleton. done.
Qed.

Lemma put_symbol_prices s price l : NoDup (loc16 <$> l) → prices_of (put_symbol s price l) = <[loc16 (s, price) := price]> (prices_of l).
Proof.
  intros Hn. unfold put_symbol. case_bool_decide as Hin.
  - induction l as [|x l IH]; [by apply elem_of_nil in Hin|]. cbn [fmap list_fmap list_to_map foldr] in *.
    apply NoDup_cons in Hn as [Hx Hn]. destruct (Z.eqb_spec (loc16 x) (loc16 (s, price))) as [E|Hne].
    + cbn. change (loc16 (x.1, price)) with (loc16 x). rewrite E, insert_insert_eq. f_equal. clear IH Hin. f_equal.
      rewrite <- list_fmap_compose. apply list_fmap_ext. intros i y Hy. cbn.
      destruct (Z.eqb_spec (loc16 y) (loc16 (s, price))) as [Ey|]; [|done]. exfalso. apply Hx. rewrite E, <- Ey.
      apply list_elem_of_fmap_2. by eapply list_elem_of_lookup_2.
    + apply elem_of_cons in Hin as [Hin|Hin]; [congruence|]. cbn.
      rewrite IH by done. by rewrite insert_insert_ne by congruence.
  - rewrite fmap_app. cbn [fmap list_fmap]. apply list_to_map_snoc. rewrite <- list_fmap_compose. exact Hin.
Qed.

Lemma put_symbol_elem s price l x : x ∈ put_symbol s price l → (∃ y, y ∈ l ∧ x.1 = y.1) ∨ x = (s, price).
Proof.
  unfold put_symbol. case_bool_decide.
  - intros (y & -> & Hy)%list_elem_of_fmap. left. exists y. split; [done|]. by case_match.
  - intros [Hx|Hx]%elem_of_app; [left; by exists x|right]. by apply list_elem_of_singleton in Hx.
Qed.

(** No ticker has moved to another locate code. *)
Definition tickers_kept (syms : list Symbol.t) (l : list (Symbol.t * float64)) : Prop :=
  ∀ x sym, x ∈ l → sym ∈ syms → x.1.(Symbol.Ticker) = sym.(Symbol.Ticker) → loc16 x = to_i16 sym.(Symbol.LocateCode).

Lemma exec_symbols now prices syms todo D l rest :
  (∀ s s', s ∈ syms → s' ∈ syms → s.(Symbol.Ticker) = s'.(Symbol.Ticker) → to_i16 s.(Symbol.LocateCode) = to_i16 s'.(Symbol.LocateCode)) →
  todo ⊆ syms → tickers_kept syms l → NoDup (loc16 <$> l) →
  D !! "symbols"%string = Some (symbols_def, symbol_row <$> l) →
  ∃ l', exec_all now (((λ s, upsert_symbol s (default fzero (prices !! s.(Symbol.LocateCode)))) <$> todo) ++ rest) D =
      exec_all now rest (<["symbols"%string := (symbols_def, symbol_row <$> l')]> D) ∧
    NoDup (loc16 <$> l') ∧ tickers_kept syms l' ∧ prices_of l' = upsert_prices todo prices (prices_of l).
Proof.
  intros Hsyms. revert D l. induction todo as [|s todo IH]; intros D l Hsub Hl Hn HD.
  { exists l. cbn. by rewrite insert_id. }
  assert (s ∈ syms) as Hs by (apply Hsub; left). cbn [fmap list_fmap app exec_all].
  rewrite (exec_symbol now s _ D l HD) by (intros x Hx E; by apply Hl). cbn [mbind option_bind].
  set (p := default fzero _). destruct (IH (<["symbols"%string := (symbols_def, symbol_row <$> put_symbol s p l)]> D) (put_symbol s p l))
    as (l' & -> & H1 & H2 & H3).
  - intros x Hx. apply Hsub. by right.
  - intros x sym Hx Hsym E. apply put_symbol_elem in Hx as [(y & Hy & Exy)| ->].
    + unfold loc16. rewrite Exy in *. by apply Hl.
    + by apply Hsyms.
  - by apply put_symbol_nodup.
  - apply lookup_insert_eq.
  - exists l'. rewrite insert_insert_eq. split_and!; [done..|]. rewrite H3, put_symbol_prices by done. reflexivity.
Qed.

(** ** sim_state *)

Definition put_entry (upd : state_entry → state_entry) (n : state_entry) (l : list state_entry) : list state_entry :=
  if bool_decide (n.(e_key) ∈ e_key <$> l) then (λ e, if bool_decide (n.(e_key) = e.(e_key)) then upd e else e) <$> l else l ++ [n].

Lemma insert_entry set upd n l :
  (∀ e, overwrite set (state_row n) (state_row e) = state_row (upd e)) →
  insert_row sim_state_def (DoUpdate "key" set) (state_row n) (state_row <$> l) = Some (state_row <$> put_entry upd n l).
Proof.
  intros Hu. unfold insert_row, put_entry. rewrite (clash_key state_row e_key) by done. case_bool_decide as Hin.
  - f_equal. rewrite <- !list_fmap_compose. apply list_fmap_ext. intros i e _. cbn [compose]. rewrite same_key_state.
    by case_bool_decide.
  - unfold append. cbn [primary unique sim_state_def existsb]. rewrite (clash_key state_row e_key) by done.
    rewrite bool_decide_eq_false_2 by done. cbn. by rewrite fmap_app.
Qed.

Lemma find_fmap {A} (P : A → bool) (f : A → A) l : (∀ x, P (f x) = P x) → List.find P (f <$> l) = f <$> List.find P l.
Proof. intros H. induction l as [|x l IH]; [done|]. cbn [fmap list_fmap List.find]. rewrite H. by destruct (P x). Qed.

Lemma entry_key l key e : entry l key = Some e → e.(e_key) = text key.
Proof. intros [_ H]%List.find_some. by apply bool_decide_eq_true in H. Qed.

Lemma entry_none l key : entry l key = None → text key ∉ e_key <$> l.
Proof.
  intros H (e & E & He)%list_elem_of_fmap. apply list_elem_of_In in He. apply (List.find_none _ _ H), bool_decide_eq_false in He. congruence.
Qed.

Lemma find_app {A} (P : A → bool) l1 l2 :
  List.find P (l1 ++ l2) = match List.find P l1 with Some x => Some x | None => List.find P l2 end.
Proof. induction l1 as [|x l1 IH]; [done|]. cbn. by destruct (P x). Qed.

Lemma entry_put upd n l key :
  (∀ e, (upd e).(e_key) = e.(e_key)) →
  entry (put_entry upd n l) key = if bool_decide (n.(e_key) = text key) then Some (from_option upd n (entry l key)) else entry l key.
Proof.
  intros Hu. unfold put_entry. case_bool_decide as Hin.
  - unfold entry at 1. rewrite find_fmap by (intros e; destruct (bool_decide (e_key n = e_key e)); by rewrite ?Hu). fold (entry l key).
    destruct (entry l key) as [e|] eqn:E; cbn.
    + apply entry_key in E. rewrite E. by case_bool_decide.
    + apply entry_none in E. rewrite bool_decide_eq_false_2; [done|]. intros En. by rewrite En in Hin.
  - unfold entry in *. destruct (bool_decide (n.(e_key) = text key)) eqn:En.
    + apply bool_decide_eq_true in En. destruct (List.find _ l) as [e|] eqn:E.
      * exfalso. apply Hin. rewrite En, <- (entry_key l key e E). apply list_elem_of_fmap_2, list_elem_of_In. by apply List.find_some in E as [? _].
      * rewrite find_app, E. cbn. by rewrite bool_decide_eq_true_2.
    + rewrite find_app. destruct (List.find _ l); [done|]. cbn. by rewrite En.
Qed.

Definition set_bytes (b : list Z) (t : Z) (e : state_entry) : state_entry := mkEntry e.(e_key) (Some b) e.(e_int) e.(e_time) t.
Definition set_int (z : Z) (t : Z) (e : state_entry) : state_entry := mkEntry e.(e_key) e.(e_bytes) (Some z) e.(e_time) t.
Definition set_time (x : Z) (t : Z) (e : state_entry) : state_entry := mkEntry e.(e_key) e.(e_bytes) e.(e_int) (Some x) t.
Definition no_entry (key : string) : state_entry := mkEntry (text key) None None None 0.

Abbreviation put_state upd key l := (put_entry upd (upd (no_entry key)) l).

Lemma exec_state now key value v upd D l :
  D !! "sim_state"%string = Some (sim_state_def, state_row <$> l) →
  new_row now sim_state_def ["key"; value; "updated_at"]%string [VText (text key); v; VTime now] = Some (state_row (upd (no_entry key))) →
  (∀ e, overwrite [value; "updated_at"%string] (state_row (upd (no_entry key))) (state_row e) = state_row (upd e)) →
  exec now (upsert_state key value v now) D = Some (<["sim_state"%string := (sim_state_def, state_row <$> put_state upd key l)]> D).
Proof.
  intros HD Hn Hu. unfold exec, upsert_state. rewrite HD. cbn [mbind option_bind]. rewrite Hn. cbn [mbind option_bind].
  by rewrite (insert_entry _ upd _ _ Hu).
Qed.

Ltac entry_row := unfold new_row; match goal with |- context [if ?b then _ else _] => change b with true end; cbn -[int_fits micro text]; rewrite ?int_fits_s by done; reflexivity.

Lemma exec_bytes now key b D l :
  D !! "sim_state"%string = Some (sim_state_def, state_row <$> l) →
  exec now (upsert_state key "value_bytes" (VBytes b) now) D =
    Some (<["sim_state"%string := (sim_state_def, state_row <$> put_state (set_bytes b (micro now)) key l)]> D).
Proof. intros HD. apply exec_state; [done|entry_row|reflexivity]. Qed.

Lemma exec_int now key z D l :
  is_s 64 z → D !! "sim_state"%string = Some (sim_state_def, state_row <$> l) →
  exec now (upsert_state key "value_int" (VInt z) now) D =
    Some (<["sim_state"%string := (sim_state_def, state_row <$> put_state (set_int z (micro now)) key l)]> D).
Proof. intros Hz HD. apply exec_state; [done|entry_row|reflexivity]. Qed.

Lemma exec_time now key t D l :
  D !! "sim_state"%string = Some (sim_state_def, state_row <$> l) →
  exec now (upsert_state key "value_time" (VTime t) now) D =
    Some (<["sim_state"%string := (sim_state_def, state_row <$> put_state (set_time (micro t) (micro now)) key l)]> D).
Proof. intros HD. apply exec_state; [done|entry_row|reflexivity]. Qed.

(** ** The transaction of Save *)

(** The Go types of an order's fields. *)
Definition order_typed (o : Order.t) : Prop := is_u 8 o.(Order.Side) ∧ is_s 32 o.(Order.Shares) ∧ is_s 32 o.(Order.Priority).

Lemma rune_text_char b : is_u 8 b → rune_text b ≠ [] ∧ (chars (rune_text b) ≤ 1)%nat.
Proof.
  intros [H0 H1]. split; [unfold rune_text; by case_match|]. apply Nat.leb_le.
  assert (forallb (λ n, (chars (rune_text (Z.of_nat n)) <=? 1)%nat) (seq 0 256) = true) as H by (vm_compute; reflexivity).
  rewrite forallb_forall in H. rewrite <- (Z2Nat.id b) by done. apply H, in_seq. change (2 ^ 8) with 256 in H1. lia.
Qed.

Lemma row_fits o : order_typed o → order_fits (row_of o).
Proof. intros (H1 & H2 & H3). split; cbn; try done; [by apply swrap_range|by apply swrap_range|by apply rune_text_char]. Qed.

Definition own_tickers (syms : list Symbol.t) : Prop :=
  ∀ s s', s ∈ syms → s' ∈ syms → s.(Symbol.Ticker) = s'.(Symbol.Ticker) → to_i16 s.(Symbol.LocateCode) = to_i16 s'.(Symbol.LocateCode).

(** The statements, on tables of the program's: the new ones, or an error for two orders with one ID. *)
Lemma exec_Save syms now r D ls lo le :
  own_tickers syms → Forall order_typed r.(r_orders) →
  D !! "symbols"%string = Some (symbols_def, symbol_row <$> ls) → NoDup (loc16 <$> ls) → tickers_kept syms ls →
  D !! "orders"%string = Some (orders_def, order_row <$> lo) → D !! "sim_state"%string = Some (sim_state_def, state_row <$> le) →
  let rows := row_of <$> r.(r_orders) in
  let le' := put_state (set_int (to_i64 r.(r_match)) (micro now)) "match_counter"
    (put_state (set_int (to_i64 r.(r_orderID)) (micro now)) "order_id_counter"
      (put_state (set_bytes r.(r_rng) (micro now)) "rng_state" le)) in
  ∃ ls', NoDup (loc16 <$> ls') ∧ tickers_kept syms ls' ∧ prices_of ls' = upsert_prices syms r.(r_prices) (prices_of ls) ∧
    exec_all now (Save_statements syms now r) D =
      if bool_decide (NoDup (OrderRow.id <$> rows)) then
        Some (<["sim_state"%string := (sim_state_def, state_row <$> le')]>
          (<["orders"%string := (orders_def, order_row <$> rows)]> (<["symbols"%string := (symbols_def, symbol_row <$> ls')]> D)))
      else None.
Proof.
  intros Hown Hty Hs Hn Hk Ho He rows le'. unfold Save_statements. fold rows.
  destruct (exec_symbols now r.(r_prices) syms syms D ls ([Delete "orders"] ++ (copy_order <$> rows) ++
    [upsert_state "rng_state" "value_bytes" (VBytes r.(r_rng)) now;
     upsert_state "order_id_counter" "value_int" (VInt (to_i64 r.(r_orderID))) now;
     upsert_state "match_counter" "value_int" (VInt (to_i64 r.(r_match))) now]) Hown) as (ls' & -> & H1 & H2 & H3); try done.
  exists ls'. split_and!; try done. set (D1 := <["symbols"%string := _]> D). cbn [app exec_all exec].
  assert (D1 !! "orders"%string = Some (orders_def, order_row <$> lo)) as -> by by apply insert_other.
  cbn [mbind option_bind]. rewrite (exec_orders now rows _ []); [|by apply Forall_fmap; eapply Forall_impl; [exact Hty|apply row_fits]|by rewrite lookup_insert_eq|constructor].
  cbn [app]. case_bool_decide; [|done]. rewrite insert_insert_eq. set (D2 := <["orders"%string := _]> D1). cbn [exec_all].
  rewrite (exec_bytes now _ _ D2 le) by (do 2 (apply insert_other; [done|]); exact He). cbn [mbind option_bind].
  erewrite exec_int; [|by apply swrap_range|apply lookup_insert_eq]. cbn [mbind option_bind].
  erewrite exec_int; [|by apply swrap_range|apply lookup_insert_eq]. cbn [mbind option_bind]. by rewrite !insert_insert_eq.
Qed.

(** ** The queries of Load *)

Definition scan_price (r : row) : option (Z * float64) :=
  match get "locate_code" r, get "current_price" r with Some (VInt l), Some (VFloat p) => Some (l, p) | _, _ => None end.

Definition scan_order (r : row) : option OrderRow.t :=
  match get "id" r, get "symbol_locate" r, get "side" r, get "price" r, get "shares" r, get "priority" r, get "mpid" r with
  | Some (VInt id), Some (VInt loc), Some (VText side), Some (VFloat p), Some (VInt n), Some (VInt k), Some (VText m) =>
      Some (OrderRow.mk id loc side p n k (string_of_bytes m))
  | _, _, _, _, _, _, _ => None
  end.

(** [SELECT value FROM sim_state WHERE key = ...] *)
Definition scan_state (key value : string) (rows : list row) : option sqlval :=
  List.find (λ r, key_eq (get "key" r) (Some (VText (text key)))) rows ≫= get value.
Definition as_bytes (v : sqlval) : option (list Z) := match v with VBytes l => Some l | _ => None end.
Definition as_int (v : sqlval) : option Z := match v with VInt z => Some z | _ => None end.

Definition query (D : sqldb) : option database :=
  '(_, ss) ← D !! "symbols"%string; prices ← mapM scan_price ss;
  '(_, os) ← D !! "orders"%string; rows ← mapM scan_order os;
  '(_, st) ← D !! "sim_state"%string;
  Some (mkDatabase (list_to_map prices) rows (scan_state "rng_state" "value_bytes" st ≫= as_bytes)
    (scan_state "order_id_counter" "value_int" st ≫= as_int) (scan_state "match_counter" "value_int" st ≫= as_int)).

Lemma text_string s : string_of_bytes (text s) = s.
Proof.
  unfold string_of_bytes, text. rewrite <- list_fmap_compose. rewrite <- (String.string_of_list_ascii_of_string s) at 2. f_equal.
  induction (String.list_ascii_of_string s) as [|c l IH]; [done|]. cbn. by rewrite ascii_of_byte_of_ascii, IH.
Qed.

Lemma mapM_rows {A B} (f : A → row) (g : row → option B) (h : A → B) l : (∀ x, g (f x) = Some (h x)) → mapM g (f <$> l) = Some (h <$> l).
Proof. intros H. induction l as [|x l IH]; [done|].
  transitivity (y ← g (f x); k ← mapM g (f <$> l); mret (y :: k)); [done|]. by rewrite H, IH. Qed.

Lemma scan_state_row key value l : scan_state key value (state_row <$> l) = entry l key ≫= λ e, get value (state_row e).
Proof.
  unfold scan_state, entry. induction l as [|e l IH]; [done|]. cbn [fmap list_fmap List.find]. change (key_eq (get "key" (state_row e)) (Some (VText (text key))))
    with (bool_decide (e.(e_key) = text key)). by case_bool_decide.
Qed.

(** What Load reads is what the database stands for. *)
Lemma query_stands syms D d s : stands_for syms D d s → query D = Some d.
Proof.
  intros [(ls & Hs & _ & Hd & _) Ho _ (le & He & H1 & H2 & H3 & _)]. unfold query. rewrite Hs, Ho, He. cbn [mbind option_bind].
  rewrite (mapM_rows symbol_row scan_price (λ x, (loc16 x, x.2))) by done. cbn [mbind option_bind].
  rewrite (mapM_rows order_row scan_order id) by (intros o; cbn; rewrite text_string; by destruct o). cbn [mbind option_bind].
  rewrite list_fmap_id, !scan_state_row. destruct d as [m rows b i k]. cbn in *. subst. repeat f_equal.
  - destruct (entry le "rng_state") as [e|]; [|done]. cbn. by destruct (e_bytes e).
  - destruct (entry le "order_id_counter") as [e|]; [|done]. cbn. by destruct (e_int e).
  - destruct (entry le "match_counter") as [e|]; [|done]. cbn. by destruct (e_int e).
Qed.

(** C15. The SQL does what the model says.  On a database whose tables stand for the
    saved state, the transaction of Save, statement by statement, with every check
    of the schema, succeeds exactly when [Save] does and leaves a database that
    stands for what [Save] leaves, from which the queries of Load read just that;
    when it does not, nothing changed.  No type, range, NOT NULL or unique ticker is
    ever violated, as long as no ticker moved to another locate code. *)
Theorem Save_sql_refines (syms : list Symbol.t) (now : Z) (ok : bool) (r : reads) (D : sqldb) (d : database) (s : store)
    (Hown : own_tickers syms) (Hty : Forall order_typed r.(r_orders)) (Hst : stands_for syms D d s) :
  let '(D', done') := Save_sql syms now ok r D in
  let '(d', done) := Save syms ok r d in
  done' = done ∧ stands_for syms D' d' s ∧ query D' = Some d'.
Proof.
  pose proof Hst as [(ls & Hs & Hn & Hd & Hk) Ho Ht (le & He & H1 & H2 & H3 & H4)].
  destruct (exec_Save syms now r D ls d.(Snapshot.orders_table) le Hown Hty Hs Hn Hk Ho He) as (ls' & Hn' & Hk' & Hp & E).
  unfold Save_sql, Save. rewrite E. clear E. set (rows := row_of <$> r.(r_orders)) in *.
  assert (∀ A (x y z : A), (if ok && bool_decide (NoDup (OrderRow.id <$> rows)) then x else y) =
    if bool_decide (NoDup (OrderRow.id <$> rows)) then (if ok then x else y) else y) as Hif by (intros; by destruct ok, (bool_decide _)).
  rewrite (Hif _ _ _ (d, true)). destruct (bool_decide _); [|by pose proof (query_stands _ _ _ _ Hst)].
  destruct ok; [|by pose proof (query_stands _ _ _ _ Hst)]. split; [done|].
  match goal with |- stands_for ?a ?b ?c ?e ∧ _ => assert (stands_for a b c e) as Hst'; [|split; [exact Hst'|by eapply query_stands]] end.
  split; cbn [Snapshot.symbols Snapshot.orders_table rng_state order_id_counter match_counter].
  - exists ls'. split; [do 2 (apply insert_other; [done|]); apply lookup_insert_eq|]. split; [done|]. split; [by rewrite Hp, Hd|done].
  - apply insert_other; [done|]. apply lookup_insert_eq.
  - destruct Ht as (lt & Ht & Hperm). exists lt. split; [do 3 (apply insert_other; [done|]); exact Ht|done].
  - eexists. split; [apply lookup_insert_eq|]. rewrite !entry_put by done. cbn. rewrite H4. split_and!; try done.
    + destruct (entry le "rng_state"); reflexivity.
    + destruct (entry le "order_id_counter"); reflexivity.
    + destruct (entry le "match_counter"); reflexivity.
Qed.

(** ** The other statements, and the tables themselves *)

(** The Go types of a trade's row, and a buyer or seller of one letter. *)
Definition trade_fits (r : TradeRow.t) : Prop :=
  is_s 64 r.(TradeRow.MatchNumber) ∧ is_s 16 r.(TradeRow.SymbolLocate) ∧ is_s 32 r.(TradeRow.Shares) ∧
  text r.(TradeRow.Aggressor) ≠ [] ∧ (chars (text r.(TradeRow.Aggressor)) ≤ 1)%nat.

(** The row as it is stored: its time in microseconds. *)
Definition in_micros (r : TradeRow.t) : TradeRow.t :=
  TradeRow.mk r.(TradeRow.MatchNumber) r.(TradeRow.SymbolLocate) r.(TradeRow.Ticker) r.(TradeRow.Price) r.(TradeRow.Shares)
    r.(TradeRow.Aggressor) (micro r.(TradeRow.ExecutedAt)).

Lemma existsb_perm {A} (P : A → bool) l l' : l ≡ₚ l' → existsb P l = existsb P l'.
Proof. induction 1 as [|x l l' _ IH|x y l|l1 l2 l3 _ IH1 _ IH2]; cbn; [done|by rewrite IH|by rewrite !orb_assoc, (orb_comm (P y))|by rewrite IH1]. Qed.

Lemma exec_trade syms now r D d s :
  trade_fits r → stands_for syms D d s →
  ∃ D', exec now (insert_trade_sql r) D = Some D' ∧ stands_for syms D' d (insert_trade (in_micros r) s).
Proof.
  intros (H1 & H2 & H3 & H4 & H5) [Hs Ho (l & Ht & Hp) He]. unfold exec, insert_trade_sql. rewrite Ht. cbn [mbind option_bind].
  assert (∀ cols vals, (cols, vals) = (["match_number"; "symbol_locate"; "ticker"; "price"; "shares"; "aggressor"; "executed_at"]%string,
    [VInt r.(TradeRow.MatchNumber); VInt r.(TradeRow.SymbolLocate); VText (text r.(TradeRow.Ticker)); VFloat r.(TradeRow.Price);
     VInt r.(TradeRow.Shares); VText (text r.(TradeRow.Aggressor)); VTime r.(TradeRow.ExecutedAt)]) →
    new_row now trades_def cols vals = Some (trade_sql_row (in_micros r))) as Hn.
  { intros cols vals [= -> ->]. unfold new_row. match goal with |- context [if ?b then _ else _] => change b with true end.
    apply Nat.leb_le in H5. cbn -[int_fits Nat.leb chars micro text]. rewrite !int_fits_s, H5 by done.
    unfold trade_sql_row. cbn -[micro text]. by destruct (text (TradeRow.Aggressor r)). }
  rewrite (Hn _ _ eq_refl). cbn [mbind option_bind insert_row].
  assert (∀ x y, same "match_number" (trade_sql_row x) (trade_sql_row y) = bool_decide (TradeRow.MatchNumber x = TradeRow.MatchNumber y))
    as Hsame by (intros; apply Z_eqb_bool).
  rewrite (clash_key trade_sql_row TradeRow.MatchNumber) by done. unfold insert_trade.
  assert (existsb (λ x, TradeRow.MatchNumber x =? TradeRow.MatchNumber (in_micros r)) s.(trades) =
    bool_decide (TradeRow.MatchNumber (in_micros r) ∈ TradeRow.MatchNumber <$> l)) as ->.
  { rewrite (existsb_perm _ _ _ (symmetry Hp)). clear. induction l as [|x l IH]; cbn [existsb fmap list_fmap].
    - symmetry. apply bool_decide_eq_false_2, not_elem_of_nil.
    - rewrite IH, Z_eqb_bool, <- bool_decide_or. apply bool_decide_ext. rewrite elem_of_cons. naive_solver. }
  case_bool_decide as Hin; cbn [mbind option_bind].
  - eexists. split; [reflexivity|]. rewrite insert_id by exact Ht. split; try done. by exists l.
  - unfold append. cbn [primary unique trades_def existsb]. rewrite (clash_key trade_sql_row TradeRow.MatchNumber) by done.
    rewrite bool_decide_eq_false_2 by done. cbn [orb mbind option_bind]. eexists. split; [reflexivity|]. split; cbn [trades cursor].
    + destruct Hs as (ls & Hs & H). exists ls. split; [by apply insert_other|done].
    + by apply insert_other.
    + exists (l ++ [in_micros r]). split; [rewrite fmap_app; apply lookup_insert_eq|]. rewrite Hp. symmetry. apply Permutation_cons_append.
    + destruct He as (le & He & H). exists le. split; [by apply insert_other|done].
Qed.

Lemma exec_cursor syms now t D d s :
  micro t = t → stands_for syms D d s →
  ∃ D', exec now (save_cursor_sql t now) D = Some D' ∧ stands_for syms D' d (saveCursor true t s).
Proof.
  intros Hm [(ls & Hs & H) Ho (lt & Ht & Hp) (le & He & H1 & H2 & H3 & H4)]. unfold save_cursor_sql.
  rewrite (exec_time now _ t D le He). eexists. split; [reflexivity|]. split; cbn [saveCursor trades cursor].
  - exists ls. split; [by apply insert_other|done].
  - by apply insert_other.
  - exists lt. split; [by apply insert_other|done].
  - eexists. split; [apply lookup_insert_eq|]. rewrite !entry_put by done. cbn. rewrite Hm. split_and!; try done.
    destruct (entry le "archive_cursor"); reflexivity.
Qed.

(** Tables that exist stay as they are. *)
Lemma create_again syms D d s : stands_for syms D d s → CreateTables true D = Some D.
Proof.
  intros [(ls & Hs & _) Ho (lt & Ht & _) (le & He & _)]. unfold CreateTables, ddl. cbn [fold_left]. unfold create at 4. cbn [name symbols_def].
  rewrite Hs. unfold create at 3. cbn [name orders_def]. rewrite Ho. unfold create at 2. cbn [name trades_def]. rewrite Ht.
  unfold create. cbn [name sim_state_def]. by rewrite He.
Qed.

Definition empty_database : database := mkDatabase ∅ [] None None None.

Lemma create_fresh syms : ∃ D, CreateTables true ∅ = Some D ∧ stands_for syms D empty_database (mkStore [] None ∅).
Proof.
  eexists. split; [reflexivity|]. unfold ddl. cbn [fold_left]. split.
  - exists []. split; [vm_compute; reflexivity|]. split; [constructor|]. split; [done|]. by intros x sym ?%elem_of_nil.
  - vm_compute. reflexivity.
  - exists []. split; [vm_compute; reflexivity|done].
  - exists []. split; [vm_compute; reflexivity|done].
Qed.

(** The database, from its creation on: [CreateTables] makes the tables of an empty
    state and leaves existing ones alone, as main calls it at every start; SaveTrade
    and saveCursor do what [insert_trade] and [saveCursor] do, the trade's time cut
    to microseconds. *)
Theorem statements_refine (syms : list Symbol.t) (now : Z) :
  (∃ D, CreateTables true ∅ = Some D ∧ stands_for syms D empty_database (mkStore [] None ∅)) ∧
  ∀ D d s, stands_for syms D d s →
    CreateTables true D = Some D ∧
    (∀ r, trade_fits r → ∃ D', exec now (insert_trade_sql r) D = Some D' ∧ stands_for syms D' d (insert_trade (in_micros r) s)) ∧
    (∀ t, micro t = t → ∃ D', exec now (save_cursor_sql t now) D = Some D' ∧ stands_for syms D' d (saveCursor true t s)).
Proof.
  split; [apply create_fresh|]. intros D d s Hst. split; [by eapply create_again|]. split.
  - intros r Hr. by apply exec_trade.
  - intros t Ht. by apply exec_cursor.
Qed.

(** Two orders of the first symbol, saved to fresh tables. *)
Definition demo_saved : reads :=
  mkReads {[1 := dec 18500 2]} [Order.mk 1 1 SideBuy (dec 18499 2) 300 0 "NSDQ"; Order.mk 2 1 SideSell (dec 18501 2) 200 0 ""]
    (repeat 7 16) 2 0.
Definition demo_tables : sqldb := default ∅ (CreateTables true ∅).

Lemma Save_sql_refines_witness :
  (Save_sql (take 1 AllSymbols) 5000 true demo_saved demo_tables).2 = true ∧
  let '(D', done') := Save_sql (take 1 AllSymbols) 5000 true demo_saved demo_tables in
  let '(d', done) := Save (take 1 AllSymbols) true demo_saved empty_database in
  done' = done ∧ stands_for (take 1 AllSymbols) D' d' (mkStore [] None ∅) ∧ query D' = Some d'.
Proof.
  split; [vm_compute; reflexivity|].
  apply (Save_sql_refines (take 1 AllSymbols) 5000 true demo_saved demo_tables empty_database (mkStore [] None ∅)).
  - intros s s' ->%list_elem_of_singleton ->%list_elem_of_singleton. done.
  - repeat constructor; vm_compute; discriminate.
  - destruct (create_fresh (take 1 AllSymbols)) as (D & E & H). unfold demo_tables. by rewrite E.
Defined.
