(* ===== verification/World.v ===== *)
(** * The books of all symbols in one world

    The simulators share the heap of orders, the two counters and the generator.
    [books_ok] is what holds of the world between any two actions; an action of one
    simulator keeps it, and leaves the orders and the consumers' views of the other
    books alone. *)
From S2P Require Import Prelude Word Float64 Rng Symbols Market Book BookSide BookSpec Itch Simulator SimFrame SimProps.
From S2P Require Import ItchJson Session Snapshot SnapshotProps Trades Archive Archiver Feed.

Local Open Scope Z_scope.

Record books_ok (w : world) : Prop := mk_books_ok {
  bo_sim : ∀ loc b, w.(w_books) !! loc = Some b → is_u 16 loc ∧ sim_ok loc (sim_of w b);
  bo_ids : ∀ loc1 loc2 o1 o2, o1 ∈ book_orders w loc1 → o2 ∈ book_orders w loc2 →
    o1.(Order.ID) = o2.(Order.ID) → loc1 = loc2;
  bo_orderID : is_u 64 w.(w_orderID);
  bo_match : is_u 64 w.(w_match);
  bo_rng : Rng.wf w.(w_market).(Market.rng);
}.

(** Room for one more ID and one more order in every book. *)
Definition world_room (w : world) : Prop :=
  w.(w_orderID) + 1 < 2 ^ 64 ∧
  ∀ loc b, w.(w_books) !! loc = Some b → Z.of_nat (length (book_orders w loc)) + 1 < 2 ^ 32.

Lemma book_orders_sim w loc b : w.(w_books) !! loc = Some b → book_orders w loc = resting_orders (sim_of w b).
Proof. unfold book_orders. by intros ->. Qed.

Lemma elem_of_orders h b o : rep h b → o ∈ a_orders (abs_book h b) ↔ ∃ p, p ∈ book_ptrs b ∧ h !! p = Some o.
Proof.
  intros Hr. rewrite a_orders_abs, list_elem_of_fmap. pose proof (rep_alloc _ _ Hr) as Ha.
  rewrite Forall_forall in Ha. split; intros (p & H1 & H2).
  - exists p. split; [done|]. destruct (Ha p H2) as [x E]. unfold deref in H1. rewrite E in H1. by rewrite H1, E.
  - exists p. split; [|done]. unfold deref. by rewrite H2.
Qed.

Lemma owns_ptrs h b p : rep h b → owns b p ↔ p ∈ book_ptrs b.
Proof.
  intros Hr. split; [|by left]. intros [?|[id Hid]]; [done|]. by apply (rep_map _ _ Hr) in Hid as [? _].
Qed.

(** Books of different symbols share no order. *)
Lemma books_apart w loc1 loc2 b1 b2 p :
  books_ok w → w.(w_books) !! loc1 = Some b1 → w.(w_books) !! loc2 = Some b2 → loc1 ≠ loc2 →
  p ∈ book_ptrs b1 → ¬ owns b2 p.
Proof.
  intros Hw H1 H2 Hne Hp1 Hp2. destruct (bo_sim _ Hw _ _ H1) as [_ [R1 O1 _]], (bo_sim _ Hw _ _ H2) as [_ [R2 O2 _]].
  apply (owns_ptrs _ _ _ R2) in Hp2. apply Hne.
  rewrite Forall_forall in O1, O2. pose proof (rep_alloc _ _ R1) as Ha. rewrite Forall_forall in Ha.
  destruct (Ha p Hp1) as [o Ho].
  assert (o ∈ resting_orders (sim_of w b1)) as [_ _ <- _]%O1 by (apply elem_of_orders; eauto).
  assert (o ∈ resting_orders (sim_of w b2)) as [_ _ <- _]%O2 by (apply elem_of_orders; eauto).
  done.
Qed.

Section action.
Context (w : world) (loc : Z) (b : Book.t) (s' : sim).
Context (Hw : books_ok w) (Hb : w.(w_books) !! loc = Some b) (K : keeps (sim_of w b).(bk) s'.(bk)).

Lemma put_lookup loc2 : loc2 ≠ loc → (put_sim loc w s').(w_books) !! loc2 = w.(w_books) !! loc2.
Proof. intros H. unfold put_sim, put_book. cbn. by rewrite lookup_insert_ne by congruence. Qed.

Lemma put_lookup_same : (put_sim loc w s').(w_books) !! loc = Some s'.(bk).(book).
Proof. apply lookup_insert_eq. Qed.

(** The orders of another book are untouched. *)
Lemma other_heap loc2 b2 p :
  w.(w_books) !! loc2 = Some b2 → loc2 ≠ loc → p ∈ book_ptrs b2 → s'.(bk).(orders) !! p = w.(w_heap) !! p.
Proof.
  intros H2 Hne Hp. destruct (bo_sim _ Hw _ _ H2) as [_ [R2 _ _]].
  apply (kp_frame _ _ K).
  - pose proof (rep_alloc _ _ R2) as Ha. rewrite Forall_forall in Ha. by apply Ha.
  - by eapply (books_apart w loc2 loc).
Qed.

Lemma other_orders loc2 : loc2 ≠ loc → book_orders (put_sim loc w s') loc2 = book_orders w loc2.
Proof.
  intros Hne. unfold book_orders. rewrite put_lookup by done.
  destruct (w.(w_books) !! loc2) as [b2|] eqn:E; [|done]. rewrite !a_orders_abs. apply list_fmap_ext.
  intros i p Hp%list_elem_of_lookup_2. unfold deref. change (w_heap (put_sim loc w s')) with s'.(bk).(orders).
  by rewrite (other_heap loc2 b2).
Qed.

Lemma other_sim loc2 b2 :
  w.(w_books) !! loc2 = Some b2 → loc2 ≠ loc → sim_ok loc2 (sim_of (put_sim loc w s') b2).
Proof.
  intros H2 Hne. destruct (bo_sim _ Hw _ _ H2) as [_ [R2 O2 C2]].
  pose proof (kp_count _ _ K) as Hc.
  assert (book_orders (put_sim loc w s') loc2 = book_orders w loc2) as E by by apply other_orders.
  rewrite (book_orders_sim _ _ b2), (book_orders_sim _ _ b2) in E by (rewrite ?put_lookup; done).
  split.
  - apply (rep_heap w.(w_heap)); [done|]. intros q Hq. pose proof (other_heap loc2 b2 q H2 Hne Hq) as Eq.
    cbn. unfold deref. rewrite Eq. pose proof (rep_alloc _ _ R2) as Ha. rewrite Forall_forall in Ha.
    split; [by apply Ha|done].
  - rewrite E. eapply Forall_impl; [exact O2|]. intros o Ho. eapply order_ok_mono; [|exact Ho].
    unfold counter in *. cbn in *. lia.
  - unfold counter in *. cbn in *. lia.
Qed.

(** An order that rests after the action rested before, or has a new ID. *)
Lemma new_or_old (Hok : sim_ok loc s') o :
  o ∈ book_orders (put_sim loc w s') loc →
  (∃ o0, o0 ∈ book_orders w loc ∧ o0.(Order.ID) = o.(Order.ID)) ∨ w.(w_orderID) < o.(Order.ID).
Proof.
  destruct (bo_sim _ Hw _ _ Hb) as [_ [R O C]]. destruct Hok as [R' O' C'].
  unfold book_orders. rewrite put_lookup_same, Hb.
  intros (p & Hp & Ho)%elem_of_orders; [|done]. change (w_heap (put_sim loc w s')) with s'.(bk).(orders) in Ho.
  destruct (w.(w_heap) !! p) as [o0|] eqn:E0.
  - left. exists o0. destruct (kp_heap _ _ K p o0 E0) as [n E].
    assert (o = Order.with_Shares o0 n) as -> by congruence. split; [|done].
    apply elem_of_orders; [done|]. exists p. split; [|done]. apply (owns_ptrs w.(w_heap)); [done|].
    destruct (kp_owns _ _ K p) as [?|Hn]; [by left|done|]. cbn in Hn. congruence.
  - right. apply (kp_alloc _ _ K p o E0 Ho).
Qed.

Lemma action_books_ok (Hok : sim_ok loc s') (Hc : counter s' < 2 ^ 64) (Hm : is_u 64 s'.(bk).(matchCounter))
    (Hr : Rng.wf s'.(Simulator.rng)) : books_ok (put_sim loc w s').
Proof.
  destruct (bo_sim _ Hw _ _ Hb) as [Hu16 [R O C]]. split.
  - intros loc2 b2 H2. destruct (decide (loc2 = loc)) as [->|Hne].
    + rewrite put_lookup_same in H2. injection H2 as <-. split; [done|].
      assert (sim_of (put_sim loc w s') s'.(bk).(book) = s') as -> by (by destruct s' as [? []]). done.
    + rewrite put_lookup in H2 by done. split; [by apply (bo_sim _ Hw _ _ H2)|by apply other_sim].
  - assert (∀ loc2 o1 o2, loc2 ≠ loc → o1 ∈ book_orders (put_sim loc w s') loc →
      o2 ∈ book_orders w loc2 → o1.(Order.ID) ≠ o2.(Order.ID)) as Hnew.
    { intros loc2 o1 o2 Hne H1 H2 E. apply new_or_old in H1 as [(o0 & H0 & E0)|Hlt]; [| |done].
      - apply Hne. symmetry. eapply (bo_ids _ Hw); [exact H0|exact H2|congruence].
      - unfold book_orders in H2. destruct (w.(w_books) !! loc2) as [b2|] eqn:Eb2; [|by apply elem_of_nil in H2].
        destruct (bo_sim _ Hw _ _ Eb2) as [_ Hs2]. apply (sim_ok_orders loc2 (sim_of w b2)) in H2; [|done].
        destruct H2 as [[_ Hid] _ _ _]. unfold counter in Hid. cbn in Hid. lia. }
    intros loc1 loc2 o1 o2 H1 H2 E. destruct (decide (loc1 = loc)) as [->|Hne1], (decide (loc2 = loc)) as [->|Hne2].
    + done.
    + rewrite other_orders in H2 by done. by destruct (Hnew loc2 o1 o2).
    + rewrite other_orders in H1 by done. by destruct (Hnew loc1 o2 o1).
    + rewrite other_orders in H1, H2 by done. by eapply (bo_ids _ Hw).
  - destruct Hok as [_ _ Hc0]. unfold counter in *. cbn. unfold is_u. lia.
  - done.
  - done.
Qed.

End action.

(** Nothing here depends on the market but its generator. *)
Lemma books_ok_market w k : books_ok w → Rng.wf k.(Market.rng) → books_ok (set_market k w).
Proof.
  intros [H1 H2 H3 H4 H5] Hr. split; try done. intros loc b Hb. destruct (H1 loc b Hb) as [Hu [R O C]]. by split.
Qed.

(** [books_ok] worlds can be saved. *)
Lemma order_ok_fields loc c o : is_u 16 loc → is_u 64 c → order_ok loc c o → fields_ok o ∧ o.(Order.Locate) = loc.
Proof.
  intros Hu Hc [Hid (k & Hk & Hs) Hl Hside]. split; [|done]. unfold fields_ok, is_u in *. rewrite Hl.
  split_and!; lia || done.
Qed.

Lemma books_world_ok w : books_ok w → world_ok w.
Proof.
  intros [Hs Hi Ho Hm Hr]. split; [| |exact Hi|done..].
  - intros loc b Hb. apply (Hs loc b Hb).
  - intros loc o Hin. pose proof Hin as Hin'. unfold book_orders in Hin'.
    destruct (w.(w_books) !! loc) as [b|] eqn:Hb; [|by apply elem_of_nil in Hin'].
    destruct (Hs loc b Hb) as [Hu Hok]. rewrite (book_orders_sim _ _ _ Hb) in Hin.
    eapply order_ok_fields; [done|exact Ho|]. by apply (sim_ok_orders loc (sim_of w b)).
Qed.
