(* ===== verification/FeedProps.v ===== *)
(** * What the runners and the trade pipeline promise *)
From S2P Require Import Prelude Word Float64 Rng Gaussian Symbols Market Stress Book BookSpec Itch Simulator SimProps SimTheorems.
From S2P Require Import ItchJson Session Snapshot Trades Archive Archiver Feed.

Local Open Scope Z_scope.

Local Arguments Nat.ltb : simpl never.

(** ** The channel *)

Definition is_trade (m : Message.t) : bool := m.(Message.Type_) =? MsgTrade.

(** What does not fit is dropped, the newest first. *)
Lemma enqueueTrades_spec cap loc msgs ch :
  enqueueTrades cap loc msgs ch =
  ch ++ take (cap - length ch) (record_of loc <$> List.filter is_trade msgs).
Proof.
  unfold enqueueTrades, is_trade. revert ch. induction msgs as [|m msgs IH]; intros ch; cbn.
  { by rewrite take_nil, app_nil_r. }
  destruct (Message.Type_ m =? MsgTrade); cbn; [|apply IH].
  destruct (Nat.ltb_spec (length ch) cap) as [Hlt|Hge]; rewrite IH.
  - rewrite List.length_app, <- app_assoc. cbn. destruct (cap - length ch)%nat as [|k] eqn:E; [lia|].
    cbn. do 4 f_equal. lia.
  - replace (cap - length ch)%nat with 0%nat by lia. by rewrite !take_0.
Qed.

Definition with_sent (p : pipeline) (ch sent dropped : list tradeRecord.t) : pipeline :=
  mkPipeline ch p.(p_held) p.(p_store) sent dropped p.(p_saved) p.(p_failed).

(** [enqueueTrades] is a sequence of sends that go into the channel or are dropped. *)
Lemma enqueueTrades_steps cap writers syms loc msgs p :
  ∃ sent dropped, rtc (pipe_step cap writers syms) p
    (with_sent p (enqueueTrades cap loc msgs p.(p_ch)) sent dropped) ∧
    sent ≡ₚ (record_of loc <$> List.filter is_trade msgs) ++ p.(p_sent).
Proof.
  unfold enqueueTrades. revert p. induction msgs as [|m msgs IH]; intros p.
  { exists (p_sent p), (p_dropped p). split; [|done]. by destruct p. }
  cbn. unfold is_trade at 1. destruct (Message.Type_ m =? MsgTrade); cbn; [|apply IH].
  set (r := record_of loc m). destruct (Nat.ltb_spec (length (p_ch p)) cap).
  - destruct (IH (with_sent p (p_ch p ++ [r]) (r :: p_sent p) (p_dropped p))) as (sent & dr & Hs & Hp).
    exists sent, dr. split; [|rewrite Hp; cbn; by rewrite <- Permutation_middle]. eapply rtc_l; [|exact Hs].
    destruct p. by apply ps_send.
  - destruct (IH (with_sent p (p_ch p) (r :: p_sent p) (r :: p_dropped p))) as (sent & dr & Hs & Hp).
    exists sent, dr. split; [|rewrite Hp; cbn; by rewrite <- Permutation_middle]. eapply rtc_l; [|exact Hs].
    destruct p. by apply ps_drop.
Qed.

(** ** Conservation *)

Definition row_numbers (s : store) : list Z := TradeRow.MatchNumber <$> s.(trades).

Record pipe_ok (cap writers : nat) (syms : list Symbol.t) (s0 : store) (p : pipeline) : Prop := mk_pipe_ok {
  pk_all : p.(p_sent) ≡ₚ p.(p_ch) ++ p.(p_held) ++ p.(p_dropped) ++ p.(p_saved) ++ p.(p_failed);
  pk_ch : (length p.(p_ch) ≤ cap)%nat;
  pk_held : (length p.(p_held) ≤ writers)%nat;
  pk_unique : NoDup (row_numbers p.(p_store));
  pk_saved : ∀ r, r ∈ p.(p_saved) → to_i64 r.(tradeRecord.matchNumber) ∈ row_numbers p.(p_store);
  pk_rows : ∀ x, x ∈ p.(p_store).(trades) →
    x ∈ s0.(trades) ∨ ∃ r now, r ∈ p.(p_saved) ∧ x = trade_row syms now r;
  pk_old : ∀ x, x ∈ s0.(trades) → x ∈ p.(p_store).(trades);
}.

Lemma insert_trade_cases r s :
  (insert_trade r s = s ∧ r.(TradeRow.MatchNumber) ∈ row_numbers s) ∨
  (insert_trade r s = mkStore (r :: s.(trades)) s.(cursor) s.(day_file) ∧ r.(TradeRow.MatchNumber) ∉ row_numbers s).
Proof.
  unfold insert_trade, row_numbers.
  destruct (existsb _ (trades s)) eqn:E; [left|right]; (split; [done|]).
  - apply existsb_exists in E as (x & Hx & E%Z.eqb_eq). rewrite <- E.
    by apply list_elem_of_fmap_2, list_elem_of_In.
  - intros (x & E' & Hx)%list_elem_of_fmap. apply not_true_iff_false in E. apply E, existsb_exists.
    exists x. split; [by apply list_elem_of_In|]. by apply Z.eqb_eq.
Qed.

Lemma pipe_step_ok cap writers syms s0 p p' :
  pipe_ok cap writers syms s0 p → pipe_step cap writers syms p p' → pipe_ok cap writers syms s0 p'.
Proof.
  intros [Hall Hch Hheld Huniq Hsaved Hrows Hold] Hstep.
  destruct Hstep; split; cbn [p_ch p_held p_store p_sent p_dropped p_saved p_failed] in *; try done.
  - rewrite Hall, <- app_assoc. cbn. by rewrite <- Permutation_middle.
  - rewrite List.length_app. cbn. lia.
  - rewrite Hall. cbn. solve_Permutation.
  - rewrite Hall. cbn. solve_Permutation.
  - cbn in Hch. lia.
  - rewrite Hall. solve_Permutation.
  - rewrite List.length_app in *. cbn in Hheld. lia.
  - unfold SaveTrade. destruct (insert_trade_cases (trade_row syms now r) st) as [[-> _]|[-> Hn]]; [done|].
    by constructor.
  - intros r0 Hr0. unfold SaveTrade.
    destruct (insert_trade_cases (trade_row syms now r) st) as [[-> Hin]|[-> Hn]];
      apply elem_of_cons in Hr0 as [->|Hr0]; auto; [by left|right; by apply Hsaved].
  - intros x Hx. unfold SaveTrade in Hx.
    destruct (insert_trade_cases (trade_row syms now r) st) as [[E Hin]|[E Hn]]; rewrite E in Hx; cbn in Hx.
    + destruct (Hrows x Hx) as [|(r0 & now0 & ? & ?)]; [by left|]. right. exists r0, now0. split; [by right|done].
    + apply elem_of_cons in Hx as [->|Hx]; [right; exists r, now; split; [by left|done]|].
      destruct (Hrows x Hx) as [|(r0 & now0 & ? & ?)]; [by left|]. right. exists r0, now0. split; [by right|done].
  - intros x Hx. unfold SaveTrade. destruct (insert_trade_cases (trade_row syms now r) st) as [[-> _]|[-> _]];
      [by apply Hold|right; by apply Hold].
  - rewrite Hall. solve_Permutation.
  - rewrite List.length_app in *. cbn in Hheld. lia.
Qed.

Definition pipe_start (s0 : store) : pipeline := mkPipeline [] [] s0 [] [] [] [].

Lemma pipe_start_ok cap writers syms s0 : NoDup (row_numbers s0) → pipe_ok cap writers syms s0 (pipe_start s0).
Proof.
  intros H. split; cbn; try done; try lia.
  - by intros r ?%elem_of_nil.
  - auto.
Qed.

(** No trade is invented, duplicated or lost unaccounted for: whatever the
    interleaving of the runners that send, the writers that take and save, and
    the database errors, every trade sent is, once, in the channel, with a
    writer, dropped at a full channel, saved or lost to an error; the channel and
    the writers keep their bounds; the table keeps one row for each match number,
    loses no row, has one for every saved trade's number and none that is neither
    old nor a saved trade's. *)
Theorem trades_accounted (cap writers : nat) (syms : list Symbol.t) (s0 : store) (p : pipeline)
    (Huniq : NoDup (row_numbers s0)) (Hrun : rtc (pipe_step cap writers syms) (pipe_start s0) p) :
  pipe_ok cap writers syms s0 p.
Proof.
  assert (pipe_ok cap writers syms s0 (pipe_start s0)) as H by by apply pipe_start_ok.
  induction Hrun as [|x y z Hxy _ IH]; [done|]. by apply IH, (pipe_step_ok _ _ _ _ x).
Qed.

Definition demo_record : tradeRecord.t := tradeRecord.mk 1 1 (dec 18500 2) 100 SideBuy.
Definition demo_saved : pipeline :=
  mkPipeline [] [] (SaveTrade AllSymbols 0 demo_record (mkStore [] None ∅)) [demo_record] [] [demo_record] [].

Lemma trades_accounted_witness : pipe_ok 4096 2 AllSymbols (mkStore [] None ∅) demo_saved.
Proof.
  apply (trades_accounted 4096 2 AllSymbols (mkStore [] None ∅) demo_saved).
  - constructor.
  - eapply rtc_l; [apply (ps_send 4096 2 AllSymbols [] [] (mkStore [] None ∅) [] [] [] [] demo_record); cbn; lia|].
    eapply rtc_l; [apply (ps_take 4096 2 AllSymbols [] [] (mkStore [] None ∅)); cbn; lia|].
    eapply rtc_l; [apply (ps_save 4096 2 AllSymbols [] [] [] (mkStore [] None ∅) _ _ _ _ demo_record 0)|].
    apply rtc_refl.
Defined.

(** After a crash the match counter is that of the snapshot, while trades were
    saved as they happened: the next trade takes a number that is already in the
    table, and is not saved. *)
Lemma crash_reuses_match_numbers rows d w w1 c b :
  Load LoadOk rows d w = Some (Some true, w1) → d.(match_counter) = Some (to_i64 c) → is_u 64 c →
  ∃ n s, NextMatchNumber (view_book w1 b) = Some (n, s) ∧ n = to_u64 (c + 1) ∧
    ∀ syms now r st, r.(tradeRecord.matchNumber) = n → to_i64 n ∈ row_numbers st →
      SaveTrade syms now r st = st.
Proof.
  intros Hload Hc Hu. unfold Load in Hload. destruct (_ =? 0)%nat; [done|].
  destruct (go_fold _ _ _ _) as [[[] w2]|]; [|done]. injection Hload as <-.
  eexists _, _. split; [reflexivity|]. split.
  - cbn. by rewrite Hc, swrap_uwrap.
  - cbn. rewrite Hc, swrap_uwrap by done. intros syms now r st Hr Hin. unfold SaveTrade.
    destruct (insert_trade_cases (trade_row syms now r) st) as [[E _]|[_ Hn]]; [done|]. destruct Hn.
    cbn. by rewrite Hr.
Qed.

(** ** A runner's iteration *)

(** The clamps never act: the remainder is already between 0 and 2. *)
Lemma num_actions_range n : 0 ≤ n → num_actions n = 1 + n mod 3 ∧ 1 ≤ num_actions n ≤ 3.
Proof.
  intros Hn. unfold num_actions. rewrite Z.rem_mod_nonneg by lia.
  pose proof (Z.mod_pos_bound n 3 ltac:(lia)). destruct (Z.gtb_spec (1 + n mod 3) 3); [lia|].
  destruct (Z.ltb_spec (1 + n mod 3) 1); lia.
Qed.

Section runner.
Context (math_Exp math_Log : float64 → float64) (marshal : gmap string jval → option frame).
Context (syms : list Symbol.t) (sym : Symbol.t).

(** The feed after an iteration in which the market became [k] and the simulator
    went to [s'] with the messages [msgs]. *)
Definition after_tick (order : list Z) (now : Z) (f : feed) (k : MarketEngine) (msgs : list Message.t) (s' : sim) : feed :=
  let loc := sym.(Symbol.LocateCode) in
  mkFeed (put_sim loc (set_market k f.(f_world)) s')
    (Broadcast marshal order now loc sym.(Symbol.Ticker) msgs f.(f_mgr)).2
    (f.(f_trades) ++ take (tradeChCap - length f.(f_trades)) (record_of loc <$> List.filter is_trade msgs)).

Lemma on_market_run {A} (m : go MarketEngine A) f a k :
  m f.(f_world).(w_market) = Some (a, k) →
  on_market m f = Some (a, mkFeed (set_market k f.(f_world)) f.(f_mgr) f.(f_trades)).
Proof. apply (zoom_run (λ s, s.(f_world).(w_market))). Qed.

Lemma on_sim_run {A} loc (m : go sim A) f b a s' :
  f.(f_world).(w_books) !! loc = Some b → m (sim_of f.(f_world) b) = Some (a, s') →
  on_sim loc m f = Some (a, mkFeed (put_sim loc f.(f_world) s') f.(f_mgr) f.(f_trades)).
Proof. unfold on_sim. by intros -> ->. Qed.

(** The book count is read without changing anything. *)
Lemma put_same loc w b k :
  w.(w_books) !! loc = Some b → put_sim loc (set_market k w) (sim_of (set_market k w) b) = set_market k w.
Proof.
  intros Hb. unfold put_sim, sim_of, put_book, set_market. cbn. rewrite insert_id by done. by destruct k.
Qed.

Lemma publish_run order now msgs f :
  publish marshal sym order now msgs f =
  Some (tt, mkFeed f.(f_world) (Broadcast marshal order now sym.(Symbol.LocateCode) sym.(Symbol.Ticker) msgs f.(f_mgr)).2
    (f.(f_trades) ++ take (tradeChCap - length f.(f_trades))
       (record_of sym.(Symbol.LocateCode) <$> List.filter is_trade msgs))).
Proof.
  unfold publish. rewrite (go_bind_run get_state _ f f f) by done. rewrite enqueueTrades_spec.
  destruct (Broadcast marshal order now sym.(Symbol.LocateCode) sym.(Symbol.Ticker) msgs f.(f_mgr)) as [x mgr]. done.
Qed.

(** One iteration of a runner: with a well-formed book and generator it
    terminates without a panic; unless the new price is not a number it runs one
    to three actions at that price, by the count of resting orders; the book stays
    well formed and a consumer that replays the messages and held the book before
    holds the book after when nothing was replaced; the trades of the messages
    go to the channel in order as far as it has room, and the messages to the
    clients. *)
Theorem symbolRunner_tick_spec (order : list Z) (now : Z) (f : feed) (b : Book.t)
    (Hsym : byLoc syms !! sym.(Symbol.LocateCode) = Some sym)
    (Hb : f.(f_world).(w_books) !! sym.(Symbol.LocateCode) = Some b)
    (Ht : tick_ok sym.(Symbol.TickSize)) (Hr : Rng.wf f.(f_world).(w_market).(Market.rng))
    (Hok : sim_ok sym.(Symbol.LocateCode) (sim_of f.(f_world) b)) (Hroom : room 3 (sim_of f.(f_world) b)) :
  let loc := sym.(Symbol.LocateCode) in
  let n := num_actions (Z.of_nat (size b.(Book.orderMap))) in
  ∃ fuel k1 price k2,
    (∀ fuel', (fuel ≤ fuel')%nat →
      GenerateSectorShocks math_Log fuel' f.(f_world).(w_market) = Some (tt, k1) ∧
      Market.Tick math_Exp math_Log syms fuel' loc k1 = Some (price, k2)) ∧
    1 ≤ n ≤ 3 ∧
    (is_num price → ∃ msgs s',
      let s := mkSim k2.(Market.rng) (view_book f.(f_world) b) in
      Step loc sym.(Symbol.TickSize) price (Z.to_nat n) s = Some (msgs, s') ∧
      sim_ok loc s' ∧ (no_replace msgs → replay (view s) msgs = view s') ∧
      ∀ fuel', (fuel ≤ fuel')%nat →
        symbolRunner_tick math_Exp math_Log marshal fuel' syms sym order now f
        = Some (tt, after_tick order now f k2 msgs s')).
Proof.
  intros loc n. destruct (shocks_total math_Log Sectors f.(f_world).(w_market) Hr) as (fu1 & k1 & Hsh & Hwf1 & _).
  assert (is_nonzero_finite sym.(Symbol.TickSize)) as Htick by apply Ht.
  destruct (Tick_run math_Exp math_Log syms loc sym k1 Hsym Htick Hwf1) as (fu2 & z & r' & Htk & Hwf2 & _). set (p := if (_ <? _)%F then _ else _) in Htk.
  set (k2 := mkMarket r' (<[loc := p]> (prices k1)) (sectorShocks k1)) in *.
  destruct (num_actions_range (Z.of_nat (size b.(Book.orderMap))) ltac:(lia)) as [_ Hn]. fold n in Hn.
  exists (fu1 + fu2)%nat, k1, p, k2. split_and!; [|lia|lia|].
  { intros fuel' Hle. split; [apply Hsh; lia|apply Htk; lia]. }
  intros Hnum. set (s := mkSim k2.(Market.rng) (view_book f.(f_world) b)).
  assert (sim_ok loc s) as Hok' by (destruct Hok; by split).
  assert (room (Z.of_nat (Z.to_nat n)) s) as Hroom' by (destruct Hroom; split; cbn in *; lia).
  pose proof (Step_post loc sym.(Symbol.TickSize) p (Z.to_nat n) s [] (view s) Ht Hnum Hok' Hroom'
    (synced_start _ _ Hok')) as H.
  apply go_wp_iff in H as (msgs & s' & E & Hok'' & _ & _ & ev & [Hv _ _] & Hev).
  exists msgs, s'. split_and!; [exact E|done| |].
  { intros Hm. by rewrite Hv, (Hev Hm), !app_nil_r. }
  intros fuel' Hle. unfold symbolRunner_tick. fold loc.
  rewrite (go_bind_run _ _ _ _ _ (on_market_run _ _ _ _ (Hsh fuel' ltac:(lia)))).
  rewrite (go_bind_run _ _ _ _ _ (on_market_run (Market.Tick math_Exp math_Log syms fuel' loc)
    (mkFeed (set_market k1 (f_world f)) (f_mgr f) (f_trades f)) _ _ (proj2 (Htk fuel' ltac:(lia))))).
  set (f2 := mkFeed _ _ _).
  assert (f2.(f_world).(w_books) !! loc = Some b) as Hb2 by exact Hb.
  assert (Simulator.on_book OrderCount (sim_of f2.(f_world) b)
    = Some (Z.of_nat (size b.(Book.orderMap)), sim_of f2.(f_world) b)) as Hcount by done.
  rewrite (go_bind_run _ _ _ _ _ (on_sim_run loc _ f2 b _ _ Hb2 Hcount)).
  fold n. change (f_world f2) with (set_market k2 (set_market k1 (f_world f))).
  rewrite (put_same loc (set_market k1 (f_world f)) b k2 Hb).
  rewrite (go_bind_run _ _ _ _ _ (on_sim_run loc _ (mkFeed (set_market k2 (set_market k1 (f_world f))) (f_mgr f2) (f_trades f2)) b _ _ Hb E)).
  rewrite publish_run. reflexivity.
Qed.
End runner.

Definition demo_sym : Symbol.t :=
  Symbol.mk 1 "NEXO" "Nexo Dynamics Inc" SectorTech (dec 18500 2) (dec 1 2) (dec 14 1) false.
Definition demo_sim : sim := seeded_run.2.
Definition demo_book : Book.t := demo_sim.(bk).(book).
Definition demo_feed : feed :=
  mkFeed (mkWorld demo_sim.(bk).(orders) demo_sim.(bk).(orderIDCounter) demo_sim.(bk).(matchCounter)
            {[1 := demo_book]} (NewMarketEngine demo_sim.(Simulator.rng) AllSymbols))
    (mkManager 0 ∅ ∅) [].

Lemma demo_sim_of : sim_of demo_feed.(f_world) demo_book = demo_sim.
Proof. reflexivity. Qed.

Lemma symbolRunner_tick_spec_witness :
  let n := num_actions (Z.of_nat (size demo_book.(Book.orderMap))) in
  ∃ fuel k1 price k2,
    (∀ fuel', (fuel ≤ fuel')%nat →
      GenerateSectorShocks (λ _, float_of_Z (-1)) fuel' demo_feed.(f_world).(w_market) = Some (tt, k1) ∧
      Market.Tick (λ _, one) (λ _, float_of_Z (-1)) AllSymbols fuel' 1 k1 = Some (price, k2)) ∧
    1 ≤ n ≤ 3 ∧
    (is_num price → ∃ msgs s',
      let s := mkSim k2.(Market.rng) (view_book demo_feed.(f_world) demo_book) in
      Step 1 demo_sym.(Symbol.TickSize) price (Z.to_nat n) s = Some (msgs, s') ∧
      sim_ok 1 s' ∧ (no_replace msgs → replay (view s) msgs = view s') ∧
      ∀ fuel', (fuel ≤ fuel')%nat →
        symbolRunner_tick (λ _, one) (λ _, float_of_Z (-1)) (λ _, None) fuel' AllSymbols demo_sym [] 0 demo_feed
        = Some (tt, after_tick (λ _, None) demo_sym [] 0 demo_feed k2 msgs s')).
Proof.
  apply (symbolRunner_tick_spec (λ _, one) (λ _, float_of_Z (-1)) (λ _, None) AllSymbols demo_sym [] 0 demo_feed demo_book).
  - vm_compute. reflexivity.
  - reflexivity.
  - exact cent_ok.
  - split; [split; vm_compute; congruence|split; vm_compute; congruence|vm_compute; reflexivity].
  - rewrite demo_sim_of. apply seeded_grown.
  - rewrite demo_sim_of. by apply seeded_room.
Defined.
