(* ===== verification/Process.v ===== *)
(** * cmd/feedsim: the running process

    The goroutines of the process as one step relation over everything they share:
    the runners of the symbols, the two trade writers, the snapshotter, and for each
    WebSocket client its read pump and its write pump.  A step is one access to
    shared state: a method of the price engine, of the generator and one book (an
    action of a simulator), one send on a channel, one statement of a snapshot.
    [advance] is a runner's next such access; iterated alone it is the runner's
    loop body of Feed. *)
From S2P Require Import Prelude Word Float64 Rng Gaussian Symbols Market Stress Book Itch Simulator.
From S2P Require Import ItchJson Session Snapshot SnapshotProps Trades Archive Archiver Feed.

Local Open Scope Z_scope.

(** ** Where a goroutine is *)

(** A runner in its loop.  [pace] is what the stress controller's [Tick] returned,
    [None] for the other symbols.  [Fanning] is inside a broadcast, under the read
    lock of the manager: the clients still to visit, the client being served with
    the frames still to send to it, and what follows ([Some] interval: the end of
    the stress symbol's tick). *)
Inductive pc :=
  | Start
  | Top
  | Paced (pace : option (Z * Z))
  | Shocked (pace : option (Z * Z))
  | Priced (pace : option (Z * Z)) (price : float64)
  | Acting (pace : option (Z * Z)) (price : float64) (left : nat) (msgs : list Message.t)
  | Sending (pace : option (Z * Z)) (msgs rest : list Message.t)
  | Publishing (pace : option (Z * Z)) (msgs : list Message.t)
  | Fanning (msgs : list Message.t) (todo : list Z) (cur : option (Z * list frame)) (next : option Z)
  | Published (interval : Z).

(** A read pump: waiting for a message, in [handleControl] with the accesses still
    to make, after a read error, after the client is out of the map, returned. *)
Inductive read_pc :=
  | Reading | Handling (todo : list label) | Leaving | Closing | Gone.

(** The snapshotter in [Save]: what it has read so far. *)
Inductive snap_pc :=
  | SnapIdle
  | SnapOrders (prices : gmap Z float64) (todo : list Z) (ptrs : list ptr)
  | SnapCopy (prices : gmap Z float64) (ptrs : list ptr) (rows : list Order.t)
  | SnapRng (prices : gmap Z float64) (rows : list Order.t)
  | SnapOrderID (prices : gmap Z float64) (rows : list Order.t) (rng : list Z)
  | SnapMatch (prices : gmap Z float64) (rows : list Order.t) (rng : list Z) (orderID : Z)
  | SnapCommit (r : reads).

(** The pumps of a client, beside what [manager] has of it. *)
Record pumps := mkPumps { p_pumping : bool; p_written : list (messageType * frame); p_read : read_pc }.

Record process := mkProcess {
  p_feed : feed;
  p_ctrl : StressController;
  p_pcs : gmap Z pc;                 (* by locate code *)
  p_held : list tradeRecord.t;       (* taken by a trade writer *)
  p_store : store;
  p_snap : snap_pc;
  p_db : database;
  p_conns : gmap Z pumps;            (* by client ID *)
}.

Definition set_feed (f : feed) (p : process) : process :=
  mkProcess f p.(p_ctrl) p.(p_pcs) p.(p_held) p.(p_store) p.(p_snap) p.(p_db) p.(p_conns).
Definition set_trades (ch held : list tradeRecord.t) (st : store) (p : process) : process :=
  mkProcess (mkFeed p.(p_feed).(f_world) p.(p_feed).(f_mgr) ch) p.(p_ctrl) p.(p_pcs) held st
    p.(p_snap) p.(p_db) p.(p_conns).
Definition set_snap (s : snap_pc) (db : database) (p : process) : process :=
  mkProcess p.(p_feed) p.(p_ctrl) p.(p_pcs) p.(p_held) p.(p_store) s db p.(p_conns).
Definition set_conns (m : manager) (cs : gmap Z pumps) (p : process) : process :=
  mkProcess (mkFeed p.(p_feed).(f_world) m p.(p_feed).(f_trades)) p.(p_ctrl) p.(p_pcs) p.(p_held) p.(p_store)
    p.(p_snap) p.(p_db) cs.
Definition set_runner (loc : Z) (c : pc) (f : feed) (ctrl : StressController) (p : process) : process :=
  mkProcess f ctrl (<[loc := c]> p.(p_pcs)) p.(p_held) p.(p_store) p.(p_snap) p.(p_db) p.(p_conns).

(** ** A runner's next access *)

Section process.
Context (math_Exp math_Log math_Sin : float64 → float64) (marshal : gmap string jval → option frame).
Context (config : StressConfig) (syms : list Symbol.t).

Definition on_mgr {A} (m : go manager A) : go feed A :=
  zoom f_mgr (λ s k, mkFeed s.(f_world) k s.(f_trades)) m.

(** Visit a client of the broadcast: what to send it. *)
Definition visit (locate : Z) (msgs : list Message.t) (id : Z) (m : manager) : option (Z * list frame) :=
  match m.(Session.heap) !! id with
  | Some c => if IsSubscribed locate c then Some (id, encodeAll marshal c.(Client.format) msgs) else None
  | None => None
  end.

(** Send one trade of the messages, or drop it. *)
Definition send_trade (loc : Z) (m : Message.t) : go feed unit :=
  s ← get_state; put_state (mkFeed s.(f_world) s.(f_mgr) (enqueueTrades tradeChCap loc [m] s.(f_trades))).

(** [Broadcast] up to taking the lock, and the stamped messages. *)
Definition fan_out (sym : Symbol.t) (order : list Z) (now : Z) (msgs : list Message.t) (next : option Z) : pc :=
  if decide (msgs = []) then Fanning [] [] None next
  else Fanning (stamp (NanosFromMidnight now) sym.(Symbol.Ticker) <$> msgs) order None next.

Definition next_pc (next : option Z) : pc := match next with Some interval => Published interval | None => Top end.

(** [nowc] is the controller's clock, [now] the broadcast's; [order] the order in
    which a broadcast visits the clients. *)
Definition advance (fuel : nat) (sym : Symbol.t) (nowc now : Z) (order : list Z) (c : pc)
    : go (feed * StressController) pc :=
  let loc := sym.(Symbol.LocateCode) in
  match c with
  | Start =>
      if sym.(Symbol.IsStress) then _ ← on_ctrl (s ← get_state; NewStressController nowc s.(s_rng)); mret Top
      else mret Top
  | Top =>
      if sym.(Symbol.IsStress) then d ← on_ctrl (Stress.Tick math_Sin math_Log config fuel nowc); mret (Paced (Some d))
      else mret (Paced None)
  | Paced pace => _ ← on_feed (on_market (GenerateSectorShocks math_Log fuel)); mret (Shocked pace)
  | Shocked pace =>
      price ← on_feed (on_market (Market.Tick math_Exp math_Log syms fuel loc)); mret (Priced pace price)
  | Priced pace price =>
      n ← match pace with
          | Some d => mret d.2
          | None => count ← on_feed (on_sim loc (Simulator.on_book OrderCount)); mret (num_actions count)
          end;
      mret (Acting pace price (Z.to_nat n) [])
  | Acting pace price (S n) msgs =>
      new ← on_feed (on_sim loc (
        action ← Simulator.on_rng (Rng.WeightedPick actionWeights);
        do_action loc sym.(Symbol.TickSize) price action));
      mret (Acting pace price n (msgs ++ new))
  | Acting pace price O msgs => mret (Sending pace msgs msgs)
  | Sending pace msgs (m :: rest) => _ ← on_feed (send_trade loc m); mret (Sending pace msgs rest)
  | Sending pace msgs [] => mret (Publishing pace msgs)
  | Publishing pace msgs => mret (fan_out sym order now msgs (fst <$> pace))
  | Fanning msgs todo (Some (id, frames)) next =>
      match frames with
      | data :: rest =>
          _ ← on_feed (on_mgr (m ← get_state; put_state (update_client id (λ c, (Send data c).2) m)));
          mret (Fanning msgs todo (Some (id, rest)) next)
      | [] => mret (Fanning msgs todo None next)
      end
  | Fanning msgs todo None next =>
      match todo with
      | id :: todo => m ← on_feed (on_mgr get_state); mret (Fanning msgs todo (visit loc msgs id m) next)
      | [] => mret (next_pc next)
      end
  | Published interval =>
      s ← get_state;
      if (Phase s.2 =? PhaseBurst) && (Intensity s.2 >? dec 9 1)%F then
        mret (fan_out sym order now [burst_msg sym] None)
      else mret Top
  end.

(** ** A client's control message, access by access *)

Definition control_labels (now : Z) (ctrl : controlMessage.t) (c : Client.t) : list label :=
  let directory locates all :=
    let listed s := all || existsb (λ loc, s.(Symbol.LocateCode) =? loc) locates in
    LSend <$> encodeAll marshal c.(Client.format)
      (Message.set_Timestamp (NanosFromMidnight now) <$> (directory_msg <$> List.filter listed syms)) in
  if decide (ctrl.(controlMessage.Action) = "subscribe"%string) then
    let '(locates, all) := ResolveTickers syms ctrl.(controlMessage.Symbols) in
    if (all : bool) then LSubscribeAll :: directory [] true
    else if decide (locates = []) then [] else LSubscribe locates :: directory locates false
  else if decide (ctrl.(controlMessage.Action) = "unsubscribe"%string) then
    let '(locates, _) := ResolveTickers syms ctrl.(controlMessage.Symbols) in
    if decide (locates = []) then [] else [LUnsubscribe locates]
  else if decide (ctrl.(controlMessage.Action) = "format"%string) then
    if decide (ctrl.(controlMessage.Format) = "binary"%string) then [LFormat FormatBinary]
    else if decide (ctrl.(controlMessage.Format) = "json"%string) then [LFormat FormatJSON]
    else []
  else [].

(** The connection of a client, from both halves of its state. *)
Definition conn_of (p : process) (id : Z) : option conn :=
  c ← p.(p_feed).(f_mgr).(Session.heap) !! id;
  w ← p.(p_conns) !! id;
  Some (mkConn c w.(p_pumping) w.(p_written)).

Definition put_conn (id : Z) (s : conn) (r : read_pc) (p : process) : process :=
  set_conns (set_client id s.(client) p.(p_feed).(f_mgr))
    (<[id := mkPumps s.(pumping) s.(written) r]> p.(p_conns)) p.

Definition read_at (p : process) (id : Z) : option read_pc := p_read <$> p.(p_conns) !! id.

(** The labels of a write pump. *)
Definition pump_label (l : label) : bool :=
  match l with LWrite | LWriteFail | LPingFail | LPumpDone => true | _ => false end.

(** No broadcast holds the read lock of the manager. *)
Definition unlocked (p : process) : Prop :=
  ∀ loc msgs todo cur next, p.(p_pcs) !! loc ≠ Some (Fanning msgs todo cur next).

(** ** The steps *)

Inductive event :=
  | EvRun (sym : Symbol.t) (c c' : pc)
  | EvTake (r : tradeRecord.t) | EvSave (now : Z) (r : tradeRecord.t) | EvLost (r : tradeRecord.t)
  | EvConnect (id : Z) | EvConn (id : Z) (l : label) | EvRead (id : Z) | EvUnregister (id : Z)
  | EvSnap | EvSnapped (r : reads) (ok : bool).

Definition writers : nat := 2.

Inductive step (bufferSize : nat) : process → event → process → Prop :=
  (** a runner; a broadcast visits every client of the map once *)
  | st_run p fuel nowc now order sym c c' f ctrl :
      sym ∈ syms → p.(p_pcs) !! sym.(Symbol.LocateCode) = Some c →
      NoDup order → (∀ id, id ∈ order ↔ id ∈ p.(p_feed).(f_mgr).(clients)) →
      advance fuel sym nowc now order c (p.(p_feed), p.(p_ctrl)) = Some (c', (f, ctrl)) →
      step bufferSize p (EvRun sym c c') (set_runner sym.(Symbol.LocateCode) c' f ctrl p)
  (** the trade writers *)
  | st_take p r ch :
      p.(p_feed).(f_trades) = r :: ch → (length p.(p_held) < writers)%nat →
      step bufferSize p (EvTake r) (set_trades ch (r :: p.(p_held)) p.(p_store) p)
  | st_save p now h1 r h2 :
      p.(p_held) = h1 ++ r :: h2 →
      step bufferSize p (EvSave now r)
        (set_trades p.(p_feed).(f_trades) (h1 ++ h2) (SaveTrade syms now r p.(p_store)) p)
  | st_lost p h1 r h2 :
      p.(p_held) = h1 ++ r :: h2 →
      step bufferSize p (EvLost r) (set_trades p.(p_feed).(f_trades) (h1 ++ h2) p.(p_store) p)
  (** [Handler]: the client, its pumps *)
  | st_connect p id m :
      unlocked p → Register bufferSize p.(p_feed).(f_mgr) = (id, m) →
      step bufferSize p (EvConnect id) (set_conns m (<[id := mkPumps true [] Reading]> p.(p_conns)) p)
  | st_pump p id l s s' r :
      conn_of p id = Some s → read_at p id = Some r → pump_label l = true → conn_step s l s' →
      step bufferSize p (EvConn id l) (put_conn id s' r p)
  (** [readPump]: a message that parses or not, an access of [handleControl], the
      end after a read error *)
  | st_control p now id ctrl s :
      conn_of p id = Some s → read_at p id = Some Reading →
      step bufferSize p (EvRead id) (put_conn id s (Handling (control_labels now ctrl s.(client))) p)
  | st_handle p id l ls s s' :
      conn_of p id = Some s → read_at p id = Some (Handling (l :: ls)) → conn_step s l s' →
      step bufferSize p (EvConn id l) (put_conn id s' (Handling ls) p)
  | st_handled p id s :
      conn_of p id = Some s → read_at p id = Some (Handling []) →
      step bufferSize p (EvRead id) (put_conn id s Reading p)
  | st_read_error p id s :
      conn_of p id = Some s → read_at p id = Some Reading →
      step bufferSize p (EvRead id) (put_conn id s Leaving p)
  | st_unregister p id s m :
      unlocked p → conn_of p id = Some s → read_at p id = Some Leaving → m = p.(p_feed).(f_mgr) →
      step bufferSize p (EvUnregister id)
        (set_conns (mkManager m.(clientIDCounter) m.(Session.heap) (m.(clients) ∖ {[id]}))
           (<[id := mkPumps s.(pumping) s.(written) Closing]> p.(p_conns)) p)
  | st_close p id s s' :
      conn_of p id = Some s → read_at p id = Some Closing → conn_step s LClose s' →
      step bufferSize p (EvConn id LClose) (put_conn id s' Gone p)
  (** [Save] *)
  | st_snap_begin p order :
      p.(p_snap) = SnapIdle → iterates order p.(p_feed).(f_world) →
      step bufferSize p EvSnap
        (set_snap (SnapOrders (AllPrices p.(p_feed).(f_world).(w_market)) order []) p.(p_db) p)
  | st_snap_book p prices loc todo ptrs b :
      p.(p_snap) = SnapOrders prices (loc :: todo) ptrs → p.(p_feed).(f_world).(w_books) !! loc = Some b →
      step bufferSize p EvSnap
        (set_snap (SnapOrders prices todo (ptrs ++ (map_to_list b.(Book.orderMap)).*2)) p.(p_db) p)
  | st_snap_collected p prices ptrs :
      p.(p_snap) = SnapOrders prices [] ptrs →
      step bufferSize p EvSnap (set_snap (SnapCopy prices ptrs []) p.(p_db) p)
  | st_snap_row p prices q ptrs rows :
      p.(p_snap) = SnapCopy prices (q :: ptrs) rows →
      step bufferSize p EvSnap
        (set_snap (SnapCopy prices ptrs (rows ++ [deref p.(p_feed).(f_world).(w_heap) q])) p.(p_db) p)
  | st_snap_copied p prices rows :
      p.(p_snap) = SnapCopy prices [] rows →
      step bufferSize p EvSnap (set_snap (SnapRng prices rows) p.(p_db) p)
  | st_snap_rng p prices rows :
      p.(p_snap) = SnapRng prices rows →
      step bufferSize p EvSnap
        (set_snap (SnapOrderID prices rows (Rng.StateBytes p.(p_feed).(f_world).(w_market).(Market.rng))) p.(p_db) p)
  | st_snap_id p prices rows r :
      p.(p_snap) = SnapOrderID prices rows r →
      step bufferSize p EvSnap
        (set_snap (SnapMatch prices rows r p.(p_feed).(f_world).(w_orderID)) p.(p_db) p)
  | st_snap_match p prices rows r k :
      p.(p_snap) = SnapMatch prices rows r k →
      step bufferSize p EvSnap
        (set_snap (SnapCommit (mkReads prices rows r k p.(p_feed).(f_world).(w_match))) p.(p_db) p)
  (** any statement may fail *)
  | st_snap_error p :
      p.(p_snap) ≠ SnapIdle → step bufferSize p EvSnap (set_snap SnapIdle p.(p_db) p)
  | st_snap_commit p ok r d done :
      p.(p_snap) = SnapCommit r → Save syms ok r p.(p_db) = (d, done) →
      step bufferSize p (EvSnapped r done) (set_snap SnapIdle d p).

End process.
