(* ===== verification/RunnerProps.v ===== *)
(** * A runner alone, and how far an iteration is from its end

    Iterated without interleaving, [advance] is the loop body of Feed: the step
    relation of Process refines it.  Whatever the other goroutines do in between, a
    runner is back at the top of its loop after a bounded number of its own
    accesses. *)
From Stdlib Require Import Wellfounded Relation_Operators.
From S2P Require Import Prelude Word Float64 Rng Gaussian Symbols Market Stress Book Itch Simulator SimFrame.
From S2P Require Import ItchJson Session Snapshot Trades Archive Archiver Feed FeedProps Process.

Local Open Scope Z_scope.

(** ** A book's methods in sequence *)

Lemma sim_of_put loc w s : sim_of (put_sim loc w s) s.(bk).(book) = s.
Proof. by destruct s as [? []]. Qed.

Lemma put_put_sim loc w s1 s2 : put_sim loc (put_sim loc w s1) s2 = put_sim loc w s2.
Proof. unfold put_sim, put_book, set_market. cbn. by rewrite insert_insert_eq. Qed.

Lemma on_sim_Some {A} loc (m : go sim A) f a f' :
  on_sim loc m f = Some (a, f') ↔ ∃ b s', f.(f_world).(w_books) !! loc = Some b ∧
    m (sim_of f.(f_world) b) = Some (a, s') ∧ f' = mkFeed (put_sim loc f.(f_world) s') f.(f_mgr) f.(f_trades).
Proof.
  unfold on_sim. destruct (w_books (f_world f) !! loc) as [b|]; split; try done.
  - destruct (m _) as [[x s']|] eqn:E; [|done]. intros [= <- <-]. by exists b, s'.
  - intros (b' & s' & [= <-] & -> & ->). done.
  - by intros (? & ? & ? & ?).
Qed.

Lemma on_sim_bind {A B} loc (m : go sim A) (k : A → go sim B) f b f' :
  on_sim loc (m ≫= k) f = Some (b, f') →
  ∃ a f1, on_sim loc m f = Some (a, f1) ∧ on_sim loc (k a) f1 = Some (b, f').
Proof.
  intros (bo & s2 & Hb & (a & s1 & E1 & E2)%go_bind_Some & ->)%on_sim_Some.
  exists a, (mkFeed (put_sim loc f.(f_world) s1) f.(f_mgr) f.(f_trades)). split.
  - apply on_sim_Some. by exists bo, s1.
  - apply on_sim_Some. exists s1.(bk).(book), s2. cbn [f_world f_mgr f_trades].
    rewrite sim_of_put, put_put_sim. split_and!; [|done|done]. apply lookup_insert_eq.
Qed.

Lemma on_sim_ret {A} loc (a : A) f b f' : on_sim loc (mret a) f = Some (b, f') → b = a ∧ f' = f.
Proof.
  intros (bo & s & Hb & [-> <-]%go_ret_Some & ->)%on_sim_Some. split; [done|].
  destruct f as [w m t]. unfold put_sim, sim_of, put_book, set_market, view_book. cbn in *. f_equal.
  destruct w as [h i n bs [r p sh]]. cbn in *. by rewrite insert_id.
Qed.

Lemma on_feed_run {A} (m : go feed A) f ctrl a f' :
  m f = Some (a, f') → on_feed m (f, ctrl) = Some (a, (f', ctrl)).
Proof. intros E. unfold on_feed. exact (zoom_run fst (λ s f, (f, s.2)) m (f, ctrl) a f' E). Qed.

Section runner.
Context (math_Exp math_Log math_Sin : float64 → float64) (marshal : gmap string jval → option frame).
Context (config : StressConfig) (syms : list Symbol.t) (fuel : nat) (sym : Symbol.t).

Abbreviation state := (pc * (feed * StressController))%type.

(** One access of the runner, under one clock and one order of visits. *)
Definition moves (nowc now : Z) (order : list Z) (x y : state) : Prop :=
  advance math_Exp math_Log math_Sin marshal config syms fuel sym nowc now order x.1 x.2 = Some y.

Lemma moves_cons nowc now order c s c' s' y :
  advance math_Exp math_Log math_Sin marshal config syms fuel sym nowc now order c s = Some (c', s') →
  rtc (moves nowc now order) (c', s') y → rtc (moves nowc now order) (c, s) y.
Proof. intros E H. by eapply rtc_l. Qed.

Context (nowc now : Z) (order : list Z).

Lemma moves_acting pace price n acc msgs f f' ctrl :
  on_sim sym.(Symbol.LocateCode) (Step sym.(Symbol.LocateCode) sym.(Symbol.TickSize) price n) f = Some (msgs, f') →
  rtc (moves nowc now order) (Acting pace price n acc, (f, ctrl)) (Sending pace (acc ++ msgs) (acc ++ msgs), (f', ctrl)).
Proof.
  revert acc msgs f. induction n as [|n IH]; intros acc msgs f.
  { cbn [Step]. intros [-> ->]%on_sim_ret. rewrite app_nil_r. eapply moves_cons; [reflexivity|]. apply rtc_refl. }
  cbn [Step]. intros (a & f1 & E1 & (m1 & f2 & E2 & (m2 & f3 & E3 & [-> ->]%on_sim_ret)%on_sim_bind)%on_sim_bind)%on_sim_bind.
  apply on_sim_Some in E1 as (b & s1 & Hb & E1 & ->). apply on_sim_Some in E2 as (b' & s2 & Hb' & E2 & ->).
  cbn [f_world f_mgr f_trades] in *. unfold put_sim in Hb'. cbn in Hb'. rewrite lookup_insert_eq in Hb'.
  injection Hb' as <-. rewrite sim_of_put in E2. rewrite put_put_sim in E3.
  eapply moves_cons.
  - cbn [advance]. rewrite (go_bind_run _ _ _ m1 (mkFeed (put_sim sym.(Symbol.LocateCode) f.(f_world) s2) f.(f_mgr) f.(f_trades), ctrl)).
    { reflexivity. }
    apply on_feed_run, on_sim_Some. exists b, s2. split; [done|]. split; [|done]. by rewrite (go_bind_run _ _ _ _ _ E1).
  - rewrite app_assoc. by apply IH.
Qed.

Lemma moves_sending pace msgs rest f ctrl :
  rtc (moves nowc now order) (Sending pace msgs rest, (f, ctrl))
    (Publishing pace msgs, (mkFeed f.(f_world) f.(f_mgr) (enqueueTrades tradeChCap sym.(Symbol.LocateCode) rest f.(f_trades)), ctrl)).
Proof.
  revert f. induction rest as [|m rest IH]; intros f.
  - eapply moves_cons; [reflexivity|]. destruct f. apply rtc_refl.
  - eapply moves_cons; [reflexivity|]. etrans; [apply IH|]. apply rtc_refl.
Qed.

(** The clients, one frame after the other. *)
Lemma moves_frames msgs todo id frames next f ctrl :
  rtc (moves nowc now order) (Fanning msgs todo (Some (id, frames)) next, (f, ctrl))
    (Fanning msgs todo None next, (mkFeed f.(f_world) (update_client id (send_all frames) f.(f_mgr)) f.(f_trades), ctrl)).
Proof.
  revert f. induction frames as [|data frames IH]; intros f.
  - eapply moves_cons; [reflexivity|]. destruct f as [w m t]. cbn. unfold update_client.
    destruct (Session.heap m !! id) as [c|] eqn:E; [|apply rtc_refl]. unfold set_client, send_all. cbn.
    rewrite insert_id by done. destruct m. apply rtc_refl.
  - eapply moves_cons; [reflexivity|]. etrans; [apply IH|]. cbn [f_world f_mgr f_trades].
    assert (∀ m, update_client id (send_all frames) (update_client id (λ c, (Send data c).2) m) =
      update_client id (send_all (data :: frames)) m) as ->; [|apply rtc_refl].
    intros m. unfold update_client. destruct (Session.heap m !! id) as [c|] eqn:E; [|by rewrite E].
    unfold set_client. cbn. by rewrite lookup_insert_eq, insert_insert_eq.
Qed.

Lemma moves_fanning msgs todo next f ctrl :
  rtc (moves nowc now order) (Fanning msgs todo None next, (f, ctrl))
    (next_pc next, (mkFeed f.(f_world)
      (fold_left (λ m id, update_client id (deliver marshal sym.(Symbol.LocateCode) msgs) m) todo f.(f_mgr)) f.(f_trades), ctrl)).
Proof.
  revert f. induction todo as [|id todo IH]; intros f.
  { eapply moves_cons; [reflexivity|]. destruct f. apply rtc_refl. }
  eapply moves_cons; [reflexivity|]. destruct f as [w m t]. cbn [fold_left fst f_mgr f_world f_trades].
  assert (∀ x, update_client id x m = match Session.heap m !! id with Some c => set_client id (x c) m | None => m end)
    as -> by done.
  unfold visit, deliver at 2. destruct (Session.heap m !! id) as [c|] eqn:E; [|apply (IH (mkFeed w m t))].
  destruct (IsSubscribed _ _).
  - etrans; [apply moves_frames|]. etrans; [apply IH|]. cbn [f_world f_mgr f_trades].
    unfold update_client at 2. rewrite E. apply rtc_refl.
  - etrans; [apply (IH (mkFeed w m t))|]. unfold set_client. rewrite insert_id by done. destruct m. apply rtc_refl.
Qed.

Lemma moves_broadcast msgs next f ctrl :
  rtc (moves nowc now order) (fan_out sym order now msgs next, (f, ctrl))
    (next_pc next, (mkFeed f.(f_world)
      (Broadcast marshal order now sym.(Symbol.LocateCode) sym.(Symbol.Ticker) msgs f.(f_mgr)).2 f.(f_trades), ctrl)).
Proof. unfold fan_out, Broadcast. case_decide; apply moves_fanning. Qed.

(** From the price on, for either kind of symbol. *)
Lemma moves_tick pace price n msgs f f' ctrl :
  on_sim sym.(Symbol.LocateCode) (Step sym.(Symbol.LocateCode) sym.(Symbol.TickSize) price n) f = Some (msgs, f') →
  ∃ f'', publish marshal sym order now msgs f' = Some (tt, f'') ∧
    rtc (moves nowc now order) (Acting pace price n [], (f, ctrl)) (next_pc (fst <$> pace), (f'', ctrl)).
Proof.
  intros E. eexists. split; [apply publish_run|]. etrans; [by eapply moves_acting|]. etrans; [apply moves_sending|].
  eapply moves_cons; [reflexivity|]. rewrite enqueueTrades_spec. cbn [app]. apply moves_broadcast.
Qed.

End runner.

Section alone.
Context (math_Exp math_Log math_Sin : float64 → float64) (marshal : gmap string jval → option frame).
Context (config : StressConfig) (syms : list Symbol.t) (fuel : nat) (sym : Symbol.t).
Abbreviation moves := (moves math_Exp math_Log math_Sin marshal config syms fuel sym).

(** The shocks and the price. *)
Lemma moves_price nowc now order pace price f f1 f2 ctrl :
  on_market (GenerateSectorShocks math_Log fuel) f = Some (tt, f1) →
  on_market (Market.Tick math_Exp math_Log syms fuel sym.(Symbol.LocateCode)) f1 = Some (price, f2) →
  rtc (moves nowc now order) (Paced pace, (f, ctrl)) (Priced pace price, (f2, ctrl)).
Proof.
  intros E1 E2. eapply moves_cons.
  { cbn [advance]. by rewrite (go_bind_run _ _ _ _ _ (on_feed_run _ _ ctrl _ _ E1)). }
  eapply moves_cons; [|apply rtc_refl].
  cbn [advance]. by rewrite (go_bind_run _ _ _ _ _ (on_feed_run _ _ ctrl _ _ E2)).
Qed.

Lemma on_feed_Some {A} (m : go feed A) f ctrl a x :
  on_feed m (f, ctrl) = Some (a, x) → ∃ f', m f = Some (a, f') ∧ x = (f', ctrl).
Proof. unfold on_feed, zoom. cbn. destruct (m f) as [[a' f']|]; [|done]. intros [= <- <-]. eauto. Qed.

Lemma symbol_alone nowc now order f f' ctrl :
  sym.(Symbol.IsStress) = false →
  symbolRunner_tick math_Exp math_Log marshal fuel syms sym order now f = Some (tt, f') →
  rtc (moves nowc now order) (Top, (f, ctrl)) (Top, (f', ctrl)).
Proof.
  intros Hs H. unfold symbolRunner_tick in H.
  apply go_bind_Some in H as ([] & f1 & E1 & H). apply go_bind_Some in H as (price & f2 & E2 & H).
  apply go_bind_Some in H as (count & f3 & E3 & H). apply go_bind_Some in H as (msgs & f4 & E4 & H).
  eapply moves_cons; [cbn [advance]; by rewrite Hs|]. etrans; [by eapply moves_price|].
  eapply moves_cons.
  { cbn [advance]. erewrite go_bind_run; [reflexivity|].
    erewrite go_bind_run by (by apply on_feed_run). reflexivity. }
  destruct (moves_tick math_Exp math_Log math_Sin marshal config syms fuel sym nowc now order None price
    _ msgs f3 f4 ctrl E4) as (f5 & E5 & Hm).
  assert (f5 = f') as -> by congruence. exact Hm.
Qed.

Lemma stress_alone order order' nowc now now' f ctrl interval f' ctrl' :
  sym.(Symbol.IsStress) = true →
  stressRunner_tick math_Exp math_Log math_Sin marshal fuel syms sym config order order' nowc now now' (f, ctrl)
    = Some (interval, (f', ctrl')) →
  ∃ x, rtc (moves nowc now order) (Top, (f, ctrl)) (Published interval, x) ∧
    rtc (moves nowc now' order') (Published interval, x) (Top, (f', ctrl')).
Proof.
  intros Hs H. unfold stressRunner_tick in H.
  apply go_bind_Some in H as (d & [f1 c1] & E1 & H). apply go_bind_Some in H as ([] & x & E2 & H).
  apply on_feed_Some in E2 as (f2 & E2 & ->). apply go_bind_Some in H as (price & x & E3 & H).
  apply on_feed_Some in E3 as (f3 & E3 & ->). apply go_bind_Some in H as (msgs & x & E4 & H).
  apply on_feed_Some in E4 as (f4 & E4 & ->). apply go_bind_Some in H as ([] & x & E5 & H).
  apply on_feed_Some in E5 as (f5 & E5 & ->). apply go_bind_Some in H as (y & x & [= <- <-] & H).
  apply go_bind_Some in H as ([] & x & E6 & [= <- <-]).
  destruct (moves_tick math_Exp math_Log math_Sin marshal config syms fuel sym nowc now order (Some d) price
    _ msgs f3 f4 c1 E4) as (f6 & E6' & Hm).
  assert (f6 = f5) as -> by congruence. exists (f5, c1). split.
  - eapply moves_cons; [cbn [advance]; rewrite Hs; by rewrite (go_bind_run _ _ _ _ _ E1)|].
    etrans; [by eapply moves_price|]. eapply moves_cons; [reflexivity|]. exact Hm.
  - cbn [fst snd] in E6. destruct (_ && _) eqn:Eb.
    + eapply moves_cons.
      { cbn [advance]. rewrite (go_bind_run get_state _ _ (f5, c1) (f5, c1)) by done. cbn [snd]. by rewrite Eb. }
      apply on_feed_Some in E6 as (f7 & E7 & ->). injection E7 as <-. apply moves_broadcast.
    + injection E6 as <-. eapply moves_cons; [|apply rtc_refl].
      cbn [advance]. rewrite (go_bind_run get_state _ _ (f5, c1) (f5, c1)) by done. cbn [snd]. by rewrite Eb.
Qed.

(** C25. The step relation refines the loop bodies: run without interleaving, the
    accesses of a runner are one tick as main.go writes it, from the top of the
    loop to the top, with the same effect on everything shared; for the stress
    symbol with the controller, the burst announcement and its sleep. *)
Theorem runner_alone (nowc now now' : Z) (order order' : list Z) (f f' : feed) (ctrl ctrl' : StressController) (interval : Z) :
  (sym.(Symbol.IsStress) = false →
   symbolRunner_tick math_Exp math_Log marshal fuel syms sym order now f = Some (tt, f') →
   rtc (moves nowc now order) (Top, (f, ctrl)) (Top, (f', ctrl))) ∧
  (sym.(Symbol.IsStress) = true →
   stressRunner_tick math_Exp math_Log math_Sin marshal fuel syms sym config order order' nowc now now' (f, ctrl)
     = Some (interval, (f', ctrl')) →
   ∃ x, rtc (moves nowc now order) (Top, (f, ctrl)) (Published interval, x) ∧
     rtc (moves nowc now' order') (Published interval, x) (Top, (f', ctrl'))).
Proof. split; [apply symbol_alone|apply stress_alone]. Qed.

End alone.

(** ** The end of an iteration *)

(** Stage, then two lengths. *)
Definition measure (c : pc) : nat * (nat * nat) :=
  match c with
  | Start => (12, (0, 0))
  | Top => (0, (0, 0))
  | Paced _ => (11, (0, 0))
  | Shocked _ => (10, (0, 0))
  | Priced _ _ => (9, (0, 0))
  | Acting _ _ n _ => (8, (n, 0))
  | Sending _ _ rest => (7, (length rest, 0))
  | Publishing _ _ => (6, (0, 0))
  | Fanning _ todo cur next =>
      (match next with Some _ => 5 | None => 3 end,
       (length todo, match cur with Some (_, frames) => S (length frames) | None => 0 end))
  | Published _ => (4, (0, 0))
  end%nat.

Definition pc_lt (c c' : pc) : Prop :=
  slexprod nat (nat * nat) lt (slexprod nat nat lt lt) (measure c) (measure c').

Lemma pc_lt_wf : well_founded pc_lt.
Proof. apply (wf_inverse_image _ _ _ measure), wf_slexprod, wf_slexprod; apply lt_wf. Qed.

Lemma pc_lt_stage c c' : (fst (measure c) < fst (measure c'))%nat → pc_lt c c'.
Proof. unfold pc_lt. destruct (measure c), (measure c'). by left. Qed.

Lemma pc_lt_first c c' :
  fst (measure c) = fst (measure c') → (fst (snd (measure c)) < fst (snd (measure c')))%nat → pc_lt c c'.
Proof. unfold pc_lt. destruct (measure c) as [? []], (measure c') as [? []]. cbn. intros -> ?. right. by left. Qed.

Lemma pc_lt_second c c' :
  fst (measure c) = fst (measure c') → fst (snd (measure c)) = fst (snd (measure c')) →
  (snd (snd (measure c)) < snd (snd (measure c')))%nat → pc_lt c c'.
Proof. unfold pc_lt. destruct (measure c) as [? []], (measure c') as [? []]. cbn. intros -> -> ?. right. by right. Qed.

Section ends.
Context (math_Exp math_Log math_Sin : float64 → float64) (marshal : gmap string jval → option frame).
Context (config : StressConfig) (syms : list Symbol.t).
Abbreviation advance := (advance math_Exp math_Log math_Sin marshal config syms).

Lemma next_pc_lt msgs todo cur next : pc_lt (next_pc next) (Fanning msgs todo cur next).
Proof. apply pc_lt_stage. destruct next; cbn; lia. Qed.

Lemma fan_out_stage sym order now msgs next :
  fst (measure (fan_out sym order now msgs next)) = match next with Some _ => 5%nat | None => 3%nat end.
Proof. unfold fan_out. by case_decide. Qed.

Lemma advance_lt fuel sym nowc now order c s c' s' :
  advance fuel sym nowc now order c s = Some (c', s') → c ≠ Top → pc_lt c' c.
Proof.
  intros E Hc. destruct c as [| |pace|pace|pace price|pace price [|n] msgs|pace msgs [|m rest]|pace msgs
    |msgs todo [[id frames]|] next|interval]; cbn [Process.advance] in E; try done.
  - apply pc_lt_stage. case_match; [|by apply go_ret_Some in E as [<- _]; cbn; lia].
    apply go_bind_Some in E as (? & ? & _ & [<- _]%go_ret_Some). cbn. lia.
  - apply go_bind_Some in E as (? & ? & _ & [<- _]%go_ret_Some). apply pc_lt_stage. cbn. lia.
  - apply go_bind_Some in E as (? & ? & _ & [<- _]%go_ret_Some). apply pc_lt_stage. cbn. lia.
  - apply go_bind_Some in E as (? & ? & _ & [<- _]%go_ret_Some). apply pc_lt_stage. cbn. lia.
  - apply go_ret_Some in E as [<- _]. apply pc_lt_stage. cbn. lia.
  - apply go_bind_Some in E as (? & ? & _ & [<- _]%go_ret_Some). apply pc_lt_first; cbn; lia.
  - apply go_ret_Some in E as [<- _]. apply pc_lt_stage. cbn. lia.
  - apply go_bind_Some in E as (? & ? & _ & [<- _]%go_ret_Some). apply pc_lt_first; cbn; lia.
  - apply go_ret_Some in E as [<- _]. apply pc_lt_stage. rewrite fan_out_stage. cbn. case_match; lia.
  - destruct frames as [|data rest].
    + apply go_ret_Some in E as [<- _]. apply pc_lt_second; cbn; lia.
    + apply go_bind_Some in E as (? & ? & _ & [<- _]%go_ret_Some). apply pc_lt_second; cbn; lia.
  - destruct todo as [|id todo].
    + apply go_ret_Some in E as [<- _]. apply next_pc_lt.
    + apply go_bind_Some in E as (? & ? & _ & [<- _]%go_ret_Some). apply pc_lt_first; cbn; lia.
  - apply go_bind_Some in E as (? & ? & _ & E). case_match; apply go_ret_Some in E as [<- _].
    + apply pc_lt_stage. rewrite fan_out_stage. cbn. lia.
    + apply pc_lt_stage. cbn. lia.
Qed.

End ends.
