(* ===== verification/ProcessInv.v ===== *)
(** * What a runner's access does

    [moved] reads [advance] as a relation, one constructor for each access that
    changes something shared; the invariants of the process are proved by cases on
    it.  [advance_ok]: from a well-formed feed no access panics. *)
From S2P Require Import Prelude Word Float64 Rng Gaussian Symbols Market Stress Book BookSpec Itch Simulator SimFrame SimProps.
From S2P Require Import ItchJson Session Snapshot SnapshotProps Trades Archive Archiver Feed FeedProps World Process RunnerProps.

Local Open Scope Z_scope.

(** ** The generator stays well formed, whatever the fuel *)

Lemma polar_loop_wf fuel r d r' : polar_loop fuel r = Some (d, r') → Rng.wf r → Rng.wf r'.
Proof.
  revert r. induction fuel as [|fuel IH]; intros r; [done|]. cbn [polar_loop].
  unfold mbind at 1, go_bind at 1. rewrite polar_draw_words. intros E Hr.
  assert (Rng.wf (Rng.step (Rng.step r))) as H by by do 2 apply Rng.step_wf.
  destruct (accepted _); [by apply go_ret_Some in E as [_ <-]|]. by eapply IH.
Qed.

Lemma Gaussian_wf math_Log fuel r g r' : Gaussian math_Log fuel r = Some (g, r') → Rng.wf r → Rng.wf r'.
Proof.
  intros E Hr. unfold Gaussian in E. apply go_bind_Some in E as (r0 & r1 & [= <- <-] & E).
  destruct (hasSpare r).
  - apply go_bind_Some in E as ([] & r2 & [= <-] & [_ <-]%go_ret_Some). by destruct Hr.
  - apply go_bind_Some in E as ([[u v] s] & r2 & E2 & E).
    apply go_bind_Some in E as (r3 & r4 & [= <- <-] & E).
    apply go_bind_Some in E as ([] & r5 & [= <-] & [_ <-]%go_ret_Some).
    apply polar_loop_wf in E2; [|done]. by destruct E2.
Qed.

Lemma market_rng_Some {A} (k : go RNG A) m a m' :
  Market.on_rng k m = Some (a, m') → ∃ r, k m.(Market.rng) = Some (a, r) ∧ m' = mkMarket r m.(prices) m.(sectorShocks).
Proof. unfold Market.on_rng, zoom. destruct (k _) as [[x r]|]; [|done]. intros [= <- <-]. eauto. Qed.

Lemma shocks_wf math_Log fuel m m' :
  GenerateSectorShocks math_Log fuel m = Some (tt, m') → Rng.wf m.(Market.rng) → Rng.wf m'.(Market.rng).
Proof.
  unfold GenerateSectorShocks. generalize Sectors as secs. intros secs. revert m. induction secs as [|sec secs IH]; intros m.
  { by intros [= <-]. }
  cbn [go_fold]. intros (u & m1 & (z & m2 & (r & E & ->)%market_rng_Some & H)%go_bind_Some & Hrest)%go_bind_Some Hr.
  injection H as <- <-. apply (IH _ Hrest). cbn. by eapply Gaussian_wf.
Qed.

Lemma Tick_wf math_Exp math_Log syms fuel loc m p m' :
  Market.Tick math_Exp math_Log syms fuel loc m = Some (p, m') → Rng.wf m.(Market.rng) → Rng.wf m'.(Market.rng).
Proof.
  unfold Market.Tick. destruct (byLoc syms !! loc); [|by intros [_ <-]%go_ret_Some].
  intros (m0 & m1 & [= <- <-] & H)%go_bind_Some Hr.
  apply go_bind_Some in H as (z & m2 & (r & E & ->)%market_rng_Some & H).
  apply go_bind_Some in H as (m3 & m4 & [= <- <-] & H).
  apply go_bind_Some in H as ([] & m5 & [= <-] & [_ <-]%go_ret_Some). cbn. by eapply Gaussian_wf.
Qed.

Lemma stress_Tick_keeps math_Sin math_Log config fuel now s d s' :
  Stress.Tick math_Sin math_Log config fuel now s = Some (d, s') → Rng.wf s.(s_rng) → is_phase s.(phase) →
  Rng.wf s'.(s_rng) ∧ is_phase s'.(phase).
Proof.
  intros E Hr Hp. destruct (Gaussian math_Log fuel s.(s_rng)) as [[g r]|] eqn:Eg.
  - destruct (Tick_after math_Sin math_Log config fuel now s g r Eg (Gaussian_wf _ _ _ _ _ Eg Hr))
      as (x & s2 & dt & E2 & Hwf & _ & _ & _ & _ & Hphase).
    assert (s2 = s') as -> by congruence. split; [done|]. case_decide; destruct Hphase as [-> _]; [|done].
    unfold phase_for, is_phase. do 2 (case_match; auto).
  - unfold Stress.Tick, mbind, go_bind, Stress.on_rng, zoom in E. by rewrite Eg in E.
Qed.

Lemma on_rng_inv {A} (k : go RNG A) s a s' :
  Simulator.on_rng k s = Some (a, s') → ∃ r, k s.(Simulator.rng) = Some (a, r) ∧ s' = mkSim r s.(bk).
Proof. unfold Simulator.on_rng, zoom. destruct (k _) as [[x r]|]; [|done]. intros [= <- <-]. eauto. Qed.

(** ** [advance] as a relation *)

Section moved.
Context (math_Exp math_Log math_Sin : float64 → float64) (marshal : gmap string jval → option frame).
Context (config : StressConfig) (syms : list Symbol.t) (sym : Symbol.t).

(** The accesses that only move the generator, the prices and the controller. *)
Inductive quiet (m : manager) (now : Z) (order : list Z) : pc → pc → Prop :=
  | q_start : quiet m now order Start Top
  | q_top pace : quiet m now order Top (Paced pace)
  | q_shocks pace : quiet m now order (Paced pace) (Shocked pace)
  | q_price pace price : quiet m now order (Shocked pace) (Priced pace price)
  | q_count pace price n : quiet m now order (Priced pace price) (Acting pace price n [])
  | q_acted pace price msgs : quiet m now order (Acting pace price 0 msgs) (Sending pace msgs msgs)
  | q_sent pace msgs : quiet m now order (Sending pace msgs []) (Publishing pace msgs)
  | q_publish pace msgs : quiet m now order (Publishing pace msgs) (fan_out sym order now msgs (fst <$> pace))
  | q_visit msgs id todo next :
      quiet m now order (Fanning msgs (id :: todo) None next)
        (Fanning msgs todo (visit marshal sym.(Symbol.LocateCode) msgs id m) next)
  | q_served msgs todo id next : quiet m now order (Fanning msgs todo (Some (id, [])) next) (Fanning msgs todo None next)
  | q_done msgs next : quiet m now order (Fanning msgs [] None next) (next_pc next)
  | q_burst interval : quiet m now order (Published interval) (fan_out sym order now [burst_msg sym] None)
  | q_calm interval : quiet m now order (Published interval) Top.

Abbreviation loc := sym.(Symbol.LocateCode).
Abbreviation rng_of f := f.(f_world).(w_market).(Market.rng).

Inductive moved (now : Z) (order : list Z) (f : feed) (ctrl : StressController)
    : pc → pc → feed → StressController → Prop :=
  | mv_quiet c c' k ctrl' :
      quiet f.(f_mgr) now order c c' → (Rng.wf (rng_of f) → Rng.wf k.(Market.rng)) →
      (Rng.wf (rng_of f) → is_phase ctrl.(phase) → is_phase ctrl'.(phase)) →
      moved now order f ctrl c c' (mkFeed (set_market k f.(f_world)) f.(f_mgr) f.(f_trades)) ctrl'
  | mv_act pace price n msgs new b action r s' :
      f.(f_world).(w_books) !! loc = Some b → (Rng.wf (rng_of f) → Rng.wf r) →
      do_action loc sym.(Symbol.TickSize) price action (mkSim r (view_book f.(f_world) b)) = Some (new, s') →
      moved now order f ctrl (Acting pace price (S n) msgs) (Acting pace price n (msgs ++ new))
        (mkFeed (put_sim loc f.(f_world) s') f.(f_mgr) f.(f_trades)) ctrl
  | mv_send pace msgs m rest :
      moved now order f ctrl (Sending pace msgs (m :: rest)) (Sending pace msgs rest)
        (mkFeed f.(f_world) f.(f_mgr) (enqueueTrades tradeChCap loc [m] f.(f_trades))) ctrl
  | mv_frame msgs todo id data rest next :
      moved now order f ctrl (Fanning msgs todo (Some (id, data :: rest)) next) (Fanning msgs todo (Some (id, rest)) next)
        (mkFeed f.(f_world) (update_client id (λ c, (Send data c).2) f.(f_mgr)) f.(f_trades)) ctrl.

(** An access that changes nothing shared. *)
Lemma mv_same now order f ctrl c c' : quiet f.(f_mgr) now order c c' → moved now order f ctrl c c' f ctrl.
Proof.
  intros Hq. pose proof (mv_quiet now order f ctrl c c' f.(f_world).(w_market) ctrl Hq id (λ _, id)) as H.
  by destruct f as [[] ? ?].
Qed.

Lemma on_market_Some {A} (m : go MarketEngine A) f a f' :
  on_market m f = Some (a, f') → ∃ k, m f.(f_world).(w_market) = Some (a, k) ∧
    f' = mkFeed (set_market k f.(f_world)) f.(f_mgr) f.(f_trades).
Proof. unfold on_market, zoom. destruct (m _) as [[x k]|]; [|done]. intros [= <- <-]. eauto. Qed.

Definition with_rng (ctrl : StressController) (r : RNG) : StressController :=
  mkStress r ctrl.(phase) ctrl.(phaseStart) ctrl.(phaseDuration) ctrl.(intensity) ctrl.(t) ctrl.(tStep) ctrl.(randomWalk).

Lemma on_ctrl_Some {A} (m : go StressController A) f ctrl a x :
  on_ctrl m (f, ctrl) = Some (a, x) → ∃ c', m (with_rng ctrl (rng_of f)) = Some (a, c') ∧
    x = (mkFeed (set_market (mkMarket c'.(s_rng) f.(f_world).(w_market).(prices) f.(f_world).(w_market).(sectorShocks))
      f.(f_world)) f.(f_mgr) f.(f_trades), c').
Proof. unfold on_ctrl, with_rng. destruct (m _) as [[y c']|]; [|done]. intros [= <- <-]. eauto. Qed.

Lemma new_controller_keeps nowc s a s' :
  NewStressController nowc s.(s_rng) s = Some (a, s') → Rng.wf s.(s_rng) → Rng.wf s'.(s_rng) ∧ is_phase s'.(phase).
Proof.
  intros ([] & s1 & [= <-] & (d & s2 & (k & s3 & E & [_ <-]%go_ret_Some)%go_bind_Some & H)%go_bind_Some)%go_bind_Some Hr.
  unfold modify in H. apply go_bind_Some in H as (s4 & s5 & [= <- <-] & [= _ <-]).
  unfold Stress.on_rng, zoom in E. cbn in E.
  injection E as _ <-. cbn. split; [by apply Rng.step_wf|by left].
Qed.

Lemma advance_moved fuel nowc now order c f ctrl c' f' ctrl' :
  advance math_Exp math_Log math_Sin marshal config syms fuel sym nowc now order c (f, ctrl) = Some (c', (f', ctrl')) →
  moved now order f ctrl c c' f' ctrl'.
Proof.
  intros E. destruct c as [| |pace|pace|pace price|pace price [|n] msgs|pace msgs [|m rest]|pace msgs
    |msgs todo [[id frames]|] next|interval]; cbn [Process.advance] in E.
  - destruct (Symbol.IsStress sym).
    + apply go_bind_Some in E as (a & x & (c1 & H & ->)%on_ctrl_Some & [= <- <- <-]).
      apply go_bind_Some in H as (s0 & s1 & [= <- <-] & H).
      pose proof (new_controller_keeps nowc (with_rng ctrl (rng_of f)) _ _ H) as Hk.
      apply mv_quiet; [constructor|intros Hr; exact (proj1 (Hk Hr))|intros Hr _; exact (proj2 (Hk Hr))].
    + injection E as <- <- <-. apply mv_same. constructor.
  - destruct (Symbol.IsStress sym).
    + apply go_bind_Some in E as (d & x & (c1 & H & ->)%on_ctrl_Some & [= <- <- <-]).
      apply mv_quiet; [constructor|cbn; intros Hr|intros Hr Hp].
      * destruct (Gaussian math_Log fuel (rng_of f)) as [[g r]|] eqn:Eg.
        -- destruct (Tick_after math_Sin math_Log config fuel nowc (with_rng ctrl (rng_of f)) g r Eg
             (Gaussian_wf _ _ _ _ _ Eg Hr)) as (y & s2 & dt & E2 & Hwf & _). by assert (s2 = c1) as <- by congruence.
        -- unfold Stress.Tick, mbind, go_bind, Stress.on_rng, zoom in H. cbn [s_rng with_rng] in H. by rewrite Eg in H.
      * by apply (stress_Tick_keeps _ _ _ _ _ _ _ _ H).
    + injection E as <- <- <-. apply mv_same. constructor.
  - apply go_bind_Some in E as ([] & x & (f1 & (k & H & ->)%on_market_Some & ->)%on_feed_Some & [= <- <- <-]).
    apply mv_quiet; [constructor|by eapply shocks_wf|done].
  - apply go_bind_Some in E as (p & x & (f1 & (k & H & ->)%on_market_Some & ->)%on_feed_Some & [= <- <- <-]).
    apply mv_quiet; [constructor|by eapply Tick_wf|done].
  - apply go_bind_Some in E as (n & x & H & [= <- ->]). destruct pace as [d|].
    + injection H as <- <- <-. apply mv_same. constructor.
    + apply go_bind_Some in H as (count & x1 & (f1 & H & ->)%on_feed_Some & [= <- <- <-]).
      apply on_sim_Some in H as (b & s' & Hb & [= <- <-] & ->).
      assert (put_sim loc f.(f_world) (sim_of f.(f_world) b) = f.(f_world)) as E.
      { pose proof (put_same loc f.(f_world) b f.(f_world).(w_market) Hb) as H.
        assert (set_market (w_market (f_world f)) (f_world f) = f_world f) as Es by (by destruct f as [[]]).
        by rewrite Es in H. }
      unfold sim_of in E. rewrite E. destruct f. apply mv_same. constructor.
  - injection E as <- <- <-. apply mv_same. constructor.
  - apply go_bind_Some in E as (new & x & (f1 & H & ->)%on_feed_Some & [= <- <- <-]).
    apply on_sim_Some in H as (b & s' & Hb & (a & s1 & Ea & Hd)%go_bind_Some & ->).
    apply on_rng_inv in Ea as (r & Er & ->).
    eapply mv_act; [done| |exact Hd]. by eapply WeightedPick_wf.
  - injection E as <- <- <-. apply mv_same. constructor.
  - apply go_bind_Some in E as ([] & x & (f1 & [= <-] & ->)%on_feed_Some & [= <- <- <-]). constructor.
  - injection E as <- <- <-. apply mv_same. constructor.
  - destruct frames as [|data rest].
    + injection E as <- <- <-. apply mv_same. constructor.
    + apply go_bind_Some in E as ([] & x & (f1 & [= <-] & ->)%on_feed_Some & [= <- <- <-]). constructor.
  - destruct todo as [|id todo].
    + injection E as <- <- <-. apply mv_same. constructor.
    + apply go_bind_Some in E as (m & x & (f1 & [= <- <-] & ->)%on_feed_Some & [= <- <- <-]).
      destruct f. apply mv_same. constructor.
  - apply go_bind_Some in E as (y & x & [= <- <-] & E). cbn [snd] in E.
    destruct (_ && _); injection E as <- <- <-; apply mv_same; constructor.
Qed.

End moved.

(** ** No access panics *)

(** The price a runner acts on is a number. *)
Definition priced (c : pc) : Prop :=
  match c with Priced _ price | Acting _ price _ _ => is_num price | _ => True end.

Lemma view_sim w r b : mkSim r (view_book w b) = sim_of (set_market (mkMarket r (prices (w_market w)) (sectorShocks (w_market w))) w) b.
Proof. done. Qed.

Section progress.
Context (math_Exp math_Log math_Sin : float64 → float64) (marshal : gmap string jval → option frame).
Context (config : StressConfig) (syms : list Symbol.t) (sym : Symbol.t).
Abbreviation loc := sym.(Symbol.LocateCode).

Lemma act_wp w b r price action :
  tick_ok sym.(Symbol.TickSize) → is_num price → sim_ok loc (sim_of w b) → room 1 (sim_of w b) →
  go_wp (do_action loc sym.(Symbol.TickSize) price action)
    (λ msgs s', ∀ lost v, synced lost v (sim_of w b) → action_post loc (sim_of w b) lost v msgs s') (mkSim r (view_book w b)).
Proof.
  intros Ht Hn Hok Hroom. set (s := mkSim r (view_book w b)).
  assert (sim_ok loc s) as Hok' by by destruct Hok.
  destruct (go_wp_iff (do_action loc sym.(Symbol.TickSize) price action) (action_post loc s [] (view s)) s) as [H _].
  destruct H as (msgs & s' & E & _).
  { apply do_action_post; try done. by apply (synced_start loc). }
  eapply go_wp_run; [exact E|]. intros lost v Hsy.
  pose proof (do_action_post loc sym.(Symbol.TickSize) price action s lost v Ht Hn Hok' Hroom) as H.
  apply go_wp_iff in H as (m2 & s2 & E2 & H); [|by destruct Hsy].
  assert (m2 = msgs ∧ s2 = s') as [-> ->] by (split; congruence). by destruct H.
Qed.

Lemma act_run w b r price action msgs s' lost v :
  tick_ok sym.(Symbol.TickSize) → is_num price → sim_ok loc (sim_of w b) → room 1 (sim_of w b) →
  do_action loc sym.(Symbol.TickSize) price action (mkSim r (view_book w b)) = Some (msgs, s') →
  synced lost v (sim_of w b) → action_post loc (sim_of w b) lost v msgs s'.
Proof.
  intros Ht Hn Hok Hroom E. pose proof (act_wp w b r price action Ht Hn Hok Hroom) as H.
  unfold go_wp in H. rewrite E in H. apply H.
Qed.

Lemma advance_ok nowc now order c f ctrl b :
  byLoc syms !! loc = Some sym → tick_ok sym.(Symbol.TickSize) →
  f.(f_world).(w_books) !! loc = Some b → sim_ok loc (sim_of f.(f_world) b) → room 1 (sim_of f.(f_world) b) →
  Rng.wf f.(f_world).(w_market).(Market.rng) → is_phase ctrl.(phase) → priced c →
  ∃ fuel, ∀ fuel', (fuel ≤ fuel')%nat →
    is_Some (advance math_Exp math_Log math_Sin marshal config syms fuel' sym nowc now order c (f, ctrl)).
Proof.
  intros Hsym Ht Hb Hok Hroom Hr Hp Hc.
  destruct c as [| |pace|pace|pace price|pace price [|n] msgs|pace msgs [|m rest]|pace msgs
    |msgs todo [[id [|data rest]]|] next|interval]; cbn [Process.advance];
    try (exists 0%nat; intros; eexists; reflexivity).
  - exists 0%nat. intros _ _. destruct (Symbol.IsStress sym); [|by eexists].
    destruct (NewStressController_run nowc _ Hr) as (s & E & _).
    destruct (NewStressController nowc _ _) as [[u s1]|] eqn:E1; [|done].
    unfold on_ctrl at 1. unfold mbind at 1, go_bind at 1. erewrite go_bind_run by reflexivity. cbn [s_rng].
    assert (∀ s0, NewStressController nowc (Market.rng (w_market (f_world f))) s0 = Some (u, s1)) as E2.
    { intros s0. rewrite <- E1. unfold NewStressController. by erewrite !(go_bind_run (put_state _)) by reflexivity. }
    rewrite E2. by eexists.
  - destruct (Symbol.IsStress sym); [|exists 0%nat; intros; by eexists].
    destruct (Gaussian_total math_Log _ Hr) as (fuel & g & r & Hg & _ & Hwf). exists fuel. intros fuel' Hle.
    destruct (Tick_after math_Sin math_Log config fuel' nowc (with_rng ctrl (f.(f_world).(w_market).(Market.rng))) g r (Hg _ Hle) Hwf)
      as (x & s' & dt & E & _).
    unfold on_ctrl at 1. unfold mbind at 1, go_bind at 1. unfold with_rng in E. rewrite E. by eexists.
  - destruct (shocks_total math_Log Sectors _ Hr) as (fuel & k & E & _). exists fuel. intros fuel' Hle.
    rewrite (go_bind_run _ _ _ _ _ (on_feed_run _ _ ctrl _ _ (on_market_run _ f _ _ (E fuel' Hle)))). by eexists.
  - destruct (Tick_run math_Exp math_Log syms loc sym _ Hsym (tk_finite _ Ht) Hr) as (fuel & z & r & E & _). set (p := if (_ <? _)%F then _ else _) in E.
    exists fuel. intros fuel' Hle.
    rewrite (go_bind_run _ _ _ _ _ (on_feed_run _ _ ctrl _ _ (on_market_run _ f _ _ (proj2 (E fuel' Hle))))). by eexists.
  - exists 0%nat. intros _ _. destruct pace; [by eexists|].
    erewrite go_bind_run; [by eexists|]. erewrite go_bind_run; [reflexivity|].
    apply on_feed_run, (on_sim_run loc _ f b); [done|reflexivity].
  - exists 0%nat. intros _ _.
    destruct (Rng.WeightedPick_spec actionWeights f.(f_world).(w_market).(Market.rng)) as (a & E & _); [done|].
    pose proof (act_wp f.(f_world) b (Rng.step f.(f_world).(w_market).(Market.rng)) price a Ht Hc Hok Hroom) as H.
    apply go_wp_iff in H as (new & s' & E2 & _).
    erewrite go_bind_run; [by eexists|]. apply on_feed_run, (on_sim_run loc _ f b); [done|].
    erewrite go_bind_run; [exact E2|]. exact (zoom_run Simulator.rng (λ s r, mkSim r s.(bk)) _ (sim_of f.(f_world) b) _ _ E).
  - destruct todo; (exists 0%nat; intros; eexists; reflexivity).
  - exists 0%nat. intros _ _. erewrite go_bind_run by reflexivity. case_match; by eexists.
Qed.

End progress.
