(* ===== verification/ProcessProps.v ===== *)
(** * What the running process promises

    Runs of the step relation of Process, within the limits of the counters and as
    long as the prices are numbers.  The invariant [proc_ok] holds at every point of
    a run; the other theorems relate the trace of a run to its books, to the trade
    channel, to a client's connection and to the snapshots taken on the way. *)
From S2P Require Import Prelude Word Float64 Rng Gaussian Symbols Market Stress Book BookSpec Itch Simulator SimFrame SimProps.
From S2P Require Import ItchJson Session Snapshot SnapshotProps Trades Archive Archiver Feed FeedProps World Process RunnerProps ProcessInv.

Local Open Scope Z_scope.

Local Arguments Nat.ltb : simpl never.

(** The symbol table and the ticks are good. *)
Record syms_ok (syms : list Symbol.t) : Prop := mk_syms_ok {
  sy_index : ∀ s, s ∈ syms → byLoc syms !! s.(Symbol.LocateCode) = Some s;
  sy_tick : ∀ s, s ∈ syms → tick_ok s.(Symbol.TickSize);
}.

Section process.
Context (math_Exp math_Log math_Sin : float64 → float64) (marshal : gmap string jval → option frame).
Context (config : StressConfig) (syms : list Symbol.t) (bufferSize : nat).

Abbreviation step := (step math_Exp math_Log math_Sin marshal config syms bufferSize).
Abbreviation world_of p := p.(p_feed).(f_world).

(** ** Runs *)

(** The counters do not wrap at the next step, a book's orders are counted by a
    uint32, and the prices about to be acted on are numbers. *)
Record limited (p : process) : Prop := mk_limited {
  lm_world : world_room (world_of p);
  lm_match : (world_of p).(w_match) + 1 < 2 ^ 64;
  lm_clients : p.(p_feed).(f_mgr).(clientIDCounter) + 1 < 2 ^ 64;
  lm_prices : ∀ loc c, p.(p_pcs) !! loc = Some c → priced c;
}.

Inductive run (p0 : process) : list event → process → Prop :=
  | run_start : run p0 [] p0
  | run_more tr p e q : run p0 tr p → limited p → step p e q → run p0 (tr ++ [e]) q.

(** ** The invariant *)

Record proc_ok (p : process) : Prop := mk_proc_ok {
  pr_books : books_ok (world_of p);
  pr_syms : ∀ s, s ∈ syms → is_Some ((world_of p).(w_books) !! s.(Symbol.LocateCode));
  pr_phase : is_phase p.(p_ctrl).(phase);
  pr_ch : (length p.(p_feed).(f_trades) ≤ tradeChCap)%nat;
  pr_held : (length p.(p_held) ≤ writers)%nat;
}.

(** The trade channel never grows beyond its capacity. *)
Lemma enqueue_bound cap loc msgs ch :
  (length ch ≤ cap)%nat → (length (enqueueTrades cap loc msgs ch) ≤ cap)%nat.
Proof. intros H. rewrite enqueueTrades_spec, length_app, length_take. lia. Qed.

Lemma room_book w loc b : world_room w → w.(w_books) !! loc = Some b → SimProps.room 1 (sim_of w b).
Proof.
  intros [H1 H2] Hb. split; [exact H1|]. pose proof (H2 loc b Hb) as H. by rewrite (book_orders_sim _ _ _ Hb) in H.
Qed.

Lemma start_synced w loc b : books_ok w → w.(w_books) !! loc = Some b → synced [] (view (sim_of w b)) (sim_of w b).
Proof. intros Hw Hb. apply (synced_start loc). by apply (bo_sim _ Hw _ _ Hb). Qed.

(** What an action does, for the invariants below. *)
Record acted_on (sym : Symbol.t) (w : world) (b : Book.t) (new : list Message.t) (s' : sim) : Prop := mk_acted_on {
  ao_acts : acts (sim_of w b) new s';
  ao_post : ∀ lost v, synced lost v (sim_of w b) → action_post sym.(Symbol.LocateCode) (sim_of w b) lost v new s';
}.

Lemma action_ok (Hsyms : syms_ok syms) sym w b price r action new s' :
  sym ∈ syms → books_ok w → world_room w → w.(w_books) !! sym.(Symbol.LocateCode) = Some b → is_num price →
  (Rng.wf w.(w_market).(Market.rng) → Rng.wf r) →
  do_action sym.(Symbol.LocateCode) sym.(Symbol.TickSize) price action (mkSim r (view_book w b)) = Some (new, s') →
  acted_on sym w b new s'.
Proof.
  intros Hin Hw Hroom Hb Hn Hr E. destruct (bo_sim _ Hw _ _ Hb) as [_ Hok]. split.
  - apply (acts_draws (sim_of w b) (mkSim r (view_book w b))); [done|done|].
    eapply acts_do_action; [apply Hok| |exact E]. split; [apply (so_counter _ _ Hok)|apply Hroom].
  - intros lost v Hsy. eapply act_run; [by apply (sy_tick _ Hsyms)|exact Hn|exact Hok| |exact E|exact Hsy].
    by apply (room_book w sym.(Symbol.LocateCode)).
Qed.

Lemma acted_books_ok sym w b new s' :
  books_ok w → world_room w → w.(w_books) !! sym.(Symbol.LocateCode) = Some b → acted_on sym w b new s' →
  books_ok (put_sim sym.(Symbol.LocateCode) w s').
Proof.
  intros Hw Hroom Hb [Ha Hp]. pose proof (Hp [] _ (start_synced w _ b Hw Hb)) as [Hok Hc _ _].
  apply (action_books_ok w sym.(Symbol.LocateCode) b s' Hw Hb (ac_keeps _ _ _ Ha) Hok).
  - change (counter (sim_of w b)) with w.(w_orderID) in Hc. destruct Hroom. lia.
  - destruct (ac_numbers _ _ _ Ha) as [[_ ->]|[_ ->]]; [apply Hw|by apply uwrap_range].
  - apply (ac_rng _ _ _ Ha), Hw.
Qed.

Lemma moved_ok (Hsyms : syms_ok syms) sym now order f ctrl c c' f' ctrl' :
  sym ∈ syms → moved marshal sym now order f ctrl c c' f' ctrl' →
  books_ok f.(f_world) → world_room f.(f_world) → priced c → is_phase ctrl.(phase) →
  (length f.(f_trades) ≤ tradeChCap)%nat →
  books_ok f'.(f_world) ∧ is_phase ctrl'.(phase) ∧ (length f'.(f_trades) ≤ tradeChCap)%nat ∧
  ∀ loc, is_Some (f.(f_world).(w_books) !! loc) → is_Some (f'.(f_world).(w_books) !! loc).
Proof.
  intros Hin Hm Hw Hroom Hc Hp Hch. destruct Hm as [c c' k ctrl' Hq Hk Hp'|pace price n msgs new b action r s' Hb Hr E
    |pace msgs m rest|msgs todo id data rest next]; cbn [f_world f_trades f_mgr].
  - split_and!; [|apply Hp'; [apply Hw|done]|done|done]. apply books_ok_market; [done|]. apply Hk, Hw.
  - pose proof (action_ok Hsyms _ _ _ _ _ _ _ _ Hin Hw Hroom Hb Hc Hr E) as Ha.
    split_and!; [by eapply acted_books_ok|done|done|]. intros loc Hl. unfold put_sim, put_book. cbn.
    destruct (decide (loc = sym.(Symbol.LocateCode))) as [->|]; [rewrite lookup_insert_eq; by eexists|by rewrite lookup_insert_ne by congruence].
  - split_and!; [done|done|by apply enqueue_bound|done].
  - done.
Qed.

Lemma step_ok (Hsyms : syms_ok syms) p e q : proc_ok p → limited p → step p e q → proc_ok q.
Proof.
  intros [Hb Hs Hph Hch Hheld] [Hroom Hmatch _ Hpr] Hstep.
  destruct Hstep; try (split; assumption).
  - apply advance_moved in H3.
    destruct (moved_ok Hsyms sym now order _ _ _ _ _ _ H H3 Hb Hroom (Hpr _ _ H0) Hph Hch) as (? & ? & ? & Hd).
    split; try assumption. intros s Hin. by apply Hd, Hs.
  - split; try assumption; cbn. rewrite H in Hch. cbn in Hch. lia.
  - split; try assumption; cbn. rewrite H, length_app in Hheld. rewrite length_app. cbn in *. lia.
  - split; try assumption; cbn. rewrite H, length_app in Hheld. rewrite length_app. cbn in *. lia.
Qed.

Lemma run_ok (Hsyms : syms_ok syms) p0 tr p : proc_ok p0 → run p0 tr p → proc_ok p.
Proof. intros H0 Hrun. induction Hrun as [|tr p e q _ IH Hl Hs]; [done|]. by eapply step_ok. Qed.

(** A runner's next access returns. *)
Lemma runner_safe (Hsyms : syms_ok syms) (p : process) (Hok : proc_ok p) (Hlim : limited p) sym c nowc now order :
  sym ∈ syms → p.(p_pcs) !! sym.(Symbol.LocateCode) = Some c →
  ∃ fuel, ∀ fuel', (fuel ≤ fuel')%nat →
    is_Some (advance math_Exp math_Log math_Sin marshal config syms fuel' sym nowc now order c (p.(p_feed), p.(p_ctrl))).
Proof.
  intros Hin Hc.
  destruct (pr_syms _ Hok sym Hin) as [b Hb]. pose proof (pr_books _ Hok) as Hw.
  apply (advance_ok _ _ _ _ _ _ _ _ _ _ _ _ _ b); [by apply Hsyms|by apply (sy_tick _ Hsyms)|done|by apply (bo_sim _ Hw)| | | |].
  - by apply (room_book _ sym.(Symbol.LocateCode)); [apply Hlim|].
  - apply Hw.
  - apply Hok.
  - by eapply Hlim.
Qed.

(** C5. The running process is safe: however runners, trade writers, snapshotter
    and clients interleave, every book stays well formed, no two books share an
    order or an order ID, the channel and the writers keep their bounds, and no
    runner ever panics or gets stuck: its next access returns, whatever the clocks
    and the order of visits. *)
Theorem process_safe (Hsyms : syms_ok syms) (p0 p : process) (tr : list event)
    (H0 : proc_ok p0) (Hrun : run p0 tr p) (Hlim : limited p) :
  proc_ok p ∧ ∀ sym c nowc now order,
    sym ∈ syms → p.(p_pcs) !! sym.(Symbol.LocateCode) = Some c →
    ∃ fuel, ∀ fuel', (fuel ≤ fuel')%nat →
      is_Some (advance math_Exp math_Log math_Sin marshal config syms fuel' sym nowc now order c (p.(p_feed), p.(p_ctrl))).
Proof.
  pose proof (run_ok Hsyms p0 tr p H0 Hrun) as Hok. split; [done|]. intros sym c nowc now order. by apply runner_safe.
Qed.

(** ** What was acted, published and sent *)

Definition acted_by (loc : Z) (e : event) : list Message.t :=
  match e with
  | EvRun sym (Acting _ _ (S _) msgs) (Acting _ _ _ msgs') =>
      if sym.(Symbol.LocateCode) =? loc then drop (length msgs) msgs' else []
  | _ => []
  end.
Definition published_by (loc : Z) (e : event) : list Message.t :=
  match e with
  | EvRun sym (Publishing _ msgs) _ => if sym.(Symbol.LocateCode) =? loc then msgs else []
  | _ => []
  end.
Definition offered_by (loc : Z) (e : event) : list tradeRecord.t :=
  match e with
  | EvRun sym (Sending _ _ (m :: _)) _ =>
      if sym.(Symbol.LocateCode) =? loc then record_of loc <$> List.filter is_trade [m] else []
  | _ => []
  end.

Definition acted (loc : Z) (tr : list event) : list Message.t := concat (acted_by loc <$> tr).
Definition published (loc : Z) (tr : list event) : list Message.t := concat (published_by loc <$> tr).
Definition offered_trades (loc : Z) (tr : list event) : list tradeRecord.t := concat (offered_by loc <$> tr).

(** What a runner has acted and not yet published, and not yet offered to the channel. *)
Definition in_flight (c : pc) : list Message.t :=
  match c with Acting _ _ _ msgs | Sending _ msgs _ | Publishing _ msgs => msgs | _ => [] end.
Definition unsent (c : pc) : list Message.t :=
  match c with Acting _ _ _ msgs | Sending _ _ msgs => msgs | _ => [] end.

Lemma concat_fmap_snoc {A B} (f : A → list B) l x : concat (f <$> l ++ [x]) = concat (f <$> l) ++ f x.
Proof. rewrite fmap_app, concat_app. cbn. by rewrite app_nil_r. Qed.
Lemma acted_more loc tr e : acted loc (tr ++ [e]) = acted loc tr ++ acted_by loc e.
Proof. apply concat_fmap_snoc. Qed.
Lemma published_more loc tr e : published loc (tr ++ [e]) = published loc tr ++ published_by loc e.
Proof. apply concat_fmap_snoc. Qed.
Lemma offered_more loc tr e : offered_trades loc (tr ++ [e]) = offered_trades loc tr ++ offered_by loc e.
Proof. apply concat_fmap_snoc. Qed.

(** A step is a runner's access, or leaves the runners and the world alone. *)
Lemma step_cases p e q :
  step p e q →
  (∃ now order sym c c' f' ctrl', sym ∈ syms ∧ p.(p_pcs) !! sym.(Symbol.LocateCode) = Some c ∧ e = EvRun sym c c' ∧
    moved marshal sym now order p.(p_feed) p.(p_ctrl) c c' f' ctrl' ∧
    q = set_runner sym.(Symbol.LocateCode) c' f' ctrl' p) ∨
  (q.(p_pcs) = p.(p_pcs) ∧ world_of q = world_of p ∧
    ∀ loc, acted_by loc e = [] ∧ published_by loc e = [] ∧ offered_by loc e = []).
Proof.
  intros Hstep. destruct Hstep; try (right; done).
  left. exists now, order, sym, c, c', f, ctrl. split_and!; try done. by eapply advance_moved.
Qed.

(** Along the accesses of a runner nothing gets lost between acting and sending. *)
Lemma moved_flight loc sym now order f ctrl c c' f' ctrl' :
  moved marshal sym now order f ctrl c c' f' ctrl' → sym.(Symbol.LocateCode) = loc →
  let e := EvRun sym c c' in
  in_flight c ++ acted_by loc e = published_by loc e ++ in_flight c' ∧
  (record_of loc <$> List.filter is_trade (unsent c ++ acted_by loc e)) =
    offered_by loc e ++ (record_of loc <$> List.filter is_trade (unsent c')).
Proof.
  intros Hm <- e. assert (∀ next now order msgs, in_flight (fan_out sym order now msgs next) = [] ∧
    unsent (fan_out sym order now msgs next) = []) as Hfan by (intros; unfold fan_out; by case_decide).
  assert (∀ next, in_flight (next_pc next) = [] ∧ unsent (next_pc next) = []) as Hnext by by intros [].
  destruct Hm as [c c' k ctrl' Hq _ _|pace price n msgs new b action r s' _ _ _|pace msgs m rest|msgs todo id data rest next].
  - destruct Hq; cbn; rewrite ?Z.eqb_refl, ?app_nil_r; try done; try (destruct (Hfan (fst <$> pace) now order msgs) as [-> ->]);
      try (destruct (Hfan None now order [burst_msg sym]) as [-> ->]); try (destruct (Hnext next) as [-> ->]);
      rewrite ?app_nil_r; done.
  - cbn. rewrite Z.eqb_refl, drop_app_length. done.
  - cbn. rewrite Z.eqb_refl, !app_nil_r. split; [done|]. destruct (is_trade m); done.
  - done.
Qed.

Lemma runner_other loc sym c c' : sym.(Symbol.LocateCode) ≠ loc →
  acted_by loc (EvRun sym c c') = [] ∧ published_by loc (EvRun sym c c') = [] ∧ offered_by loc (EvRun sym c c') = [].
Proof.
  intros H%Z.eqb_neq. unfold acted_by, published_by, offered_by. rewrite H. by repeat case_match.
Qed.

Definition idle (p : process) : Prop := ∀ loc c, p.(p_pcs) !! loc = Some c → in_flight c = [] ∧ unsent c = [].

Definition flight_at (p : process) (loc : Z) : list Message.t :=
  match p.(p_pcs) !! loc with Some c => in_flight c | None => [] end.
Definition unsent_at (p : process) (loc : Z) : list Message.t :=
  match p.(p_pcs) !! loc with Some c => unsent c | None => [] end.

Lemma run_flight p0 tr p loc :
  idle p0 → run p0 tr p →
  acted loc tr = published loc tr ++ flight_at p loc ∧
  (record_of loc <$> List.filter is_trade (acted loc tr)) =
    offered_trades loc tr ++ (record_of loc <$> List.filter is_trade (unsent_at p loc)).
Proof.
  intros H0 Hrun. induction Hrun as [|tr p e q _ [IH1 IH2] _ Hs].
  { unfold flight_at, unsent_at. destruct (p_pcs p0 !! loc) as [c|] eqn:E; [|done].
    by destruct (H0 loc c E) as [-> ->]. }
  rewrite acted_more, published_more, offered_more. unfold flight_at, unsent_at in *.
  apply step_cases in Hs as [(now & order & sym & c & c' & f' & ctrl' & _ & Hc & -> & Hm & ->)|(-> & _ & He)].
  - cbn [set_runner p_pcs]. destruct (decide (sym.(Symbol.LocateCode) = loc)) as [Hl|Hne].
    + rewrite Hl in *. rewrite Hc in IH1, IH2. rewrite lookup_insert_eq.
      pose proof (moved_flight loc _ _ _ _ _ _ _ _ _ Hm Hl) as [Hf Hu]. split.
      * by rewrite IH1, <- !app_assoc, Hf.
      * rewrite List.filter_app, fmap_app, IH2, <- !app_assoc, <- Hu, List.filter_app, fmap_app. done.
    + destruct (runner_other loc sym c c' Hne) as (-> & -> & ->). rewrite lookup_insert_ne by done.
      by rewrite !app_nil_r.
  - destruct (He loc) as (-> & -> & ->). by rewrite !app_nil_r.
Qed.

(** ** Consumers *)

(** The book a consumer starts with, and the one the process has. *)
Definition view_at (w : world) (loc : Z) : gmap Z resting := view_of (book_orders w loc).

Lemma run_synced (Hsyms : syms_ok syms) p0 tr p loc b :
  proc_ok p0 → run p0 tr p → (world_of p).(w_books) !! loc = Some b →
  ∃ lost, synced lost (replay (view_at (world_of p0) loc) (acted loc tr)) (sim_of (world_of p) b) ∧
    (no_replace (acted loc tr) → lost = []).
Proof.
  intros H0 Hrun. revert b. induction Hrun as [|tr p e q Hrun IH Hl Hs]; intros b Hb.
  { exists []. split; [|done]. unfold view_at. rewrite (book_orders_sim _ _ _ Hb). apply (start_synced _ loc); [apply H0|done]. }
  pose proof (run_ok Hsyms p0 tr p H0 Hrun) as Hok. rewrite acted_more.
  apply step_cases in Hs as [(now & order & sym & c & c' & f' & ctrl' & Hin & Hc & -> & Hm & ->)|(_ & Hw & He)].
  2:{ destruct (He loc) as [-> _]. rewrite app_nil_r, Hw in *. by apply IH. }
  destruct Hm as [c c' k ctrl' Hq _ _|pace price n msgs new b1 action r s' Hb1 Hr E|pace msgs m rest|msgs todo id data rest next];
    cbn [set_runner p_feed f_world] in *.
  - assert (acted_by loc (EvRun sym c c') = []) as -> by (destruct Hq; unfold acted_by; repeat case_match; done).
    rewrite app_nil_r. destruct (IH b Hb) as (lost & [] & ?). exists lost. split; [by split|done].
  - pose proof (action_ok Hsyms _ _ _ _ _ _ _ _ Hin (pr_books _ Hok) (lm_world _ Hl) Hb1 (lm_prices _ Hl _ _ Hc) Hr E) as Ha.
    destruct (decide (sym.(Symbol.LocateCode) = loc)) as [Hloc|Hne].
    + subst loc. rewrite put_lookup_same in Hb. injection Hb as <-.
      destruct (IH b1 Hb1) as (lost & Hsy & Hlost). destruct (ao_post _ _ _ _ _ Ha _ _ Hsy) as [_ _ _ (ev & Hsy' & Hev)].
      unfold acted_by. rewrite Z.eqb_refl, drop_app_length. exists (ev ++ lost). rewrite replay_app, sim_of_put. split; [done|].
      intros [H1 H2]%Forall_app. by rewrite Hev, Hlost.
    + destruct (runner_other loc sym (Acting pace price (S n) msgs) (Acting pace price n (msgs ++ new)) Hne) as [-> _].
      rewrite app_nil_r. rewrite put_lookup in Hb by done. destruct (IH b Hb) as (lost & [Hv Hnd Hlo] & Hlost). exists lost.
      assert (resting_orders (sim_of (put_sim sym.(Symbol.LocateCode) (world_of p) s') b) = resting_orders (sim_of (world_of p) b)) as Er.
      { rewrite <- (book_orders_sim _ loc b), <- (book_orders_sim _ loc b) by (rewrite ?put_lookup; done).
        by apply (other_orders (world_of p) sym.(Symbol.LocateCode) b1 s' (pr_books _ Hok) Hb1 (ac_keeps _ _ _ (ao_acts _ _ _ _ _ Ha))). }
      split; [|done]. split; rewrite ?Er; [done|done|]. eapply Forall_impl; [exact Hlo|].
      pose proof (kp_count _ _ (ac_keeps _ _ _ (ao_acts _ _ _ _ _ Ha))) as Hcnt. unfold counter. cbn in *. intros x ?. lia.
  - cbn [acted_by]. rewrite app_nil_r. by apply IH.
  - cbn [acted_by]. rewrite app_nil_r. by apply IH.
Qed.

(** C1. Every consumer stays in sync, symbol by symbol: at any point of a run, the
    messages a symbol's runner has acted are those it has published, in order,
    followed by those of its current tick; and replaying them on the book the
    symbol started with gives the orders that rest in its book now, when the
    runner replaced nothing, however the other symbols' runners interleaved. *)
Theorem process_in_sync (Hsyms : syms_ok syms) (p0 p : process) (tr : list event) (loc : Z)
    (H0 : proc_ok p0) (Hidle : idle p0) (Hrun : run p0 tr p)
    (Hb : is_Some ((world_of p).(w_books) !! loc)) :
  acted loc tr = published loc tr ++ flight_at p loc ∧
  (no_replace (acted loc tr) → replay (view_at (world_of p0) loc) (acted loc tr) = view_at (world_of p) loc).
Proof.
  split; [by apply (run_flight p0 tr p loc)|]. intros Hn. destruct Hb as [b Hb].
  destruct (run_synced Hsyms p0 tr p loc b H0 Hrun Hb) as (lost & [-> _ _] & Hlost).
  rewrite (Hlost Hn), app_nil_r. unfold view_at. by rewrite (book_orders_sim _ _ _ Hb).
Qed.

(** ** A runner's iteration ends *)

(** The trace has no access of the runner of [loc]. *)
Definition others (loc : Z) (tr : list event) : Prop :=
  Forall (λ e, match e with EvRun sym _ _ => sym.(Symbol.LocateCode) ≠ loc | _ => True end) tr.

(** The runner is sure to be back at the top of its loop, if only it is scheduled often
    enough: it is there; or, whatever the others have done meanwhile, it can make its
    next access, and whichever way that goes (the clocks, the order of visits, the
    random numbers), it is sure to be back from then on. *)
Inductive returns (sym : Symbol.t) (p : process) : Prop :=
  | returns_now : p.(p_pcs) !! sym.(Symbol.LocateCode) = Some Top → returns sym p
  | returns_later :
      (∀ tr p', run p tr p' → others sym.(Symbol.LocateCode) tr → limited p' →
        (∃ c c' q, step p' (EvRun sym c c') q) ∧
        ∀ c c' q, step p' (EvRun sym c c') q → returns sym q) →
      returns sym p.

Lemma others_keep loc p tr p' :
  run p tr p' → others loc tr → p'.(p_pcs) !! loc = p.(p_pcs) !! loc.
Proof.
  induction 1 as [|tr p1 e q _ IH _ Hs]; intros Ho; [done|]. apply Forall_app in Ho as [Ho He].
  rewrite <- (IH Ho). apply Forall_cons in He as [He _].
  apply step_cases in Hs as [(now & order & sym & c & c' & f' & ctrl' & _ & _ & -> & _ & ->)|(-> & _)]; [|done].
  cbn [set_runner p_pcs]. by rewrite lookup_insert_ne.
Qed.

(** The next access of a runner is a step. *)
Lemma runner_can_step (Hsyms : syms_ok syms) p sym c :
  proc_ok p → limited p → sym ∈ syms → p.(p_pcs) !! sym.(Symbol.LocateCode) = Some c →
  ∃ c' q, step p (EvRun sym c c') q.
Proof.
  intros Hok Hl Hin Hc. set (order := elements p.(p_feed).(f_mgr).(clients)).
  destruct (runner_safe Hsyms p Hok Hl sym c 0 0 order Hin Hc) as (fuel & Hf).
  destruct (Hf fuel (Nat.le_refl fuel)) as [[c' [f ctrl]] E]. exists c', (set_runner sym.(Symbol.LocateCode) c' f ctrl p).
  apply (st_run _ _ _ _ _ _ _ p fuel 0 0 order sym c c' f ctrl Hin Hc); [apply NoDup_elements| |exact E].
  intros id. apply elem_of_elements.
Qed.

Lemma runner_step_lt p sym c c' q :
  step p (EvRun sym c c') q →
  p.(p_pcs) !! sym.(Symbol.LocateCode) = Some c ∧ q.(p_pcs) !! sym.(Symbol.LocateCode) = Some c' ∧ (c ≠ Top → pc_lt c' c).
Proof.
  intros Hs. remember (EvRun sym c c') as e eqn:Ee. destruct Hs; try discriminate Ee. injection Ee as -> -> ->.
  split; [done|]. split; [apply lookup_insert_eq|]. by eapply advance_lt.
Qed.

Lemma runner_returns (Hsyms : syms_ok syms) sym c p :
  sym ∈ syms → proc_ok p → p.(p_pcs) !! sym.(Symbol.LocateCode) = Some c → returns sym p.
Proof.
  intros Hin. revert p. induction (pc_lt_wf c) as [c _ IH]. intros p Hok Hc.
  assert (c = Top ∨ c ≠ Top) as [->|Hne] by (destruct c; by (left + right)); [by apply returns_now|].
  apply returns_later. intros tr p' Hrun Ho Hl. pose proof (run_ok Hsyms p tr p' Hok Hrun) as Hok'.
  assert (p'.(p_pcs) !! sym.(Symbol.LocateCode) = Some c) as Hc' by by rewrite (others_keep _ p tr p' Hrun Ho).
  split; [exists c; by apply runner_can_step|].
  intros c1 c' q Hs. destruct (runner_step_lt _ _ _ _ _ Hs) as (Hc1 & Hq & Hlt). assert (c1 = c) as -> by congruence.
  apply (IH c'); [by apply Hlt|by eapply step_ok|exact Hq].
Qed.

(** C26. A runner's iteration ends.  From any state of the running process, wherever a
    runner is in its loop, and whatever the other goroutines do before each of its
    accesses, that access can be made at once (no send waits for room in a channel, no
    access panics), and whichever way each goes, after finitely many the runner is at
    the top of its loop; as long as the process is within its limits. *)
Theorem iteration_ends (Hsyms : syms_ok syms) (p : process) (Hok : proc_ok p) (sym : Symbol.t) (c : pc)
    (Hin : sym ∈ syms) (Hc : p.(p_pcs) !! sym.(Symbol.LocateCode) = Some c) :
  returns sym p.
Proof. by apply (runner_returns Hsyms sym c p). Qed.

End process.
