(* ===== verification/ProcessTrades.v ===== *)
(** * The trades of a running process

    The trades the runners have offered to the channel and those they still hold
    are numbered without gaps from the match counter the process started with; the
    channel, the writers and the table are a run of [pipe_step] of Feed. *)
From S2P Require Import Prelude Word Float64 Rng Gaussian Symbols Market Stress Book BookSpec Itch Simulator SimFrame SimProps.
From S2P Require Import ItchJson Session Snapshot SnapshotProps Trades Archive Archiver Feed FeedProps World Process RunnerProps ProcessInv ProcessProps.

Local Open Scope Z_scope.

Local Arguments Nat.ltb : simpl never.

Definition number (r : tradeRecord.t) : Z := r.(tradeRecord.matchNumber).
Definition trade_records (loc : Z) (msgs : list Message.t) : list tradeRecord.t := record_of loc <$> List.filter is_trade msgs.

Lemma number_records loc msgs : number <$> trade_records loc msgs = trade_numbers msgs.
Proof. unfold trade_records, trade_numbers. rewrite <- list_fmap_compose. done. Qed.

(** Every trade offered, of any symbol, in the order of the trace. *)
Definition offer_of (e : event) : list tradeRecord.t :=
  match e with EvRun sym (Sending _ _ (m :: _)) _ => trade_records sym.(Symbol.LocateCode) [m] | _ => [] end.
Definition offered_all (tr : list event) : list tradeRecord.t := concat (offer_of <$> tr).

(** The saves of a trace, each at its time, and the trades lost to an error of one. *)
Definition saves_of (e : event) : list (Z * tradeRecord.t) := match e with EvSave now r => [(now, r)] | _ => [] end.
Definition lost_of (e : event) : list tradeRecord.t := match e with EvLost r => [r] | _ => [] end.
Definition saves (tr : list event) : list (Z * tradeRecord.t) := concat (saves_of <$> tr).
Definition losses (tr : list event) : list tradeRecord.t := concat (lost_of <$> tr).

(** The trades the runners hold: acted, not yet offered. *)
Definition held_by (x : Z * pc) : list tradeRecord.t := trade_records x.1 (unsent x.2).
Definition pool (pcs : gmap Z pc) : list tradeRecord.t := map_to_list pcs ≫= held_by.

Lemma pool_insert pcs loc c c' :
  pcs !! loc = Some c → ∃ rest,
    pool pcs ≡ₚ trade_records loc (unsent c) ++ rest ∧ pool (<[loc := c']> pcs) ≡ₚ trade_records loc (unsent c') ++ rest.
Proof.
  intros Hc. exists (pool (delete loc pcs)). unfold pool. split.
  - rewrite <- (insert_delete_id pcs loc c) at 1 by done.
    rewrite map_to_list_insert by apply lookup_delete_eq. done.
  - rewrite <- insert_delete_eq, map_to_list_insert by apply lookup_delete_eq. done.
Qed.

Section process.
Context (math_Exp math_Log math_Sin : float64 → float64) (marshal : gmap string jval → option frame).
Context (config : StressConfig) (syms : list Symbol.t) (bufferSize : nat).

Abbreviation step := (step math_Exp math_Log math_Sin marshal config syms bufferSize).
Abbreviation run := (run math_Exp math_Log math_Sin marshal config syms bufferSize).
Abbreviation world_of p := p.(p_feed).(f_world).

(** ** Consecutive numbers *)

Lemma offered_all_more tr e : offered_all (tr ++ [e]) = offered_all tr ++ offer_of e.
Proof. apply concat_fmap_snoc. Qed.

(** The trades of an action, and what an access does to the pool. *)
Definition new_trades (e : event) : list tradeRecord.t :=
  match e with EvRun sym _ _ => trade_records sym.(Symbol.LocateCode) (acted_by sym.(Symbol.LocateCode) e) | _ => [] end.

Lemma moved_pool sym now order f ctrl c c' f' ctrl' pcs :
  moved marshal sym now order f ctrl c c' f' ctrl' → pcs !! sym.(Symbol.LocateCode) = Some c →
  pool pcs ++ new_trades (EvRun sym c c') ≡ₚ offer_of (EvRun sym c c') ++ pool (<[sym.(Symbol.LocateCode) := c']> pcs).
Proof.
  intros Hm Hc. destruct (pool_insert pcs _ c c' Hc) as (rest & -> & ->).
  destruct (moved_flight marshal sym.(Symbol.LocateCode) _ _ _ _ _ _ _ _ _ Hm eq_refl) as [_ Hu].
  assert (offer_of (EvRun sym c c') = offered_by sym.(Symbol.LocateCode) (EvRun sym c c')) as ->.
  { unfold offer_of, offered_by. rewrite Z.eqb_refl. by repeat case_match. }
  rewrite List.filter_app, fmap_app in Hu. unfold new_trades. fold (trade_records sym.(Symbol.LocateCode)) in *.
  change (trade_records (Symbol.LocateCode sym) (unsent c) ++ trade_records (Symbol.LocateCode sym) (acted_by (Symbol.LocateCode sym) (EvRun sym c c'))
    = offered_by (Symbol.LocateCode sym) (EvRun sym c c') ++ trade_records (Symbol.LocateCode sym) (unsent c')) in Hu.
  rewrite <- app_assoc, (Permutation_app_comm rest), app_assoc, Hu, <- app_assoc. done.
Qed.

Lemma seqZ_snoc m n : 0 ≤ n → seqZ m (n + 1) = seqZ m n ++ [m + n].
Proof. intros H. rewrite seqZ_app by lia. by f_equal. Qed.

Definition numbered (m0 : Z) (tr : list event) (p : process) : Prop :=
  m0 ≤ (world_of p).(w_match) ∧
  number <$> (offered_all tr ++ pool p.(p_pcs)) ≡ₚ seqZ (m0 + 1) ((world_of p).(w_match) - m0).

Lemma pool_idle p : idle p → pool p.(p_pcs) = [].
Proof.
  intros H. unfold pool. assert (∀ x, x ∈ map_to_list p.(p_pcs) → held_by x = []) as Hx.
  { intros [loc c] Hin%elem_of_map_to_list. unfold held_by. cbn. by destruct (H loc c Hin) as [_ ->]. }
  induction (map_to_list p.(p_pcs)) as [|x l IH]; [done|]. cbn. rewrite (Hx x) by by left. apply IH. intros y Hy. apply Hx. by right.
Qed.

Lemma run_numbered (Hsyms : syms_ok syms) p0 tr p :
  proc_ok syms p0 → idle p0 → run p0 tr p → numbered (world_of p0).(w_match) tr p.
Proof.
  intros H0 Hidle Hrun. induction Hrun as [|tr p e q Hrun [IH1 IH2] Hl Hs].
  { split; [done|]. rewrite pool_idle by done. by rewrite Z.sub_diag. }
  pose proof (run_ok _ _ _ _ _ _ _ Hsyms p0 tr p H0 Hrun) as Hok. unfold numbered. rewrite offered_all_more.
  pose proof Hs as Hs'.
  apply step_cases in Hs as [(now & order & sym & c & c' & f' & ctrl' & Hin & Hc & -> & Hm & ->)|(Hp & Hw & He)].
  2:{ rewrite Hw, Hp. assert (offer_of e = []) as ->; [|by rewrite app_nil_r].
      destruct Hs'; try done. destruct (He sym.(Symbol.LocateCode)) as (_ & _ & E). revert E.
      unfold offer_of, offered_by. rewrite Z.eqb_refl. by repeat case_match. }
  pose proof (moved_pool _ _ _ _ _ _ _ _ _ _ Hm Hc) as Hpool.
  rewrite <- app_assoc. cbn [set_runner p_pcs p_feed]. rewrite <- Hpool, app_assoc, fmap_app, IH2.
  destruct Hm as [c c' k ctrl' Hq _ _|pace price n msgs new b action r s' Hb Hr E|pace msgs m rest|msgs todo id data rest next];
    cbn [f_world set_market w_match].
  - assert (new_trades (EvRun sym c c') = []) as -> by (destruct Hq; unfold new_trades, acted_by; repeat case_match; done).
    by rewrite app_nil_r.
  - pose proof (action_ok _ Hsyms _ _ _ _ _ _ _ _ Hin (pr_books _ _ Hok) (lm_world _ Hl) Hb (lm_prices _ Hl _ _ Hc) Hr E) as [Ha _].
    unfold new_trades, acted_by. rewrite Z.eqb_refl, drop_app_length, number_records.
    destruct (ac_numbers _ _ _ Ha) as [[-> Hm']|[-> Hm']]; cbn [put_sim put_book w_match sim_of bk view_book matchCounter] in *; rewrite Hm'.
    + by rewrite app_nil_r.
    + rewrite uwrap_id by (pose proof (lm_match _ Hl); pose proof (bo_match _ (pr_books _ _ Hok)); unfold is_u in *; lia).
      split; [lia|]. replace (w_match (world_of p) + 1 - w_match (world_of p0)) with (w_match (world_of p) - w_match (world_of p0) + 1) by lia.
      rewrite seqZ_snoc by lia. replace (w_match (world_of p0) + 1 + (w_match (world_of p) - w_match (world_of p0)))
        with (w_match (world_of p) + 1) by lia. done.
  - cbn. by rewrite app_nil_r.
  - cbn. by rewrite app_nil_r.
Qed.

(** ** The channel, the writers and the table *)

Definition pipe_of (p : process) (sent dropped saved failed : list tradeRecord.t) : pipeline :=
  mkPipeline p.(p_feed).(f_trades) p.(p_held) p.(p_store) sent dropped saved failed.

(** A run of the process is a run of the pipeline, with the offered trades sent. *)
Lemma run_pipeline p0 tr p :
  p0.(p_feed).(f_trades) = [] → p0.(p_held) = [] → run p0 tr p →
  ∃ sent dropped saved failed, sent ≡ₚ offered_all tr ∧
    rtc (pipe_step tradeChCap writers syms) (pipe_start p0.(p_store)) (pipe_of p sent dropped saved failed).
Proof.
  intros H1 H2 Hrun. induction Hrun as [|tr p e q _ (sent & dr & sv & fl & IH1 & IH2) _ Hs].
  { exists [], [], [], []. split; [done|]. unfold pipe_of, pipe_start. rewrite H1, H2. apply rtc_refl. }
  rewrite offered_all_more. destruct Hs as [p fuel nowc now order sym c c' f ctrl _ _ _ _ E|p r ch Hch Hh|p now h1 r h2 Hh|p h1 r h2 Hh| | | | | | | | | | | | | | | | | |];
    try (cbn [offer_of]; rewrite app_nil_r; exists sent, dr, sv, fl; by split).
  - apply advance_moved in E. destruct E as [c c' k ctrl' Hq _ _|pace price n msgs new b action r s' _ _ _|pace msgs m rest|msgs todo id data rest next].
    + assert (offer_of (EvRun sym c c') = []) as -> by by destruct Hq.
      rewrite app_nil_r. exists sent, dr, sv, fl. by split.
    + cbn. rewrite app_nil_r. exists sent, dr, sv, fl. by split.
    + destruct (enqueueTrades_steps tradeChCap writers syms sym.(Symbol.LocateCode) [m] (pipe_of p sent dr sv fl))
        as (sent' & dr' & Hs' & Hp'). exists sent', dr', sv, fl. split; [|by etrans].
      rewrite Hp', Permutation_app_comm. by f_equiv.
    + cbn. rewrite app_nil_r. exists sent, dr, sv, fl. by split.
  - cbn [offer_of]. rewrite app_nil_r. exists sent, dr, sv, fl. split; [done|]. eapply rtc_r; [exact IH2|].
    unfold pipe_of. rewrite Hch. by apply ps_take.
  - cbn [offer_of]. rewrite app_nil_r. exists sent, dr, (r :: sv), fl. split; [done|]. eapply rtc_r; [exact IH2|].
    unfold pipe_of. rewrite Hh. apply ps_save.
  - cbn [offer_of]. rewrite app_nil_r. exists sent, dr, sv, (r :: fl). split; [done|]. eapply rtc_r; [exact IH2|].
    unfold pipe_of. rewrite Hh. apply ps_fail.
Qed.

(** A number of this run is none of the table's. *)
Lemma fresh_number m0 n x : 0 ≤ m0 → m0 < n < 2 ^ 64 → 0 ≤ x ≤ m0 → to_i64 n ≠ x.
Proof.
  intros H0 Hn Hx E. destruct (decide (n < 2 ^ 63)).
  - rewrite swrap_id in E by (unfold is_s; simpl; lia). lia.
  - assert (to_i64 n = n - 2 ^ 64) as E2; [|lia]. unfold swrap, uwrap. change (2 ^ (64 - 1)) with (2 ^ 63).
    change (2 ^ 64) with 18446744073709551616 in *. change (2 ^ 63) with 9223372036854775808 in *.
    Z.to_euclidean_division_equations. lia.
Qed.

Lemma to_i64_inj a b : is_u 64 a → is_u 64 b → to_i64 a = to_i64 b → a = b.
Proof. intros Ha Hb E. by rewrite <- (swrap_uwrap 64 a), <- (swrap_uwrap 64 b), E. Qed.

Lemma NoDup_fmap_eq {A B} (f : A → B) (l : list A) x y : NoDup (f <$> l) → x ∈ l → y ∈ l → f x = f y → x = y.
Proof.
  intros Hnd [i Hi]%list_elem_of_lookup [j Hj]%list_elem_of_lookup E.
  assert (i = j) as <-; [|congruence]. apply (NoDup_lookup _ _ _ (f x) Hnd); rewrite list_lookup_fmap.
  - by rewrite Hi.
  - by rewrite Hj, E.
Qed.

(** ** Where the trades are *)

Lemma saves_more tr e : saves (tr ++ [e]) = saves tr ++ saves_of e.
Proof. apply concat_fmap_snoc. Qed.
Lemma losses_more tr e : losses (tr ++ [e]) = losses tr ++ lost_of e.
Proof. apply concat_fmap_snoc. Qed.

(** [r] was offered by a runner at a moment of the run when the channel was full. *)
Definition refused (p0 : process) (tr : list event) (r : tradeRecord.t) : Prop :=
  ∃ tr1 e tr2 q, tr = tr1 ++ e :: tr2 ∧ run p0 tr1 q ∧ (tradeChCap ≤ length q.(p_feed).(f_trades))%nat ∧ r ∈ offer_of e.

Lemma refused_more p0 tr e r : refused p0 tr r → refused p0 (tr ++ [e]) r.
Proof.
  intros (tr1 & e1 & tr2 & q & -> & Hq). exists tr1, e1, (tr2 ++ [e]), q. split; [|done]. by rewrite <- app_assoc.
Qed.

(** Of a single trade, the channel takes all unless it is full. *)
Lemma send_one loc m f : ∃ dr,
  trade_records loc [m] ≡ₚ take (tradeChCap - length f.(f_trades)) (trade_records loc [m]) ++ dr ∧
  ∀ r, r ∈ dr → r ∈ trade_records loc [m] ∧ (tradeChCap ≤ length f.(f_trades))%nat.
Proof.
  set (rs := trade_records loc [m]). set (k := (tradeChCap - _)%nat). exists (drop k rs). split; [by rewrite take_drop|].
  intros r Hr. split; [rewrite <- (take_drop k rs); apply elem_of_app; by right|].
  destruct k as [|k'] eqn:Ek; [lia|]. exfalso. assert (length rs ≤ 1)%nat as Hl.
  { unfold rs, trade_records. cbn. by destruct (is_trade m); cbn; lia. }
  rewrite drop_ge in Hr by lia. by apply elem_of_nil in Hr.
Qed.

Lemma run_accounts p0 tr p :
  p0.(p_feed).(f_trades) = [] → p0.(p_held) = [] → run p0 tr p →
  ∃ dropped, offered_all tr ≡ₚ p.(p_feed).(f_trades) ++ p.(p_held) ++ dropped ++ (saves tr).*2 ++ losses tr ∧
    ∀ r, r ∈ dropped → refused p0 tr r.
Proof.
  intros H1 H2 Hrun. induction Hrun as [|tr p e q Hrun [dr [IH Hdr]] _ Hs].
  { exists []. rewrite H1, H2. split; [done|]. by intros r ?%elem_of_nil. }
  assert (∀ r, r ∈ dr → refused p0 (tr ++ [e]) r) as Hdr' by eauto using refused_more.
  rewrite offered_all_more, saves_more, losses_more, fmap_app.
  destruct Hs as [p fuel nowc now order sym c c' f ctrl _ _ _ _ E|p r ch Hch Hh|p now h1 r h2 Hh|p h1 r h2 Hh| | | | | | | | | | | | | | | | | |];
    try (exists dr; cbn; rewrite !app_nil_r; by split).
  - cbn [saves_of lost_of fmap list_fmap]. rewrite !app_nil_r. apply advance_moved in E.
    destruct E as [c c' k ctrl' Hq _ _|pace price n msgs new b action r s' _ _ _|pace msgs m rest|msgs todo id data rest next].
    + assert (offer_of (EvRun sym c c') = []) as -> by by destruct Hq. rewrite app_nil_r. by exists dr.
    + cbn. rewrite app_nil_r. by exists dr.
    + cbn [offer_of set_runner p_feed p_held f_trades]. rewrite enqueueTrades_spec.
      fold (trade_records sym.(Symbol.LocateCode) [m]).
      destruct (send_one sym.(Symbol.LocateCode) m p.(p_feed)) as (dr1 & Hp & Hfull). exists (dr1 ++ dr). split.
      * rewrite Hp at 1. rewrite IH. solve_Permutation.
      * intros r [Hr|Hr]%elem_of_app; [|by apply Hdr']. destruct (Hfull r Hr) as [Hin Hl]. eexists tr, _, [], p. by split_and!.
    + cbn. rewrite app_nil_r. by exists dr.
  - exists dr. split; [|done]. cbn. rewrite !app_nil_r, IH, Hch. cbn. solve_Permutation.
  - exists dr. split; [|done]. cbn. rewrite !app_nil_r, IH, Hh. solve_Permutation.
  - exists dr. split; [|done]. cbn. rewrite !app_nil_r, IH, Hh. solve_Permutation.
Qed.

(** Nothing but the saves changes the table. *)
Definition save_all (l : list (Z * tradeRecord.t)) (st : store) : store :=
  fold_left (λ st s, SaveTrade syms s.1 s.2 st) l st.

Lemma run_store p0 tr p : run p0 tr p → p.(p_store) = save_all (saves tr) p0.(p_store).
Proof.
  induction 1 as [|tr p e q _ IH _ Hs]; [done|]. rewrite saves_more. unfold save_all in *. rewrite fold_left_app, <- IH.
  by destruct Hs.
Qed.

(** Saves under numbers that are new insert their rows, the last first. *)
Lemma save_all_new l st :
  NoDup ((λ s, to_i64 (number s.2)) <$> l) → (∀ s, s ∈ l → to_i64 (number s.2) ∉ row_numbers st) →
  save_all l st = mkStore (reverse ((λ s, trade_row syms s.1 s.2) <$> l) ++ st.(trades)) st.(cursor) st.(day_file).
Proof.
  revert st. induction l as [|[now r] l IH]; intros st Hnd Hnew; [by destruct st|].
  cbn in Hnd. apply NoDup_cons in Hnd as [Hn Hnd]. cbn [save_all fold_left fst snd]. fold (save_all l).
  assert (SaveTrade syms now r st = mkStore (trade_row syms now r :: st.(trades)) st.(cursor) st.(day_file)) as E.
  { unfold SaveTrade. destruct (insert_trade_cases (trade_row syms now r) st) as [[_ Hin]|[-> _]]; [|done].
    destruct (Hnew (now, r)); [by left|exact Hin]. }
  change (save_all l (SaveTrade syms now r st) =
    mkStore (reverse (trade_row syms now r :: ((λ s, trade_row syms s.1 s.2) <$> l)) ++ st.(trades)) st.(cursor) st.(day_file)).
  rewrite E, IH; [|done|].
  - cbn [trades cursor day_file]. rewrite reverse_cons, <- app_assoc. done.
  - intros s Hs. unfold row_numbers. cbn [trades]. rewrite fmap_cons. intros [Hsn|Hold]%elem_of_cons.
    + apply Hn. cbn in Hsn. unfold number in *. rewrite <- Hsn. by apply (list_elem_of_fmap_2 (λ s, to_i64 (number s.2))).
    + by apply (Hnew s); [right|].
Qed.

(** The numbers of the trades a run offers: all different, and above the table's. *)
Lemma offered_fresh (Hsyms : syms_ok syms) p0 tr p :
  proc_ok syms p0 → idle p0 → run p0 tr p →
  (∀ n, n ∈ row_numbers p0.(p_store) → 0 ≤ n ≤ (world_of p0).(w_match)) →
  NoDup ((λ r, to_i64 (number r)) <$> offered_all tr) ∧
  ∀ r, r ∈ offered_all tr → to_i64 (number r) ∉ row_numbers p0.(p_store).
Proof.
  intros H0 Hidle Hrun Hold. destruct (run_numbered Hsyms p0 tr p H0 Hidle Hrun) as [Hm Hnum].
  pose proof (bo_match _ (pr_books _ _ (run_ok _ _ _ _ _ _ _ Hsyms p0 tr p H0 Hrun))) as Hu.
  pose proof (bo_match _ (pr_books _ _ H0)) as Hu0. unfold is_u in Hu, Hu0.
  assert (NoDup (number <$> offered_all tr)) as Hnd.
  { assert (NoDup (number <$> (offered_all tr ++ pool p.(p_pcs)))) as H by (rewrite Hnum; apply NoDup_seqZ).
    rewrite fmap_app in H. by apply NoDup_app in H as [? _]. }
  assert (∀ r, r ∈ offered_all tr → (world_of p0).(w_match) < number r < 2 ^ 64) as Hrange.
  { intros r Hr. assert (number r ∈ seqZ ((world_of p0).(w_match) + 1) ((world_of p).(w_match) - (world_of p0).(w_match))) as Hin%elem_of_seqZ.
    { rewrite <- Hnum, fmap_app. apply elem_of_app. left. by apply list_elem_of_fmap_2. } lia. }
  split.
  - clear Hnum Hrun. induction (offered_all tr) as [|r l IH]; [constructor|]. cbn in Hnd |- *.
    apply NoDup_cons in Hnd as [Hn Hnd]. constructor; [|apply IH; [done|intros x Hx; apply Hrange; by right]].
    intros (r' & E & Hr')%list_elem_of_fmap. apply Hn. apply to_i64_inj in E as ->; [by apply list_elem_of_fmap_2|..].
    + pose proof (Hrange r ltac:(by left)). unfold is_u. lia.
    + pose proof (Hrange r' ltac:(by right)). unfold is_u. lia.
  - intros r Hr Hin. pose proof (Hrange r Hr). by apply (fresh_number (world_of p0).(w_match) (number r) (to_i64 (number r)));
      [lia|lia|apply Hold|].
Qed.

(** C7. Match numbers are consecutive over the whole process and every save adds its
    row: however the runners of all symbols interleave, the trades offered to the
    channel and those still in the runners' hands carry the numbers after the one the
    process started at, each exactly once; every trade offered is in the channel, with
    a writer, saved or lost to an error in the trace, or was offered when the channel
    was full; and when the table holds no number above the starting one, it is exactly
    the table of the start with the rows of the trace's saves on top, one each, the
    latest first. *)
Theorem process_trades (Hsyms : syms_ok syms) (p0 p : process) (tr : list event)
    (H0 : proc_ok syms p0) (Hidle : idle p0) (Hch : p0.(p_feed).(f_trades) = []) (Hheld : p0.(p_held) = [])
    (Hold : ∀ n, n ∈ row_numbers p0.(p_store) → 0 ≤ n ≤ (world_of p0).(w_match))
    (Hrun : run p0 tr p) :
  let m0 := (world_of p0).(w_match) in let m := (world_of p).(w_match) in
  number <$> (offered_all tr ++ pool p.(p_pcs)) ≡ₚ seqZ (m0 + 1) (m - m0) ∧
  (∃ dropped,
    offered_all tr ≡ₚ p.(p_feed).(f_trades) ++ p.(p_held) ++ dropped ++ (saves tr).*2 ++ losses tr ∧
    ∀ r, r ∈ dropped → refused p0 tr r) ∧
  p.(p_store) = mkStore (reverse ((λ s, trade_row syms s.1 s.2) <$> saves tr) ++ p0.(p_store).(trades))
    p0.(p_store).(cursor) p0.(p_store).(day_file).
Proof.
  intros m0 m. destruct (run_numbered Hsyms p0 tr p H0 Hidle Hrun) as [_ Hnum].
  destruct (run_accounts p0 tr p Hch Hheld Hrun) as (dr & Hall & Hdr).
  split; [exact Hnum|]. split; [by exists dr|]. rewrite (run_store p0 tr p Hrun).
  destruct (offered_fresh Hsyms p0 tr p H0 Hidle Hrun Hold) as [Hnd Hnew]. apply save_all_new.
  - rewrite Hall, !fmap_app in Hnd. apply NoDup_app in Hnd as (_ & _ & Hnd). apply NoDup_app in Hnd as (_ & _ & Hnd).
    apply NoDup_app in Hnd as (_ & _ & Hnd). apply NoDup_app in Hnd as (Hnd & _ & _). by rewrite <- list_fmap_compose in Hnd.
  - intros s Hs. apply Hnew. rewrite Hall, !elem_of_app. do 3 right. left. by apply list_elem_of_fmap_2.
Qed.

End process.
