(* ===== verification/ProcessSnap.v ===== *)
(** * Snapshots of a running process

    The snapshotter reads the books one after the other, and the orders through
    their pointers later still, while the runners go on.  What it has collected can
    nevertheless always be saved and restored ([savable]): the IDs are distinct, and
    no more than the counter it reads afterwards. *)
From S2P Require Import Prelude Word Float64 Rng Gaussian Symbols Market Stress Book BookSide BookSpec Itch Simulator SimFrame SimProps.
From S2P Require Import ItchJson Session Snapshot SnapshotProps Trades Archive Archiver Feed FeedProps World Process RunnerProps ProcessInv ProcessProps.

Local Open Scope Z_scope.

(** ** Orders that can be saved and restored *)

Abbreviation keys := (Z → bool → list (Z * Z * Z)).

Definition bounded (K : keys) : Prop := ∀ loc d, (length (K loc d) ≤ MaxLevels)%nat.

Definition row_ok (K : keys) (c : Z) (o : Order.t) : Prop :=
  fields_ok o ∧ 0 < o.(Order.ID) ≤ c ∧ is_num o.(Order.Price) ∧
  fkey o.(Order.Price) ∈ K o.(Order.Locate) (is_buy o).

Record savable (K : keys) (c : Z) (os : list Order.t) : Prop := mk_savable {
  sv_bounded : bounded K;
  sv_rows : Forall (row_ok K c) os;
  sv_ids : NoDup (Order.ID <$> os);
}.

(** An order seen again later: only its shares may differ. *)
Definition later (o o' : Order.t) : Prop := ∃ n, o' = Order.with_Shares o n.

Lemma later_ids os os' : Forall2 later os os' → Order.ID <$> os' = Order.ID <$> os.
Proof. induction 1 as [|o o' os os' [n ->] _ IH]; [done|]. cbn. by rewrite IH. Qed.

Lemma savable_later K c c' os os' : c ≤ c' → Forall2 later os os' → savable K c os → savable K c' os'.
Proof.
  intros Hc Hl [Hb Hr Hid]. split; [done| |by rewrite (later_ids _ _ Hl)].
  clear Hid. induction Hl as [|o o' os os' [n ->] _ IH]; [constructor|]. apply Forall_cons in Hr as [Ho Hr].
  constructor; [|by apply IH]. destruct Ho as (? & ? & ? & ?). split_and!; [done|cbn; lia|cbn; lia|done|done].
Qed.

Lemma savable_perm K c os os' : os ≡ₚ os' → savable K c os → savable K c os'.
Proof. intros Hp [Hb Hr Hid]. split; [done|by rewrite <- Hp|by rewrite <- Hp]. Qed.

(** One more book. *)
Definition with_book_keys (K : keys) (w : world) (loc : Z) : keys :=
  λ loc' d, if decide (loc' = loc) then target_keys w loc d else K loc' d.

Lemma savable_book K w loc os :
  books_ok w → savable K w.(w_orderID) os → (∀ o, o ∈ os → o.(Order.Locate) ≠ loc) →
  (∀ o, o ∈ book_orders w loc → o.(Order.ID) ∉ Order.ID <$> os) →
  savable (with_book_keys K w loc) w.(w_orderID) (os ++ book_orders w loc).
Proof.
  intros Hw [Hb Hr Hid] Hloc Hnew. pose proof (books_world_ok w Hw) as Hwk. split.
  - intros loc' d. unfold with_book_keys. case_decide; [by apply target_room|apply Hb].
  - apply Forall_app. rewrite !Forall_forall in *. split.
    + intros o Ho. destruct (Hr o Ho) as (? & [? ?] & ? & ?). split_and!; try done.
      unfold with_book_keys. by rewrite decide_False by by apply Hloc.
    + intros o Ho. destruct (wk_fields _ Hwk loc o Ho) as [Hf Hl]. destruct (saved_key w Hwk loc o Ho) as [Hn Hk].
      split; [done|]. split; [|split; [done|by unfold with_book_keys; rewrite Hl, decide_True]].
      unfold book_orders in Ho. destruct (w.(w_books) !! loc) as [b|] eqn:Eb; [|by apply elem_of_nil in Ho].
      destruct (bo_sim _ Hw _ _ Eb) as [_ Hs]. apply (sim_ok_orders loc (sim_of w b)) in Ho; [|done].
      apply (oo_id _ _ _ Ho).
  - rewrite fmap_app. apply NoDup_app. split_and!; [done| |].
    + intros id Hid' (o & -> & Ho)%list_elem_of_fmap. by apply (Hnew o).
    + pose proof (saved_ids_nodup w Hwk [loc] (NoDup_singleton loc)) as H. cbn in H. by rewrite app_nil_r in H.
Qed.

(** ** How the world changes under a snapshot *)

Record grows (w w' : world) : Prop := mk_grows {
  gw_heap : ∀ p o, w.(w_heap) !! p = Some o → ∃ o', w'.(w_heap) !! p = Some o' ∧ later o o';
  gw_count : w.(w_orderID) ≤ w'.(w_orderID);
  gw_orders : ∀ loc o, o ∈ book_orders w' loc →
    (∃ o0, o0 ∈ book_orders w loc ∧ o0.(Order.ID) = o.(Order.ID)) ∨ w.(w_orderID) < o.(Order.ID);
}.

Lemma grows_same w k : grows w (set_market k w).
Proof.
  split; cbn; [|done|intros loc o Ho; left; by exists o].
  intros p o Ho. exists o. split; [done|]. exists o.(Order.Shares). by rewrite with_Shares_same.
Qed.

Lemma grows_refl w : grows w w.
Proof. pose proof (grows_same w w.(w_market)) as H. by destruct w. Qed.

Definition allocated (w : world) (ps : list ptr) : Prop := Forall (λ p, is_Some (w.(w_heap) !! p)) ps.

Lemma grows_ptrs w w' ps : grows w w' → allocated w ps →
  allocated w' ps ∧ Forall2 later (deref w.(w_heap) <$> ps) (deref w'.(w_heap) <$> ps).
Proof.
  intros Hg. induction 1 as [|p ps [o Ho] _ [IH1 IH2]]; [split; constructor|].
  destruct (gw_heap _ _ Hg p o Ho) as (o' & Ho' & Hl). split.
  - constructor; [by eexists|done].
  - cbn. constructor; [|done]. unfold deref. by rewrite Ho, Ho'.
Qed.

Lemma later_refl os : Forall2 later os os.
Proof. induction os as [|o os IH]; constructor; [|done]. exists o.(Order.Shares). by rewrite with_Shares_same. Qed.

Section process.
Context (math_Exp math_Log math_Sin : float64 → float64) (marshal : gmap string jval → option frame).
Context (config : StressConfig) (syms : list Symbol.t) (bufferSize : nat).

Abbreviation step := (step math_Exp math_Log math_Sin marshal config syms bufferSize).
Abbreviation run := (run math_Exp math_Log math_Sin marshal config syms bufferSize).
Abbreviation world_of p := p.(p_feed).(f_world).

Lemma acted_grows sym w b new s' :
  books_ok w → w.(w_books) !! sym.(Symbol.LocateCode) = Some b → acted_on sym w b new s' →
  grows w (put_sim sym.(Symbol.LocateCode) w s').
Proof.
  intros Hw Hb [Ha Hp]. pose proof (Hp [] _ (start_synced w _ b Hw Hb)) as [Hok _ _ _]. split.
  - intros p o Ho. destruct (kp_heap _ _ (ac_keeps _ _ _ Ha) p o Ho) as [n E]. exists (Order.with_Shares o n).
    split; [exact E|by exists n].
  - apply (kp_count _ _ (ac_keeps _ _ _ Ha)).
  - intros loc o Ho. destruct (decide (loc = sym.(Symbol.LocateCode))) as [->|Hne].
    + by apply (new_or_old w sym.(Symbol.LocateCode) b s' Hw Hb (ac_keeps _ _ _ Ha)).
    + left. rewrite (other_orders w sym.(Symbol.LocateCode) b s' Hw Hb (ac_keeps _ _ _ Ha)) in Ho by done. by exists o.
Qed.

(** ** The invariant of the snapshotter *)

(** The bytes of a well-formed generator. *)
Definition saved_rng (bytes : list Z) : Prop := ∃ r, Rng.wf r ∧ bytes = Rng.StateBytes r.

Definition snap_ok (w : world) (s : snap_pc) : Prop :=
  match s with
  | SnapIdle => True
  | SnapOrders _ todo ps => ∃ K, allocated w ps ∧ savable K w.(w_orderID) (deref w.(w_heap) <$> ps) ∧ NoDup todo ∧
      (∀ o, o ∈ deref w.(w_heap) <$> ps → o.(Order.Locate) ∉ todo) ∧
      ∀ loc o, loc ∈ todo → o ∈ book_orders w loc → o.(Order.ID) ∉ Order.ID <$> (deref w.(w_heap) <$> ps)
  | SnapCopy _ ps rows => ∃ K, allocated w ps ∧ savable K w.(w_orderID) (rows ++ (deref w.(w_heap) <$> ps))
  | SnapRng _ rows => ∃ K, savable K w.(w_orderID) rows
  | SnapOrderID _ rows bytes => saved_rng bytes ∧ ∃ K, savable K w.(w_orderID) rows
  | SnapMatch _ rows bytes k => saved_rng bytes ∧ is_u 64 k ∧ ∃ K, savable K k rows
  | SnapCommit r => saved_rng r.(r_rng) ∧ is_u 64 r.(r_match) ∧ is_u 64 r.(r_orderID) ∧
      ∃ K, savable K r.(r_orderID) r.(r_orders)
  end.

Lemma snap_grows w w' s : grows w w' → snap_ok w s → snap_ok w' s.
Proof.
  intros Hg. destruct s as [|pr todo ps|pr ps rows|pr rows|pr rows r|pr rows r k|r]; cbn; try done.
  - intros (K & Ha & Hs & Hnd & Hloc & Hnew). destruct (grows_ptrs w w' ps Hg Ha) as [Ha' Hl].
    exists K. split_and!; [done|by eapply savable_later; [apply Hg|done|]|done| |].
    + intros o' Ho'. apply list_elem_of_lookup in Ho' as [i Hi]. destruct (Forall2_lookup_r _ _ _ _ _ Hl Hi) as (o & Hio & n & ->).
      apply (Hloc o). by eapply list_elem_of_lookup_2.
    + intros loc o' Hin Ho'. rewrite (later_ids _ _ Hl). destruct (gw_orders _ _ Hg loc o' Ho') as [(o0 & H0 & <-)|Hlt].
      * by apply (Hnew loc).
      * intros (x & Ex & Hx)%list_elem_of_fmap. destruct Hs as [_ Hr _]. rewrite Forall_forall in Hr.
        destruct (Hr x Hx) as (_ & [_ Hle] & _). lia.
  - intros (K & Ha & Hs). destruct (grows_ptrs w w' ps Hg Ha) as [Ha' Hl]. exists K. split; [done|].
    eapply savable_later; [apply Hg| |exact Hs]. apply Forall2_app; [apply later_refl|done].
  - intros (K & Hs). exists K. eapply savable_later; [apply Hg|apply later_refl|done].
  - intros (Hb & K & Hs). split; [done|]. exists K. eapply savable_later; [apply Hg|apply later_refl|done].
Qed.

(** Reading a book. *)
Lemma snap_book w pr loc todo ps b :
  books_ok w → w.(w_books) !! loc = Some b → snap_ok w (SnapOrders pr (loc :: todo) ps) →
  snap_ok w (SnapOrders pr todo (ps ++ (map_to_list b.(Book.orderMap)).*2)).
Proof.
  intros Hw Hb (K & Ha & Hs & Hnd & Hloc & Hnew). apply NoDup_cons in Hnd as [Hn Hnd].
  pose proof (books_world_ok w Hw) as Hwk. pose proof (saved_book w Hwk loc b Hb) as Hp.
  exists (with_book_keys K w loc). rewrite fmap_app. split_and!; [| |done| |].
  - apply Forall_app. split; [done|]. apply Forall_forall. intros q Hq.
    apply list_elem_of_fmap in Hq as ([id q'] & -> & Hin%elem_of_map_to_list).
    by eapply (rep_map_alloc (view_book w b) id); [apply (bo_sim _ Hw _ _ Hb)|].
  - eapply savable_perm; [by rewrite Hp|]. apply savable_book; [done|done| |].
    + intros o Ho E. apply (Hloc o Ho). rewrite E. by left.
    + intros o Ho. apply (Hnew loc); [by left|done].
  - intros o [Ho|Ho]%elem_of_app Hin; [apply (Hloc o Ho); by right|].
    rewrite Hp in Ho. destruct (wk_fields _ Hwk _ _ Ho) as [_ E]. by rewrite E in Hin.
  - intros loc2 o Hin Ho. rewrite fmap_app, elem_of_app. intros [H|H]; [by apply (Hnew loc2 o); [by right|..]|].
    rewrite Hp in H. apply list_elem_of_fmap in H as (o2 & E & Ho2).
    assert (loc2 = loc) as -> by by eapply (bo_ids _ Hw). done.
Qed.

Lemma snap_begin w pr order : iterates order w → snap_ok w (SnapOrders pr order []).
Proof.
  intros [Hnd _]. exists (λ _ _, []). split_and!; [constructor| |done| |].
  - split; [intros ? ?; cbn; lia|constructor|constructor].
  - by intros o ?%elem_of_nil.
  - intros loc o _ _. cbn. apply not_elem_of_nil.
Qed.

Lemma moved_grows (Hsyms : syms_ok syms) sym now order f ctrl c c' f' ctrl' :
  sym ∈ syms → moved marshal sym now order f ctrl c c' f' ctrl' → books_ok f.(f_world) → world_room f.(f_world) →
  priced c → grows f.(f_world) f'.(f_world).
Proof.
  intros Hin Hm Hw Hroom Hc. destruct Hm as [c c' k ctrl' Hq Hk Hp'|pace price n msgs new b action r s' Hb Hr E
    |pace msgs m rest|msgs todo id data rest next]; cbn [f_world].
  - apply grows_same.
  - apply (acted_grows sym _ b new); [done|done|].
    exact (action_ok _ Hsyms _ _ _ _ _ _ _ _ Hin Hw Hroom Hb Hc Hr E).
  - apply grows_refl.
  - apply grows_refl.
Qed.

Lemma step_snap (Hsyms : syms_ok syms) p e q :
  proc_ok syms p → limited p → step p e q → snap_ok (world_of p) p.(p_snap) → snap_ok (world_of q) q.(p_snap).
Proof.
  intros Hok Hlim Hstep. pose proof (pr_books _ _ Hok) as Hw. destruct Hstep; try done.
  - intros Hs. eapply snap_grows; [|exact Hs].
    apply (moved_grows Hsyms sym now order _ _ c c' _ _ H (advance_moved _ _ _ _ _ _ _ _ _ _ _ _ _ _ _ _ _ H3) Hw (lm_world _ Hlim)).
    by apply (lm_prices _ Hlim sym.(Symbol.LocateCode)).
  - intros _. by apply snap_begin.
  - rewrite H. by apply snap_book.
  - rewrite H. intros (K & Ha & Hs & _). exists K. by split.
  - rewrite H. intros (K & Ha & Hs). apply Forall_cons in Ha as [_ Ha]. exists K. split; [done|].
    cbn [set_snap p_feed] in *. rewrite <- app_assoc. exact Hs.
  - rewrite H. intros (K & Ha & Hs). exists K. cbn in Hs. by rewrite app_nil_r in Hs.
  - rewrite H. intros Hs. split; [|exact Hs]. eexists. split; [apply Hw|done].
  - rewrite H. intros (Hb & Hs). split_and!; [exact Hb|apply Hw|exact Hs].
  - rewrite H. intros (Hb & Hu & Hs). split_and!; [exact Hb|apply Hw|exact Hu|exact Hs].
Qed.

Lemma run_snap (Hsyms : syms_ok syms) p0 tr p :
  proc_ok syms p0 → p0.(p_snap) = SnapIdle → run p0 tr p → snap_ok (world_of p) p.(p_snap).
Proof.
  intros H0 Hi Hrun. induction Hrun as [|tr p e q Hrun IH Hl Hs]; [by rewrite Hi|].
  eapply (step_snap Hsyms p); [by eapply run_ok|done|done|done].
Qed.

(** ** Saving and restoring *)

Lemma savable_fields K c os : savable K c os → Forall fields_ok os.
Proof. intros [_ Hr _]. eapply Forall_impl; [exact Hr|]. by intros o [? _]. Qed.

Lemma savable_restore K c os w0 :
  savable K c os → (∀ loc b, w0.(w_books) !! loc = Some b → b = NewBook b.(Book.Locate) b.(Book.TickSize)) →
  ∃ w1, go_fold (λ _, restore_row) tt (row_of <$> os) w0 = Some (tt, w1) ∧ restored K w0 (reverse os) w1.
Proof.
  intros [Hb Hr Hid] Hnew. destruct (restore_rows K w0 Hb os [] w0) as (w1 & E & Hres).
  - split; [|done..]. intros loc b Hl. rewrite (Hnew loc b Hl). apply new_book_restored.
  - by rewrite app_nil_r.
  - eapply Forall_impl; [exact Hr|]. by intros o (? & _ & ? & ?).
  - exists w1. split; [done|]. by rewrite app_nil_r in Hres.
Qed.

(** ** The snapshotter alone *)

Abbreviation steps := (rtc (λ p q, ∃ e, step p e q)).

Lemma alone_books p pr todo ps :
  (∀ loc, loc ∈ todo → is_Some ((world_of p).(w_books) !! loc)) →
  p.(p_snap) = SnapOrders pr todo ps →
  ∃ ps', steps p (set_snap (SnapOrders pr [] (ps ++ ps')) p.(p_db) p) ∧
    deref (world_of p).(w_heap) <$> ps' = all_orders todo (world_of p).
Proof.
  revert p ps. induction todo as [|loc todo IH]; intros p ps Hall Hp.
  { exists []. split; [|done]. rewrite app_nil_r. destruct p. cbn in *. subst. apply rtc_refl. }
  destruct (Hall loc) as [b Hb]; [by left|].
  destruct (IH (set_snap (SnapOrders pr todo (ps ++ (map_to_list b.(Book.orderMap)).*2)) p.(p_db) p)
    (ps ++ (map_to_list b.(Book.orderMap)).*2)) as (ps' & Hs & Hd); [intros; apply Hall; by right|done|].
  exists ((map_to_list b.(Book.orderMap)).*2 ++ ps'). split.
  - eapply rtc_l; [eexists; by eapply st_snap_book|]. rewrite app_assoc. exact Hs.
  - rewrite fmap_app. cbn [set_snap p_feed] in Hd. rewrite Hd. unfold all_orders. cbn. by rewrite Hb.
Qed.

Lemma alone_rows p pr ps rows :
  p.(p_snap) = SnapCopy pr ps rows →
  steps p (set_snap (SnapCopy pr [] (rows ++ (deref (world_of p).(w_heap) <$> ps))) p.(p_db) p).
Proof.
  revert p rows. induction ps as [|q ps IH]; intros p rows Hp.
  { rewrite app_nil_r. destruct p. cbn in *. subst. apply rtc_refl. }
  eapply rtc_l; [eexists; by eapply st_snap_row|].
  etrans; [by apply IH|]. cbn. rewrite <- app_assoc. apply rtc_refl.
Qed.

(** Without interleaving, what the snapshotter reads is [reads_of] the world. *)
Lemma snapshot_alone p order :
  p.(p_snap) = SnapIdle → iterates order (world_of p) →
  steps p (set_snap (SnapCommit (reads_of order (world_of p))) p.(p_db) p).
Proof.
  intros Hp Ho. eapply rtc_l; [eexists; by apply (st_snap_begin _ _ _ _ _ _ _ p order)|].
  set (p1 := set_snap _ _ _). destruct (alone_books p1 (AllPrices (world_of p).(w_market)) order []) as (ps & Hs & Hd);
    [intros loc; apply Ho|done|]. etrans; [exact Hs|].
  eapply rtc_l; [eexists; by eapply st_snap_collected|]. etrans; [by apply alone_rows|].
  eapply rtc_l; [eexists; by eapply st_snap_copied|]. eapply rtc_l; [eexists; by eapply st_snap_rng|].
  eapply rtc_l; [eexists; by eapply st_snap_id|]. eapply rtc_l; [eexists; by eapply st_snap_match|].
  unfold reads_of. cbn in Hd. cbn. rewrite <- Hd. apply rtc_refl.
Qed.

Lemma load_state_books d w :
  (load_state d w).(w_books) = w.(w_books) ∧ (load_state d w).(w_heap) = w.(w_heap) ∧
  ∀ loc, book_orders (load_state d w) loc = book_orders w loc.
Proof. unfold load_state. by destruct (rng_state d). Qed.

(** Loading what was committed. *)
Lemma committed_restore r w (db : database) (w0 : world) :
  snap_ok w (SnapCommit r) → syms ≠ [] →
  (∀ loc b, w0.(w_books) !! loc = Some b → b = NewBook b.(Book.Locate) b.(Book.TickSize)) →
  ∃ d, Save syms true r db = (d, true) ∧ d.(orders_table) = row_of <$> r.(r_orders) ∧
  ∀ rows, rows ≡ₚ d.(orders_table) →
  ∃ K os w1, Load LoadOk rows d w0 = Some (Some true, load_state d w1) ∧ r.(r_orders) ≡ₚ os ∧
    restored K (set_market (load_prices d w0.(w_market)) w0) (reverse os) w1 ∧
    (load_state d w1).(w_orderID) = r.(r_orderID) ∧ (load_state d w1).(w_match) = r.(r_match) ∧
    (load_state d w1).(w_market).(Market.rng) = Rng.RestoreStateBytes r.(r_rng) w1.(w_market).(Market.rng).
Proof.
  intros (_ & Hum & Hu & K & Hs) Hne Hfresh.
  unfold Save. cbn [andb]. rewrite bool_decide_true by (apply row_ids_nodup; [by eapply savable_fields|apply Hs]).
  eexists. split; [reflexivity|]. split; [done|]. intros rows Hrows. cbn [orders_table] in Hrows.
  apply Permutation_map_inv in Hrows as (os & -> & Hperm). set (d := mkDatabase _ _ _ _ _) in *.
  destruct (savable_restore K r.(r_orderID) os (set_market (load_prices d w0.(w_market)) w0)) as (w1 & E & Hres);
    [by eapply savable_perm|done|].
  exists K, os, w1. split_and!; [|done|done|cbn; by apply swrap_uwrap|cbn; by apply swrap_uwrap|done].
  unfold Load. destruct (Nat.eqb_spec (size (Snapshot.symbols d)) 0) as [Hz|_].
  { apply map_size_empty_inv in Hz. destruct syms as [|s l] eqn:El using rev_ind; [done|].
    cbn in Hz. unfold upsert_prices in Hz. rewrite fold_left_app in Hz. cbn [fold_left] in Hz. by apply insert_non_empty in Hz. }
  change (map row_of os) with (row_of <$> os). by rewrite E.
Qed.

(** C9. A snapshot of a running process can be restored.  Whatever the runners did
    between its reads, what the snapshotter has collected when it comes to the
    commit is saved, unless the database fails; and loading it into a fresh
    simulator, the rows in any order, succeeds: every book is well formed and holds
    on each side exactly the saved orders of its symbol, no two orders share an ID,
    and none has an ID above the restored counter, so no later order takes one of
    theirs. *)
Theorem snapshot_of_running_process (Hsyms : syms_ok syms) (p0 p : process) (tr : list event) (r : reads) (w0 : world)
    (H0 : proc_ok syms p0) (Hidle : p0.(p_snap) = SnapIdle) (Hrun : run p0 tr p) (Hr : p.(p_snap) = SnapCommit r)
    (Hne : syms ≠ [])
    (Hfresh : ∀ loc b, w0.(w_books) !! loc = Some b → b = NewBook b.(Book.Locate) b.(Book.TickSize)) :
  ∃ d, Save syms true r p.(p_db) = (d, true) ∧
  ∀ rows, rows ≡ₚ d.(orders_table) →
  ∃ w1, Load LoadOk rows d w0 = Some (Some true, w1) ∧
    w1.(w_orderID) = r.(r_orderID) ∧ NoDup (Order.ID <$> r.(r_orders)) ∧
    (∀ o, o ∈ r.(r_orders) → o.(Order.ID) ≤ w1.(w_orderID)) ∧
    ∀ loc b1, w1.(w_books) !! loc = Some b1 → rep w1.(w_heap) b1 ∧
      ∀ side, side_of side (abs_book w1.(w_heap) b1) ≡ₚ on_side side (at_loc loc r.(r_orders)).
Proof.
  pose proof (run_snap Hsyms p0 tr p H0 Hidle Hrun) as Hs. rewrite Hr in Hs.
  destruct (committed_restore r _ p.(p_db) w0 Hs Hne Hfresh) as (d & Hd & _ & Hload). exists d. split; [exact Hd|].
  intros rows Hrows. destruct (Hload rows Hrows) as (K & os & w1 & E & Hperm & Hres & Hid & _ & _).
  exists (load_state d w1). destruct Hs as (_ & _ & _ & K' & Hs). split_and!; [exact E|exact Hid|exact (sv_ids _ _ _ Hs)| |].
  - intros o Ho. rewrite Hid. destruct Hs as [_ Hrw _]. rewrite Forall_forall in Hrw. destruct (Hrw o Ho) as (_ & [_ Hle] & _). exact Hle.
  - intros loc b1. destruct (load_state_books d w1) as (-> & -> & _). intros Hb1.
    destruct (rs_book _ _ _ _ Hres loc b1 Hb1) as (Hrep & _ & Hside). split; [done|].
    intros side. etrans; [exact (Hside side)|]. apply filter_perm, filter_perm. by rewrite reverse_Permutation.
Qed.

End process.
