(* ===== verification/ProcessConn.v ===== *)
(** * The clients of a running process

    What happens to one client in a run of the process is a run of its connection
    ([conn_run] of Session), so a client's stream is the lossy FIFO of
    SessionProps; and a client that stays subscribed to a symbol is offered every
    message the symbol's runner publishes. *)
From S2P Require Import Prelude Word Float64 Rng Gaussian Symbols Market Stress Book BookSpec Itch Simulator SimFrame SimProps.
From S2P Require Import ItchJson Session SessionProps Snapshot SnapshotProps Trades Archive Archiver Feed FeedProps World Process RunnerProps ProcessInv ProcessProps.

Local Open Scope Z_scope.

Local Arguments Nat.ltb : simpl never.

(** ** One client's share of the trace *)

Definition conn_label (id : Z) (e : event) : list label :=
  match e with
  | EvConn id' l => if id' =? id then [l] else []
  | EvRun _ (Fanning _ _ (Some (id', data :: _)) _) _ => if id' =? id then [LSend data] else []
  | _ => []
  end.
Definition conn_labels (id : Z) (tr : list event) : list label := concat (conn_label id <$> tr).

Lemma conn_labels_more id tr e : conn_labels id (tr ++ [e]) = conn_labels id tr ++ conn_label id e.
Proof. apply concat_fmap_snoc. Qed.

Lemma conn_run_snoc s ls s' l s'' : conn_run s ls s' → conn_step s' l s'' → conn_run s (ls ++ [l]) s''.
Proof. induction 1 as [s|s l1 s1 ls s2 H _ IH]; intros Hs; cbn; econstructor; eauto using conn_run. Qed.

Section process.
Context (math_Exp math_Log math_Sin : float64 → float64) (marshal : gmap string jval → option frame).
Context (config : StressConfig) (syms : list Symbol.t) (bufferSize : nat).

Abbreviation step := (step math_Exp math_Log math_Sin marshal config syms bufferSize).
Abbreviation run := (run math_Exp math_Log math_Sin marshal config syms bufferSize).
Abbreviation mgr_of p := p.(p_feed).(f_mgr).

(** The clients, with the trace they have seen. *)
Record conns_ok (tr : list event) (p : process) : Prop := mk_conns_ok {
  cn_dom : ∀ id, is_Some ((mgr_of p).(Session.heap) !! id) ↔ is_Some (p.(p_conns) !! id);
  cn_ids : 0 ≤ (mgr_of p).(clientIDCounter) ∧
    ∀ id, is_Some ((mgr_of p).(Session.heap) !! id) → id ≤ (mgr_of p).(clientIDCounter);
  cn_none : ∀ id, (mgr_of p).(Session.heap) !! id = None → conn_labels id tr = [];
  cn_cur : ∀ loc msgs todo id frames next, p.(p_pcs) !! loc = Some (Fanning msgs todo (Some (id, frames)) next) →
    is_Some ((mgr_of p).(Session.heap) !! id);
  cn_run : ∀ id s, conn_of p id = Some s → conn_run (fresh_conn bufferSize) (conn_labels id tr) s;
}.

Lemma conn_of_Some p id s :
  conn_of p id = Some s ↔ ∃ w, (mgr_of p).(Session.heap) !! id = Some s.(client) ∧ p.(p_conns) !! id = Some w ∧
    s.(pumping) = w.(p_pumping) ∧ s.(written) = w.(p_written).
Proof.
  unfold conn_of. destruct ((mgr_of p).(Session.heap) !! id) as [c|]; cbn; [|by split; [|intros (?&?&_)]].
  destruct (p_conns p !! id) as [w|]; cbn; [|by split; [|intros (?&_&?&_)]]. split.
  - intros [= <-]. by exists w.
  - intros (w' & [= E1] & [= <-] & E2 & E3). destruct s. cbn in *. congruence.
Qed.

(** Steps that leave every client and every runner's broadcast alone. *)
Lemma conns_same tr e p q :
  conns_ok tr p → mgr_of q = mgr_of p → q.(p_conns) = p.(p_conns) → (∀ id, conn_label id e = []) →
  (∀ loc msgs todo id frames next, q.(p_pcs) !! loc = Some (Fanning msgs todo (Some (id, frames)) next) →
    is_Some ((mgr_of q).(Session.heap) !! id)) →
  conns_ok (tr ++ [e]) q.
Proof.
  intros [H1 H2 H3 H4 H5] Em Ec He Hf. split.
  - by rewrite Em, Ec.
  - by rewrite Em.
  - intros id. rewrite Em, conn_labels_more, He, app_nil_r. apply H3.
  - exact Hf.
  - intros id s Hs. rewrite conn_labels_more, He, app_nil_r. apply H5. unfold conn_of in *. by rewrite Em, Ec in Hs.
Qed.

(** One client's connection moves. *)
Lemma conns_move tr e p q id l s s' :
  conns_ok tr p → conn_of p id = Some s → conn_step s l s' → conn_of q id = Some s' →
  (∀ id', id' ≠ id → conn_of q id' = conn_of p id') →
  (mgr_of q).(Session.heap) = <[id := s'.(client)]> (mgr_of p).(Session.heap) →
  (∀ id', is_Some (q.(p_conns) !! id') ↔ is_Some (p.(p_conns) !! id')) →
  (mgr_of q).(clientIDCounter) = (mgr_of p).(clientIDCounter) →
  (∀ id', conn_label id' e = if id =? id' then [l] else []) →
  (∀ loc msgs todo id' frames next, q.(p_pcs) !! loc = Some (Fanning msgs todo (Some (id', frames)) next) →
    is_Some ((mgr_of p).(Session.heap) !! id')) →
  conns_ok (tr ++ [e]) q.
Proof.
  intros [H1 [H2 H2'] H3 H4 H5] Hs Hstep Hs' Hother Hheap Hconns Hctr He Hf.
  assert (∀ id', is_Some ((mgr_of q).(Session.heap) !! id') ↔ is_Some ((mgr_of p).(Session.heap) !! id')) as Hdom.
  { intros id'. rewrite Hheap. destruct (decide (id' = id)) as [->|]; [|by rewrite lookup_insert_ne].
    rewrite lookup_insert_eq. apply conn_of_Some in Hs as (w & Hh & _). rewrite Hh. split; by eexists. }
  split.
  - intros id'. rewrite Hdom, Hconns. apply H1.
  - rewrite Hctr. split; [exact H2|]. intros id'. rewrite Hdom. apply H2'.
  - intros id' Hn. rewrite conn_labels_more, He.
    assert ((mgr_of p).(Session.heap) !! id' = None) as Hn'.
    { apply eq_None_not_Some. intros [x H]%Hdom. congruence. }
    rewrite (H3 id' Hn'). destruct (Z.eqb_spec id id') as [<-|]; [|done].
    apply conn_of_Some in Hs as (w & Hh & _). congruence.
  - intros loc msgs todo id' frames next Hp. rewrite Hdom. by eapply Hf.
  - intros id' s2 Hs2. rewrite conn_labels_more, He. destruct (Z.eqb_spec id id') as [<-|Hne].
    + assert (s2 = s') as -> by congruence. eapply conn_run_snoc; [by apply H5|done].
    + rewrite app_nil_r. apply H5. by rewrite <- Hother.
Qed.

Lemma conn_of_put p id s r id' :
  conn_of (put_conn id s r p) id' = if decide (id' = id) then Some s else conn_of p id'.
Proof.
  unfold conn_of, put_conn, set_conns, set_client. cbn. case_decide as Hd.
  - subst. rewrite !lookup_insert_eq. cbn. by destruct s.
  - by rewrite !lookup_insert_ne by done.
Qed.

(** A step through [put_conn]. *)
Lemma conns_put tr e p id l s s' r :
  conns_ok tr p → conn_of p id = Some s → conn_step s l s' →
  (∀ id', conn_label id' e = if id =? id' then [l] else []) → conns_ok (tr ++ [e]) (put_conn id s' r p).
Proof.
  intros Hok Hs Hstep He. eapply conns_move; try done.
  - rewrite conn_of_put. by rewrite decide_True.
  - intros id' Hne. rewrite conn_of_put. by rewrite decide_False.
  - intros id'. cbn. destruct (decide (id' = id)) as [->|]; [|by rewrite lookup_insert_ne].
    rewrite lookup_insert_eq. apply conn_of_Some in Hs as (w & _ & Hw & _). rewrite Hw. split; by eexists.
  - apply (cn_cur _ _ Hok).
Qed.

(** A read pump that only changes where it is. *)
Lemma conns_pc tr id p q s r :
  conns_ok tr p → conn_of p id = Some s → q.(p_pcs) = p.(p_pcs) →
  (mgr_of q).(Session.heap) = (mgr_of p).(Session.heap) → (mgr_of q).(clientIDCounter) = (mgr_of p).(clientIDCounter) →
  q.(p_conns) = <[id := mkPumps s.(pumping) s.(written) r]> p.(p_conns) →
  conns_ok tr q.
Proof.
  intros [H1 H2 H3 H4 H5] Hs Hp Hh Hctr Hc. pose proof Hs as (w & Hw1 & Hw2 & Hw3 & Hw4)%conn_of_Some.
  assert (∀ id', conn_of q id' = conn_of p id') as Hsame.
  { intros id'. unfold conn_of. rewrite Hh, Hc. destruct (decide (id' = id)) as [->|]; [|by rewrite lookup_insert_ne].
    rewrite lookup_insert_eq, Hw1, Hw2. cbn. by rewrite Hw3, Hw4. }
  split.
  - intros id'. rewrite Hh, Hc, H1. destruct (decide (id' = id)) as [->|]; [|by rewrite lookup_insert_ne].
    rewrite lookup_insert_eq, Hw2. split; by eexists.
  - by rewrite Hh, Hctr.
  - by rewrite Hh.
  - by rewrite Hh, Hp.
  - intros id' s'. rewrite Hsame. apply H5.
Qed.

Lemma conns_read tr e p q : conns_ok tr p → (∀ id, conn_label id e = []) → conns_ok tr q → conns_ok (tr ++ [e]) q.
Proof.
  intros _ He [H1 H2 H3 H4 H5]. split; try done.
  - intros id Hn. rewrite conn_labels_more, He, app_nil_r. by apply H3.
  - intros id s Hs. rewrite conn_labels_more, He, app_nil_r. by apply H5.
Qed.

Lemma conns_connect tr p id m :
  conns_ok tr p → (mgr_of p).(clientIDCounter) + 1 < 2 ^ 64 → Register bufferSize (mgr_of p) = (id, m) →
  conns_ok (tr ++ [EvConnect id]) (set_conns m (<[id := mkPumps true [] Reading]> p.(p_conns)) p).
Proof.
  intros [H1 [H2 H2'] H3 H4 H5] Hlim. unfold Register. rewrite uwrap_id by (unfold is_u; lia). intros [= <- <-].
  set (c := (mgr_of p).(clientIDCounter)) in *.
  assert ((mgr_of p).(Session.heap) !! (c + 1) = None) as Hnew.
  { apply eq_None_not_Some. intros H%H2'. lia. }
  split; cbn [set_conns p_feed f_mgr p_conns p_pcs Session.heap clientIDCounter].
  - intros id. destruct (decide (id = c + 1)) as [->|]; [|by rewrite !lookup_insert_ne].
    rewrite !lookup_insert_eq. split; by eexists.
  - split; [lia|]. intros id. destruct (decide (id = c + 1)) as [->|]; [lia|]. rewrite lookup_insert_ne by done.
    intros H%H2'. lia.
  - intros id Hn. destruct (decide (id = c + 1)) as [->|]; [by rewrite lookup_insert_eq in Hn|].
    rewrite lookup_insert_ne in Hn by done. rewrite conn_labels_more, app_nil_r. by apply H3.
  - intros loc msgs todo id frames next Hp. destruct (decide (id = c + 1)) as [->|]; [rewrite lookup_insert_eq; by eexists|].
    rewrite lookup_insert_ne by done. by eapply H4.
  - intros id s. unfold conn_of. cbn [set_conns p_feed f_mgr p_conns Session.heap]. rewrite conn_labels_more, app_nil_r.
    destruct (decide (id = c + 1)) as [->|].
    + rewrite !lookup_insert_eq. intros [= <-]. rewrite (H3 _ Hnew). constructor.
    + rewrite !lookup_insert_ne by done. apply H5.
Qed.

(** A runner's access, to the clients. *)
Lemma conns_moved tr sym now order p c c' f' ctrl' :
  conns_ok tr p → p.(p_pcs) !! sym.(Symbol.LocateCode) = Some c →
  moved marshal sym now order p.(p_feed) p.(p_ctrl) c c' f' ctrl' →
  conns_ok (tr ++ [EvRun sym c c']) (set_runner sym.(Symbol.LocateCode) c' f' ctrl' p).
Proof.
  intros Hok Hc Hm. assert (∀ next msgs frames todo id nx, next_pc next ≠ Fanning msgs todo (Some (id, frames)) nx) as Hnext
    by by intros [].
  assert (∀ h, (∀ id frames msgs todo next, c' = Fanning msgs todo (Some (id, frames)) next → is_Some (h !! id)) →
    h = (mgr_of p).(Session.heap) →
    ∀ loc msgs todo id frames next, <[sym.(Symbol.LocateCode) := c']> p.(p_pcs) !! loc = Some (Fanning msgs todo (Some (id, frames)) next) →
    is_Some ((mgr_of p).(Session.heap) !! id)) as Hpc.
  { intros h Hcur -> loc msgs todo id frames next. destruct (decide (loc = sym.(Symbol.LocateCode))) as [->|].
    - rewrite lookup_insert_eq. intros [= ->]. by eapply Hcur.
    - rewrite lookup_insert_ne by done. apply (cn_cur _ _ Hok). }
  destruct Hm as [c c' k ctrl' Hq _ _|pace price n msgs new b action r s' _ _ _|pace msgs m rest|msgs todo id data rest next].
  - apply (conns_same tr _ p); try done; [intros id; by destruct Hq|]. eapply Hpc; [|reflexivity].
    destruct Hq; try (intros; discriminate); try (unfold fan_out; case_decide; intros; discriminate).
    + unfold visit. intros id' frames ms td nx. destruct (Session.heap _ !! id) as [cl|] eqn:E; [|discriminate].
      destruct (IsSubscribed _ _); [|discriminate]. intros [= <- <- <- <- <-]. by eexists.
    + intros. by destruct (Hnext next msgs0 frames todo id next0).
  - apply (conns_same tr _ p); try done. eapply Hpc; [|reflexivity]. discriminate.
  - apply (conns_same tr _ p); try done. eapply Hpc; [|reflexivity]. discriminate.
  - destruct (cn_cur _ _ Hok _ _ _ _ _ _ Hc) as [cl Hcl]. pose proof (proj1 (cn_dom _ _ Hok id) (ex_intro _ cl Hcl)) as [w Hw].
    set (s := mkConn cl w.(p_pumping) w.(p_written)).
    assert (conn_of p id = Some s) as Hs by (unfold conn_of; by rewrite Hcl; cbn; rewrite Hw).
    apply (conns_move tr _ p _ id (LSend data) s (mkConn (Send data cl).2 w.(p_pumping) w.(p_written))); try done.
    + constructor.
    + unfold conn_of. cbn. unfold update_client. rewrite Hcl. cbn. by rewrite lookup_insert_eq, Hw.
    + intros id' Hne. unfold conn_of. cbn. unfold update_client. rewrite Hcl. cbn. by rewrite lookup_insert_ne.
    + cbn. unfold update_client. by rewrite Hcl.
    + cbn. unfold update_client. by rewrite Hcl.
    + eapply Hpc; [|reflexivity]. intros id' frames ms td nx [= <- <- <- <- <-]. by eexists.
Qed.

Lemma step_conns tr p e q : limited p → step p e q → conns_ok tr p → conns_ok (tr ++ [e]) q.
Proof.
  intros Hlim Hstep Hok. destruct Hstep; try (apply (conns_same tr _ p); try done; apply Hok).
  - eapply conns_moved; [done|done|]. by eapply advance_moved.
  - apply conns_connect; [done|apply Hlim|done].
  - by eapply conns_put.
  - apply (conns_read tr _ p); [done|done|]. eapply conns_pc; try done. cbn. pose proof H as (w & Hh & _)%conn_of_Some. by apply insert_id.
  - by eapply conns_put.
  - apply (conns_read tr _ p); [done|done|]. eapply conns_pc; try done. cbn. pose proof H as (w & Hh & _)%conn_of_Some. by apply insert_id.
  - apply (conns_read tr _ p); [done|done|]. eapply conns_pc; try done. cbn. pose proof H as (w & Hh & _)%conn_of_Some. by apply insert_id.
  - apply (conns_read tr _ p); [done|done|]. subst m. by eapply conns_pc.
  - by eapply conns_put.
Qed.

(** No client yet. *)
Definition no_clients (p : process) : Prop :=
  (mgr_of p).(Session.heap) = ∅ ∧ p.(p_conns) = ∅ ∧ 0 ≤ (mgr_of p).(clientIDCounter) ∧
  ∀ loc msgs todo cur next, p.(p_pcs) !! loc ≠ Some (Fanning msgs todo cur next).

Lemma run_conns p0 tr p : no_clients p0 → run p0 tr p → conns_ok tr p.
Proof.
  intros (Hh & Hc & Hi & Hf) Hrun. induction Hrun as [|tr p e q Hrun IH Hl Hs].
  - split.
    + intros id. by rewrite Hh, Hc, !lookup_empty.
    + split; [done|]. intros id. rewrite Hh, lookup_empty. by intros [].
    + done.
    + intros loc msgs todo id frames next H. by destruct (Hf _ _ _ _ _ H).
    + intros id s Hs. unfold conn_of in Hs. by rewrite Hh, lookup_empty in Hs.
  - by eapply step_conns.
Qed.

(** C24. A client of the running process sees a lossy FIFO: whatever the runners,
    the other clients and its own two pumps do, its channel keeps its capacity and
    the frames on the wire, then the at most one whose write failed, then those in
    its channel are, in order, a subsequence of the frames offered to it since it
    connected; the number left out is its drop counter. *)
Theorem client_stream (p0 p : process) (tr : list event) (id : Z) (s : conn)
    (H0 : no_clients p0) (Hrun : run p0 tr p) (Hs : conn_of p id = Some s) :
  (length (queue s) ≤ bufferSize)%nat ∧
  ∃ lost, let acc := wire s ++ lost ++ queue s in let off := sent (conn_labels id tr) in
    sublist acc off ∧ (length lost ≤ 1)%nat ∧ (s.(pumping) = true → lost = []) ∧
    s.(client).(Client.Dropped) = to_u64 (Z.of_nat (length off - length acc)).
Proof.
  pose proof (cn_run _ _ (run_conns p0 tr p H0 Hrun) id s Hs) as Hc.
  destruct (delivered_run bufferSize [] (fresh_conn bufferSize) (conn_labels id tr) s) as [(acc & lost & Hsub & -> & Hl & Hp & Hd) _ Hroom]; [|exact Hc|].
  - split; [|done|cbn; lia]. exists [], []. split_and!; [apply sublist_nil|done|cbn; lia|done|reflexivity].
  - split; [done|]. exists lost. done.
Qed.

(** ** A subscriber is offered everything *)

Section subscriber.
Context (loc id : Z) (fmt : Format).

(** The frames the symbol's runner sends to the client, and the messages it broadcasts. *)
Definition frames_by (e : event) : list frame :=
  match e with
  | EvRun sym (Fanning _ _ (Some (id', data :: _)) _) _ =>
      if (sym.(Symbol.LocateCode) =? loc) && (id' =? id) then [data] else []
  | _ => []
  end.
Definition broadcast_by (e : event) : list Message.t :=
  match e with
  | EvRun sym (Publishing _ _ | Published _) (Fanning msgs _ None _) =>
      if sym.(Symbol.LocateCode) =? loc then msgs else []
  | _ => []
  end.
Definition frames_to (tr : list event) : list frame := concat (frames_by <$> tr).
Definition broadcasts (tr : list event) : list Message.t := concat (broadcast_by <$> tr).

(** The client keeps its format and its subscriptions, and stays in the map. *)
Definition steady (e : event) : Prop :=
  match e with
  | EvUnregister id' => id' ≠ id
  | EvConn id' (LFormat _ | LSubscribe _ | LSubscribeAll | LUnsubscribe _) => id' ≠ id
  | _ => True
  end.

Definition subscribed (p : process) : Prop :=
  id ∈ (mgr_of p).(clients) ∧ ∃ c, (mgr_of p).(Session.heap) !! id = Some c ∧
    c.(Client.format) = fmt ∧ IsSubscribed loc c = true.

(** What the broadcast in progress has still to send to the client. *)
Definition pending (c : pc) : list frame :=
  match c with
  | Fanning msgs todo cur _ =>
      match cur with Some (id', frames) => if id' =? id then frames else [] | None => [] end ++
      (if decide (id ∈ todo) then encodeAll marshal fmt msgs else [])
  | _ => []
  end.
Definition pending_at (p : process) : list frame :=
  match p.(p_pcs) !! loc with Some c => pending c | None => [] end.

(** No client is visited twice. *)
Definition fan_ok (c : pc) : Prop :=
  match c with Fanning _ todo _ _ => NoDup todo | _ => True end.
Definition fans_ok (p : process) : Prop := ∀ c, p.(p_pcs) !! loc = Some c → fan_ok c.

Lemma encodeAll_app m1 m2 : encodeAll marshal fmt (m1 ++ m2) = encodeAll marshal fmt m1 ++ encodeAll marshal fmt m2.
Proof. destruct fmt; apply omap_app. Qed.

Lemma next_pending next : pending (next_pc next) = [].
Proof. by destruct next. Qed.

Lemma fan_out_pending sym order now msgs next :
  id ∈ order → pending (fan_out sym order now msgs next) =
    encodeAll marshal fmt (match fan_out sym order now msgs next with Fanning ms _ None _ => ms | _ => [] end).
Proof.
  intros Hin. unfold fan_out. case_decide; cbn.
  - by destruct fmt.
  - by rewrite decide_True.
Qed.

Lemma fan_out_fan sym order now msgs next : NoDup order → fan_ok (fan_out sym order now msgs next).
Proof. intros. unfold fan_out. case_decide; cbn; [constructor|done]. Qed.

(** The accesses of the symbol's own runner. *)
Lemma moved_pending sym now order f ctrl c c' f' ctrl' cl :
  moved marshal sym now order f ctrl c c' f' ctrl' → sym.(Symbol.LocateCode) = loc →
  f.(f_mgr).(Session.heap) !! id = Some cl → cl.(Client.format) = fmt → IsSubscribed loc cl = true →
  NoDup order → id ∈ order → fan_ok c →
  fan_ok c' ∧ frames_by (EvRun sym c c') ++ pending c' = pending c ++ encodeAll marshal fmt (broadcast_by (EvRun sym c c')).
Proof.
  intros Hm Hl Hcl Hf Hsub Hnd Hin Hok. assert (encodeAll marshal fmt [] = []) as Hnil by by destruct fmt.
  destruct Hm as [c c' k ctrl' Hq _ _|pace price n msgs new b action r s' _ _ _|pace msgs m rest|msgs todo id' data rest next].
  - destruct Hq; cbn [frames_by broadcast_by pending]; rewrite ?Hnil, ?app_nil_r; try done.
    + split; [by apply fan_out_fan|]. rewrite fan_out_pending by done. rewrite Hl, Z.eqb_refl. unfold fan_out. by case_decide.
    + apply NoDup_cons in Hok as [Hn Hok]. split; [done|]. unfold visit. rewrite Hl. destruct (decide (id0 = id)) as [->|Hne].
      * rewrite Hcl, Hsub, Z.eqb_refl, Hf. rewrite (decide_False (P := id ∈ todo)) by done.
        rewrite decide_True by left. cbn. by rewrite app_nil_r.
      * assert ((if decide (id ∈ id0 :: todo) then encodeAll marshal fmt msgs else []) =
          (if decide (id ∈ todo) then encodeAll marshal fmt msgs else [])) as ->.
        { apply decide_ext. rewrite elem_of_cons. naive_solver. }
        destruct (Session.heap _ !! id0) as [x|]; [|done]. destruct (IsSubscribed loc x); [|done].
        cbn. by rewrite (proj2 (Z.eqb_neq id0 id) Hne).
    + split; [done|]. by destruct (id0 =? id).
    + split; [by destruct next|]. rewrite next_pending. by destruct next.
    + split; [by apply fan_out_fan|]. rewrite fan_out_pending by done. rewrite Hl, Z.eqb_refl. unfold fan_out. by case_decide.
  - cbn. by rewrite Hnil.
  - cbn. by rewrite Hnil.
  - split; [done|]. cbn. rewrite Hl, Z.eqb_refl, Hnil, app_nil_r. cbn. by destruct (id' =? id).
Qed.

(** What the client's format and subscriptions depend on. *)
Definition same_client (c c' : Client.t) : Prop :=
  c'.(Client.format) = c.(Client.format) ∧ IsSubscribed loc c' = IsSubscribed loc c.

Lemma subscribed_same p q c c' :
  (mgr_of p).(Session.heap) !! id = Some c → (mgr_of q).(Session.heap) !! id = Some c' → same_client c c' →
  id ∈ (mgr_of q).(clients) → subscribed p → subscribed q.
Proof.
  intros Hc Hc' [E1 E2] Hin (_ & c0 & Hc0 & Hf & Hs). split; [done|]. exists c'.
  assert (c0 = c) as -> by congruence. split_and!; congruence.
Qed.

Lemma same_client_refl c : same_client c c.
Proof. done. Qed.

Lemma Send_same data c : same_client c (Send data c).2.
Proof. unfold Send. by case_decide. Qed.

Lemma subscribed_put p id' s s' r l :
  conn_of p id' = Some s → conn_step s l s' → steady (EvConn id' l) → subscribed p → subscribed (put_conn id' s' r p).
Proof.
  intros Hs Hstep Hst Hsub. pose proof Hsub as (Hin & c & Hc & _).
  pose proof Hs as (w & Hh & _)%conn_of_Some. destruct (decide (id' = id)) as [->|Hne].
  - eapply (subscribed_same p _ c s'.(client)); [done|cbn; by rewrite lookup_insert_eq| |done|done].
    assert (c = s.(client)) as -> by congruence.
    destruct Hstep; try (by destruct Hst); try apply same_client_refl. apply Send_same.
  - eapply (subscribed_same p _ c c); [done|cbn; by rewrite lookup_insert_ne by congruence|done..].
Qed.

Lemma subscribed_pc p id' s r : conn_of p id' = Some s → subscribed p → subscribed (put_conn id' s r p).
Proof.
  intros Hs Hsub. pose proof Hsub as (Hin & c & Hc & _). pose proof Hs as (w & Hh & _)%conn_of_Some.
  eapply (subscribed_same p _ c c); [done| |done..]. cbn.
  destruct (decide (id' = id)) as [->|Hne]; [rewrite lookup_insert_eq; congruence|by rewrite lookup_insert_ne by congruence].
Qed.

Lemma step_subscribed tr p e q :
  conns_ok tr p → limited p → step p e q → steady e → subscribed p → subscribed q.
Proof.
  intros Hok Hlim Hstep Hst Hsub. pose proof Hsub as (Hin & c0 & Hc & _). destruct Hstep; try exact Hsub.
  - apply advance_moved in H3. destruct H3 as [| | |msgs todo id1 data rest next]; try exact Hsub.
    eapply (subscribed_same p _ c0 (if id1 =? id then (Send data c0).2 else c0)); [done| | |cbn|done].
    + cbn. unfold update_client. destruct (Z.eqb_spec id1 id) as [->|Hne].
      * rewrite Hc. cbn. by rewrite lookup_insert_eq.
      * destruct (Session.heap _ !! id1); [|done]. cbn. by rewrite lookup_insert_ne by congruence.
    + destruct (id1 =? id); [apply Send_same|apply same_client_refl].
    + unfold update_client. by destruct (Session.heap _ !! id1).
  - pose proof (proj2 (cn_ids _ _ Hok) id (ex_intro _ c0 Hc)) as Hle. unfold Register in H0.
    pose proof (proj1 (cn_ids _ _ Hok)). pose proof (lm_clients _ Hlim).
    rewrite uwrap_id in H0 by (unfold is_u; lia). injection H0 as <- <-.
    eapply (subscribed_same p _ c0 c0); [done| |done| |done]; cbn; [rewrite lookup_insert_ne by lia; done|set_solver].
  - by eapply subscribed_put.
  - by apply subscribed_pc.
  - by eapply subscribed_put.
  - by apply subscribed_pc.
  - by apply subscribed_pc.
  - subst m. eapply (subscribed_same p _ c0 c0); [done|done|done| |done]. cbn in *. set_solver.
  - by eapply subscribed_put.
Qed.

Lemma step_pending tr p e q :
  conns_ok tr p → step p e q → subscribed p → fans_ok p →
  fans_ok q ∧ frames_by e ++ pending_at q = pending_at p ++ encodeAll marshal fmt (broadcast_by e).
Proof.
  intros Hok Hstep (Hin & cl & Hcl & Hf & Hsub) Hfan. assert (encodeAll marshal fmt [] = []) as Hnil by by destruct fmt.
  destruct Hstep as [p fuel nowc now order sym c c' f ctrl Hsym Hc Hnd Hiff E| | | | | | | | | | | | | | | | | | | | | ];
    try (split; [exact Hfan|]; cbn [frames_by broadcast_by]; rewrite Hnil, app_nil_r; done).
  apply advance_moved in E. unfold fans_ok, pending_at in *. cbn [set_runner p_pcs].
  destruct (decide (sym.(Symbol.LocateCode) = loc)) as [Hl|Hne].
  - rewrite Hl in *. rewrite lookup_insert_eq, Hc. destruct (moved_pending sym now order _ _ _ _ _ _ cl E Hl Hcl Hf Hsub Hnd) as [H1 H2];
      [by apply Hiff|by apply Hfan|]. split; [|done]. by intros ? [= <-].
  - rewrite lookup_insert_ne by done. split; [done|].
    assert (frames_by (EvRun sym c c') = [] ∧ broadcast_by (EvRun sym c c') = []) as [-> ->].
    { apply Z.eqb_neq in Hne. unfold frames_by, broadcast_by. rewrite Hne. by repeat case_match. }
    by rewrite Hnil, app_nil_r.
Qed.

(** A stamped batch tells a consumer what the batch did; the burst announcement nothing. *)
Lemma apply_stamp ts stock v m : apply_msg v (stamp ts stock m) = apply_msg v m.
Proof. unfold stamp, apply_msg. by case_decide. Qed.

Lemma replay_stamp ts stock v msgs : replay v (stamp ts stock <$> msgs) = replay v msgs.
Proof. revert v. induction msgs as [|m msgs IH]; intros v; [done|]. cbn. unfold replay in IH. by rewrite apply_stamp, IH. Qed.

Lemma step_broadcast p e q v : step p e q → replay v (broadcast_by e) = replay v (published_by loc e).
Proof.
  intros Hstep. destruct Hstep as [p fuel nowc now order sym c c' f ctrl _ _ _ _ E| | | | | | | | | | | | | | | | | | | | | ]; try done.
  apply advance_moved in E. destruct E as [c c' k ctrl' Hq _ _|pace price n msgs new b action r s' _ _ _|pace msgs m rest|msgs todo id' data rest next]; try done.
  destruct Hq; try done; cbn [broadcast_by published_by]; destruct (_ =? loc); unfold fan_out; case_decide; subst; try done.
  apply replay_stamp.
Qed.

Lemma run_subscriber p0 tr0 p1 tr p2 :
  no_clients p0 → run p0 tr0 p1 → run p1 tr p2 → subscribed p1 → fans_ok p1 → Forall steady tr →
  subscribed p2 ∧ fans_ok p2 ∧ frames_to tr ++ pending_at p2 = pending_at p1 ++ encodeAll marshal fmt (broadcasts tr) ∧
  conns_ok (tr0 ++ tr) p2 ∧ ∀ v, replay v (broadcasts tr) = replay v (published loc tr).
Proof.
  intros H0 Hr0 Hrun Hsub Hfan Hst. assert (encodeAll marshal fmt [] = []) as Hnil by by destruct fmt.
  induction Hrun as [|tr p e q Hrun IH Hl Hs].
  { rewrite app_nil_r. unfold broadcasts. cbn. rewrite Hnil, app_nil_r. split_and!; try done. by eapply run_conns. }
  apply Forall_app in Hst as [Hst [He _]%Forall_cons].
  destruct IH as (IH1 & IH2 & IH3 & IH4 & IH5); [done..|].
  destruct (step_pending _ _ _ _ IH4 Hs IH1 IH2) as [Hf Hp].
  unfold frames_to, broadcasts, published. rewrite !concat_fmap_snoc, encodeAll_app.
  split_and!; [by eapply step_subscribed|done| |rewrite app_assoc; by eapply step_conns|].
  - rewrite <- app_assoc, Hp, app_assoc, app_assoc. f_equal. exact IH3.
  - intros v. rewrite !replay_app. rewrite (step_broadcast _ _ _ _ Hs). f_equal. apply IH5.
Qed.

End subscriber.

(** C8. A subscriber is offered everything, in order.  Take any stretch of a run
    over which a connected client keeps its format and its subscription to a symbol
    and at whose ends the symbol's runner is in no broadcast: the frames the runner
    sends to it are exactly the encodings, in its format, of the messages broadcast
    in between; and a consumer that replays those does what one that replays the
    messages the runner published does. *)
Theorem subscriber_offered_all (p0 p1 p2 : process) (tr0 tr : list event) (loc id : Z) (fmt : Format)
    (H0 : no_clients p0) (Hr0 : run p0 tr0 p1) (Hrun : run p1 tr p2)
    (Hsub : subscribed loc id fmt p1) (Hst : Forall (steady id) tr)
    (Hquiet : ∀ p msgs todo cur next, p = p1 ∨ p = p2 → p.(p_pcs) !! loc ≠ Some (Fanning msgs todo cur next)) :
  frames_to loc id tr = encodeAll marshal fmt (broadcasts loc tr) ∧
  ∀ v, replay v (broadcasts loc tr) = replay v (published loc tr).
Proof.
  assert (∀ p, p = p1 ∨ p = p2 → pending_at loc id fmt p = []) as Hp.
  { intros p Hin. unfold pending_at. destruct (p_pcs p !! loc) as [c|] eqn:E; [|done].
    destruct c; try done. by destruct (Hquiet _ _ _ _ _ Hin E). }
  destruct (run_subscriber loc id fmt p0 tr0 p1 tr p2) as (_ & _ & He & _ & Hv); try done.
  { intros c E. destruct c; try done. by destruct (Hquiet p1 _ _ _ _ (or_introl eq_refl) E). }
  rewrite (Hp p1), (Hp p2), app_nil_r in He by auto. by split.
Qed.

End process.
