(* ===== verification/ProcessInit.v ===== *)
(** * The start of the process

    From an empty database main seeds every book from its base price; the process
    it then starts satisfies the invariant of its runs. *)
From S2P Require Import Prelude Word Float64 Rng Gaussian Symbols Market Stress Book BookSide BookSpec BookProps Itch Simulator SimFrame SimProps SimInit.
From S2P Require Import ItchJson Session Snapshot SnapshotProps Trades Archive Archiver Feed FeedProps World Process RunnerProps ProcessInv ProcessProps ProcessTrades ProcessConn.

Local Open Scope Z_scope.

(** The books main makes, and the world before anything is loaded or seeded. *)
Definition new_books (syms : list Symbol.t) : gmap Z Book.t :=
  fold_left (λ m s, <[s.(Symbol.LocateCode) := NewBook s.(Symbol.LocateCode) s.(Symbol.TickSize)]> m) syms ∅.

Definition start_world (now seed : Z) (syms : list Symbol.t) : world :=
  mkWorld ∅ 0 0 (new_books syms) (NewMarketEngine (Rng.NewRNG now seed) syms).

Definition start_feed (now seed : Z) (syms : list Symbol.t) : feed :=
  mkFeed (start_world now seed syms) (mkManager 0 ∅ ∅) [].

(** Every runner is about to start; [zero_ctrl] is the controller before
    [NewStressController]. *)
Definition zero_ctrl (f : feed) : StressController :=
  mkStress f.(f_world).(w_market).(Market.rng) PhaseCalm 0 0 fzero fzero fzero fzero.

Definition start_process (syms : list Symbol.t) (f : feed) (st : store) (d : database) : process :=
  mkProcess f (zero_ctrl f) (fold_left (λ m s, <[s.(Symbol.LocateCode) := Start]> m) syms ∅) [] st SnapIdle d ∅.

Record seedable (syms : list Symbol.t) : Prop := mk_seedable {
  sd_locs : NoDup (Symbol.LocateCode <$> syms);
  sd_u16 : ∀ s, s ∈ syms → is_u 16 s.(Symbol.LocateCode);
  sd_tick : ∀ s, s ∈ syms → tick_ok s.(Symbol.TickSize);
  sd_price : ∀ s, s ∈ syms → is_num s.(Symbol.BasePrice);
}.

(** ** Maps built from the symbols *)

Lemma index_lookup {A} (f : Symbol.t → A) (syms : list Symbol.t) (m : gmap Z A) loc :
  NoDup (Symbol.LocateCode <$> syms) →
  fold_left (λ m s, <[s.(Symbol.LocateCode) := f s]> m) syms m !! loc =
    match List.find (λ s, s.(Symbol.LocateCode) =? loc) syms with Some s => Some (f s) | None => m !! loc end.
Proof.
  revert m. induction syms as [|s syms IH]; intros m Hnd; [done|]. cbn in *. apply NoDup_cons in Hnd as [Hn Hnd].
  rewrite IH by done. destruct (Z.eqb_spec (Symbol.LocateCode s) loc) as [<-|Hne].
  - destruct (List.find _ syms) as [s'|] eqn:E; [|apply lookup_insert_eq].
    apply List.find_some in E as [Hin E%Z.eqb_eq]. destruct Hn. rewrite <- E. by apply list_elem_of_fmap_2, list_elem_of_In.
  - destruct (List.find _ syms); [done|]. by rewrite lookup_insert_ne.
Qed.

Lemma index_elem {A} (f : Symbol.t → A) (syms : list Symbol.t) s :
  NoDup (Symbol.LocateCode <$> syms) → s ∈ syms →
  fold_left (λ m s, <[s.(Symbol.LocateCode) := f s]> m) syms (∅ : gmap Z A) !! s.(Symbol.LocateCode) = Some (f s).
Proof.
  intros Hnd Hin. rewrite index_lookup by done. destruct (List.find _ syms) as [s'|] eqn:E.
  - apply List.find_some in E as [Hin' E%Z.eqb_eq]. do 2 f_equal.
    eapply (NoDup_fmap_eq Symbol.LocateCode syms); [done|by apply list_elem_of_In|done|done].
  - apply List.find_none with (x := s) in E; [|by apply list_elem_of_In]. by rewrite Z.eqb_refl in E.
Qed.

Lemma index_some {A} (f : Symbol.t → A) (syms : list Symbol.t) loc x :
  NoDup (Symbol.LocateCode <$> syms) → fold_left (λ m s, <[s.(Symbol.LocateCode) := f s]> m) syms (∅ : gmap Z A) !! loc = Some x →
  ∃ s, s ∈ syms ∧ s.(Symbol.LocateCode) = loc ∧ x = f s.
Proof.
  intros Hnd. rewrite index_lookup by done. destruct (List.find _ syms) as [s'|] eqn:E; [|by rewrite lookup_empty].
  apply List.find_some in E as [Hin' E%Z.eqb_eq]. intros [= <-]. exists s'. split; [by apply list_elem_of_In|done].
Qed.

Lemma seedable_ok syms : seedable syms → syms_ok syms.
Proof. intros [Hnd _ Ht _]. split; [intros s Hs; exact (index_elem (λ s, s) syms s Hnd Hs)|exact Ht]. Qed.

(** ** Seeding the books *)

Definition empty_book (b : Book.t) : Prop := b.(Book.Bids) = [] ∧ b.(Book.Asks) = [] ∧ b.(Book.orderMap) = ∅.

Lemma empty_sim_ok w loc b : empty_book b → 0 ≤ w.(w_orderID) → sim_ok loc (sim_of w b).
Proof.
  intros (E1 & E2 & E3) H. destruct b as [l t bids asks m]. cbn in *. subst. split; [|constructor|done].
  split; cbn; try done; try (split; [split; constructor|cbn; lia]); try constructor.
  - by rewrite lookup_empty.
  - by intros [?%elem_of_nil _].
Qed.

Lemma new_books_ok now seed syms : seedable syms → books_ok (start_world now seed syms).
Proof.
  intros [Hnd Hu _ _]. assert (∀ loc b, new_books syms !! loc = Some b → is_u 16 loc ∧ empty_book b) as Hb.
  { intros loc b (s & Hs & <- & ->)%index_some; [|done]. split; [by apply Hu|done]. }
  assert (∀ loc o, o ∉ book_orders (start_world now seed syms) loc) as Hno.
  { intros loc o. unfold book_orders. cbn [start_world w_books w_heap]. destruct (new_books syms !! loc) as [b|] eqn:E; [|apply not_elem_of_nil].
    destruct (Hb _ _ E) as [_ (E1 & E2 & _)]. rewrite a_orders_abs. unfold book_ptrs. rewrite E1, E2. apply not_elem_of_nil. }
  split; [| |done|done|apply Rng.NewRNG_wf].
  - intros loc b E. destruct (Hb _ _ E) as [Hl He]. split; [done|]. by apply empty_sim_ok.
  - intros loc1 loc2 o1 o2 H1. by apply Hno in H1.
Qed.

(** One symbol's [Initialize], among the others. *)
Lemma initialize_one f sym b :
  books_ok f.(f_world) → f.(f_world).(w_books) !! sym.(Symbol.LocateCode) = Some b → empty_book b →
  tick_ok sym.(Symbol.TickSize) → is_num sym.(Symbol.BasePrice) → f.(f_world).(w_orderID) + 60 < 2 ^ 64 →
  ∃ msgs f', on_sim sym.(Symbol.LocateCode)
      (Initialize sym.(Symbol.LocateCode) sym.(Symbol.TickSize) sym.(Symbol.BasePrice)) f = Some (msgs, f') ∧
    books_ok f'.(f_world) ∧ f'.(f_world).(w_orderID) = f.(f_world).(w_orderID) + 60 ∧
    f'.(f_world).(w_match) = f.(f_world).(w_match) ∧
    f'.(f_mgr) = f.(f_mgr) ∧ f'.(f_trades) = f.(f_trades) ∧
    (∀ loc, loc ≠ sym.(Symbol.LocateCode) → f'.(f_world).(w_books) !! loc = f.(f_world).(w_books) !! loc ∧
      book_orders f'.(f_world) loc = book_orders f.(f_world) loc) ∧
    (∃ b', f'.(f_world).(w_books) !! sym.(Symbol.LocateCode) = Some b') ∧
    length (book_orders f'.(f_world) sym.(Symbol.LocateCode)) = 60%nat ∧ length msgs = 60%nat ∧
    replay ∅ msgs = view_at f'.(f_world) sym.(Symbol.LocateCode).
Proof.
  intros Hw Hb He Ht Hp Hroom. set (loc := sym.(Symbol.LocateCode)) in *. set (w := f.(f_world)) in *.
  destruct (bo_sim _ Hw _ _ Hb) as [Hu Hok]. pose proof (so_counter _ _ Hok) as Hc0. set (s := sim_of w b) in *.
  assert (resting_orders s = []) as Hnil.
  { destruct He as (E1 & E2 & _). unfold resting_orders, abs. rewrite a_orders_abs. unfold book_ptrs. cbn. by rewrite E1, E2. }
  assert (view s = ∅) as Hview by (unfold view; by rewrite Hnil).
  pose proof (Initialize_post loc sym.(Symbol.TickSize) sym.(Symbol.BasePrice) s s Ht Hp) as H.
  apply go_wp_iff in H as (msgs & s' & E & [Hok' Hc Hlen Hv Hmsgs _]).
  2: { split; [exact Hroom|]. rewrite Hnil. cbn. lia. }
  2: { split; [exact Hok|symmetry; apply Z.add_0_r|symmetry; apply Nat.add_0_r|reflexivity|reflexivity|constructor]. }
  2,3: apply He.
  destruct (seeds_Initialize loc sym.(Symbol.TickSize) sym.(Symbol.BasePrice) s msgs s') as [K W M C]; [by split|exact E|].
  pose proof (on_sim_run loc _ f b msgs s' Hb E) as Hrun.
  eexists _, _. split; [exact Hrun|]. cbn [f_world f_mgr f_trades]. fold w.
  assert (book_orders (put_sim loc w s') loc = resting_orders s') as Hres.
  { rewrite (book_orders_sim _ _ s'.(bk).(book)) by apply lookup_insert_eq. by rewrite sim_of_put. }
  split_and!; try done.
  - apply (action_books_ok w loc b s' Hw Hb K Hok').
    + change (counter s) with w.(w_orderID) in Hc. lia.
    + rewrite M. apply Hw.
    + apply W, Hw.
  - intros loc' Hne. split; [by apply put_lookup|]. by apply (other_orders w loc b s' Hw Hb K).
  - eexists. apply lookup_insert_eq.
  - by rewrite Hres, Hlen, Hnil.
  - unfold view_at. rewrite Hres. by rewrite <- Hview.
Qed.


Record seeded_all (syms : list Symbol.t) (f f' : feed) : Prop := mk_seeded_all {
  sa_books : books_ok f'.(f_world);
  sa_each : ∀ s, s ∈ syms → is_Some (f'.(f_world).(w_books) !! s.(Symbol.LocateCode)) ∧
    length (book_orders f'.(f_world) s.(Symbol.LocateCode)) = 60%nat;
  sa_other : ∀ loc, loc ∉ Symbol.LocateCode <$> syms →
    f'.(f_world).(w_books) !! loc = f.(f_world).(w_books) !! loc ∧ book_orders f'.(f_world) loc = book_orders f.(f_world) loc;
  sa_count : f'.(f_world).(w_orderID) = f.(f_world).(w_orderID) + 60 * Z.of_nat (length syms);
  sa_match : f'.(f_world).(w_match) = f.(f_world).(w_match);
  sa_rest : f'.(f_mgr) = f.(f_mgr) ∧ f'.(f_trades) = f.(f_trades);
}.

Lemma initialize_all syms f :
  seedable syms → books_ok f.(f_world) →
  (∀ s, s ∈ syms → ∃ b, f.(f_world).(w_books) !! s.(Symbol.LocateCode) = Some b ∧ empty_book b) →
  f.(f_world).(w_orderID) + 60 * Z.of_nat (length syms) < 2 ^ 64 →
  ∃ f', initialize_books syms f = Some (tt, f') ∧ seeded_all syms f f'.
Proof.
  revert f. induction syms as [|s syms IH]; intros f [Hnd Hu Ht Hp] Hw Hb Hroom.
  { exists f. split; [done|]. split; try done; [by intros s ?%elem_of_nil|cbn [length]; lia]. }
  cbn [fmap list_fmap length] in *. apply NoDup_cons in Hnd as [Hn Hnd].
  destruct (Hb s) as (b & Eb & He); [by left|].
  destruct (initialize_one f s b Hw Eb He) as (msgs & f1 & E & Hw1 & Hc1 & Hk1 & Hm1 & Ht1 & Ho1 & Hb1 & Hl1 & _);
    [apply Ht; by left|apply Hp; by left|lia|].
  destruct (IH f1) as (f2 & E2 & [H1 H2 H3 H4 H7 [H5 H6]]).
  - split; [done|intros x Hx; apply Hu; by right|intros x Hx; apply Ht; by right|intros x Hx; apply Hp; by right].
  - done.
  - intros x Hx. assert (x.(Symbol.LocateCode) ≠ s.(Symbol.LocateCode)) as Hne.
    { intros Ex. apply Hn. rewrite <- Ex. by apply list_elem_of_fmap_2. }
    rewrite (proj1 (Ho1 _ Hne)). apply Hb. by right.
  - lia.
  - exists f2. split.
    { unfold initialize_books in *. cbn [go_fold]. rewrite (go_bind_run _ _ f tt f1); [exact E2|].
      by rewrite (go_bind_run _ _ _ _ _ E). }
    split; [done| | |cbn [length]; lia|congruence|split; congruence].
    + intros x [->|Hx]%elem_of_cons; [|by apply H2]. destruct (H3 _ Hn) as [-> ->]. done.
    + intros loc [Hne Hni]%not_elem_of_cons. destruct (H3 _ Hni) as [-> ->]. apply Ho1. congruence.
Qed.

(** The process main starts, once the books are right. *)
Lemma start_process_ok (syms : list Symbol.t) (f : feed) (st : store) (d : database) :
  NoDup (Symbol.LocateCode <$> syms) → books_ok f.(f_world) →
  (∀ s, s ∈ syms → is_Some (f.(f_world).(w_books) !! s.(Symbol.LocateCode))) →
  f.(f_mgr) = mkManager 0 ∅ ∅ → f.(f_trades) = [] →
  let p := start_process syms f st d in
  proc_ok syms p ∧ idle p ∧ no_clients p ∧ ∀ s, s ∈ syms → p.(p_pcs) !! s.(Symbol.LocateCode) = Some Start.
Proof.
  intros Hnd Hw Hb Hm Ht p.
  assert (∀ loc c, p.(p_pcs) !! loc = Some c → c = Start) as Hpc by by intros loc c (s & _ & _ & ->)%index_some.
  split_and!.
  - split; [done|done|by left| |]; cbn; [rewrite Ht; cbn; unfold tradeChCap; lia|unfold writers; lia].
  - by intros loc c ->%Hpc.
  - split_and!; cbn; [by rewrite Hm|done|by rewrite Hm|]. by intros loc msgs todo cur next ?%Hpc.
  - intros s Hin. exact (index_elem (λ _, Start) syms s Hnd Hin).
Qed.

(** From an empty database. *)
Lemma fresh_started (syms : list Symbol.t) (now seed : Z) (flt : load_fault) (rows : list OrderRow.t) (d : database) (st : store)
    (Hs : seedable syms) (Hlen : 60 * Z.of_nat (length syms) < 2 ^ 64)
    (Hd : flt = SymbolsFail ∨ d.(Snapshot.symbols) = ∅) :
  ∃ f, startup syms flt rows d (start_feed now seed syms) = Some (tt, f) ∧
    let p := start_process syms f st d in
    proc_ok syms p ∧ idle p ∧ no_clients p ∧
    f.(f_world).(w_orderID) = 60 * Z.of_nat (length syms) ∧ f.(f_world).(w_match) = 0 ∧
    ∀ s, s ∈ syms → length (book_orders f.(f_world) s.(Symbol.LocateCode)) = 60%nat ∧
      p.(p_pcs) !! s.(Symbol.LocateCode) = Some Start.
Proof.
  destruct (initialize_all syms (start_feed now seed syms)) as (f & E & Hsa).
  - done.
  - by apply new_books_ok.
  - intros s Hin. exists (NewBook s.(Symbol.LocateCode) s.(Symbol.TickSize)). split; [|done].
    exact (index_elem (λ s, NewBook s.(Symbol.LocateCode) s.(Symbol.TickSize)) syms s (sd_locs _ Hs) Hin).
  - exact Hlen.
  - exists f. split.
    + unfold startup. rewrite (go_bind_run _ _ _ (if flt is SymbolsFail then None else Some false) (start_feed now seed syms)).
      { destruct flt; exact E. }
      unfold zoom, Load. destruct flt; [|done|]; destruct Hd as [?|Hd]; try done; by rewrite Hd, map_size_empty.
    + pose proof (sa_count _ _ _ Hsa) as Hc. cbn in Hc. destruct Hsa as [H1 H2 H3 H4 H7 [H5 H6]].
      destruct (start_process_ok syms f st d (sd_locs _ Hs) H1 (λ s Hin, proj1 (H2 s Hin)) H5 H6) as (Hok & Hi & Hnc & Hst).
      split_and!; [exact Hok|exact Hi|exact Hnc|exact Hc|exact H7|].
      intros s Hin. split; [by apply H2|by apply Hst].
Qed.

(** C27. A fresh start establishes what the runs rely on.  When no state is saved
    (the symbols table is empty, or cannot be read) main seeds every book, each
    with sixty orders of its own and no ID used twice, the counter at the last; and
    the process with a runner about to start for every symbol, no client and an
    empty channel satisfies the invariant of the running process. *)
Theorem fresh_start (syms : list Symbol.t) (now seed : Z) (flt : load_fault) (rows : list OrderRow.t) (d : database) (st : store)
    (Hs : seedable syms) (Hlen : 60 * Z.of_nat (length syms) < 2 ^ 64)
    (Hd : flt = SymbolsFail ∨ d.(Snapshot.symbols) = ∅) :
  ∃ f, startup syms flt rows d (start_feed now seed syms) = Some (tt, f) ∧
    let p := start_process syms f st d in
    proc_ok syms p ∧ idle p ∧ no_clients p ∧
    f.(f_world).(w_orderID) = 60 * Z.of_nat (length syms) ∧ f.(f_world).(w_match) = 0 ∧
    ∀ s, s ∈ syms → length (book_orders f.(f_world) s.(Symbol.LocateCode)) = 60%nat ∧
      p.(p_pcs) !! s.(Symbol.LocateCode) = Some Start.
Proof. exact (fresh_started syms now seed flt rows d st Hs Hlen Hd). Qed.
