(* ===== verification/ProcessRestart.v ===== *)
(** * Restarting from a snapshot of a running process

    What the snapshotter of a run has committed, loaded by the next start of the
    process, establishes again the invariant of the runs. *)
From S2P Require Import Prelude Word Float64 Rng Gaussian Symbols Market Stress Book BookSide BookSpec BookProps Itch Simulator SimFrame SimProps SimInit.
From S2P Require Import ItchJson Session Snapshot SnapshotProps Trades Archive Archiver Feed FeedProps World Process RunnerProps ProcessInv ProcessProps ProcessTrades ProcessSnap ProcessConn ProcessInit.

Local Open Scope Z_scope.

(** An order with shares to trade, in round lots as the simulator makes them. *)
Definition round_lots (o : Order.t) : Prop := ∃ k, 1 ≤ k ≤ 10 ∧ o.(Order.Shares) = 100 * k.

Lemma on_sides (os : list Order.t) : on_side true os ++ on_side false os ≡ₚ os.
Proof.
  induction os as [|o os IH]; [done|]. unfold on_side in *. cbn. destruct (is_buy o); cbn.
  - by f_equiv.
  - by rewrite <- Permutation_middle, IH.
Qed.

Lemma at_loc_elem loc os o : o ∈ at_loc loc os ↔ o ∈ os ∧ o.(Order.Locate) = loc.
Proof. unfold at_loc. by rewrite !list_elem_of_In, List.filter_In, Z.eqb_eq. Qed.

(** The restored books. *)
Lemma restored_orders K w0 os w1 loc :
  restored K w0 os w1 → is_Some (w1.(w_books) !! loc) → book_orders w1 loc ≡ₚ at_loc loc os.
Proof.
  intros Hr [b Hb]. destruct (rs_book _ _ _ _ Hr loc b Hb) as (_ & _ & Hside).
  unfold book_orders. rewrite Hb. unfold a_orders.
  rewrite (Hside true), (Hside false). apply on_sides.
Qed.

Lemma restored_loc K w0 os w1 loc :
  restored K w0 os w1 → is_Some (w1.(w_books) !! loc) ↔ is_Some (w0.(w_books) !! loc).
Proof.
  intros Hr. pose proof (rs_static _ _ _ _ Hr loc) as H.
  destruct (w1.(w_books) !! loc), (w0.(w_books) !! loc); cbn in H; naive_solver.
Qed.

Lemma restored_books_ok K K' c os w0 w1 w :
  restored K w0 os w1 → savable K' c os → Forall round_lots os →
  (∀ loc, is_Some (w0.(w_books) !! loc) → is_u 16 loc) →
  w.(w_books) = w1.(w_books) → w.(w_heap) = w1.(w_heap) → w.(w_orderID) = c → is_u 64 c → is_u 64 w.(w_match) →
  Rng.wf w.(w_market).(Market.rng) → books_ok w.
Proof.
  intros Hr Hs Hlots Hloc Eb Eh Ec Hc Hm Hwf.
  assert (∀ loc, book_orders w loc = book_orders w1 loc) as Eo by (intros; unfold book_orders; by rewrite Eb, Eh).
  assert (∀ loc o, o ∈ book_orders w loc → o ∈ os ∧ o.(Order.Locate) = loc) as Hin.
  { intros loc o Ho. rewrite Eo in Ho. assert (is_Some (w1.(w_books) !! loc)) as Hsm.
    { unfold book_orders in Ho. destruct (_ !! _); [done|by apply elem_of_nil in Ho]. }
    rewrite (restored_orders _ _ _ _ _ Hr Hsm) in Ho. by apply at_loc_elem. }
  destruct Hs as [_ Hrows Hnd]. rewrite !Forall_forall in *. split; [| |by rewrite Ec|done|done].
  - intros loc b Hb. assert (is_Some (w1.(w_books) !! loc)) as Hsm by (rewrite <- Eb; by eexists).
    split; [by apply Hloc, (restored_loc _ _ _ _ _ Hr)|]. split.
    + rewrite Eb in Hb. destruct (rs_book _ _ _ _ Hr loc b Hb) as [Hrep _].
      change (rep w.(w_heap) b). by rewrite Eh.
    + apply Forall_forall. intros o Ho. assert (o ∈ book_orders w loc) as Ho' by (unfold book_orders; by rewrite Hb).
      destruct (Hin loc o Ho') as [Hos <-]. destruct (Hrows o Hos) as ((_ & _ & Hside) & Hid & _).
      split; [|by apply Hlots|done|done]. change (counter _) with w.(w_orderID). by rewrite Ec.
    + change (0 ≤ w.(w_orderID)). rewrite Ec. apply Hc.
  - intros loc1 loc2 o1 o2 H1 H2 E. destruct (Hin _ _ H1) as [I1 <-], (Hin _ _ H2) as [I2 <-].
    by rewrite (NoDup_fmap_eq Order.ID os o1 o2 Hnd I1 I2 E).
Qed.

Lemma restored_rng_wf bytes r0 : saved_rng bytes → Rng.wf (Rng.RestoreStateBytes bytes r0).
Proof. intros (r & Hr & ->). rewrite Rng.RestoreStateBytes_StateBytes by done. by destruct Hr. Qed.

Lemma start_world_books now seed syms loc b :
  NoDup (Symbol.LocateCode <$> syms) → (start_world now seed syms).(w_books) !! loc = Some b →
  b = NewBook b.(Book.Locate) b.(Book.TickSize) ∧ ∃ s, s ∈ syms ∧ s.(Symbol.LocateCode) = loc.
Proof. intros Hnd (s & Hs & <- & ->)%index_some; [|done]. split; [done|by exists s]. Qed.

Section restart.
Context (math_Exp math_Log math_Sin : float64 → float64) (marshal : gmap string jval → option frame).
Context (config : StressConfig) (syms : list Symbol.t) (bufferSize : nat).

Abbreviation run := (run math_Exp math_Log math_Sin marshal config syms bufferSize).

(** Loading what was committed establishes the invariant. *)
Lemma restarted (r : reads) (w : world) (db : database) (now seed : Z) (st : store) :
  seedable syms → syms ≠ [] → snap_ok w (SnapCommit r) → Forall round_lots r.(r_orders) →
  ∃ d, Save syms true r db = (d, true) ∧ ∀ rows, rows ≡ₚ d.(orders_table) →
  ∃ f, startup syms LoadOk rows d (start_feed now seed syms) = Some (tt, f) ∧
    let q := start_process syms f st d in
    proc_ok syms q ∧ idle q ∧ no_clients q ∧
    f.(f_world).(w_orderID) = r.(r_orderID) ∧ f.(f_world).(w_match) = r.(r_match) ∧
    ∀ s, s ∈ syms →
      book_orders f.(f_world) s.(Symbol.LocateCode) ≡ₚ at_loc s.(Symbol.LocateCode) r.(r_orders) ∧
      q.(p_pcs) !! s.(Symbol.LocateCode) = Some Start.
Proof.
  intros Hseed Hne Hs Hlots. pose proof (sd_locs _ Hseed) as Hnd.
  destruct (committed_restore syms r w db (start_world now seed syms) Hs Hne) as (d & Hd & _ & Hload).
  { intros loc b Hb. by apply (start_world_books now seed syms loc b). }
  exists d. split; [exact Hd|]. intros rows Hrows.
  destruct (Hload rows Hrows) as (K & os & w1 & E & Hperm & Hres & Hid & Hma & Hrng).
  destruct Hs as (Hb & Hum & Hu & K' & Hs).
  destruct (load_state_books d w1) as (Eb & Eh & Eo).
  assert (books_ok (load_state d w1)) as Hok.
  { eapply (restored_books_ok K K' r.(r_orderID) (reverse os)); [exact Hres| | |  |exact Eb|exact Eh|exact Hid|done| |].
    - eapply savable_perm; [|exact Hs]. by rewrite reverse_Permutation.
    - by rewrite reverse_Permutation, <- Hperm.
    - intros loc [b Hl]. destruct (start_world_books now seed syms loc b Hnd Hl) as (_ & s & Hin & <-). by apply Hseed.
    - by rewrite Hma.
    - rewrite Hrng. by apply restored_rng_wf. }
  assert (∀ s, s ∈ syms → is_Some (w1.(w_books) !! s.(Symbol.LocateCode))) as Hall.
  { intros s Hin. apply (restored_loc _ _ _ _ _ Hres). eexists.
    exact (index_elem (λ s, NewBook s.(Symbol.LocateCode) s.(Symbol.TickSize)) syms s Hnd Hin). }
  eexists. split.
  { unfold startup, zoom. erewrite go_bind_run; [|cbn [start_feed f_world]; rewrite E; reflexivity]. reflexivity. }
  destruct (start_process_ok syms (mkFeed (load_state d w1) (mkManager 0 ∅ ∅) []) st d Hnd Hok) as (Hp & Hi & Hn & Hst);
    [|done|done|].
  { intros s Hin. cbn [f_world]. rewrite Eb. by apply Hall. }
  split_and!; [exact Hp|exact Hi|exact Hn|exact Hid|exact Hma|]. intros s Hin. split; [|by apply Hst].
  cbn [f_world start_feed]. rewrite Eo, (restored_orders _ _ _ _ _ Hres (Hall s Hin)).
  unfold at_loc. apply filter_perm. by rewrite reverse_Permutation.
Qed.

(** C10. The process restarts from the snapshots of its own runs.  Take a snapshot
    collected while everything was running, in which no order was sold out between
    the collection and the copy; when it is saved and the process started on that
    database, the rows in any order, every book is restored with the saved orders of
    its symbol, the two counters go on where the snapshot read them, and the process
    satisfies the invariant of the runs again. *)
Theorem restart_ok (p0 p : process) (tr : list event) (r : reads)
    (now seed : Z) (st : store) (rows : list OrderRow.t)
    (Hseed : seedable syms) (Hne : syms ≠ []) (H0 : proc_ok syms p0) (Hidle : p0.(p_snap) = SnapIdle)
    (Hrun : run p0 tr p) (Hr : p.(p_snap) = SnapCommit r) (Hlots : Forall round_lots r.(r_orders)) :
  ∃ d, Save syms true r p.(p_db) = (d, true) ∧ (rows ≡ₚ d.(orders_table) →
  ∃ f, startup syms LoadOk rows d (start_feed now seed syms) = Some (tt, f) ∧
    let q := start_process syms f st d in
    proc_ok syms q ∧ idle q ∧ no_clients q ∧
    f.(f_world).(w_orderID) = r.(r_orderID) ∧ f.(f_world).(w_match) = r.(r_match) ∧
    ∀ s, s ∈ syms →
      book_orders f.(f_world) s.(Symbol.LocateCode) ≡ₚ at_loc s.(Symbol.LocateCode) r.(r_orders) ∧
      q.(p_pcs) !! s.(Symbol.LocateCode) = Some Start).
Proof.
  pose proof (run_snap math_Exp math_Log math_Sin marshal config syms bufferSize (seedable_ok syms Hseed) p0 tr p H0 Hidle Hrun) as Hs.
  rewrite Hr in Hs. destruct (restarted r _ p.(p_db) now seed st Hseed Hne Hs Hlots) as (d & Hd & H). exists d. by split; [|apply H].
Qed.

End restart.
