(* ===== verification/ProcessDemo.v ===== *)
(** * A concrete run

    A process with one symbol and two resting orders, caught while a snapshot is
    taken: the instances of the theorems about runs, and an order that is saved with
    no shares left. *)
From S2P Require Import Prelude Word Float64 Rng Gaussian Symbols Market Stress Book BookSide BookSpec BookProps Itch Simulator SimFrame SimProps SimTheorems.
From S2P Require Import ItchJson Session Snapshot SnapshotProps Trades Archive Archiver Feed FeedProps World Process RunnerProps ProcessInv ProcessProps ProcessTrades ProcessSnap.

Local Open Scope Z_scope.

Definition demo_syms : list Symbol.t := [demo_sym].
Definition two_resting : list Order.t := [demo_order 1 SideBuy 9990 100; demo_order 2 SideSell 10010 100].
Definition demo_state : bstate :=
  Eval vm_compute in build two_resting (empty_state 1 (dec 1 2) 2 0).
Definition demo_rng : RNG := Eval vm_compute in Rng.NewRNG 0 1.

Definition demo_world : world :=
  mkWorld demo_state.(orders) 2 0 {[1 := demo_state.(book)]} (mkMarket demo_rng {[1 := dec 100 0]} ∅).
Definition demo_ctrl : StressController := mkStress demo_rng PhaseCalm 0 0 fzero fzero (dec 1 2) fzero.
Definition demo_db : database := mkDatabase ∅ [] None None None.

(** The runner has computed its price. *)
Definition demo_start : process :=
  mkProcess (mkFeed demo_world (mkManager 0 ∅ ∅) []) demo_ctrl {[1 := Priced None (dec 100 0)]} []
    (mkStore [] None ∅) SnapIdle demo_db ∅.

Lemma demo_syms_ok : syms_ok demo_syms.
Proof.
  split; intros s ->%list_elem_of_singleton; [vm_compute; reflexivity|exact cent_ok].
Qed.

Lemma demo_books_ok : books_ok demo_world.
Proof.
  split; [| |done|done|].
  - intros loc b Hb. cbn [demo_world w_books] in Hb. apply lookup_singleton_Some in Hb as [<- <-]. split; [done|].
    assert (demo_state = build two_resting (empty_state 1 (dec 1 2) 2 0)) as E by (vm_compute; reflexivity).
    split; [|apply Forall_forall|done].
    + change (book_rep demo_state). rewrite E. apply build_rep, empty_rep.
    + intros o Ho. assert (o ∈ two_resting) as Ho'.
      { assert (resting_orders (sim_of demo_world (book demo_state)) = two_resting) as <- by (vm_compute; reflexivity). done. }
      assert (∀ id sd cents, 0 < id ≤ 2 → sd = SideBuy ∨ sd = SideSell → order_ok 1 2 (demo_order id sd cents 100)) as H.
      { intros id sd cents Hid Hsd. split; [exact Hid|exists 1; split; [lia|reflexivity]|reflexivity|exact Hsd]. }
      apply elem_of_cons in Ho' as [->|[->|?%elem_of_nil]%elem_of_cons]; [| |done].
      * exact (H 1 SideBuy 9990 ltac:(lia) (or_introl eq_refl)).
      * exact (H 2 SideSell 10010 ltac:(lia) (or_intror eq_refl)).
  - assert (∀ loc o, o ∈ book_orders demo_world loc → loc = 1) as H; [|by intros loc1 loc2 o1 o2 ->%H ->%H].
    intros loc o. unfold book_orders. destruct (decide (loc = 1)) as [->|Hne]; [done|].
    cbn [demo_world w_books]. rewrite lookup_singleton_ne by done. by intros ?%elem_of_nil.
  - change (Rng.wf demo_rng). assert (demo_rng = Rng.NewRNG 0 1) as -> by (vm_compute; reflexivity). apply Rng.NewRNG_wf.
Qed.

Lemma demo_proc_ok : proc_ok demo_syms demo_start.
Proof.
  split; [exact demo_books_ok| |by left|cbn; unfold tradeChCap; lia|cbn; unfold writers; lia].
  intros s ->%list_elem_of_singleton. by eexists.
Qed.

Lemma demo_idle : idle demo_start.
Proof. intros loc c Hc. cbn [demo_start p_pcs] in Hc. by apply lookup_singleton_Some in Hc as [<- <-]. Qed.

(** ** The run *)

Abbreviation demo_step := (step (λ _, one) (λ _, float_of_Z (-1)) (λ _, fzero) (λ _, None) DefaultStressConfig demo_syms 16).
Abbreviation demo_run := (run (λ _, one) (λ _, float_of_Z (-1)) (λ _, fzero) (λ _, None) DefaultStressConfig demo_syms 16).

(** The limits, for worlds of one book. *)
Lemma demo_limited p b c :
  p.(p_feed).(f_world).(w_books) = {[1 := b]} → (length (book_orders p.(p_feed).(f_world) 1) <? 100)%nat = true →
  p.(p_feed).(f_world).(w_orderID) <? 100 = true → p.(p_feed).(f_world).(w_match) <? 100 = true →
  p.(p_feed).(f_mgr).(clientIDCounter) <? 100 = true → p.(p_pcs) = {[1 := c]} → priced c → limited p.
Proof.
  intros Hb Hl Ho%Z.ltb_lt Hm%Z.ltb_lt Hi%Z.ltb_lt Hc Hpr. apply Nat.ltb_lt in Hl. split; [split|lia|lia|].
  - lia.
  - intros loc b' H. rewrite Hb in H. apply lookup_singleton_Some in H as [<- <-]. lia.
  - intros loc c' H. rewrite Hc in H. by apply lookup_singleton_Some in H as [<- <-].
Qed.

Lemma demo_order_nil (p : process) :
  p.(p_feed).(f_mgr).(clients) = ∅ → NoDup (@nil Z) ∧ ∀ id, id ∈ (@nil Z) ↔ id ∈ p.(p_feed).(f_mgr).(clients).
Proof. intros ->. split; [constructor|]. intros id. rewrite elem_of_nil. set_solver. Qed.

(** One access of the runner, as computed. *)
Definition demo_advance (c : pc) (p : process) : option (pc * (feed * StressController)) :=
  advance (λ _, one) (λ _, float_of_Z (-1)) (λ _, fzero) (λ _, None) DefaultStressConfig demo_syms 0
    demo_sym 0 0 [] c (p.(p_feed), p.(p_ctrl)).

Lemma demo_runs p0 tr p b c c' f ctrl :
  demo_run p0 tr p → p.(p_feed).(f_world).(w_books) = {[1 := b]} →
  (length (book_orders p.(p_feed).(f_world) 1) <? 100)%nat = true →
  p.(p_feed).(f_world).(w_orderID) <? 100 = true → p.(p_feed).(f_world).(w_match) <? 100 = true →
  p.(p_feed).(f_mgr).(clientIDCounter) <? 100 = true →
  p.(p_pcs) = {[1 := c]} → priced c → p.(p_feed).(f_mgr).(clients) = ∅ →
  demo_advance c p = Some (c', (f, ctrl)) →
  demo_run p0 (tr ++ [EvRun demo_sym c c']) (set_runner 1 c' f ctrl p).
Proof.
  intros Hr Hb Hl Ho Hm Hi Hc Hp Hcl E. destruct (demo_order_nil p Hcl) as [Hnd Hiff].
  eapply run_more; [exact Hr|by eapply demo_limited|].
  refine (st_run _ _ _ _ _ _ _ p 0 0 0 [] demo_sym c c' f ctrl _ _ Hnd Hiff E); [by left|].
  rewrite Hc. apply lookup_singleton_eq.
Qed.

(** The action: a buyer takes all of order 2. *)
Definition demo_acting : pc := Acting None (dec 100 0) 3 [].
Definition demo_acted : pc * (feed * StressController) :=
  Eval vm_compute in default (Top, (demo_start.(p_feed), demo_ctrl)) (demo_advance demo_acting demo_start).

Definition demo_ptrs : list ptr := Eval vm_compute in (map_to_list demo_state.(book).(Book.orderMap)).*2.
Definition demo_prices : gmap Z float64 := {[1 := dec 100 0]}.
Definition demo_rows : list Order.t :=
  Eval vm_compute in deref demo_acted.2.1.(f_world).(w_heap) <$> demo_ptrs.

(** Snapshot begun and the book read; then the action; then the rows copied. *)
Definition demo_before : process := set_snap (SnapCopy demo_prices demo_ptrs []) demo_db demo_start.
Definition demo_after : process :=
  set_runner 1 demo_acted.1 demo_acted.2.1 demo_acted.2.2 (set_runner 1 demo_acting demo_start.(p_feed) demo_ctrl demo_before).
Definition demo_reads : reads :=
  mkReads demo_prices demo_rows (Rng.StateBytes demo_acted.2.1.(f_world).(w_market).(Market.rng)) 2 1.
Definition demo_end : process := set_snap (SnapCommit demo_reads) demo_db demo_after.
Definition demo_trace : list event :=
  [EvSnap; EvSnap; EvSnap; EvRun demo_sym (Priced None (dec 100 0)) demo_acting; EvRun demo_sym demo_acting demo_acted.1;
   EvSnap; EvSnap; EvSnap; EvSnap; EvSnap; EvSnap].

Lemma demo_start_limited : limited demo_start.
Proof. by apply (demo_limited _ demo_state.(book) (Priced None (dec 100 0))). Qed.

Lemma demo_run_before : demo_run demo_start [EvSnap; EvSnap; EvSnap] demo_before.
Proof.
  set (s1 := set_snap (SnapOrders demo_prices [1] []) demo_db demo_start).
  set (s2 := set_snap (SnapOrders demo_prices [] demo_ptrs) demo_db demo_start).
  apply (run_more _ _ _ _ _ _ _ demo_start [EvSnap; EvSnap] s2).
  2: by apply (demo_limited _ demo_state.(book) (Priced None (dec 100 0))).
  2: by apply (st_snap_collected _ _ _ _ _ _ _ s2).
  apply (run_more _ _ _ _ _ _ _ demo_start [EvSnap] s1).
  2: by apply (demo_limited _ demo_state.(book) (Priced None (dec 100 0))).
  2: { assert (s2 = set_snap (SnapOrders demo_prices [] ([] ++ (map_to_list demo_state.(book).(Book.orderMap)).*2)) s1.(p_db) s1) as ->
         by (vm_compute; reflexivity). by apply (st_snap_book _ _ _ _ _ _ _ s1 demo_prices 1 [] []). }
  apply (run_more _ _ _ _ _ _ _ demo_start [] demo_start); [constructor|exact demo_start_limited|].
  apply (st_snap_begin _ _ _ _ _ _ _ demo_start [1]); [done|]. split; [apply NoDup_singleton|].
  intros loc. rewrite list_elem_of_singleton. cbn [demo_start p_feed f_world demo_world w_books].
  destruct (decide (loc = 1)) as [->|Hne]; [rewrite lookup_singleton_eq; split; [by eexists|done]|].
  rewrite lookup_singleton_ne by done. split; [done|by intros []].
Qed.

Lemma demo_run_after : demo_run demo_start (take 5 demo_trace) demo_after.
Proof.
  change (take 5 demo_trace) with (([EvSnap; EvSnap; EvSnap] ++ [EvRun demo_sym (Priced None (dec 100 0)) demo_acting])
    ++ [EvRun demo_sym demo_acting demo_acted.1]).
  eapply demo_runs; [eapply demo_runs; [exact demo_run_before|..]|..];
    try reflexivity; try (vm_compute; reflexivity).
Qed.

Lemma demo_after_limited s : limited (set_snap s demo_db demo_after).
Proof. eapply (demo_limited _ _ demo_acted.1); try reflexivity; vm_compute; reflexivity. Qed.

Lemma demo_snaps tr s s' :
  demo_run demo_start tr (set_snap s demo_db demo_after) →
  demo_step (set_snap s demo_db demo_after) EvSnap (set_snap s' demo_db demo_after) →
  demo_run demo_start (tr ++ [EvSnap]) (set_snap s' demo_db demo_after).
Proof. intros Hr Hs. eapply run_more; [exact Hr|apply demo_after_limited|exact Hs]. Qed.

Lemma demo_run_end : demo_run demo_start demo_trace demo_end.
Proof.
  change demo_trace with ((((((take 5 demo_trace ++ [EvSnap]) ++ [EvSnap]) ++ [EvSnap]) ++ [EvSnap]) ++ [EvSnap]) ++ [EvSnap]).
  unfold demo_end.
  apply (demo_snaps _ (SnapMatch demo_prices demo_rows demo_reads.(r_rng) 2)).
  2: exact (st_snap_match _ _ _ _ _ _ _ (set_snap (SnapMatch demo_prices demo_rows demo_reads.(r_rng) 2) demo_db demo_after) _ _ _ _ eq_refl).
  apply (demo_snaps _ (SnapOrderID demo_prices demo_rows demo_reads.(r_rng))).
  2: exact (st_snap_id _ _ _ _ _ _ _ (set_snap (SnapOrderID demo_prices demo_rows demo_reads.(r_rng)) demo_db demo_after) _ _ _ eq_refl).
  apply (demo_snaps _ (SnapRng demo_prices demo_rows)).
  2: exact (st_snap_rng _ _ _ _ _ _ _ (set_snap (SnapRng demo_prices demo_rows) demo_db demo_after) _ _ eq_refl).
  apply (demo_snaps _ (SnapCopy demo_prices [] demo_rows)).
  2: exact (st_snap_copied _ _ _ _ _ _ _ (set_snap (SnapCopy demo_prices [] demo_rows) demo_db demo_after) _ _ eq_refl).
  apply (demo_snaps _ (SnapCopy demo_prices (drop 1 demo_ptrs) (take 1 demo_rows))).
  2: exact (st_snap_row _ _ _ _ _ _ _ (set_snap (SnapCopy demo_prices (drop 1 demo_ptrs) (take 1 demo_rows)) demo_db demo_after) _ _ _ _ eq_refl).
  apply (demo_snaps _ (SnapCopy demo_prices demo_ptrs [])).
  2: exact (st_snap_row _ _ _ _ _ _ _ (set_snap (SnapCopy demo_prices demo_ptrs []) demo_db demo_after) _ _ _ _ eq_refl).
  exact demo_run_after.
Qed.

(** ** Shares lost between two reads *)

(** An order without shares at the front of a side trades a round lot all the same. *)
Lemma execute_zero loc aggressor q s :
  (deref s.(bk).(orders) q).(Order.Shares) = 0 →
  let o := deref s.(bk).(orders) q in let k := to_u64 (s.(bk).(matchCounter) + 1) in
  fst <$> execute loc aggressor (Some q) s = Some [exec_msg loc o 100 k; trade_msg loc o 100 k aggressor].
Proof.
  intros H o k. unfold execute. rewrite (go_bind_run (read q) _ s o s) by done. unfold o. rewrite H.
  rewrite (go_bind_run _ _ s 1 s) by (by destruct s). change (to_i32 (to_i32 1 * 100) <=? 0) with false.
  change (to_i32 (to_i32 1 * 100)) with 100. cbn [mbind].
  erewrite (go_bind_run (Simulator.on_book NextMatchNumber)) by reflexivity. cbn [bk].
  unfold mbind, go_bind. unfold Simulator.on_book at 1, zoom. cbn [bk]. unfold ReduceOrder.
  destruct (Book.orderMap _ !! _); [destruct (_ <=? 0)|]; reflexivity.
Qed.

Definition demo_new_world : world :=
  mkWorld ∅ 0 0 {[1 := NewBook 1 (dec 1 2)]} (NewMarketEngine demo_rng demo_syms).
Definition demo_saved : database := (Save demo_syms true demo_reads demo_db).1.
Definition demo_restored : world :=
  Eval vm_compute in default demo_new_world (snd <$> Load LoadOk demo_saved.(orders_table) demo_saved demo_new_world).
Definition demo_sold : Order.t := Order.with_Shares (demo_order 2 SideSell 10010 100) 0.

(** C32. A snapshot can keep an order that is gone.  The snapshotter collects
    pointers and reads the orders later; on the concrete run, order 2 is traded away
    in between.  It is saved with zero shares, although it rests in no book when the
    rows are copied, and it rests, first on its side, in the book restored from that
    snapshot; the next buyer is reported a trade of 100 shares of it. *)
Theorem sold_order_restored :
  demo_run demo_start demo_trace demo_end ∧ demo_end.(p_snap) = SnapCommit demo_reads ∧
  book_orders demo_end.(p_feed).(f_world) 1 = [demo_order 1 SideBuy 9990 100] ∧
  demo_sold ∈ demo_reads.(r_orders) ∧
  Load LoadOk demo_saved.(orders_table) demo_saved demo_new_world = Some (Some true, demo_restored) ∧
  ∃ b q, demo_restored.(w_books) !! 1 = Some b ∧ nth_in_side 0 0 b.(Book.Asks) = Some q ∧
    deref demo_restored.(w_heap) q = demo_sold ∧
    ∀ aggressor, fst <$> execute 1 aggressor (Some q) (sim_of demo_restored b) =
      Some [exec_msg 1 demo_sold 100 2; trade_msg 1 demo_sold 100 2 aggressor].
Proof.
  split; [exact demo_run_end|]. split; [reflexivity|]. split; [vm_compute; reflexivity|].
  split; [|split; [vm_compute; reflexivity|]].
  - apply list_elem_of_In. vm_compute. auto.
  - eexists _, _. split; [vm_compute; reflexivity|]. split; [vm_compute; reflexivity|]. split; [vm_compute; reflexivity|].
    intros aggressor. rewrite (execute_zero 1 aggressor _ (sim_of demo_restored _)); vm_compute; reflexivity.
Qed.

(** ** The theorems about runs, on this one *)

Lemma process_safe_witness :
  proc_ok demo_syms demo_end ∧ ∀ sym c nowc now order,
    sym ∈ demo_syms → demo_end.(p_pcs) !! sym.(Symbol.LocateCode) = Some c →
    ∃ fuel, ∀ fuel', (fuel ≤ fuel')%nat →
      is_Some (advance (λ _, one) (λ _, float_of_Z (-1)) (λ _, fzero) (λ _, None) DefaultStressConfig demo_syms fuel'
        sym nowc now order c (demo_end.(p_feed), demo_end.(p_ctrl))).
Proof.
  apply (process_safe (λ _, one) (λ _, float_of_Z (-1)) (λ _, fzero) (λ _, None) DefaultStressConfig demo_syms 16
    demo_syms_ok demo_start demo_end demo_trace demo_proc_ok demo_run_end).
  exact (demo_after_limited (SnapCommit demo_reads)).
Defined.

(** The two messages of the trade, not yet published, tell a consumer that order 2 is gone. *)
Lemma process_in_sync_witness :
  no_replace (acted 1 demo_trace) ∧ Message.Type_ <$> acted 1 demo_trace = [MsgOrderExecuted; MsgTrade] ∧
  acted 1 demo_trace = published 1 demo_trace ++ flight_at demo_end 1 ∧
  (no_replace (acted 1 demo_trace) → replay (view_at demo_world 1) (acted 1 demo_trace) = view_at demo_end.(p_feed).(f_world) 1).
Proof.
  split; [repeat constructor; discriminate|]. split; [vm_compute; reflexivity|].
  apply (process_in_sync (λ _, one) (λ _, float_of_Z (-1)) (λ _, fzero) (λ _, None) DefaultStressConfig demo_syms 16
    demo_syms_ok demo_start demo_end demo_trace 1 demo_proc_ok demo_idle demo_run_end).
  by eexists.
Defined.

(** The runner is in the middle of an iteration here. *)
Lemma iteration_ends_witness :
  demo_start.(p_pcs) !! 1 = Some (Priced None (dec 100 0)) ∧
  returns (λ _, one) (λ _, float_of_Z (-1)) (λ _, fzero) (λ _, None) DefaultStressConfig demo_syms 16 demo_sym demo_start.
Proof.
  split; [reflexivity|].
  apply (iteration_ends (λ _, one) (λ _, float_of_Z (-1)) (λ _, fzero) (λ _, None) DefaultStressConfig demo_syms 16
    demo_syms_ok demo_start demo_proc_ok demo_sym (Priced None (dec 100 0))); [by left|reflexivity].
Defined.

(** The same trade at the end of a batch, offered, taken by a writer and saved. *)
Definition trade_start : process := set_runner 1 (Acting None (dec 100 0) 1 []) demo_start.(p_feed) demo_ctrl demo_start.
Definition runner_at (p : process) : pc := default Top (p.(p_pcs) !! 1).
Definition run_once (p : process) : process :=
  match demo_advance (runner_at p) p with Some (c, (f, ctrl)) => set_runner 1 c f ctrl p | None => p end.
Definition ev_once (p : process) : event := EvRun demo_sym (runner_at p) (runner_at (run_once p)).

Definition trade_acted : process := Eval vm_compute in run_once trade_start.
Definition trade_sending : process := Eval vm_compute in run_once trade_acted.
Definition trade_sending1 : process := Eval vm_compute in run_once trade_sending.
Definition trade_offered : process := Eval vm_compute in run_once trade_sending1.
Definition trade_saved : tradeRecord.t :=
  Eval vm_compute in default (record_of 1 Message.zero) (head trade_offered.(p_feed).(f_trades)).
Definition trade_taken : process := set_trades [] [trade_saved] trade_offered.(p_store) trade_offered.
Definition trade_end : process := set_trades [] [] (SaveTrade demo_syms 7 trade_saved trade_taken.(p_store)) trade_taken.
Definition trade_trace : list event :=
  [ev_once trade_start; ev_once trade_acted; ev_once trade_sending; ev_once trade_sending1; EvTake trade_saved; EvSave 7 trade_saved].

Lemma demo_once p0 tr p q b :
  demo_run p0 tr p → p.(p_feed).(f_world).(w_books) = {[1 := b]} →
  (length (book_orders p.(p_feed).(f_world) 1) <? 100)%nat = true →
  p.(p_feed).(f_world).(w_orderID) <? 100 = true → p.(p_feed).(f_world).(w_match) <? 100 = true →
  p.(p_feed).(f_mgr).(clientIDCounter) <? 100 = true →
  p.(p_pcs) = {[1 := runner_at p]} → priced (runner_at p) → p.(p_feed).(f_mgr).(clients) = ∅ →
  is_Some (demo_advance (runner_at p) p) → q = run_once p →
  demo_run p0 (tr ++ [ev_once p]) q.
Proof.
  intros Hr Hb Hl Ho Hm Hi Hc Hp Hcl [[c' [f ctrl]] E] ->.
  assert (run_once p = set_runner 1 c' f ctrl p) as Eq by (unfold run_once; by rewrite E).
  unfold ev_once. rewrite Eq. replace (runner_at (set_runner 1 c' f ctrl p)) with c'.
  - by eapply demo_runs.
  - unfold runner_at. cbn [set_runner p_pcs]. by rewrite lookup_insert_eq.
Qed.

Lemma trade_run_offered : demo_run trade_start (take 4 trade_trace) trade_offered.
Proof.
  change (take 4 trade_trace) with (((([] ++ [ev_once trade_start]) ++ [ev_once trade_acted]) ++ [ev_once trade_sending]) ++ [ev_once trade_sending1]).
  eapply demo_once; [eapply demo_once; [eapply demo_once; [eapply demo_once; [constructor|..]|..]|..]|..];
    try reflexivity; try (vm_compute; reflexivity); try (vm_compute; by eexists).
Qed.

Lemma trade_limited p :
  p.(p_feed).(f_world) = trade_offered.(p_feed).(f_world) → p.(p_feed).(f_mgr) = trade_offered.(p_feed).(f_mgr) →
  p.(p_pcs) = trade_offered.(p_pcs) → limited p.
Proof.
  intros E1 E2 E3. eapply (demo_limited p _ (Sending _ _ [])); rewrite ?E1, ?E2, ?E3; try reflexivity; vm_compute; reflexivity.
Qed.

Lemma trade_taken_limited : limited trade_taken.
Proof. by apply trade_limited. Qed.

Lemma trade_run_taken : demo_run trade_start (take 5 trade_trace) trade_taken.
Proof.
  change (take 5 trade_trace) with (take 4 trade_trace ++ [EvTake trade_saved]).
  apply (run_more _ _ _ _ _ _ _ trade_start _ trade_offered); [exact trade_run_offered|by apply trade_limited|].
  apply (st_take _ _ _ _ _ _ _ trade_offered trade_saved []); [vm_compute; reflexivity|vm_compute; lia].
Qed.

Lemma trade_run_end : demo_run trade_start trade_trace trade_end.
Proof.
  change trade_trace with (take 5 trade_trace ++ [EvSave 7 trade_saved]).
  apply (run_more _ _ _ _ _ _ _ trade_start _ trade_taken); [exact trade_run_taken|exact trade_taken_limited|].
  by apply (st_save _ _ _ _ _ _ _ trade_taken 7 [] trade_saved []).
Qed.

Lemma trade_proc_ok : proc_ok demo_syms trade_start.
Proof.
  destruct demo_proc_ok as [H1 _ H3 H4 H5]. split; [exact H1| |exact H3|exact H4|exact H5].
  intros s ->%list_elem_of_singleton. by eexists.
Qed.

Lemma trade_idle : idle trade_start.
Proof.
  intros loc c Hc. change (p_pcs trade_start) with (<[1 := Acting None (dec 100 0) 1 []]> demo_start.(p_pcs)) in Hc.
  apply lookup_insert_Some in Hc as [[<- <-]|[Hne Hc]]; [done|by apply (demo_idle loc)].
Qed.

Lemma process_trades_witness :
  saves trade_trace = [(7, trade_saved)] ∧
  number <$> (offered_all trade_trace ++ pool trade_end.(p_pcs)) ≡ₚ [1] ∧
  (∃ dropped,
    offered_all trade_trace ≡ₚ trade_end.(p_feed).(f_trades) ++ trade_end.(p_held) ++ dropped ++ (saves trade_trace).*2 ++ losses trade_trace ∧
    ∀ r, r ∈ dropped → refused (λ _, one) (λ _, float_of_Z (-1)) (λ _, fzero) (λ _, None) DefaultStressConfig demo_syms 16 trade_start trade_trace r) ∧
  trade_end.(p_store) = mkStore (reverse ((λ s, trade_row demo_syms s.1 s.2) <$> saves trade_trace) ++ []) None ∅.
Proof.
  split; [reflexivity|].
  apply (process_trades (λ _, one) (λ _, float_of_Z (-1)) (λ _, fzero) (λ _, None) DefaultStressConfig demo_syms 16
    demo_syms_ok trade_start trade_end trade_trace trade_proc_ok trade_idle eq_refl eq_refl).
  - by intros n ?%elem_of_nil.
  - exact trade_run_end.
Defined.

Lemma snapshot_of_running_process_witness :
  ∃ d, Save demo_syms true demo_reads demo_end.(p_db) = (d, true) ∧
  ∀ rows, rows ≡ₚ d.(orders_table) →
  ∃ w1, Load LoadOk rows d demo_new_world = Some (Some true, w1) ∧
    w1.(w_orderID) = demo_reads.(r_orderID) ∧ NoDup (Order.ID <$> demo_reads.(r_orders)) ∧
    (∀ o, o ∈ demo_reads.(r_orders) → o.(Order.ID) ≤ w1.(w_orderID)) ∧
    ∀ loc b1, w1.(w_books) !! loc = Some b1 → rep w1.(w_heap) b1 ∧
      ∀ side, side_of side (abs_book w1.(w_heap) b1) ≡ₚ on_side side (at_loc loc demo_reads.(r_orders)).
Proof.
  apply (snapshot_of_running_process (λ _, one) (λ _, float_of_Z (-1)) (λ _, fzero) (λ _, None) DefaultStressConfig demo_syms 16
    demo_syms_ok demo_start demo_end demo_trace demo_reads demo_new_world demo_proc_ok eq_refl demo_run_end eq_refl).
  - discriminate.
  - intros loc b Hb. cbn [demo_new_world w_books] in Hb. by apply lookup_singleton_Some in Hb as [<- <-].
Defined.

(** A stress symbol on the same book, and one tick of either kind. *)
Definition demo_stress : Symbol.t :=
  Symbol.mk 1 "BLITZ" "Blitz" SectorStress (dec 10000 2) (dec 1 2) (dec 50 1) true.

Lemma runner_alone_witness :
  (∃ f', symbolRunner_tick (λ _, one) (λ _, float_of_Z (-1)) (λ _, None) 8 demo_syms demo_sym [] 0 demo_start.(p_feed) = Some (tt, f') ∧
     rtc (moves (λ _, one) (λ _, float_of_Z (-1)) (λ _, fzero) (λ _, None) DefaultStressConfig demo_syms 8 demo_sym 0 0 [])
       (Top, (demo_start.(p_feed), demo_ctrl)) (Top, (f', demo_ctrl))) ∧
  (∃ interval f' c', stressRunner_tick (λ _, one) (λ _, float_of_Z (-1)) (λ _, fzero) (λ _, None) 8 [demo_stress] demo_stress
       DefaultStressConfig [] [] 5 0 0 (demo_start.(p_feed), demo_ctrl) = Some (interval, (f', c')) ∧
     ∃ x, rtc (moves (λ _, one) (λ _, float_of_Z (-1)) (λ _, fzero) (λ _, None) DefaultStressConfig [demo_stress] 8 demo_stress 5 0 [])
       (Top, (demo_start.(p_feed), demo_ctrl)) (Published interval, x) ∧
       rtc (moves (λ _, one) (λ _, float_of_Z (-1)) (λ _, fzero) (λ _, None) DefaultStressConfig [demo_stress] 8 demo_stress 5 0 [])
         (Published interval, x) (Top, (f', c'))).
Proof.
  split.
  - eexists. split; [vm_compute; reflexivity|].
    apply (runner_alone (λ _, one) (λ _, float_of_Z (-1)) (λ _, fzero) (λ _, None) DefaultStressConfig demo_syms 8 demo_sym
      0 0 0 [] [] demo_start.(p_feed) _ demo_ctrl demo_ctrl 0); [reflexivity|vm_compute; reflexivity].
  - eexists _, _, _. split; [vm_compute; reflexivity|].
    apply (runner_alone (λ _, one) (λ _, float_of_Z (-1)) (λ _, fzero) (λ _, None) DefaultStressConfig [demo_stress] 8 demo_stress
      5 0 0 [] [] demo_start.(p_feed) _ demo_ctrl _ _); [reflexivity|vm_compute; reflexivity].
Defined.
