(* ===== verification/ClientDemo.v ===== *)
(** * A concrete client

    A run in which a client connects, subscribes, and is served a broadcast: the
    instances of the theorems about the clients of the process.  And the instances
    of those about its start. *)
From S2P Require Import Prelude Word Float64 Rng Gaussian Symbols Market Stress Book BookSide BookSpec BookProps Itch Simulator SimFrame SimProps SimTheorems.
From S2P Require Import ItchJson Session SessionProps Lifecycle Snapshot SnapshotProps Trades Archive Archiver Feed FeedProps World Process RunnerProps ProcessInv ProcessProps ProcessTrades ProcessSnap ProcessConn ProcessInit ProcessRestart ProcessDemo.

Local Open Scope Z_scope.

(** An encoder that renders every object the same way. *)
Definition braces (m : gmap string jval) : option frame := Some [123; 125].

Abbreviation client_step := (step (λ _, one) (λ _, float_of_Z (-1)) (λ _, fzero) braces DefaultStressConfig demo_syms 16).
Abbreviation client_run := (run (λ _, one) (λ _, float_of_Z (-1)) (λ _, fzero) braces DefaultStressConfig demo_syms 16).

(** The runner is about to broadcast one message. *)
Definition cd_msgs : list Message.t := [burst_msg demo_sym].
Definition cd0 : process :=
  mkProcess demo_start.(p_feed) demo_ctrl {[1 := Publishing None cd_msgs]} [] (mkStore [] None ∅) SnapIdle demo_db ∅.

Definition cd_control : controlMessage.t := controlMessage.mk "subscribe" [demo_sym.(Symbol.Ticker)] "".
Definition cd_labels : list label := control_labels braces demo_syms 0 cd_control (NewClient 16).

Definition conn_at (p : process) : conn := default (mkConn (NewClient 0) false []) (conn_of p 1).
Definition on_conn (f : conn → conn) (r : read_pc) (p : process) : process := put_conn 1 (f (conn_at p)) r p.
Definition on_client (f : Client.t → Client.t) (s : conn) : conn := mkConn (f s.(client)) s.(pumping) s.(written).

Definition cd1 : process :=
  set_conns (Register 16 cd0.(p_feed).(f_mgr)).2 (<[1 := mkPumps true [] Reading]> cd0.(p_conns)) cd0.
Definition cd2 : process := put_conn 1 (conn_at cd1) (Handling cd_labels) cd1.
Definition cd3 : process := on_conn (on_client (Subscribe [1])) (Handling (drop 1 cd_labels)) cd2.
Definition cd4 : process := on_conn (on_client (λ c, (Send [123; 125] c).2)) (Handling []) cd3.
Definition cd5 : process := put_conn 1 (conn_at cd4) Reading cd4.

(** An access of the runner, on the process as computed. *)
Definition cd_advance (c : pc) (p : process) : option (pc * (feed * StressController)) :=
  advance (λ _, one) (λ _, float_of_Z (-1)) (λ _, fzero) braces DefaultStressConfig demo_syms 0
    demo_sym 0 0 [1] c (p.(p_feed), p.(p_ctrl)).
Definition cd_run (c : pc) (p : process) : pc * (feed * StressController) :=
  default (Top, (p.(p_feed), p.(p_ctrl))) (cd_advance c p).
Definition cd_next (c : pc) (p : process) : process :=
  let '(c', (f, ctrl)) := cd_run c p in set_runner 1 c' f ctrl p.

Definition cd_stamped : list Message.t := stamp (NanosFromMidnight 0) demo_sym.(Symbol.Ticker) <$> cd_msgs.
Definition cd_pcs : list pc :=
  [Publishing None cd_msgs; Fanning cd_stamped [1] None None; Fanning cd_stamped [] (Some (1, [[123; 125]])) None;
   Fanning cd_stamped [] (Some (1, [])) None; Fanning cd_stamped [] None None].
Definition cd6 : process := fold_left (λ p c, cd_next c p) cd_pcs cd5.
Definition cd7 : process := put_conn 1 (mkConn (set_sendCh [[123; 125]] (conn_at cd6).(client)) true [(TextMessage, [123; 125])]) Reading cd6.

Lemma cd_limited p b c :
  p.(p_feed).(f_world) = demo_world → demo_world.(w_books) = {[1 := b]} →
  p.(p_feed).(f_mgr).(clientIDCounter) <? 100 = true → p.(p_pcs) = {[1 := c]} → priced c → limited p.
Proof. intros E Hb Hi Hc Hp. eapply demo_limited; try done; by rewrite E. Qed.

Definition cd_trace0 : list event := [EvConnect 1; EvRead 1; EvConn 1 (LSubscribe [1]); EvConn 1 (LSend [123; 125]); EvRead 1].
Definition cd_trace : list event :=
  (zip_with (EvRun demo_sym) cd_pcs (drop 1 cd_pcs ++ [Top])) ++ [EvConn 1 LWrite].

Lemma cd_more p0 tr e p q b c :
  client_run p0 tr p → p.(p_feed).(f_world) = demo_world → demo_world.(w_books) = {[1 := b]} →
  p.(p_feed).(f_mgr).(clientIDCounter) <? 100 = true → p.(p_pcs) = {[1 := c]} → priced c → client_step p e q →
  client_run p0 (tr ++ [e]) q.
Proof. intros Hr E Hb Hi Hc Hp Hs. eapply run_more; [exact Hr|by eapply cd_limited|exact Hs]. Qed.

Lemma cd_unlocked c p : p.(p_pcs) = {[1 := c]} → (∀ msgs todo cur next, c ≠ Fanning msgs todo cur next) → unlocked p.
Proof. intros E H loc msgs todo cur next. rewrite E. intros [_ ->]%lookup_singleton_Some. by eapply H. Qed.

Lemma cd_connected : client_run cd0 cd_trace0 cd5.
Proof.
  change cd_trace0 with ((((([] ++ [EvConnect 1]) ++ [EvRead 1]) ++ [EvConn 1 (LSubscribe [1])]) ++ [EvConn 1 (LSend [123; 125])]) ++ [EvRead 1]).
  assert (client_run cd0 [] cd0) as H0 by constructor.
  eapply (cd_more _ _ _ _ cd1) in H0; [|reflexivity..|exact I|
    refine (st_connect _ _ _ _ _ _ _ cd0 1 (Register 16 cd0.(p_feed).(f_mgr)).2 _ _); [by eapply cd_unlocked|reflexivity]].
  eapply (cd_more _ _ _ _ cd2) in H0; [|reflexivity..|exact I|
    refine (st_control _ _ _ _ _ _ _ cd1 0 1 cd_control (conn_at cd1) _ _); vm_compute; reflexivity].
  eapply (cd_more _ _ _ _ cd3) in H0; [|reflexivity..|exact I|
    refine (st_handle _ _ _ _ _ _ _ cd2 1 _ (drop 1 cd_labels) (conn_at cd2) (on_client (Subscribe [1]) (conn_at cd2)) _ _ (st_subscribe _ _ _ _));
    vm_compute; reflexivity].
  eapply (cd_more _ _ _ _ cd4) in H0; [|reflexivity..|exact I|
    refine (st_handle _ _ _ _ _ _ _ cd3 1 _ [] (conn_at cd3) (on_client (λ c, (Send [123; 125] c).2) (conn_at cd3)) _ _ (st_send _ _ _ _));
    vm_compute; reflexivity].
  eapply (cd_more _ _ _ _ cd5) in H0; [exact H0|reflexivity..|exact I|].
  refine (st_handled _ _ _ _ _ _ _ cd4 1 (conn_at cd4) _ _); vm_compute; reflexivity.
Qed.

Lemma cd_runs p0 tr c c' p b :
  client_run p0 tr p → p.(p_feed).(f_world) = demo_world → demo_world.(w_books) = {[1 := b]} →
  p.(p_feed).(f_mgr).(clientIDCounter) <? 100 = true → p.(p_pcs) = {[1 := c]} → priced c →
  p.(p_feed).(f_mgr).(clients) = {[1]} → (cd_run c p).1 = c' → cd_advance c p ≠ None →
  client_run p0 (tr ++ [EvRun demo_sym c c']) (cd_next c p).
Proof.
  intros Hr E Hb Hi Hc Hp Hcl <- Ha. eapply cd_more; [done..|]. unfold cd_next, cd_run.
  destruct (cd_advance c p) as [[c' [f ctrl]]|] eqn:Ea; [|done].
  refine (st_run _ _ _ _ _ _ _ p 0 0 0 [1] demo_sym c c' f ctrl _ _ (NoDup_singleton 1) _ Ea); [by left| |].
  - rewrite Hc. apply lookup_singleton_eq.
  - intros id. rewrite Hcl, list_elem_of_singleton. set_solver.
Qed.

Definition cd_at (k : nat) : process := fold_left (λ p c, cd_next c p) (take k cd_pcs) cd5.
Definition cd_pc (k : nat) : pc := nth k cd_pcs Top.

Ltac cd_run k :=
  match goal with H : client_run cd5 ?tr _ |- _ =>
    apply (cd_runs cd5 tr (cd_pc k) (cd_pc (S k)) (cd_at k) demo_state.(book)) in H;
      [|vm_compute; reflexivity|reflexivity|vm_compute; reflexivity|vm_compute; reflexivity|exact I
       |vm_compute; reflexivity|vm_compute; reflexivity|vm_compute; discriminate]
  end.

Lemma cd_served : client_run cd5 cd_trace cd7.
Proof.
  assert (client_run cd5 [] (cd_at 0)) as H by constructor.
  cd_run 0%nat. cd_run 1%nat. cd_run 2%nat. cd_run 3%nat. cd_run 4%nat.
  apply (cd_more cd5 _ (EvConn 1 LWrite) cd6 cd7 demo_state.(book) Top) in H; [exact H|vm_compute; reflexivity|reflexivity
    |vm_compute; reflexivity|vm_compute; reflexivity|exact I|].
  refine (st_pump _ _ _ _ _ _ _ cd6 1 LWrite (conn_at cd6) _ Reading _ _ eq_refl _); [vm_compute; reflexivity..|].
  exact (st_write (conn_at cd6).(client) [] [123; 125] [[123; 125]] eq_refl eq_refl).
Qed.

(** ** The theorems about clients, on this run *)

Lemma cd_no_clients : no_clients cd0.
Proof.
  split_and!; [reflexivity|reflexivity|vm_compute; discriminate|].
  intros loc msgs todo cur next. cbn [cd0 p_pcs]. by intros [_ ?]%lookup_singleton_Some.
Qed.

Lemma cd_whole : client_run cd0 (cd_trace0 ++ cd_trace) cd7.
Proof.
  pose proof cd_connected as H0. pose proof cd_served as H. remember cd5 as p eqn:E. clear E.
  induction H as [|tr p' e q H IH Hl Hs]; [by rewrite app_nil_r|]. rewrite app_assoc. by eapply run_more; [apply IH|..].
Qed.

Lemma client_stream_witness :
  wire (conn_at cd7) = [[123; 125]] ∧ queue (conn_at cd7) = [[123; 125]] ∧
  (length (queue (conn_at cd7)) ≤ 16)%nat ∧
  ∃ lost, let acc := wire (conn_at cd7) ++ lost ++ queue (conn_at cd7) in
    let off := sent (conn_labels 1 (cd_trace0 ++ cd_trace)) in
    sublist acc off ∧ (length lost ≤ 1)%nat ∧ ((conn_at cd7).(pumping) = true → lost = []) ∧
    (conn_at cd7).(client).(Client.Dropped) = to_u64 (Z.of_nat (length off - length acc)).
Proof.
  split; [vm_compute; reflexivity|]. split; [vm_compute; reflexivity|].
  apply (client_stream (λ _, one) (λ _, float_of_Z (-1)) (λ _, fzero) braces DefaultStressConfig demo_syms 16
    cd0 cd7 (cd_trace0 ++ cd_trace) 1 (conn_at cd7) cd_no_clients cd_whole).
  vm_compute. reflexivity.
Defined.

Lemma subscriber_offered_all_witness :
  frames_to 1 1 cd_trace = [[123; 125]] ∧
  frames_to 1 1 cd_trace = encodeAll braces FormatJSON (broadcasts 1 cd_trace) ∧
  ∀ v, replay v (broadcasts 1 cd_trace) = replay v (published 1 cd_trace).
Proof.
  split; [vm_compute; reflexivity|].
  apply (subscriber_offered_all (λ _, one) (λ _, float_of_Z (-1)) (λ _, fzero) braces DefaultStressConfig demo_syms 16
    cd0 cd5 cd7 cd_trace0 cd_trace 1 1 FormatJSON cd_no_clients cd_connected cd_served).
  - split; [assert (cd5.(p_feed).(f_mgr).(clients) = {[1]}) as -> by (vm_compute; reflexivity); set_solver|]. exists (conn_at cd5).(client). split_and!; vm_compute; reflexivity.
  - repeat constructor; cbn; lia.
  - intros p msgs todo cur next [-> | ->].
    + change (cd5.(p_pcs) !! 1) with (Some (Publishing None cd_msgs)). discriminate.
    + assert (cd7.(p_pcs) !! 1 = Some Top) as -> by (vm_compute; reflexivity). discriminate.
Defined.

(** ** The start *)

Lemma seedable_cents syms :
  NoDup (Symbol.LocateCode <$> syms) →
  forallb (λ s, (0 <=? s.(Symbol.LocateCode)) && (s.(Symbol.LocateCode) <? 2 ^ 16) && is_num s.(Symbol.BasePrice)) syms = true →
  Symbol.TickSize <$> syms = replicate (length syms) cent → seedable syms.
Proof.
  intros Hnd Hall Ht. rewrite forallb_forall in Hall.
  assert (∀ s, s ∈ syms → is_u 16 s.(Symbol.LocateCode) ∧ is_num s.(Symbol.BasePrice)) as H.
  { intros s Hs%list_elem_of_In. apply Hall in Hs. rewrite !andb_true_iff, Z.leb_le, Z.ltb_lt in Hs. unfold is_u. rewrite Is_true_true. naive_solver. }
  split; [done|intros s Hs; by apply H| |intros s Hs; by apply H].
  intros s Hs. assert (s.(Symbol.TickSize) = cent) as ->; [|exact cent_ok].
  apply (list_elem_of_fmap_2 Symbol.TickSize) in Hs. rewrite Ht in Hs. by apply elem_of_replicate in Hs as [].
Qed.

Lemma all_seedable : seedable AllSymbols.
Proof. apply seedable_cents; [apply (bool_decide_unpack _); vm_compute; exact I|vm_compute; reflexivity..]. Qed.

Lemma fresh_start_witness :
  seedable AllSymbols ∧
  ∃ f, startup AllSymbols LoadOk [] demo_db (start_feed 0 1 AllSymbols) = Some (tt, f) ∧
    let p := start_process AllSymbols f (mkStore [] None ∅) demo_db in
    proc_ok AllSymbols p ∧ idle p ∧ no_clients p ∧
    f.(f_world).(w_orderID) = 60 * Z.of_nat (length AllSymbols) ∧ f.(f_world).(w_match) = 0 ∧
    ∀ s, s ∈ AllSymbols → length (book_orders f.(f_world) s.(Symbol.LocateCode)) = 60%nat ∧
      p.(p_pcs) !! s.(Symbol.LocateCode) = Some Start.
Proof.
  split; [exact all_seedable|].
  apply (fresh_start AllSymbols 0 1 LoadOk [] demo_db (mkStore [] None ∅) all_seedable); [vm_compute; reflexivity|by right].
Defined.

(** ** A restart *)

Definition rd_reads : reads := reads_of [1] demo_world.
Definition rd_at (s : snap_pc) : process := set_snap s demo_db demo_start.
Definition rd_snaps : list snap_pc :=
  let rows := rd_reads.(r_orders) in
  [SnapCopy demo_prices demo_ptrs []; SnapCopy demo_prices (drop 1 demo_ptrs) (take 1 rows); SnapCopy demo_prices [] rows;
   SnapRng demo_prices rows; SnapOrderID demo_prices rows rd_reads.(r_rng); SnapMatch demo_prices rows rd_reads.(r_rng) 2;
   SnapCommit rd_reads].
Definition rd_trace : list event := replicate 9 EvSnap.

Lemma rd_more tr s s' :
  demo_run demo_start tr (rd_at s) → demo_step (rd_at s) EvSnap (rd_at s') → demo_run demo_start (tr ++ [EvSnap]) (rd_at s').
Proof.
  intros Hr Hs. eapply run_more; [exact Hr| |exact Hs].
  by apply (demo_limited _ demo_state.(book) (Priced None (dec 100 0))).
Qed.

Lemma rd_run : demo_run demo_start rd_trace (rd_at (SnapCommit rd_reads)).
Proof.
  pose proof demo_run_before as H. change demo_before with (rd_at (nth 0 rd_snaps SnapIdle)) in H.
  apply (rd_more _ _ (nth 1 rd_snaps SnapIdle)) in H; [|exact (st_snap_row _ _ _ _ _ _ _ (rd_at (nth 0 rd_snaps SnapIdle)) _ _ _ _ eq_refl)].
  apply (rd_more _ _ (nth 2 rd_snaps SnapIdle)) in H; [|exact (st_snap_row _ _ _ _ _ _ _ (rd_at (nth 1 rd_snaps SnapIdle)) _ _ _ _ eq_refl)].
  apply (rd_more _ _ (nth 3 rd_snaps SnapIdle)) in H; [|exact (st_snap_copied _ _ _ _ _ _ _ (rd_at (nth 2 rd_snaps SnapIdle)) _ _ eq_refl)].
  apply (rd_more _ _ (nth 4 rd_snaps SnapIdle)) in H; [|exact (st_snap_rng _ _ _ _ _ _ _ (rd_at (nth 3 rd_snaps SnapIdle)) _ _ eq_refl)].
  apply (rd_more _ _ (nth 5 rd_snaps SnapIdle)) in H; [|exact (st_snap_id _ _ _ _ _ _ _ (rd_at (nth 4 rd_snaps SnapIdle)) _ _ _ eq_refl)].
  apply (rd_more _ _ (nth 6 rd_snaps SnapIdle)) in H; [|exact (st_snap_match _ _ _ _ _ _ _ (rd_at (nth 5 rd_snaps SnapIdle)) _ _ _ _ eq_refl)].
  exact H.
Qed.

Lemma demo_seedable : seedable demo_syms.
Proof. apply seedable_cents; [apply NoDup_singleton|vm_compute; reflexivity..]. Qed.

Lemma restart_ok_witness :
  ∃ d, Save demo_syms true rd_reads demo_db = (d, true) ∧ (reverse d.(orders_table) ≡ₚ d.(orders_table) →
  ∃ f, startup demo_syms LoadOk (reverse d.(orders_table)) d (start_feed 0 7 demo_syms) = Some (tt, f) ∧
    let q := start_process demo_syms f (mkStore [] None ∅) d in
    proc_ok demo_syms q ∧ idle q ∧ no_clients q ∧
    f.(f_world).(w_orderID) = 2 ∧ f.(f_world).(w_match) = 0 ∧
    ∀ s, s ∈ demo_syms →
      book_orders f.(f_world) s.(Symbol.LocateCode) ≡ₚ at_loc s.(Symbol.LocateCode) rd_reads.(r_orders) ∧
      q.(p_pcs) !! s.(Symbol.LocateCode) = Some Start).
Proof.
  eexists. split; [reflexivity|].
  destruct (restart_ok (λ _, one) (λ _, float_of_Z (-1)) (λ _, fzero) (λ _, None) DefaultStressConfig demo_syms 16
    demo_start (rd_at (SnapCommit rd_reads)) rd_trace rd_reads 0 7 (mkStore [] None ∅)
    (reverse (Save demo_syms true rd_reads demo_db).1.(orders_table)) demo_seedable) as (d & E & H);
    [discriminate|exact demo_proc_ok|reflexivity|exact rd_run|reflexivity| |].
  - assert (rd_reads.(r_orders) = reverse two_resting) as -> by (vm_compute; reflexivity).
    repeat constructor; exists 1; split; [lia|reflexivity|lia|reflexivity].
  - change (Save demo_syms true rd_reads demo_db = (d, true)) in E. rewrite E in H. injection E as <-. exact H.
Defined.
