(* ===== verification/EndToEnd.v ===== *)
(** * From the book to the terminal

    The command-line decoder attached to the running process: whatever happens in the
    process, every frame it receives is a whole binary frame of one message, and
    what it prints is that message's line. *)
From S2P Require Import Prelude Word Float64 Rng Gaussian Strconv Symbols Market Stress Book BookSide BookSpec Itch ItchProps Simulator SimFrame SimWire SimProps.
From S2P Require Import Decoder DecoderMain ItchJson Session SessionProps Snapshot SnapshotProps Trades Archive Archiver Feed FeedProps World Process RunnerProps ProcessInv ProcessProps ProcessConn ProcessInit Lifecycle ProcessDemo ClientDemo.

Local Open Scope Z_scope.

(** ** The messages in the runners' hands *)

Definition pc_msgs (c : pc) : list Message.t :=
  match c with
  | Acting _ _ _ msgs | Sending _ msgs _ | Publishing _ msgs | Fanning msgs _ _ _ => msgs
  | _ => []
  end.

Record wires (p : process) : Prop := mk_wires {
  wr_ids : ∀ q, is_u 64 (deref p.(p_feed).(f_world).(w_heap) q).(Order.ID);
  wr_pcs : ∀ loc c, p.(p_pcs) !! loc = Some c → Forall wire_ok (pc_msgs c);
}.

Lemma wire_burst sym : is_u 16 sym.(Symbol.LocateCode) → wire_ok (burst_msg sym).
Proof. intros H. split; [split; cbn; try assumption; by split|by eexists]. Qed.

Lemma wire_stamp now stock msgs : Forall wire_ok msgs → Forall wire_ok (stamp (NanosFromMidnight now) stock <$> msgs).
Proof. intros H. apply Forall_fmap. eapply Forall_impl; [exact H|]. intros m [H1 H2]. split; [by apply stamp_ok|by apply stamp_encodes]. Qed.

Lemma wire_fan_out sym order now msgs next : Forall wire_ok msgs → Forall wire_ok (pc_msgs (fan_out sym order now msgs next)).
Proof. intros H. unfold fan_out. case_decide; [done|]. by apply wire_stamp. Qed.

(** ** Frames *)

Definition frame_ok (data : frame) : Prop := ∃ m, msg_ok m ∧ EncodeBinary m = Some data.

Lemma encoded_frames marshal msgs : Forall wire_ok msgs → Forall frame_ok (encodeAll marshal FormatBinary msgs).
Proof.
  intros H. cbn. apply Forall_forall. intros data (m & Hm & E)%list_elem_of_omap. rewrite Forall_forall in H.
  exists m. split; [by apply H|done].
Qed.

(** ** What the decoder does with its connection

    Before its first control message it has no subscription and no frame, and the
    first one sets the format, once and for all. *)
Inductive phase_of := Silent | Binary | Other.

Definition phase_step (s : phase_of) (l : label) : phase_of :=
  match s, l with
  | Silent, (LWrite | LWriteFail | LPingFail | LPumpDone | LClose) => Silent
  | Silent, LFormat FormatBinary => Binary
  | Binary, LFormat _ => Other
  | Binary, _ => Binary
  | _, _ => Other
  end.
Definition phase_at (ls : list label) : phase_of := fold_left phase_step ls Silent.

Lemma phase_snoc ls ls' : phase_at (ls ++ ls') = fold_left phase_step ls' (phase_at ls).
Proof. apply fold_left_app. Qed.

Lemma phase_other ls : fold_left phase_step ls Other = Other.
Proof. by induction ls. Qed.

(** A label still to come in [handleControl]. *)
Definition todo_ok (l : label) : Prop := match l with LSend data => frame_ok data | _ => True end.
Definition is_sub (l : label) : bool :=
  match l with LSubscribe _ | LSubscribeAll | LUnsubscribe _ => true | _ => false end.
Definition silent_todo (h : list label) : Prop :=
  h = [] ∨ (∃ f, h = [LFormat f]) ∨ ∃ l h', h = l :: h' ∧ is_sub l = true.

Definition unheard (c : Client.t) : Prop := c.(Client.sendCh) = [] ∧ ∀ loc, IsSubscribed loc c = false.
Definition binary_conn (s : conn) : Prop :=
  s.(client).(Client.format) = FormatBinary ∧ Forall frame_ok s.(client).(Client.sendCh) ∧
  Forall (λ x, x.1 = BinaryMessage ∧ frame_ok x.2) s.(written).

Definition conn_phase (ph : phase_of) (s : conn) : Prop :=
  match ph with Silent => unheard s.(client) ∧ s.(written) = [] | Binary => binary_conn s | Other => True end.
Definition read_phase (ph : phase_of) (r : read_pc) : Prop :=
  match r with
  | Handling h => match ph with Silent => silent_todo h | Binary => Forall todo_ok h | Other => True end
  | _ => True
  end.
Definition serve_phase (ph : phase_of) (frames : list frame) : Prop :=
  match ph with Silent => False | Binary => Forall frame_ok frames | Other => True end.

(** One step of the connection, of whatever pump: fine if what it sends is. *)
Lemma conn_step_phase ph s l s' :
  conn_step s l s' → (ph = Binary → todo_ok l) → conn_phase ph s → conn_phase (phase_step ph l) s'.
Proof.
  intros Hs Hl Hc. destruct ph; [| |done].
  - destruct Hc as [[Hq Hsub] Hw]. destruct Hs; cbn in *; try done; try congruence.
    destruct f; [done|]. split; [done|]. subst w. cbn. rewrite Hq. by split; constructor.
  - destruct Hc as (Hf & Hq & Hw). specialize (Hl eq_refl). destruct Hs; cbn in *; try done.
    + split; cbn; [|split; [|done]].
      * unfold Send. by case_decide.
      * unfold Send. case_decide; cbn; [|done]. apply Forall_app. by split; [|constructor].
    + rewrite H in Hq. apply Forall_cons in Hq as [Hd Hq]. split; [done|]. split; [done|]. cbn. apply Forall_app. split; [done|].
      constructor; [|done]. cbn. unfold wire_type. by rewrite decide_True.
    + rewrite H in Hq. by apply Forall_cons in Hq as [_ Hq].
Qed.

Lemma phase_quiet ph l : pump_label l = true ∨ l = LClose → phase_step ph l = ph.
Proof. intros [H | ->]; destruct ph; try done; by destruct l. Qed.

Lemma wire_directory now sym :
  is_u 16 sym.(Symbol.LocateCode) → wire_ok (Message.set_Timestamp (NanosFromMidnight now) (directory_msg sym)).
Proof.
  intros H. pose proof (day_fits now) as Hd. split; [|by eexists].
  split; cbn; try assumption; try (by split).
Qed.

Section process.
Context (math_Exp math_Log math_Sin : float64 → float64) (marshal : gmap string jval → option frame).
Context (config : StressConfig) (syms : list Symbol.t) (bufferSize : nat).
Context (Hloc : ∀ s, s ∈ syms → is_u 16 s.(Symbol.LocateCode)).

Abbreviation step := (step math_Exp math_Log math_Sin marshal config syms bufferSize).
Abbreviation run := (run math_Exp math_Log math_Sin marshal config syms bufferSize).
Abbreviation mgr_of p := p.(p_feed).(f_mgr).

(** ** The messages stay encodable *)

Lemma moved_wires sym now order f ctrl c c' f' ctrl' :
  sym ∈ syms → moved marshal sym now order f ctrl c c' f' ctrl' →
  (∀ q, is_u 64 (deref f.(f_world).(w_heap) q).(Order.ID)) → Forall wire_ok (pc_msgs c) →
  (∀ q, is_u 64 (deref f'.(f_world).(w_heap) q).(Order.ID)) ∧ Forall wire_ok (pc_msgs c').
Proof.
  intros Hin Hm Hw Hc. destruct Hm as [c c' k ctrl' Hq _ _|pace price n msgs new b action r s' _ _ E|pace msgs m rest|msgs todo id data rest next].
  - split; [exact Hw|]. destruct Hq; try done; try (by apply wire_fan_out); try (by destruct next).
    apply wire_fan_out. constructor; [|done]. by apply wire_burst, Hloc.
  - destruct (fits_do_action _ _ (Hloc _ Hin) _ _ _ _ _ E Hw) as [Hn Hs]. split; [exact Hs|].
    cbn in *. apply Forall_app. by split.
  - by split.
  - by split.
Qed.

Lemma step_wires p e q : step p e q → wires p → wires q.
Proof.
  intros Hs [Hi Hp]. apply step_cases in Hs as [(now & order & sym & c & c' & f' & ctrl' & Hin & Hc & -> & Hm & ->)|(Epc & Ew & _)].
  - destruct (moved_wires sym now order _ _ _ _ _ _ Hin Hm Hi (Hp _ _ Hc)) as [H1 H2]. split; [exact H1|].
    intros loc c2. cbn [set_runner p_pcs]. destruct (decide (loc = sym.(Symbol.LocateCode))) as [->|Hne].
    + rewrite lookup_insert_eq. by intros [= <-].
    + rewrite lookup_insert_ne by done. apply Hp.
  - split; [by rewrite Ew|by rewrite Epc].
Qed.

(** ** One client, as far as it has come *)

Definition serves (ph : phase_of) (id : Z) (p : process) : Prop :=
  ∀ loc msgs todo frames next, p.(p_pcs) !! loc = Some (Fanning msgs todo (Some (id, frames)) next) → serve_phase ph frames.

Record heard (id : Z) (ph : phase_of) (p : process) : Prop := mk_heard {
  hd_conn : ∀ s, conn_of p id = Some s → conn_phase ph s;
  hd_read : ∀ r, read_at p id = Some r → read_phase ph r;
  hd_serves : serves ph id p;
}.

Lemma serves_step ph l id p : serves ph id p → serves (phase_step ph l) id p.
Proof.
  intros H loc msgs todo frames next E. specialize (H _ _ _ _ _ E). destruct ph; [done| |done].
  by destruct l.
Qed.

Lemma silent_next l ls : silent_todo (l :: ls) → read_phase (phase_step Silent l) (Handling ls).
Proof.
  intros [? | [[f [= -> ->]] | (l0 & h & [= -> ->] & H)]]; [done| |by destruct l0]. destruct f; [done|]. constructor.
Qed.

Lemma read_next ph l ls : read_phase ph (Handling (l :: ls)) → read_phase (phase_step ph l) (Handling ls).
Proof.
  destruct ph; [apply silent_next| |done]. cbn. intros [_ H]%Forall_cons. by destruct l.
Qed.

(** Steps that leave the client alone, but may start to serve it. *)
Lemma heard_same ph id p q :
  conn_of q id = conn_of p id → read_at q id = read_at p id → serves ph id q → heard id ph p → heard id ph q.
Proof. intros E1 E2 Hs [H1 H2 _]. split; [by rewrite E1|by rewrite E2|done]. Qed.

Lemma read_of_put p id s r id' :
  read_at (put_conn id s r p) id' = if decide (id' = id) then Some r else read_at p id'.
Proof.
  unfold read_at, put_conn, set_conns. cbn. case_decide as Hd.
  - subst. by rewrite lookup_insert_eq.
  - by rewrite lookup_insert_ne by done.
Qed.

(** A step of one client's connection, seen by any client. *)
Lemma heard_put ph id id' l s s' r p :
  conn_of p id' = Some s → conn_step s l s' → (id' = id → ph = Binary → todo_ok l) →
  (id' = id → read_phase (phase_step ph l) r) → heard id ph p →
  heard id (fold_left phase_step (if id' =? id then [l] else []) ph) (put_conn id' s' r p).
Proof.
  intros Hs Hstep Hl Hr [H1 H2 H3]. destruct (Z.eqb_spec id' id) as [->|Hne]; cbn [fold_left].
  - split.
    + intros s2. rewrite conn_of_put, decide_True by done. intros [= <-]. eapply conn_step_phase; eauto.
    + intros r2. rewrite read_of_put, decide_True by done. intros [= <-]. by apply Hr.
    + by apply serves_step.
  - split; [|intros r2; rewrite read_of_put, decide_False by done; apply H2|exact H3].
    intros s2. rewrite conn_of_put, decide_False by done. apply H1.
Qed.

(** A read pump that moves without touching the client. *)
Lemma heard_pc ph id id' s r p :
  conn_of p id' = Some s → (id' = id → read_phase ph r) → heard id ph p → heard id ph (put_conn id' s r p).
Proof.
  intros Hs Hr [H1 H2 H3]. split; [| |exact H3].
  - intros s2. rewrite conn_of_put. case_decide as Hd; [|apply H1]. intros [= <-]. apply H1. by rewrite Hd.
  - intros r2. rewrite read_of_put. case_decide as Hd; [|apply H2]. intros [= <-]. by apply Hr.
Qed.

(** What the read pump is about to do after a control message. *)
Lemma control_phase ph now ctrl s :
  conn_phase ph s → read_phase ph (Handling (control_labels marshal syms now ctrl s.(client))).
Proof.
  assert (∀ all locates, ph = Binary → conn_phase ph s → Forall todo_ok (LSend <$> encodeAll marshal s.(client).(Client.format)
    (Message.set_Timestamp (NanosFromMidnight now) <$> (directory_msg <$>
      List.filter (λ s, all || existsb (λ loc, s.(Symbol.LocateCode) =? loc) locates) syms)))) as Hdir.
  { intros all locates -> (-> & _). apply Forall_fmap. eapply Forall_impl; [apply encoded_frames|done].
    apply Forall_fmap, Forall_fmap, Forall_forall. intros x [Hx _]%list_elem_of_In%filter_In.
    apply wire_directory, Hloc. by apply list_elem_of_In. }
  intros Hc. unfold control_labels. repeat (case_decide || destruct (ResolveTickers _ _) as [locates all] || case_match);
    destruct ph; try done; cbn [read_phase]; try (by left); try (by right; left; eexists); try (by right; right; do 2 eexists);
    repeat constructor; by apply Hdir.
Qed.

(** A runner's access. *)
Lemma heard_moved tr sym now order p c c' f' ctrl' id :
  conns_ok bufferSize tr p → wires p → p.(p_pcs) !! sym.(Symbol.LocateCode) = Some c →
  moved marshal sym now order p.(p_feed) p.(p_ctrl) c c' f' ctrl' →
  heard id (phase_at (conn_labels id tr)) p →
  heard id (phase_at (conn_labels id (tr ++ [EvRun sym c c']))) (set_runner sym.(Symbol.LocateCode) c' f' ctrl' p).
Proof.
  intros Hok Hwi Hc Hm Hh. rewrite conn_labels_more, phase_snoc. set (ph := phase_at _) in *.
  set (q := set_runner _ _ _ _ _).
  assert ((∀ frames msgs todo next, c' = Fanning msgs todo (Some (id, frames)) next → serve_phase ph frames) → serves ph id q) as Hsv.
  { intros H loc msgs todo frames next. cbn. destruct (decide (loc = sym.(Symbol.LocateCode))) as [->|Hne].
    - rewrite lookup_insert_eq. intros [= ->]. by eapply H.
    - rewrite lookup_insert_ne by done. apply Hh. }
  destruct Hm as [c c' k ctrl' Hq _ _|pace price n msgs new b action r s' _ _ _|pace msgs m rest|msgs todo id' data rest next].
  - assert (conn_label id (EvRun sym c c') = []) as -> by by destruct Hq. apply (heard_same ph id p); [done|done| |done].
    apply Hsv. intros frames ms td nx E. destruct Hq; try discriminate; try (unfold fan_out in E; case_decide; discriminate); [|by destruct next].
    injection E as -> -> E ->. unfold visit in E. destruct (Session.heap _ !! id0) as [cl|] eqn:Ecl; [|done].
    destruct (IsSubscribed _ _) eqn:Es; [|done]. injection E as -> <-.
    destruct (proj1 (cn_dom _ _ _ Hok id) (ex_intro _ cl Ecl)) as [w Hw].
    assert (conn_of p id = Some (mkConn cl w.(p_pumping) w.(p_written))) as Hs by (unfold conn_of; by rewrite Ecl; cbn; rewrite Hw).
    apply Hh in Hs. destruct ph; [|destruct Hs as (Hfmt & _); cbn in Hfmt; rewrite Hfmt|done].
    + destruct Hs as [[_ Hsub] _]. cbn in Hsub. by rewrite Hsub in Es.
    + apply encoded_frames. by apply (wr_pcs _ Hwi _ _ Hc).
  - apply (heard_same ph id p); [done|done| |done]. by apply Hsv.
  - apply (heard_same ph id p); [done|done| |done]. by apply Hsv.
  - destruct (cn_cur _ _ _ Hok _ _ _ _ _ _ Hc) as [cl Hcl]. destruct (proj1 (cn_dom _ _ _ Hok id') (ex_intro _ cl Hcl)) as [w Hw].
    set (s := mkConn cl w.(p_pumping) w.(p_written)). set (s' := mkConn (Send data cl).2 w.(p_pumping) w.(p_written)).
    assert (conn_of p id' = Some s) as Hs by (unfold conn_of; by rewrite Hcl; cbn; rewrite Hw).
    assert (id' = id → serve_phase ph (data :: rest)) as Hd by (intros ->; by apply (hd_serves _ _ _ Hh _ _ _ _ _ Hc)).
    pose proof (heard_put ph id id' (LSend data) s s' w.(p_read) p Hs (st_send _ _ _ _)) as Hp.
    assert (heard id (fold_left phase_step (conn_label id (EvRun sym (Fanning msgs todo (Some (id', data :: rest)) next)
      (Fanning msgs todo (Some (id', rest)) next))) ph) (put_conn id' s' w.(p_read) p)) as [P1 P2 P3].
    { apply Hp; [|intros Hi|exact Hh].
      - intros Hi ->. by apply Hd, Forall_cons in Hi as [? _].
      - specialize (Hd Hi). assert (read_at p id = Some w.(p_read)) as Hr by (unfold read_at; by rewrite <- Hi, Hw).
        apply (hd_read _ _ _ Hh) in Hr. destruct ph; [done|exact Hr|]. cbn. by destruct (p_read w). }
    assert (p.(p_conns) = <[id' := mkPumps w.(p_pumping) w.(p_written) w.(p_read)]> p.(p_conns)) as Ew by (by rewrite insert_id; [|by destruct w]).
    split.
    + intros s2 E. apply P1. unfold conn_of in *. cbn in *. unfold update_client in E. rewrite Hcl in E. by rewrite <- Ew.
    + intros r2 E. apply P2. unfold read_at in *. cbn in *. by rewrite <- Ew.
    + assert (serves ph id q) as Hq.
      { apply Hsv. intros frames ms td nx [= <- <- Hi <- <-]. specialize (Hd Hi). destruct ph; [done| |done]. by apply Forall_cons in Hd as [_ ?]. }
      cbn [conn_label]. destruct (id' =? id); [by apply serves_step|exact Hq].
Qed.

(** A new client. *)
Lemma heard_connect tr p id' m id :
  conns_ok bufferSize tr p → limited p → Register bufferSize (mgr_of p) = (id', m) →
  heard id (phase_at (conn_labels id tr)) p →
  heard id (phase_at (conn_labels id tr)) (set_conns m (<[id' := mkPumps true [] Reading]> p.(p_conns)) p).
Proof.
  intros Hok Hlim E [H1 H2 H3]. destruct (cn_ids _ _ _ Hok) as [Hc0 Hle]. pose proof (lm_clients _ Hlim).
  unfold Register in E. rewrite uwrap_id in E by (unfold is_u; lia). injection E as <- <-.
  set (new := clientIDCounter (mgr_of p) + 1) in *.
  assert ((mgr_of p).(Session.heap) !! new = None) as Hnew by (apply eq_None_not_Some; intros Hs%Hle; lia).
  split; [| |exact H3].
  - intros s. unfold conn_of. cbn [set_conns p_feed f_mgr p_conns Session.heap]. destruct (decide (id = new)) as [->|Hne].
    + rewrite !lookup_insert_eq. intros [= <-]. rewrite (cn_none _ _ _ Hok _ Hnew). split; [|done]. by split.
    + rewrite !lookup_insert_ne by done. apply H1.
  - intros r. unfold read_at. cbn [set_conns p_conns]. destruct (decide (id = new)) as [->|Hne].
    + rewrite lookup_insert_eq. by intros [= <-].
    + rewrite lookup_insert_ne by done. apply H2.
Qed.

Lemma step_heard tr p e q id :
  conns_ok bufferSize tr p → limited p → wires p → step p e q →
  heard id (phase_at (conn_labels id tr)) p → heard id (phase_at (conn_labels id (tr ++ [e]))) q.
Proof.
  intros Hok Hlim Hwi Hstep Hh. destruct Hstep; try (rewrite conn_labels_more, app_nil_r; apply (heard_same _ id p); [done|done|apply Hh|done]).
  - eapply heard_moved; [done|done|done| |done]. by eapply advance_moved.
  - rewrite conn_labels_more, app_nil_r. by apply heard_connect.
  - rewrite conn_labels_more, phase_snoc. eapply heard_put; [done|done|intros _ _; by destruct l| |done].
    intros ->. rewrite phase_quiet by (by left). by apply Hh.
  - rewrite conn_labels_more, app_nil_r. eapply heard_pc; [done| |done]. intros ->. apply control_phase. by apply Hh.
  - rewrite conn_labels_more, phase_snoc. eapply heard_put; [done|done| | |done]; intros ->.
    + intros E. apply Hh in H0. rewrite E in H0. by apply Forall_cons in H0 as [? _].
    + apply read_next. by apply Hh.
  - rewrite conn_labels_more, app_nil_r. by eapply heard_pc.
  - rewrite conn_labels_more, app_nil_r. by eapply heard_pc.
  - rewrite conn_labels_more, app_nil_r. subst m. apply (heard_same _ id (put_conn id0 s Closing p)).
    + unfold conn_of. cbn. by rewrite (insert_id (Session.heap (mgr_of p))) by by apply conn_of_Some in H0 as (? & ? & _).
    + done.
    + apply Hh.
    + by eapply heard_pc.
  - rewrite conn_labels_more, phase_snoc. eapply heard_put; [done|done|done|done|done].
Qed.

(** ** The decoder's control messages *)

Definition is_control (l : label) : bool := match l with LFormat _ => true | _ => is_sub l end.
Definition controls (ls : list label) : list label := List.filter is_control ls.

(** What the server does to the decoder's subscription and format, in order. *)
Definition decoder_controls (o : options.t) : list label :=
  controls (concat ((λ ctrl, control_labels marshal syms 0 ctrl (NewClient bufferSize)) <$> control_messages o)).

Lemma controls_sends l : controls (LSend <$> l) = [].
Proof. by induction l. Qed.

(** Neither the clock nor the client matters to them. *)
Lemma controls_any now ctrl c c' now' :
  controls (control_labels marshal syms now ctrl c) = controls (control_labels marshal syms now' ctrl c').
Proof.
  unfold control_labels. repeat (case_decide || destruct (ResolveTickers _ _) as [locates all] || case_match); try done;
    cbn; by rewrite !controls_sends.
Qed.

Lemma controls_app l1 l2 : controls (l1 ++ l2) = controls l1 ++ controls l2.
Proof. apply List.filter_app. Qed.

Lemma control_subscribe tickers fmt c :
  Forall (λ l, is_sub l = true) (controls (control_labels marshal syms 0 (controlMessage.mk "subscribe" tickers fmt) c)).
Proof.
  unfold control_labels. rewrite decide_True by done. destruct (ResolveTickers _ _) as [locates all].
  destruct all; [|case_decide]; [|done|]; cbn; rewrite controls_sends; by constructor.
Qed.

Lemma decoder_controls_binary o :
  o.(options.useJSON) = false → ∃ subs, decoder_controls o = LFormat FormatBinary :: subs ∧ Forall (λ l, is_sub l = true) subs.
Proof.
  intros Hj. unfold decoder_controls, control_messages. rewrite Hj. cbn [fmap list_fmap concat]. rewrite !controls_app.
  eexists. split; [reflexivity|]. rewrite app_nil_r. apply control_subscribe.
Qed.

(** A client without a subscription is sent nothing. *)
Lemma silent_no_send p e q id data :
  step p e q → heard id Silent p → conn_label id e = [LSend data] → False.
Proof.
  intros Hs [_ Hr Hv] He.
  assert (∀ id' l, conn_label id (EvConn id' l) = [LSend data] → id' = id ∧ l = LSend data) as Hl.
  { intros id' l. cbn. destruct (Z.eqb_spec id' id) as [->|]; [by intros [= ->]|done]. }
  destruct Hs as [p fuel nowc now order sym c c' f ctrl _ Hc _ _ _| | | | |p id' l s s' r _ _ Hp _|
    |p id' l ls s s' _ Hrd _| | | |p id' s s' _ _ _| | | | | | | | | |]; try done.
  - destruct c; try done. cbn in He. destruct cur as [[id' [|d rest]]|]; try done.
    destruct (Z.eqb_spec id' id) as [->|]; [|done]. exact (Hv _ _ _ _ _ Hc).
  - apply Hl in He as [-> ->]. done.
  - apply Hl in He as [-> ->]. apply Hr in Hrd. by destruct Hrd as [? | [[f ?] | (l0 & h & [= <- _] & ?)]].
  - by apply Hl in He as [_ ?].
Qed.

(** One label of the decoder's connection. *)
Lemma label_cases id e : conn_label id e = [] ∨ ∃ l, conn_label id e = [l].
Proof.
  destruct e; try (by left); cbn.
  - destruct c; try (by left). destruct cur as [[? [|]]|]; try (by left). destruct (_ =? _); [right; by eexists|by left].
  - destruct (_ =? _); [right; by eexists|by left].
Qed.

(** The phase of a connection whose control messages are the decoder's. *)
Definition decoder_phase (ls : list label) : Prop :=
  (phase_at ls = Silent ∧ controls ls = []) ∨ (phase_at ls = Binary ∧ controls ls ≠ []).

Lemma decoder_phase_snoc subs ls l :
  Forall (λ l, is_sub l = true) subs → controls (ls ++ [l]) `prefix_of` LFormat FormatBinary :: subs →
  (phase_at ls = Silent → ∀ data, l ≠ LSend data) → decoder_phase ls → decoder_phase (ls ++ [l]).
Proof.
  unfold decoder_phase. rewrite phase_snoc, controls_app. cbn [fold_left]. intros Hsubs Hpre Hsend [[Hph E]|[Hph E]]; rewrite Hph in *.
  - rewrite E in *. cbn in Hpre. destruct (is_control l) eqn:El.
    + right. apply prefix_cons_inv_1 in Hpre. by subst l.
    + left. cbn. rewrite El. split; [|done]. destruct l; try done. by destruct (Hsend eq_refl data).
  - right. split; [|by destruct (controls ls)]. destruct l; try done. exfalso.
    destruct (controls ls) as [|l0 rest]; [done|]. cbn in Hpre. apply prefix_cons_inv_2 in Hpre as [k ->].
    rewrite <- app_assoc in Hsubs. apply Forall_app in Hsubs as [_ Hs]. by apply Forall_cons in Hs as [? _].
Qed.

Lemma run_heard o p0 tr p id :
  no_clients p0 → wires p0 → run p0 tr p → o.(options.useJSON) = false →
  controls (conn_labels id tr) `prefix_of` decoder_controls o →
  heard id (phase_at (conn_labels id tr)) p ∧ wires p ∧ decoder_phase (conn_labels id tr).
Proof.
  intros H0 Hw Hrun Hj. destruct (decoder_controls_binary o Hj) as (subs & -> & Hsubs).
  induction Hrun as [|tr p e q Hrun IH Hl Hs]; intros Hpre.
  { split; [|split; [done|by left]]. destruct H0 as (Hh & Hc & _ & Hf). split.
    - intros s E. unfold conn_of in E. by rewrite Hh, lookup_empty in E.
    - intros r E. unfold read_at in E. by rewrite Hc, lookup_empty in E.
    - intros loc msgs todo frames next E. by destruct (Hf _ _ _ _ _ E). }
  destruct IH as (IH1 & IH2 & IH3).
  { etrans; [|exact Hpre]. rewrite conn_labels_more, controls_app. by apply prefix_app_r. }
  split; [eapply step_heard; [by eapply run_conns|done|done|done|done]|]. split; [by eapply step_wires|].
  rewrite conn_labels_more in *. destruct (label_cases id e) as [E | [l E]]; rewrite E in *; [by rewrite app_nil_r|].
  eapply decoder_phase_snoc; [done|done| |done]. intros Hsil data ->. rewrite Hsil in IH1. by eapply silent_no_send.
Qed.

(** What the loop prints for the frames received. *)
Lemma read_loop_frames o k (received : list (messageType * frame)) :
  o.(options.useJSON) = false → is_u 64 k →
  Forall (λ x, x.1 = BinaryMessage ∧ frame_ok x.2) received →
  ∃ msgs, Forall2 (λ x m, msg_ok m ∧ EncodeBinary m = Some x.2) received msgs ∧
    read_loop o k received =
      Some (concat (zip_with (λ x m, hex_if o.(options.showHex) x.2 ++ shown m) received msgs),
            to_u64 (k + Z.of_nat (length received))).
Proof.
  intros Hj. revert k. induction received as [|[ty data] received IH]; intros k Hk.
  { intros _. exists []. split; [constructor|]. cbn. by rewrite Z.add_0_r, uwrap_id. }
  intros [[Hty (m & Hm & E)] Hall]%Forall_cons. cbn in Hty, E. subst ty.
  destruct (IH (to_u64 (k + 1))) as (msgs & Hms & IHe); [by apply uwrap_range|done|].
  exists (m :: msgs). split; [by constructor|]. cbn [read_loop]. rewrite (read_frame o m data Hj Hm E).
  cbn [mbind option_bind]. rewrite IHe. cbn [mbind option_bind zip_with concat length fst snd]. do 2 f_equal.
  unfold uwrap. rewrite Zplus_mod_idemp_l. f_equal. lia.
Qed.

End process.

(** ** The start *)

Lemma start_wires (syms : list Symbol.t) (now seed : Z) (flt : load_fault) (rows : list OrderRow.t) (d : database) (st : store) (f : feed) :
  NoDup (Symbol.LocateCode <$> syms) → flt = SymbolsFail ∨ d.(Snapshot.symbols) = ∅ →
  startup syms flt rows d (start_feed now seed syms) = Some (tt, f) → wires (start_process syms f st d).
Proof.
  intros Hnd Hd E. assert (initialize_books syms (start_feed now seed syms) = Some (tt, f)) as Ei.
  { unfold startup in E. apply go_bind_Some in E as (r & f1 & E1 & E). unfold zoom, Load in E1.
    assert (r ≠ Some true ∧ f1 = start_feed now seed syms) as [Hr ->].
    { destruct flt; [|by injection E1 as <- <-|]; destruct Hd as [?|Hd]; try done;
        rewrite Hd, map_size_empty in E1; by injection E1 as <- <-. }
    rewrite decide_False in E by done. exact E. }
  split.
  - cbn. revert Ei. refine (λ Ei, go_fold_keeps (λ f, ∀ q, is_u 64 (deref f.(f_world).(w_heap) q).(Order.ID)) _ syms tt _ tt f _ Ei _).
    + intros [] s g [] g' (msgs & g1 & (b & s' & _ & E1 & ->)%on_sim_Some & [_ <-]%go_ret_Some)%go_bind_Some Hg.
      exact (fits_Initialize _ _ _ _ _ _ E1 Hg).
    + intros q. cbn. unfold deref. by rewrite lookup_empty.
  - by intros loc c (s & _ & _ & ->)%(index_some _ _ _ _ Hnd).
Qed.

(** C12. From the book to the terminal: attach the decoder, in binary mode, to a
    running process as any of its clients.  Whatever the runners, the other clients
    and its two pumps do, what is written to its connection are binary frames only,
    each the whole encoding of one message that fits the format, and the decoder's
    read loop prints exactly those messages' lines, in order, and counts them: it
    gets through all that is received without a panic. *)
Theorem decoder_reads (math_Exp math_Log math_Sin : float64 → float64) (marshal : gmap string jval → option frame)
    (config : StressConfig) (syms : list Symbol.t) (bufferSize : nat) (o : options.t)
    (p0 p : process) (tr : list event) (id : Z) (s : conn)
    (Hloc : ∀ s, s ∈ syms → is_u 16 s.(Symbol.LocateCode)) (H0 : no_clients p0) (Hw : wires p0)
    (Hrun : run math_Exp math_Log math_Sin marshal config syms bufferSize p0 tr p)
    (Hs : conn_of p id = Some s) (Hj : o.(options.useJSON) = false)
    (Hdec : controls (conn_labels id tr) `prefix_of` decoder_controls marshal syms bufferSize o) :
  ∃ msgs, Forall2 (λ x m, x.1 = BinaryMessage ∧ msg_ok m ∧ EncodeBinary m = Some x.2) s.(written) msgs ∧
    read_loop o 0 s.(written) =
      Some (concat (zip_with (λ x m, hex_if o.(options.showHex) x.2 ++ shown m) s.(written) msgs),
            to_u64 (Z.of_nat (length s.(written)))).
Proof.
  destruct (run_heard _ _ _ marshal config syms bufferSize Hloc o p0 tr p id H0 Hw Hrun Hj Hdec) as (Hh & _ & Hph).
  apply (hd_conn _ _ _ Hh) in Hs. assert (Forall (λ x, x.1 = BinaryMessage ∧ frame_ok x.2) s.(written)) as Hall.
  { destruct Hph as [[E _]|[E _]]; rewrite E in Hs; [destruct Hs as [_ ->]; constructor|apply Hs]. }
  destruct (read_loop_frames o 0 s.(written) Hj ltac:(by split) Hall) as (msgs & Hms & E). exists msgs. split; [|exact E].
  clear E. revert Hall. induction Hms as [|x m l l' Hx _ IH]; [constructor|]. intros [[Ht _] Hl]%Forall_cons.
  constructor; [done|by apply IH].
Qed.

(** ** A decoder attached *)

Definition bd_control (k : nat) : controlMessage.t := nth k (control_messages default_options) (controlMessage.mk "" [] "").
Definition bd_labels (k : nat) (s : conn) : list label := control_labels braces demo_syms 0 (bd_control k) s.(client).
Definition bd_dir : frame := default [] (EncodeBinary (Message.set_Timestamp (NanosFromMidnight 0) (directory_msg demo_sym))).

Definition bd2 : process := put_conn 1 (conn_at cd1) (Handling (bd_labels 0 (conn_at cd1))) cd1.
Definition bd3 : process := on_conn (on_client (SetFormat FormatBinary)) (Handling []) bd2.
Definition bd4 : process := put_conn 1 (conn_at bd3) Reading bd3.
Definition bd5 : process := put_conn 1 (conn_at bd4) (Handling (bd_labels 1 (conn_at bd4))) bd4.
Definition bd6 : process := on_conn (on_client SubscribeAll) (Handling [LSend bd_dir]) bd5.
Definition bd7 : process := on_conn (on_client (λ c, (Send bd_dir c).2)) (Handling []) bd6.
Definition bd8 : process := on_conn (λ s, mkConn (set_sendCh [] s.(client)) true [(BinaryMessage, bd_dir)]) (Handling []) bd7.

Definition bd_trace : list event :=
  [EvConnect 1; EvRead 1; EvConn 1 (LFormat FormatBinary); EvRead 1; EvRead 1; EvConn 1 LSubscribeAll;
   EvConn 1 (LSend bd_dir); EvConn 1 LWrite].

Lemma bd_run : client_run cd0 bd_trace bd8.
Proof.
  change bd_trace with ((((((((([] ++ [EvConnect 1]) ++ [EvRead 1]) ++ [EvConn 1 (LFormat FormatBinary)]) ++ [EvRead 1]) ++ [EvRead 1])
    ++ [EvConn 1 LSubscribeAll]) ++ [EvConn 1 (LSend bd_dir)]) ++ [EvConn 1 LWrite])).
  assert (client_run cd0 [] cd0) as H by constructor.
  eapply (cd_more _ _ _ _ cd1) in H; [|reflexivity..|exact I|
    refine (st_connect _ _ _ _ _ _ _ cd0 1 (Register 16 cd0.(p_feed).(f_mgr)).2 _ _); [by eapply cd_unlocked|reflexivity]].
  eapply (cd_more _ _ _ _ bd2) in H; [|reflexivity..|exact I|
    refine (st_control _ _ _ _ _ _ _ cd1 0 1 (bd_control 0) (conn_at cd1) _ _); vm_compute; reflexivity].
  eapply (cd_more _ _ _ _ bd3) in H; [|reflexivity..|exact I|
    refine (st_handle _ _ _ _ _ _ _ bd2 1 _ [] (conn_at bd2) (on_client (SetFormat FormatBinary) (conn_at bd2)) _ _ (st_format _ _ _ _));
    vm_compute; reflexivity].
  eapply (cd_more _ _ _ _ bd4) in H; [|reflexivity..|exact I|
    refine (st_handled _ _ _ _ _ _ _ bd3 1 (conn_at bd3) _ _); vm_compute; reflexivity].
  eapply (cd_more _ _ _ _ bd5) in H; [|reflexivity..|exact I|
    refine (st_control _ _ _ _ _ _ _ bd4 0 1 (bd_control 1) (conn_at bd4) _ _); vm_compute; reflexivity].
  eapply (cd_more _ _ _ _ bd6) in H; [|reflexivity..|exact I|
    refine (st_handle _ _ _ _ _ _ _ bd5 1 _ [LSend bd_dir] (conn_at bd5) (on_client SubscribeAll (conn_at bd5)) _ _ (st_all _ _ _));
    vm_compute; reflexivity].
  eapply (cd_more _ _ _ _ bd7) in H; [|reflexivity..|exact I|
    refine (st_handle _ _ _ _ _ _ _ bd6 1 _ [] (conn_at bd6) (on_client (λ c, (Send bd_dir c).2) (conn_at bd6)) _ _ (st_send _ _ _ _));
    vm_compute; reflexivity].
  eapply (cd_more _ _ _ _ bd8) in H; [exact H|reflexivity..|exact I|].
  refine (st_pump _ _ _ _ _ _ _ bd7 1 LWrite (conn_at bd7) _ (Handling []) _ _ eq_refl _); [vm_compute; reflexivity..|].
  exact (st_write (conn_at bd7).(client) [] bd_dir [] eq_refl eq_refl).
Qed.

Lemma cd0_wires : wires cd0.
Proof.
  split.
  - intros q. assert (map_Forall (λ _ o, is_u 64 o.(Order.ID)) cd0.(p_feed).(f_world).(w_heap)) as H by (apply (bool_decide_unpack _); vm_compute; exact I).
    unfold deref. destruct (_ !! q) as [o|] eqn:E; [exact (H q o E)|done].
  - intros loc c. cbn [cd0 p_pcs]. intros [_ <-]%lookup_singleton_Some. constructor; [|constructor]. by apply wire_burst.
Qed.

Lemma decoder_reads_witness :
  (conn_at bd8).(written) = [(BinaryMessage, bd_dir)] ∧
  ∃ msgs, Forall2 (λ x m, x.1 = BinaryMessage ∧ msg_ok m ∧ EncodeBinary m = Some x.2) (conn_at bd8).(written) msgs ∧
    read_loop default_options 0 (conn_at bd8).(written) =
      Some (concat (zip_with (λ x m, hex_if false x.2 ++ shown m) (conn_at bd8).(written) msgs),
            to_u64 (Z.of_nat (length (conn_at bd8).(written)))).
Proof.
  split; [vm_compute; reflexivity|].
  apply (decoder_reads (λ _, one) (λ _, float_of_Z (-1)) (λ _, fzero) braces DefaultStressConfig demo_syms 16 default_options
    cd0 bd8 bd_trace 1 (conn_at bd8)); [|exact cd_no_clients|exact cd0_wires|exact bd_run|vm_compute; reflexivity|reflexivity|].
  - intros s ->%list_elem_of_singleton. by split.
  - exists []. vm_compute. reflexivity.
Defined.
