(* ===== verification/ProcessLives.v ===== *)
(** * The process, killed and restarted

    A process may be killed between any two steps; the next one starts on the
    database as it is.  Over any number of such lives the invariant of the running
    process holds, and a start always succeeds: what the database holds is nothing,
    or one whole snapshot. *)
From S2P Require Import Prelude Word Float64 Rng Gaussian Symbols Market Stress Book BookSide BookSpec BookProps Itch Simulator SimFrame SimProps SimInit.
From S2P Require Import ItchJson Session Snapshot SnapshotProps Trades Archive Archiver Feed FeedProps World Process RunnerProps ProcessInv ProcessProps ProcessTrades ProcessSnap ProcessConn ProcessInit ProcessRestart ProcessDemo ClientDemo.

Local Open Scope Z_scope.

(** No order of a committed snapshot was sold out while the snapshot was taken. *)
Definition healthy (e : event) : Prop :=
  match e with EvSnapped r true => Forall round_lots r.(r_orders) | _ => True end.

Section lives.
Context (math_Exp math_Log math_Sin : float64 → float64) (marshal : gmap string jval → option frame).
Context (config : StressConfig) (syms : list Symbol.t) (bufferSize : nat).

Abbreviation step := (step math_Exp math_Log math_Sin marshal config syms bufferSize).
Abbreviation advance := (advance math_Exp math_Log math_Sin marshal config syms).

(** A start: on a database, the queries of [Load] answered, or its first one failed. *)
Inductive starts (d : database) (st : store) : process → Prop :=
  | starts_at now seed flt rows f :
      flt = LoadOk ∨ flt = SymbolsFail → rows ≡ₚ d.(orders_table) →
      startup syms flt rows d (start_feed now seed syms) = Some (tt, f) →
      starts d st (start_process syms f st d).

Inductive lived : process → Prop :=
  | lv_first d st p : d.(Snapshot.symbols) = ∅ → starts d st p → lived p
  | lv_step p e q : lived p → limited p → healthy e → step p e q → lived q
  | lv_killed p q : lived p → starts p.(p_db) p.(p_store) q → lived q.

(** Nothing saved, or one whole snapshot. *)
Definition db_ok (d : database) : Prop :=
  d.(Snapshot.symbols) = ∅ ∨
  ∃ r w d0, snap_ok w (SnapCommit r) ∧ Forall round_lots r.(r_orders) ∧ Save syms true r d0 = (d, true).

Section hypotheses.
Context (Hseed : seedable syms) (Hne : syms ≠ []) (Hlen : 60 * Z.of_nat (length syms) < 2 ^ 64).

Lemma db_starts d st now seed flt rows :
  db_ok d → flt = LoadOk ∨ flt = SymbolsFail → rows ≡ₚ d.(orders_table) →
  ∃ f, startup syms flt rows d (start_feed now seed syms) = Some (tt, f) ∧ proc_ok syms (start_process syms f st d).
Proof.
  intros Hd Hflt Hrows. assert (flt = SymbolsFail ∨ (flt = LoadOk ∧ d.(Snapshot.symbols) ≠ ∅) ∨ d.(Snapshot.symbols) = ∅) as [-> |[[-> Hsym]|Hsym]].
  { destruct (decide (d.(Snapshot.symbols) = ∅)); naive_solver. }
  - destruct (fresh_started syms now seed SymbolsFail rows d st Hseed Hlen (or_introl eq_refl)) as (f & E & Hok & _). by exists f.
  - destruct Hd as [|(r & w & d0 & Hs & Hl & E)]; [done|].
    destruct (restarted syms r w d0 now seed st Hseed Hne Hs Hl) as (d' & E' & H).
    assert (d' = d) as -> by congruence. destruct (H rows Hrows) as (f & Ef & Hok & _). by exists f.
  - destruct (fresh_started syms now seed flt rows d st Hseed Hlen (or_intror Hsym)) as (f & E & Hok & _). by exists f.
Qed.

Lemma step_db p e q : snap_ok p.(p_feed).(f_world) p.(p_snap) → healthy e → step p e q → db_ok p.(p_db) → db_ok q.(p_db).
Proof.
  intros Hs He Hstep Hd. destruct Hstep; try exact Hd. rewrite H in Hs. cbn [set_snap p_db].
  unfold Save in H0. destruct ok; cbn [andb] in H0; [|by injection H0 as <- <-].
  destruct (bool_decide _) eqn:Eb; injection H0 as <- <-; [|exact Hd].
  right. exists r, p.(p_feed).(f_world), p.(p_db). split; [exact Hs|]. split; [exact He|].
  unfold Save. by rewrite Eb.
Qed.

Lemma lived_ok p : lived p → proc_ok syms p ∧ snap_ok p.(p_feed).(f_world) p.(p_snap) ∧ db_ok p.(p_db).
Proof.
  pose proof (seedable_ok syms Hseed) as Hsyms. induction 1 as [d st p Hd Hs|p e q _ (IH1 & IH2 & IH3) Hl He Hs|p q _ (_ & _ & IH) Hs].
  - assert (db_ok d) as Hok by by left. destruct Hs as [now seed flt rows f Hflt Hrows E].
    destruct (db_starts d st now seed flt rows Hok Hflt Hrows) as (f' & E' & Hp). rewrite E in E'. by injection E' as <-.
  - split; [by eapply step_ok|]. split; [by eapply step_snap|by eapply step_db].
  - destruct Hs as [now seed flt rows f Hflt Hrows E].
    destruct (db_starts p.(p_db) p.(p_store) now seed flt rows IH Hflt Hrows) as (f' & E' & Hp). rewrite E in E'. by injection E' as <-.
Qed.

End hypotheses.

(** C11. The process survives any number of crashes.  Start it on an empty
    database, run it, kill it between any two steps, start it on what the database
    then holds, and so on, even if the symbols cannot be read at a start, as long as
    no snapshot is committed with an order that was sold out while it was taken: the
    invariant of the running process holds throughout, no runner ever panics, and
    the next start, whenever it comes, succeeds. *)
Theorem lives_safe (Hseed : seedable syms) (Hne : syms ≠ [])
    (Hlen : 60 * Z.of_nat (length syms) < 2 ^ 64) (p : process) (Hlived : lived p) :
  proc_ok syms p ∧
  (limited p → ∀ sym c nowc now order, sym ∈ syms → p.(p_pcs) !! sym.(Symbol.LocateCode) = Some c →
    ∃ fuel, ∀ fuel', (fuel ≤ fuel')%nat → is_Some (advance fuel' sym nowc now order c (p.(p_feed), p.(p_ctrl)))) ∧
  ∀ now seed flt rows, flt = LoadOk ∨ flt = SymbolsFail → rows ≡ₚ p.(p_db).(orders_table) →
    ∃ f, startup syms flt rows p.(p_db) (start_feed now seed syms) = Some (tt, f) ∧
      lived (start_process syms f p.(p_store) p.(p_db)).
Proof.
  destruct (lived_ok Hseed Hne Hlen p Hlived) as (Hok & _ & Hd). split_and!; [exact Hok| |].
  - intros Hlim sym c nowc now order Hin Hc. by apply (runner_safe math_Exp math_Log math_Sin marshal config syms (seedable_ok syms Hseed) p Hok Hlim).
  - intros now seed flt rows Hflt Hrows.
    destruct (db_starts Hseed Hne Hlen p.(p_db) p.(p_store) now seed flt rows Hd Hflt Hrows) as (f & E & _).
    exists f. split; [exact E|]. apply (lv_killed p); [exact Hlived|]. by econstructor.
Qed.

End lives.

(** Started on an empty database, killed at once, and started again. *)
Lemma lives_safe_witness :
  ∃ p q, lived (λ _, one) (λ _, float_of_Z (-1)) (λ _, fzero) (λ _, None) DefaultStressConfig AllSymbols 16 p ∧
    starts AllSymbols p.(p_db) p.(p_store) q ∧ proc_ok AllSymbols q ∧
    ∀ now seed flt rows, flt = LoadOk ∨ flt = SymbolsFail → rows ≡ₚ q.(p_db).(orders_table) →
      ∃ f, startup AllSymbols flt rows q.(p_db) (start_feed now seed AllSymbols) = Some (tt, f) ∧
        lived (λ _, one) (λ _, float_of_Z (-1)) (λ _, fzero) (λ _, None) DefaultStressConfig AllSymbols 16
          (start_process AllSymbols f q.(p_store) q.(p_db)).
Proof.
  destruct (fresh_started AllSymbols 0 1 LoadOk [] demo_db (mkStore [] None ∅) all_seedable eq_refl (or_intror eq_refl)) as (f1 & E1 & _).
  destruct (fresh_started AllSymbols 5 2 LoadOk [] demo_db (mkStore [] None ∅) all_seedable eq_refl (or_intror eq_refl)) as (f2 & E2 & _).
  set (p := start_process AllSymbols f1 (mkStore [] None ∅) demo_db). set (q := start_process AllSymbols f2 (mkStore [] None ∅) demo_db).
  assert (lived (λ _, one) (λ _, float_of_Z (-1)) (λ _, fzero) (λ _, None) DefaultStressConfig AllSymbols 16 p) as Hp.
  { apply (lv_first _ _ _ _ _ _ _ demo_db (mkStore [] None ∅)); [done|]. by apply (starts_at _ _ _ 0 1 LoadOk []); [left|..]. }
  assert (starts AllSymbols p.(p_db) p.(p_store) q) as Hq.
  { change (starts AllSymbols demo_db (mkStore [] None ∅) q). by apply (starts_at _ _ _ 5 2 LoadOk []); [left|..]. }
  exists p, q. split; [exact Hp|]. split; [exact Hq|].
  destruct (lives_safe (λ _, one) (λ _, float_of_Z (-1)) (λ _, fzero) (λ _, None) DefaultStressConfig AllSymbols 16
    all_seedable ltac:(discriminate) eq_refl q) as (Hok & _ & Hnext); [by apply (lv_killed _ _ _ _ _ _ _ p)|by split].
Defined.
