(* ===== verification/Boot.v ===== *)
(** * cmd/feedsim: main up to its server, over the tables

    [NewStore], [Migrate], [Load] or the seeding, and the goroutines main starts,
    over the database as SQL tables (Schema).  A start that fails ends the process
    with nothing running; one that succeeds is a start in the sense of ProcessLives,
    on the state the tables stand for. *)
From S2P Require Import Prelude Word Float64 Rng Gaussian Symbols Config Market Stress Book BookSide BookSpec BookProps Itch Simulator SimFrame SimProps SimInit.
From S2P Require Import ItchJson Session Snapshot SnapshotProps Trades Archive Archiver Services Feed FeedProps Schema World Process RunnerProps ProcessInv ProcessProps ProcessTrades ProcessSnap ProcessConn ProcessInit ProcessRestart ProcessDemo ClientDemo ProcessLives.

Local Open Scope Z_scope.

(** ** store.go *)

(** The answers of the database while main connects and migrates. *)
Record net := mkNet { n_connect : bool; n_ping : bool; n_ddl : bool }.

(** The pool: never opened, closed again, or open. *)
Inductive pool_state := NoPool | ClosedPool | OpenPool.
Definition NewStore (n : net) : pool_state :=
  if n.(n_connect) then if n.(n_ping) then OpenPool else ClosedPool else NoPool.
Definition Migrate (n : net) (D : sqldb) : option sqldb := CreateTables n.(n_ddl) D.

(** ** main *)

Inductive goroutine :=
  | WaitSignal | TradeWriter | StressRunner (loc : Z) | SymbolRunner (loc : Z) (interval : Z)
  | Snapshots (interval : Z) | Retention (days : Z) | Archiving (dir : string) (a : Services.Archiver.t) | WaitDone.

Definition runner (c : Config.t) (s : Symbol.t) : goroutine :=
  if s.(Symbol.IsStress) then StressRunner s.(Symbol.LocateCode) else SymbolRunner s.(Symbol.LocateCode) c.(Config.TickInterval).

Definition goroutines (c : Config.t) (syms : list Symbol.t) : list goroutine :=
  WaitSignal :: replicate writers TradeWriter ++ (runner c <$> syms) ++
  [Snapshots c.(Config.SnapshotInterval); Retention c.(Config.TradeRetentionDays)] ++
  (if decide (c.(Config.ArchiveDir) = EmptyString) then []
   else [Archiving c.(Config.ArchiveDir) (Services.New c.(Config.ArchiveMaxGB) c.(Config.ArchiveIntervalHours) c.(Config.ArchiveAfterHours))]) ++
  [WaitDone].

Inductive boot_result :=
  | Fatal                                                      (* log.Fatalf *)
  | Listening (D : sqldb) (p : process) (gs : list goroutine) (port : Z).

(** [None] is a panic.  [rows] are the orders in the order the query of [Load]
    returns them; [st] is what the trades table and the archiver's cursor are. *)
Definition boot (c : Config.t) (syms : list Symbol.t) (n : net) (flt : load_fault) (rows : list OrderRow.t) (st : store) (now : Z)
    (D : sqldb) : option boot_result :=
  match NewStore n, Migrate n D with
  | OpenPool, Some D =>
      d ← query D;
      '(_, f) ← startup syms flt rows d (start_feed now c.(Config.Seed) syms);
      Some (Listening D (start_process syms f st d) (goroutines c syms) c.(Config.WSPort))
  | _, _ => Some Fatal
  end.

(** No start without a database: nothing has run, and the tables are as they were. *)
Lemma boot_fatal c syms n flt rows st now D :
  n.(n_connect) && n.(n_ping) && n.(n_ddl) = false → boot c syms n flt rows st now D = Some Fatal.
Proof. unfold boot, NewStore, Migrate, CreateTables. by destruct n as [[] [] []]. Qed.

(** One runner for every symbol, of its kind. *)
Lemma runner_started c syms s : s ∈ syms → runner c s ∈ goroutines c syms.
Proof. intros H. unfold goroutines. right. apply elem_of_app. right. apply elem_of_app. left. by apply list_elem_of_fmap_2. Qed.

Lemma archiver_started c syms dir a :
  Archiving dir a ∈ goroutines c syms → dir = c.(Config.ArchiveDir) ∧ dir ≠ EmptyString.
Proof.
  unfold goroutines. rewrite elem_of_cons, !elem_of_app, list_elem_of_fmap, elem_of_replicate, !elem_of_cons, elem_of_nil.
  intros [?|[[? _]|[(s & E & _)|[[?|[?|?]]|[H|[?|?]]]]]]; try done; [unfold runner in E; by case_match|].
  case_decide; [by apply elem_of_nil in H|]. apply list_elem_of_singleton in H as [= -> _]. done.
Qed.

Section boot.
Context (math_Exp math_Log math_Sin : float64 → float64) (marshal : gmap string jval → option frame).
Context (config : StressConfig) (syms : list Symbol.t) (bufferSize : nat).
Context (Hseed : seedable syms) (Hne : syms ≠ []) (Hlen : 60 * Z.of_nat (length syms) < 2 ^ 64).
Abbreviation lived := (lived math_Exp math_Log math_Sin marshal config syms bufferSize).

(** The process lives on its tables.  On a blank database main creates the tables
    and starts afresh; on the tables that stand for what an earlier process left,
    wherever it was killed, it leaves them alone and starts from that: either way
    it comes to listen, with a process that has every guarantee of [lives_safe]. *)
Theorem boot_lives (c : Config.t) (now : Z) (flt : load_fault) (Hflt : flt = LoadOk ∨ flt = SymbolsFail) :
  (∃ D q, boot c syms (mkNet true true true) flt [] (mkStore [] None ∅) now ∅ = Some (Listening D q (goroutines c syms) c.(Config.WSPort)) ∧
    stands_for syms D q.(p_db) q.(p_store) ∧ lived q) ∧
  ∀ p D rows, lived p → stands_for syms D p.(p_db) p.(p_store) → rows ≡ₚ p.(p_db).(orders_table) →
    ∃ q, boot c syms (mkNet true true true) flt rows p.(p_store) now D = Some (Listening D q (goroutines c syms) c.(Config.WSPort)) ∧
      q.(p_db) = p.(p_db) ∧ q.(p_store) = p.(p_store) ∧ lived q.
Proof.
  split.
  - destruct (create_fresh syms) as (D & E & Hst). unfold boot, NewStore, Migrate. cbn [n_connect n_ping n_ddl]. rewrite E, (query_stands _ _ _ _ Hst).
    cbn [mbind option_bind]. destruct (db_starts syms Hseed Hne Hlen empty_database (mkStore [] None ∅) now c.(Config.Seed) flt [])
      as (f & Ef & _); [by left|done|done|]. rewrite Ef. cbn [mbind option_bind]. eexists _, _. split; [reflexivity|]. split; [exact Hst|].
    apply (lv_first _ _ _ _ _ _ _ empty_database (mkStore [] None ∅)); [done|]. by econstructor.
  - intros p D rows Hp Hst Hrows. unfold boot, NewStore, Migrate. cbn [n_connect n_ping n_ddl].
    rewrite (create_again _ _ _ _ Hst), (query_stands _ _ _ _ Hst). cbn [mbind option_bind].
    destruct (lived_ok _ _ _ _ _ _ bufferSize Hseed Hne Hlen p Hp) as (_ & _ & Hd).
    destruct (db_starts syms Hseed Hne Hlen p.(p_db) p.(p_store) now c.(Config.Seed) flt rows Hd Hflt Hrows) as (f & Ef & _).
    rewrite Ef. cbn [mbind option_bind]. eexists. split; [reflexivity|]. split_and!; [done|done|]. apply (lv_killed _ _ _ _ _ _ _ p); [done|].
    by econstructor.
Qed.

End boot.
