(* ===== verification/Shutdown.v ===== *)
(** * cmd/feedsim: the life of the daemon, from its first request to its exit

    [main] and [Snapshotter.Run] around the running process: the signal, the HTTP
    server that stops, the connection pool that is closed, the loop that takes a
    last snapshot.  [main] waits for none of its goroutines. *)
From S2P Require Import Prelude Word Float64 Rng Gaussian Symbols Market Stress Book Itch Simulator.
From S2P Require Import ItchJson Session Snapshot SnapshotProps Trades Archive Archiver Feed World Process RunnerProps ProcessInv ProcessProps ProcessDemo.

Local Open Scope Z_scope.

(** [main]: in [ListenAndServe]; returned from it; in the deferred [store.Close];
    the process has exited; it has exited by [log.Fatalf], without the deferred calls. *)
Inductive main_pc := Serving | Stopping | Closing | Exited | Fatal.

(** The process has not exited. *)
Definition alive (m : main_pc) : Prop := m ≠ Exited ∧ m ≠ Fatal.

(** [Snapshotter.Run]: in its select; in [Save] at a tick; in the last [Save]; returned. *)
Inductive loop_pc := Waiting | Saving | LastSave | Stopped.

Record daemon := mkDaemon {
  dm_proc : process;
  dm_cancelled : bool;     (* the context *)
  dm_main : main_pc;
  dm_loop : loop_pc;
  dm_closed : bool;        (* the pool gives out no connection any more *)
  dm_writers : nat;        (* trade writers that have not returned *)
}.

Definition running (p : process) : daemon := mkDaemon p false Serving Waiting false writers.

(** The loop after a statement of [Save]: over when the snapshotter is idle again. *)
Definition after_save (s : snap_pc) (l : loop_pc) : loop_pc :=
  match s, l with
  | SnapIdle, Saving => Waiting
  | SnapIdle, LastSave => Stopped
  | _, l => l
  end.

Section daemon.
Context (math_Exp math_Log math_Sin : float64 → float64) (marshal : gmap string jval → option frame).
Context (config : StressConfig) (syms : list Symbol.t) (bufferSize : nat).
(** Whether closing the pool waits for the connections in use, as its documentation says. *)
Context (close_waits : bool).

Abbreviation step := (step math_Exp math_Log math_Sin marshal config syms bufferSize).

(** The steps of the process that need nothing of [main]; taking a trade needs a
    writer, a statement of [Save] a [Save] in progress. *)
Definition free (d : daemon) (e : event) : Prop :=
  match e with
  | EvTake _ => (length d.(dm_proc).(p_held) < d.(dm_writers))%nat
  | EvSnap | EvSnapped _ _ => d.(dm_loop) = Saving ∨ d.(dm_loop) = LastSave
  | _ => True
  end.

Inductive life_step : daemon → daemon → Prop :=
  | lf_process p e q c m l k w :
      alive m → free (mkDaemon p c m l k w) e → step p e q →
      life_step (mkDaemon p c m l k w) (mkDaemon q c m (after_save q.(p_snap) l) k w)
  (** the ticker's case, and the last snapshot, which has a context of its own *)
  | lf_tick p q m w :
      alive m → p.(p_snap) = SnapIdle → step p EvSnap q →
      life_step (mkDaemon p false m Waiting false w) (mkDaemon q false m Saving false w)
  | lf_last p q m w :
      alive m → p.(p_snap) = SnapIdle → step p EvSnap q →
      life_step (mkDaemon p true m Waiting false w) (mkDaemon q true m LastSave false w)
  | lf_last_fails p m k w :
      alive m → life_step (mkDaemon p true m Waiting k w) (mkDaemon p true m Stopped k w)
  | lf_writer p m l k w :
      alive m → (length p.(p_held) ≤ w)%nat → life_step (mkDaemon p true m l k (S w)) (mkDaemon p true m l k w)
  (** [main] and the two goroutines that wait for the signal and the context; the
      server may fail at any time, for instance to listen on its port *)
  | lf_signal p m l k w : alive m → life_step (mkDaemon p false m l k w) (mkDaemon p true m l k w)
  | lf_fatal p c l k w : life_step (mkDaemon p c Serving l k w) (mkDaemon p c Fatal l k w)
  | lf_served p l k w : life_step (mkDaemon p true Serving l k w) (mkDaemon p true Stopping l k w)
  | lf_close p c l w : life_step (mkDaemon p c Stopping l false w) (mkDaemon p c Closing l true w)
  | lf_exit p c l k w :
      (close_waits = true → p.(p_snap) = SnapIdle) →
      life_step (mkDaemon p c Closing l k w) (mkDaemon p c Exited l k w).

(** A snapshot is in progress exactly while the loop is in [Save]. *)
Definition loop_ok (d : daemon) : Prop :=
  (d.(dm_proc).(p_snap) = SnapIdle ↔ d.(dm_loop) = Waiting ∨ d.(dm_loop) = Stopped) ∧
  (close_waits = true → d.(dm_main) = Exited → d.(dm_proc).(p_snap) = SnapIdle) ∧
  (d.(dm_main) = Serving ∨ d.(dm_main) = Fatal → d.(dm_closed) = false) ∧
  (d.(dm_main) = Serving ∨ d.(dm_main) = Fatal ∨ d.(dm_cancelled) = true).

(** Only the snapshotter's own steps move it. *)
Lemma step_snap_pc p e q : step p e q →
  match e with EvSnap | EvSnapped _ _ => True | _ => q.(p_snap) = p.(p_snap) end.
Proof. by destruct 1. Qed.

Lemma snap_begins p q : p.(p_snap) = SnapIdle → step p EvSnap q → q.(p_snap) ≠ SnapIdle.
Proof. intros Hp Hs. inversion Hs; subst; cbn; congruence. Qed.

Lemma life_step_ok d d' : life_step d d' → loop_ok d → loop_ok d'.
Proof.
  intros Hs (H1 & H2 & H3 & H4). destruct Hs as [p e q c m l k w [Hm Hm'] Hf Hst|p q m w [Hm Hm'] Hp Hst|p q m w [Hm Hm'] Hp Hst
    |p m k w Hm|p m l k w Hm Hl|p m l k w Hm|p c l k w|p l k w|p c l w|p c l k w Hx]; unfold loop_ok, alive in *; cbn in *.
  - split_and!; [|done|done|done]. pose proof (step_snap_pc p e q Hst) as He.
    assert (q.(p_snap) = p.(p_snap) ∨ l = Saving ∨ l = LastSave) as [E|Hl] by (destruct e; auto).
    + rewrite E. unfold after_save. destruct p.(p_snap), l; naive_solver.
    + unfold after_save. destruct Hl as [-> | ->], q.(p_snap); naive_solver.
  - pose proof (snap_begins p q Hp Hst). split_and!; [|done|done|done]. split; [done|by intros []].
  - pose proof (snap_begins p q Hp Hst). split_and!; [|done|done|done]. split; [done|by intros []].
  - split_and!; [|done|done|done]. destruct H1 as [_ H1]. split; [by right|intros _; apply H1; by left].
  - done.
  - split_and!; [done|done|done|]. by destruct H4 as [?|[?|?]]; [left|right; left|right; right].
  - split_and!; [done|done|intros _; apply H3; by left|by right; left].
  - split_and!; [done|done|by intros [?|?]|by right; right].
  - split_and!; [done|done|by intros [?|?]|]. by destruct H4 as [?|[?|?]]; [done|done|right; right].
  - split_and!; [done|auto|by intros [?|?]|]. by destruct H4 as [?|[?|?]]; [done|done|right; right].
Qed.

Lemma life_ok p d : p.(p_snap) = SnapIdle → rtc life_step (running p) d → loop_ok d.
Proof.
  intros Hp Hr. assert (loop_ok (running p)) as H0 by (unfold loop_ok; cbn; naive_solver).
  remember (running p) as d0 eqn:E. clear E. induction Hr as [|x y z Hs _ IH]; [done|]. by apply IH, (life_step_ok x).
Qed.

(** What the daemon does to the process is a run of the process. *)
Lemma life_run d d' : rtc life_step d d' → rtc (λ p q, ∃ e, step p e q) d.(dm_proc) d'.(dm_proc).
Proof.
  induction 1 as [|x y z Hs _ IH]; [done|]. destruct Hs; cbn in *; try exact IH; (eapply rtc_l; [by eexists|exact IH]).
Qed.

(** A snapshot can be begun whenever none is being taken. *)
Lemma snap_can_begin p : p.(p_snap) = SnapIdle → ∃ q, step p EvSnap q ∧ q.(p_snap) ≠ SnapIdle ∧ q.(p_db) = p.(p_db).
Proof.
  intros Hp. set (order := (map_to_list p.(p_feed).(f_world).(w_books)).*1).
  eexists. split; [apply (st_snap_begin _ _ _ _ _ _ _ p order Hp)|done].
  split; [apply NoDup_fst_map_to_list|]. intros loc. unfold order. rewrite list_elem_of_fmap. split.
  - intros ([loc' b] & -> & Hin%elem_of_map_to_list). by exists b.
  - intros [b Hb]. exists (loc, b). split; [done|]. by apply elem_of_map_to_list.
Qed.

(** C34. Exit.  Once [main] serves, it ends in two ways (killing the process, and a
    panic of a goroutine, are crashes, for which see ProcessLives).  When the server has
    been shut down, the daemon exits only after the context is cancelled, and, the pool
    waiting for its connections, never in the middle of a snapshot: the loop has
    returned, or it has not yet seen that the context is done, and then no last
    snapshot was attempted.  The latter does happen: [main] does not wait for its
    goroutines, so from any state in which no snapshot is being taken a signal can end
    the process with nothing more saved, the trades still in the channel included.
    When the server fails, the process exits from where it is, in one step and with the
    pool open: from any state in which it is serving, with no signal, and so also in
    the middle of a snapshot, of which nothing is then saved. *)
Theorem exit_may_skip_snapshot (p : process) (Hidle : p.(p_snap) = SnapIdle) :
  (∀ d, rtc life_step (running p) d → d.(dm_main) = Exited →
    d.(dm_cancelled) = true ∧
    (close_waits = true → d.(dm_proc).(p_snap) = SnapIdle ∧ (d.(dm_loop) = Waiting ∨ d.(dm_loop) = Stopped))) ∧
  (∃ d, rtc life_step (running p) d ∧ d.(dm_main) = Exited ∧ d.(dm_loop) = Waiting ∧ d.(dm_proc) = p) ∧
  (∀ d, rtc life_step (running p) d → d.(dm_main) = Serving →
    ∃ d', life_step d d' ∧ d'.(dm_main) = Fatal ∧ d'.(dm_proc) = d.(dm_proc) ∧
      d'.(dm_cancelled) = d.(dm_cancelled) ∧ d'.(dm_closed) = false) ∧
  ∃ d, rtc life_step (running p) d ∧ d.(dm_main) = Fatal ∧ d.(dm_cancelled) = false ∧
    d.(dm_proc).(p_snap) ≠ SnapIdle ∧ d.(dm_proc).(p_db) = p.(p_db).
Proof.
  split_and!.
  - intros d Hr Hx. destruct (life_ok p d Hidle Hr) as (H1 & H2 & _ & H4). split; [by destruct H4 as [?|[?|?]]; [congruence|congruence|]|]. intros Hw.
    specialize (H2 Hw Hx). split; [done|]. by apply H1.
  - exists (mkDaemon p true Exited Waiting true writers). split_and!; [|done..]. unfold running.
    eapply rtc_l; [by apply lf_signal|]. eapply rtc_l; [apply lf_served|].
    eapply rtc_l; [apply lf_close|]. eapply rtc_l; [by apply lf_exit|]. apply rtc_refl.
  - intros d Hr Hm. destruct (life_ok p d Hidle Hr) as (_ & _ & H3 & _). destruct d as [p' c m l k w]. cbn in *. subst m.
    exists (mkDaemon p' c Fatal l k w). split; [apply lf_fatal|]. split_and!; [done..|]. apply H3. by left.
  - destruct (snap_can_begin p Hidle) as (q & Hs & Hq & Hdb). exists (mkDaemon q false Fatal Saving false writers).
    split_and!; [|done..]. unfold running. eapply rtc_l; [by apply lf_tick|]. eapply rtc_l; [apply lf_fatal|]. apply rtc_refl.
Qed.

End daemon.

(** The concrete process with one order book, before its snapshot. *)
Lemma exit_may_skip_snapshot_witness :
  let life_step := life_step (λ _, one) (λ _, float_of_Z (-1)) (λ _, fzero) (λ _, None) DefaultStressConfig demo_syms 16 true in
  (∃ d, rtc life_step (running demo_start) d ∧ d.(dm_main) = Exited ∧ d.(dm_loop) = Waiting ∧ d.(dm_proc) = demo_start) ∧
  ∃ d, rtc life_step (running demo_start) d ∧ d.(dm_main) = Fatal ∧ d.(dm_cancelled) = false ∧
    d.(dm_proc).(p_snap) ≠ SnapIdle ∧ d.(dm_proc).(p_db) = demo_start.(p_db).
Proof.
  intros ls.
  destruct (exit_may_skip_snapshot (λ _, one) (λ _, float_of_Z (-1)) (λ _, fzero) (λ _, None) DefaultStressConfig demo_syms 16 true demo_start
    eq_refl) as (_ & H1 & _ & H2).
  exact (conj H1 H2).
Defined.
