(* ===== verification/Api.v ===== *)
(** * internal/api: api.go and handlers.go

    A handler is a function of the server's state and the request to the
    response.  A request is its path value and its query parameters ([Get] of an
    absent one is the empty string); a response is its status, its cursor header
    and its body, as the value given to the JSON encoder.  An error body is the
    constructor of its message.  Parsing and printing RFC 3339 times belong to
    the time package and are arguments; contexts and their timeouts are not
    modelled. *)
From Stdlib Require Import Ascii.
From S2P Require Import Prelude Word Float64 Strconv Symbols Market Book ItchJson Snapshot Trades Archive Retention.

Local Open Scope Z_scope.

Record request := mkRequest {
  path_ticker : string;
  query : string → string;
}.

(** The reader behind [persist.TradeReader]; [None] is an error. [qMeta] is
    [None] when the reader does not implement [HistoryMeta]. *)
Record Reader := mkReader {
  qTrades : TradeFilter.t → option (list Trade.t);
  qTradesMulti : MultiTradeFilter.t → option (list Trade.t);
  qCandles : CandleFilter.t → option (list Candle.t);
  qTradeStats : option TradeStats.t;
  qDBSize : option DBSize.t;
  qMeta : option (option Meta.t);
}.

Record Server := mkServer {
  reader : Reader;
  state : world;            (* the price engine and the books *)
  clients : Z;              (* mgr.ClientCount() *)
  syms : list Symbol.t;
  startAt : Z;
}.

Definition byTick (s : Server) : gmap string Symbol.t := index_by Symbol.Ticker s.(syms).

Inductive apiError :=
  | ErrNotInteger (key value : string)
  | ErrNotTime (key value : string)
  | ErrFill (value : string)
  | ErrInterval (value : string)
  | ErrNoSymbol (ticker : string)
  | ErrNoBook (ticker : string)
  | ErrNoTickers
  | ErrReader.

Module symbolInfo.
Record t := mk {
  LocateCode : Z; Ticker : string; Name : string; Sector_ : Sector;
  Price : float64; BestBid : float64; BestAsk : float64; Spread : float64;
}.
End symbolInfo.

Module levelJSON.
Record t := mk { Price : float64; Orders : Z; TotalShares : Z }.
End levelJSON.

Module depthResponse.
Record t := mk {
  Ticker : string; Bids : list levelJSON.t; Asks : list levelJSON.t;
  BestBid : float64; BestAsk : float64; MidPrice : float64; Spread : float64;
}.
End depthResponse.

Module statsResponse.
Record t := mk {
  Uptime : Z;               (* the duration that is printed *)
  Clients : Z; Symbols : Z; TotalOrders : Z; TotalTrades : Z; TotalVolume : Z;
  DBSizeBytes : Z; DBTradesBytes : Z; DBIndexBytes : Z; DBPctOf2GB : float64; DBBudgetBytes : Z;
}.
End statsResponse.

Module healthResponse.
Record t := mk { Status : string; Clients : Z; Symbols : Z; DBSizeBytes : Z; DBPctOf2GB : float64 }.
End healthResponse.

Inductive body :=
  | BError (e : apiError)
  | BSymbols (l : list symbolInfo.t)
  | BSymbol (s : symbolInfo.t)
  | BDepth (d : depthResponse.t)
  | BTrades (l : list Trade.t)
  | BCandles (l : list Candle.t)
  | BStats (s : statsResponse.t)
  | BMeta (m : Meta.t)
  | BHealth (h : healthResponse.t).

Record response := mkResponse { status : Z; next_cursor : option string; content : body }.

Definition StatusOK : Z := 200.
Definition StatusBadRequest : Z := 400.
Definition StatusNotFound : Z := 404.
Definition StatusInternalServerError : Z := 500.

Definition writeJSON (st : Z) (b : body) : response := mkResponse st None b.
Definition writeError (st : Z) (e : apiError) : response := writeJSON st (BError e).

(** [if badRequest(w, err) { return }] *)
Definition or_badRequest {A} (r : A + apiError) (k : A → response) : response :=
  match r with
  | inl a => k a
  | inr e => writeError StatusBadRequest e
  end.

(** ** api.go *)

Section api.
Context (parse_RFC3339 : string → option Z) (format_RFC3339 : Z → string).
Context (s : Server).

Definition resolveTicker (ticker : string) : Symbol.t + apiError :=
  match byTick s !! ticker with
  | Some sym => inl sym
  | None => inr (ErrNoSymbol ticker)
  end.

Definition isMultiTicker (ticker : string) : bool :=
  bool_decide (ticker = "*"%string) || Contains ticker ",".

(** The loop of [resolveTickers]; [seen] is the set of locates collected. *)
Fixpoint resolve_parts (parts : list string) (seen : gset Z) (locates : list Z) : list Z + apiError :=
  match parts with
  | [] => inl locates
  | part :: parts =>
      let t := TrimSpace part in
      if decide (t = EmptyString) then resolve_parts parts seen locates
      else match byTick s !! t with
           | None => inr (ErrNoSymbol t)
           | Some sym =>
               let loc := sym.(Symbol.LocateCode) in
               if decide (loc ∈ seen) then resolve_parts parts seen locates
               else resolve_parts parts ({[loc]} ∪ seen) (locates ++ [loc])
           end
  end.

(** The locates, or the status and error written. *)
Definition resolveTickers (selector : string) : list Z + (Z * apiError) :=
  if decide (selector = "*"%string) then inl (Symbol.LocateCode <$> s.(syms))
  else match resolve_parts (Split selector ",") ∅ [] with
       | inr e => inr (StatusNotFound, e)
       | inl [] => inr (StatusBadRequest, ErrNoTickers)
       | inl locates => inl locates
       end.

Definition parseIntParam (r : request) (key : string) (def : Z) : Z + apiError :=
  let v := r.(query) key in
  if decide (v = EmptyString) then inl def
  else match Atoi v with
       | Some n => inl n
       | None => inr (ErrNotInteger key v)
       end.

Definition parseFill (r : request) : bool + apiError :=
  let v := r.(query) "fill" in
  if decide (v = EmptyString ∨ v = "none"%string) then inl false
  else if decide (v = "zero"%string) then inl true
  else inr (ErrFill v).

Definition parseTimeParam (r : request) (key : string) : option Z + apiError :=
  let v := r.(query) key in
  if decide (v = EmptyString) then inl None
  else match parse_RFC3339 v with
       | Some t => inl (Some t)
       | None => inr (ErrNotTime key v)
       end.

(** ** handlers.go *)

(** The value of a method of one book. *)
Definition read_book {A} (d : A) (m : go bstate A) (b : Book.t) : A :=
  match m (view_book s.(state) b) with Some (x, _) => x | None => d end.

Definition info (sym : Symbol.t) (price : float64) : symbolInfo.t :=
  let '(bid, ask, spread) :=
    match s.(state).(w_books) !! sym.(Symbol.LocateCode) with
    | Some b =>
        let bid := read_book fzero BestBid b in
        let ask := read_book fzero BestAsk b in
        (bid, ask, (ask - bid)%F)
    | None => (fzero, fzero, fzero)
    end in
  symbolInfo.mk sym.(Symbol.LocateCode) sym.(Symbol.Ticker) sym.(Symbol.Name) sym.(Symbol.Sector_)
    price bid ask spread.

Definition handleSymbols : response :=
  let prices := AllPrices s.(state).(w_market) in
  writeJSON StatusOK (BSymbols
    ((λ sym, info sym (default fzero (prices !! sym.(Symbol.LocateCode)))) <$> s.(syms))).

Definition handleSymbolDetail (r : request) : response :=
  match resolveTicker r.(path_ticker) with
  | inr e => writeError StatusNotFound e
  | inl sym => writeJSON StatusOK (BSymbol (info sym (Price sym.(Symbol.LocateCode) s.(state).(w_market))))
  end.

Definition level_json (l : DepthLevel.t) : levelJSON.t :=
  levelJSON.mk l.(DepthLevel.Price) l.(DepthLevel.Orders) l.(DepthLevel.TotalShares).

Definition handleBookDepth (r : request) : response :=
  match resolveTicker r.(path_ticker) with
  | inr e => writeError StatusNotFound e
  | inl sym =>
      match s.(state).(w_books) !! sym.(Symbol.LocateCode) with
      | None => writeError StatusNotFound (ErrNoBook r.(path_ticker))
      | Some b =>
          let snap := read_book (DepthSnapshot.mk [] [] fzero fzero fzero fzero) Depth b in
          writeJSON StatusOK (BDepth (depthResponse.mk sym.(Symbol.Ticker)
            (level_json <$> snap.(DepthSnapshot.Bids)) (level_json <$> snap.(DepthSnapshot.Asks))
            snap.(DepthSnapshot.BestBid) snap.(DepthSnapshot.BestAsk)
            snap.(DepthSnapshot.MidPrice) snap.(DepthSnapshot.Spread)))
      end
  end.

Definition reply_trades (trades : option (list Trade.t)) : response :=
  match trades with
  | None => writeError StatusInternalServerError ErrReader
  | Some l => writeJSON StatusOK (BTrades l)
  end.

Definition handleTrades (r : request) : response :=
  let ticker := r.(path_ticker) in
  or_badRequest (parseIntParam r "limit" DefaultLimit) (λ limit,
  or_badRequest (parseIntParam r "offset" 0) (λ offset,
  or_badRequest (parseTimeParam r "from") (λ from,
  or_badRequest (parseTimeParam r "to") (λ to,
  if isMultiTicker ticker then
    match resolveTickers ticker with
    | inr (st, e) => writeError st e
    | inl locates =>
        reply_trades (s.(reader).(qTradesMulti)
          (MultiTradeFilter.mk locates (ClampLimit limit) (Z.max offset 0) from to))
    end
  else
    match resolveTicker ticker with
    | inr e => writeError StatusNotFound e
    | inl sym =>
        reply_trades (s.(reader).(qTrades)
          (TradeFilter.mk sym.(Symbol.LocateCode) (ClampLimit limit) (Z.max offset 0) from to))
    end)))).

(** The end of [handleCandles]: the cursor of a full page. *)
Definition reply_candles (clamped : Z) (candles : list Candle.t) : response :=
  let cursor :=
    if (Z.of_nat (length candles) =? clamped) && (0 <? clamped)
    then (λ c, format_RFC3339 c.(Candle.Bucket)) <$> last candles else None in
  mkResponse StatusOK cursor (BCandles candles).

Definition handleCandles (r : request) : response :=
  match resolveTicker r.(path_ticker) with
  | inr e => writeError StatusNotFound e
  | inl sym =>
      let interval := r.(query) "interval" in
      let interval := if decide (interval = EmptyString) then inl "1m"%string
                      else if ValidInterval interval then inl interval
                      else inr (ErrInterval interval) in
      or_badRequest interval (λ interval,
      or_badRequest (parseIntParam r "limit" DefaultLimit) (λ limit,
      or_badRequest (parseTimeParam r "from") (λ from,
      or_badRequest (parseTimeParam r "to") (λ to,
      or_badRequest (parseTimeParam r "before") (λ before,
      or_badRequest (parseFill r) (λ fill,
      let clamped := ClampLimit limit in
      match s.(reader).(qCandles)
              (CandleFilter.mk sym.(Symbol.LocateCode) interval clamped from to before fill) with
      | None => writeError StatusBadRequest ErrReader
      | Some candles => reply_candles clamped candles
      end))))))
  end.

Definition totalOrders : Z :=
  map_fold (λ _ b n, read_book 0 OrderCount b + n) 0 s.(state).(w_books).

Definition db_size : DBSize.t := default (DBSize.mk 0 0 0) s.(reader).(qDBSize).
Definition db_pct : float64 := from_option PctOfBudget fzero s.(reader).(qDBSize).

Definition handleStats (now : Z) : response :=
  match s.(reader).(qTradeStats) with
  | None => writeError StatusInternalServerError ErrReader
  | Some ts =>
      writeJSON StatusOK (BStats (statsResponse.mk
        (Z.quot (now - s.(startAt)) second * second) s.(clients) (Z.of_nat (length s.(syms)))
        totalOrders ts.(TradeStats.TotalTrades) ts.(TradeStats.TotalVolume)
        db_size.(DBSize.DatabaseBytes) db_size.(DBSize.TradesBytes) db_size.(DBSize.TradesIndexBytes)
        db_pct SizeBudgetBytes))
  end.

Definition handleHistoryMeta : response :=
  match s.(reader).(qMeta) with
  | None => writeJSON StatusOK (BMeta (Meta.mk 0 false None None))
  | Some None => writeError StatusInternalServerError ErrReader
  | Some (Some meta) => writeJSON StatusOK (BMeta meta)
  end.

Definition handleHealth : response :=
  writeJSON StatusOK (BHealth (healthResponse.mk "ok" s.(clients) (Z.of_nat (length s.(syms)))
    db_size.(DBSize.DatabaseBytes) db_pct)).

End api.
