(* ===== verification/Routes.v ===== *)
(** * The HTTP surface: Register of api.go, corsMiddleware of main.go

    What the server answers to a request, from the method and path on: the CORS
    middleware around a ServeMux with the routes of the API and the feed, around
    the handlers of Api.  The mux is net/http's, for the patterns the program
    uses: an optional method, of which GET takes HEAD too, and segments that are
    literal or take any non-empty segment; paths are already clean.  The upgrade
    to a WebSocket is the library's and an argument.  A response is its headers,
    its status and its body; to HEAD the body is not sent. *)
From S2P Require Import Prelude Word Float64 Symbols Snapshot Trades Archive Retention Api.

Local Open Scope Z_scope.

Record http_request := mkHttp {
  Method : string;
  Path : list string;           (* the decoded segments *)
  Query : string → string;
}.

Inductive seg := Lit (s : string) | Wild.

(** A handler registered with the mux; the ones of the API take the path value. *)
Inductive endpoint :=
  | Feed | SymbolsList | SymbolDetail | BookDepth | TradeList | CandleList | Stats | HistoryMeta | Health.

Record route := mkRoute { r_method : option string; r_segs : list seg; r_endpoint : endpoint }.

(** [Register], after the feed of main. *)
Definition routes : list route :=
  let api segs e := mkRoute (Some "GET"%string) (Lit "api" :: segs) e in
  [mkRoute None [Lit "feed"] Feed;
   api [Lit "symbols"] SymbolsList;
   api [Lit "symbols"; Wild] SymbolDetail;
   api [Lit "book"; Wild] BookDepth;
   api [Lit "trades"; Wild] TradeList;
   api [Lit "candles"; Wild] CandleList;
   api [Lit "stats"] Stats;
   api [Lit "history"; Lit "meta"] HistoryMeta;
   mkRoute (Some "GET"%string) [Lit "health"] Health].

(** ** ServeMux *)

(** The path value, if the path is of the pattern. *)
Fixpoint match_segs (pat : list seg) (path : list string) (value : string) : option string :=
  match pat, path with
  | [], [] => Some value
  | Lit s :: pat, x :: path => if decide (x = s) then match_segs pat path value else None
  | Wild :: pat, x :: path => if decide (x = EmptyString) then None else match_segs pat path x
  | _, _ => None
  end.

Definition match_method (m : option string) (method : string) : bool :=
  match m with
  | None => true
  | Some m => bool_decide (method = m) || (bool_decide (m = "GET"%string) && bool_decide (method = "HEAD"%string))
  end.

Definition on_path (path : list string) (r : route) : option (route * string) := pair r <$> match_segs r.(r_segs) path EmptyString.

(** The handler and its path value; or that only the method is wrong. *)
Inductive dispatch := Found (e : endpoint) (value : string) | MethodNotAllowed | NotFound.

Definition mux (method : string) (path : list string) : dispatch :=
  let here := omap (on_path path) routes in
  match List.find (λ rv, match_method rv.1.(r_method) method) here with
  | Some (r, v) => Found r.(r_endpoint) v
  | None => match here with [] => NotFound | _ => MethodNotAllowed end
  end.

(** ** The server *)

Inductive http_body := JSON (b : body) | PlainText | Switching | NoBody.
Record http_response := mkHttpResponse { headers : list (string * string); code : Z; sent : http_body }.

Definition add_headers (h : list (string * string)) (r : http_response) : http_response :=
  mkHttpResponse (h ++ r.(headers)) r.(code) r.(sent).

Section server.
Context (parse_RFC3339 : string → option Z) (format_RFC3339 : Z → string) (s : Server) (now : Z).
Context (upgrade : request → http_response).

Definition respond (r : response) : http_response :=
  mkHttpResponse (from_option (λ c, [("X-Next-Cursor"%string, c)]) [] r.(next_cursor) ++ [("Content-Type", "application/json")]%string)
    r.(status) (JSON r.(content)).

Definition handle (e : endpoint) (req : request) : http_response :=
  match e with
  | Feed => upgrade req
  | SymbolsList => respond (handleSymbols s)
  | SymbolDetail => respond (handleSymbolDetail s req)
  | BookDepth => respond (handleBookDepth s req)
  | TradeList => respond (handleTrades parse_RFC3339 s req)
  | CandleList => respond (handleCandles parse_RFC3339 format_RFC3339 s req)
  | Stats => respond (handleStats s now)
  | HistoryMeta => respond (handleHistoryMeta s)
  | Health => respond (handleHealth s)
  end.

(** [http.Error] *)
Definition http_error (st : Z) : http_response :=
  mkHttpResponse [("Content-Type", "text/plain; charset=utf-8"); ("X-Content-Type-Options", "nosniff")]%string st PlainText.

Definition serve_mux (r : http_request) : http_response :=
  match mux r.(Method) r.(Path) with
  | Found e v => handle e (mkRequest v r.(Query))
  | MethodNotAllowed => add_headers [("Allow", "GET, HEAD")]%string (http_error 405)
  | NotFound => http_error 404
  end.

Definition cors_headers : list (string * string) :=
  [("Access-Control-Allow-Origin", "*"); ("Access-Control-Allow-Methods", "GET, OPTIONS");
   ("Access-Control-Allow-Headers", "Content-Type")]%string.

Definition corsMiddleware (next : http_request → http_response) (r : http_request) : http_response :=
  add_headers cors_headers
    (if decide (r.(Method) = "OPTIONS"%string) then mkHttpResponse [] 204 NoBody else next r).

(** [srv.Handler] *)
Definition serve : http_request → http_response := corsMiddleware serve_mux.


(** ** Routing *)

(** No path is of both patterns. *)
Fixpoint clash (p q : list seg) : bool :=
  match p, q with
  | [], [] => false
  | Lit a :: p, Lit b :: q => negb (bool_decide (a = b)) || clash p q
  | _ :: p, _ :: q => clash p q
  | _, _ => true
  end.

Lemma clash_apart p q path v w : clash p q = true → is_Some (match_segs p path v) → match_segs q path w = None.
Proof.
  revert q path v w. induction p as [|[a|] p IH]; intros [|[b|] q] [|x path] v w; cbn; try done; try (by intros _ []); intros Hc.
  - destruct (decide (x = a)) as [->|]; [|by intros []]. intros Hp. case_decide as Hd; [|done]. subst b.
    rewrite bool_decide_eq_true_2 in Hc by done. by eapply IH.
  - destruct (decide (x = a)); [|by intros []]. intros Hp. case_decide; [done|]. by eapply IH.
  - destruct (decide (x = "")); [by intros []|]. intros Hp. case_decide; [|done]. by eapply IH.
  - destruct (decide (x = "")); [by intros []|]. intros Hp. by eapply IH.
Qed.

Lemma apart_one l path :
  ForallOrdPairs (λ r1 r2, clash r1.(r_segs) r2.(r_segs) = true) l → (length (omap (on_path path) l) ≤ 1)%nat.
Proof.
  induction 1 as [|r l Hr _ IH]; [cbn; lia|]. cbn. destruct (on_path path r) as [y|] eqn:E; [|exact IH].
  assert (omap (on_path path) l = []) as ->; [|cbn; lia]. unfold on_path in E. apply fmap_Some in E as (v & Ev & _).
  clear IH. induction Hr as [|r' l Hc _ IHl]; [done|]. cbn. unfold on_path at 1. by rewrite (clash_apart _ _ _ EmptyString _ Hc (ex_intro _ v Ev)).
Qed.

(** No two patterns share a path, so their order does not matter and [Register] does not panic. *)
Lemma routes_apart path : (length (omap (on_path path) routes) ≤ 1)%nat.
Proof. apply apart_one. repeat (constructor; [repeat constructor|]). constructor. Qed.

(** A route that takes the method and the path is the one that answers. *)
Lemma mux_route r method path v :
  r ∈ routes → match_segs r.(r_segs) path EmptyString = Some v → match_method r.(r_method) method = true →
  mux method path = Found r.(r_endpoint) v.
Proof.
  intros Hin Hv Hm. assert ((r, v) ∈ omap (on_path path) routes) as H.
  { apply list_elem_of_omap. exists r. split; [done|]. unfold on_path. by rewrite Hv. }
  pose proof (routes_apart path) as Hl. unfold mux. destruct (omap (on_path path) routes) as [|rv [|]]; [by apply elem_of_nil in H| |cbn in Hl; lia].
  apply list_elem_of_singleton in H as <-. cbn. by rewrite Hm.
Qed.

Lemma mux_other method path :
  method ≠ "GET"%string → method ≠ "HEAD"%string → path ≠ ["feed"%string] →
  mux method path = NotFound ∨ mux method path = MethodNotAllowed.
Proof.
  intros H1 H2 Hp. unfold mux. destruct (List.find _ _) as [[r v]|] eqn:E; [|case_match; [by left|by right]]. exfalso.
  apply List.find_some in E as [Hin Hm]. apply list_elem_of_In, list_elem_of_omap in Hin as (r' & Hin & E). unfold on_path in E.
  apply fmap_Some in E as (v' & Ev & [= <- <-]). cbn in Hm.
  assert (r.(r_method) = Some "GET"%string) as Hget.
  { apply elem_of_cons in Hin as [->|Hin].
    - destruct path as [|x [|]]; cbn in Ev; try discriminate; case_decide; try discriminate. subst x. by destruct Hp.
    - assert (Forall (λ r, r_method r = Some "GET"%string) (drop 1 routes)) as H by by repeat constructor.
      rewrite Forall_forall in H. by apply H. }
  unfold match_method in Hm. rewrite Hget in Hm.
  rewrite (bool_decide_eq_false_2 (method = "GET"%string)), (bool_decide_eq_false_2 (method = "HEAD"%string)), andb_false_r in Hm by done. done.
Qed.

(** The HTTP surface.  Every answer carries the CORS headers; a preflight is
    answered at once, whatever its path; a request that is no GET or HEAD reaches no
    handler of the API, and a GET or HEAD of a registered path exactly the one it is
    registered with, with its path value; any other path is not found. *)
Theorem serve_spec (r : http_request) :
  (∃ rest, (serve r).(headers) = cors_headers ++ rest) ∧
  (r.(Method) = "OPTIONS"%string → serve r = mkHttpResponse cors_headers 204 NoBody) ∧
  (r.(Method) ≠ "OPTIONS"%string → r.(Method) ≠ "GET"%string → r.(Method) ≠ "HEAD"%string → r.(Path) ≠ ["feed"%string] →
    (serve r).(sent) = PlainText ∧ ((serve r).(code) = 404 ∨ (serve r).(code) = 405)) ∧
  (r.(Method) = "GET"%string ∨ r.(Method) = "HEAD"%string →
    (∀ rt v, rt ∈ routes → match_segs rt.(r_segs) r.(Path) EmptyString = Some v →
      serve r = add_headers cors_headers (handle rt.(r_endpoint) (mkRequest v r.(Query)))) ∧
    ((∀ rt, rt ∈ routes → match_segs rt.(r_segs) r.(Path) EmptyString = None) →
      serve r = add_headers cors_headers (http_error 404))).
Proof.
  unfold serve, corsMiddleware. split; [by eexists|]. split; [intros E; by rewrite decide_True|]. split.
  - intros H1 H2 H3 H4. rewrite decide_False by done. unfold serve_mux. destruct (mux_other _ _ H2 H3 H4) as [-> | ->]; cbn; auto.
  - intros Hm. rewrite decide_False by by destruct Hm as [-> | ->]. split.
    + intros rt v Hin Hv. unfold serve_mux. erewrite mux_route; [done|done|done|].
      unfold match_method. destruct (r_method rt) as [m|] eqn:E; [|done].
      assert (m = "GET"%string) as ->.
      { assert (Forall (λ r, from_option (λ m, m = "GET"%string) True (r_method r)) routes) as H by by repeat constructor.
        rewrite Forall_forall in H. specialize (H rt Hin). by rewrite E in H. }
      destruct Hm as [-> | ->]; reflexivity.
    + intros Hn. unfold serve_mux, mux. assert (omap (on_path (Path r)) routes = []) as ->; [|done].
      apply elem_of_nil_inv. intros x (rt & Hin & E)%list_elem_of_omap. unfold on_path in E. by rewrite (Hn rt Hin) in E.
Qed.

Lemma mux_feed method path v : mux method path = Found Feed v → path = ["feed"%string].
Proof.
  unfold mux. destruct (List.find _ _) as [[r v']|] eqn:E; [|by case_match]. intros [= Er ->].
  apply List.find_some in E as [Hin _]. apply list_elem_of_In, list_elem_of_omap in Hin as (r' & Hin & E). unfold on_path in E.
  apply fmap_Some in E as (v' & Ev & [= <- <-]). unfold routes in Hin.
  apply elem_of_cons in Hin as [->|Hin].
  - destruct path as [|x [|]]; cbn in Ev; try discriminate; case_decide; try discriminate. by subst x.
  - assert (Forall (λ r, r_endpoint r ≠ Feed) (drop 1 routes)) as H by by repeat constructor.
    rewrite Forall_forall in H. by destruct (H r).
Qed.

Lemma not_exposed names l : forallb (λ h, negb (bool_decide (h.1 = "Access-Control-Expose-Headers"%string))) l = true →
  ("Access-Control-Expose-Headers"%string, names) ∉ (l : list (string * string)).
Proof. rewrite forallb_forall. intros H Hin%list_elem_of_In. by apply H in Hin. Qed.

(** What a script of another origin may read of a response: the safelisted headers
    and those the response exposes. *)
Definition safelist : list string :=
  ["Cache-Control"; "Content-Language"; "Content-Length"; "Content-Type"; "Expires"; "Last-Modified"; "Pragma"]%string.
Definition readable (name : string) (r : http_response) : Prop :=
  name ∈ safelist ∨ ∃ names, ("Access-Control-Expose-Headers"%string, names) ∈ r.(headers).

(** The cursor of a page of candles is in a header that the middleware does not
    expose: no script of another origin, which the middleware is there for, can
    follow it to the next page. *)
Theorem cursor_not_readable (r : http_request) (Hp : r.(Path) ≠ ["feed"%string]) : ¬ readable "X-Next-Cursor" (serve r).
Proof.
  intros [H|[names H]]; [apply (bool_decide_pack _) in H; by vm_compute in H|].
  unfold serve, corsMiddleware in H. cbn [add_headers headers] in H. apply elem_of_app in H as [H|H]; [by apply not_exposed in H|].
  destruct (decide (Method r = "OPTIONS"%string)); [by apply elem_of_nil in H|]. unfold serve_mux in H.
  destruct (mux (Method r) (Path r)) as [e v| |] eqn:E; [|by apply not_exposed in H..].
  assert (e ≠ Feed) as He by (intros ->; by apply Hp, (mux_feed _ _ _ E)).
  assert (∃ resp, handle e (mkRequest v (Query r)) = respond resp) as [resp Er] by (destruct e; [done|by eexists..]).
  rewrite Er in H. unfold respond in H. destruct (next_cursor resp); by apply not_exposed in H.
Qed.

End server.
