(* ===== verification/CandleProps.v ===== *)
(** * Properties of the candles

    The archive aggregates candles by streaming a day's trades into a map of
    buckets, the live store by GROUP BY.  Both give the same bars; days, and the
    two stores, never share a bucket, so pages merge by concatenation.  Zero
    filling yields the contiguous series. *)
From stdpp Require Import sorting.
From S2P Require Import Prelude Word Float64 GoSort Trades Archive ArchiveProps HistoryProps.

Local Open Scope Z_scope.

(** ** One bucket *)

(** What the streaming aggregation holds after the rows of one bucket. *)
Definition agg_rows (rows : list TradeRow.t) (a : option candleAgg.t) : option candleAgg.t :=
  fold_left (λ a d, Some (agg_update a d)) rows a.

(** Shares are not negative and no sum leaves [int64]. *)
Record summable (rows : list TradeRow.t) : Prop := mk_summable {
  sm_shares : Forall (λ r, 0 ≤ r.(TradeRow.Shares)) rows;
  sm_volume : total_volume rows < 2 ^ 63;
  sm_count : Z.of_nat (length rows) < 2 ^ 63;
}.

Lemma total_volume_app l l' : total_volume (l ++ l') = total_volume l + total_volume l'.
Proof. unfold total_volume. induction l as [|r l IH]; cbn; lia. Qed.

Lemma total_volume_nonneg rows : Forall (λ r, 0 ≤ r.(TradeRow.Shares)) rows → 0 ≤ total_volume rows.
Proof. unfold total_volume. induction 1; cbn; lia. Qed.

Lemma summable_prefix l l' : summable (l ++ l') → summable l.
Proof.
  intros [[H1 H1']%Forall_app H2 H3]. rewrite total_volume_app, length_app in *.
  pose proof (total_volume_nonneg _ H1'). split; [done|lia..].
Qed.

Lemma filter_sub {A} (p : A → bool) l : List.filter p l ⊆+ l.
Proof.
  induction l as [|x l IH]; [done|]. cbn. destruct (p x); [by apply submseteq_skip|by apply submseteq_cons].
Qed.

Lemma summable_perm l l' : l ≡ₚ l' → summable l → summable l'.
Proof.
  intros Hp [H1 H2 H3]. split; [by rewrite <- Hp| |by rewrite <- Hp].
  enough (total_volume l' = total_volume l) by lia. clear -Hp. unfold total_volume.
  induction Hp; cbn; lia.
Qed.

Lemma summable_sub l l' : l ⊆+ l' → summable l' → summable l.
Proof.
  intros [k Hk]%submseteq_Permutation Hs. apply (summable_prefix l k). by apply (summable_perm l').
Qed.

Lemma fold_left_last {A B} (f : A → B → A) a l b : fold_left f (l ++ [b]) a = f (fold_left f l a) b.
Proof. by rewrite fold_left_app. Qed.

Lemma agg_rows_some rows a : ∃ a', agg_rows rows (Some a) = Some a'.
Proof. revert a. induction rows as [|r rows IH]; intros a; [by eexists|]. apply IH. Qed.

(** The aggregate of a bucket is the bar of the SQL query. *)
Lemma agg_rows_bar b rows a :
  summable rows → agg_rows rows None = Some a → candle_of (b, a) = sql_bar b rows.
Proof.
  revert a. induction rows as [|r rows IH] using rev_ind; [done|]. intros a Hs.
  pose proof (summable_prefix _ _ Hs) as Hs'. destruct Hs as [Hshares Hv Hn].
  unfold agg_rows. rewrite fold_left_last. fold (agg_rows rows None).
  destruct rows as [|r0 rows0].
  { intros [= <-]. unfold sql_bar. cbn. f_equal; [unfold fmax|unfold fmin|lia]; by case_match. }
  destruct (agg_rows_some rows0 (agg_update None r0)) as [a0 Ha].
  change (agg_rows rows0 _) with (agg_rows (r0 :: rows0) None) in Ha. rewrite Ha. intros [= <-]. specialize (IH a0 Hs' Ha). cbn [agg_update].
  apply Forall_app in Hshares as [Hs1 Hs2]. pose proof (Forall_inv Hs2) as Hr; cbn in Hr.
  pose proof (total_volume_nonneg _ Hs1) as Hv0.
  unfold candle_of, sql_bar in IH |- *. rewrite total_volume_app, length_app in *.
  rewrite fmap_app. set (ps := TradeRow.Price <$> r0 :: rows0) in *.
  change (TradeRow.Price <$> [r]) with [TradeRow.Price r].
  change (head (ps ++ _)) with (head ps). rewrite last_snoc, !fold_left_app.
  pose proof (f_equal Candle.Open IH) as Ho. pose proof (f_equal Candle.High IH) as Hh.
  pose proof (f_equal Candle.Low IH) as Hl. pose proof (f_equal Candle.Volume IH) as Hvol.
  pose proof (f_equal Candle.Count IH) as Hcnt. cbn [Candle.Open Candle.High Candle.Low Candle.Volume Candle.Count] in *.
  f_equal; cbn [agg_update candleAgg.open candleAgg.high candleAgg.low candleAgg.close candleAgg.volume candleAgg.count].
  - exact Ho.
  - by rewrite Hh.
  - by rewrite Hl.
  - rewrite Hvol. change (total_volume [r]) with (TradeRow.Shares r + 0) in *. rewrite Z.add_0_r in *.
    apply swrap_id; [done|]. unfold is_s. change (64 - 1) with 63. lia.
  - rewrite Hcnt. cbn [length] in *. rewrite swrap_id; [lia|done|]. unfold is_s. change (64 - 1) with 63. lia.
Qed.

(** ** All buckets *)

Section buckets.
Context (secs : Z).

(** The map after streaming [docs]. *)
Definition aggregate (docs : list TradeRow.t) (m : gmap Z candleAgg.t) : gmap Z candleAgg.t :=
  fold_left (λ m d, <[bucketStart secs d := agg_update (m !! bucketStart secs d) d]> m) docs m.

Lemma bucket_fold docs m b :
  aggregate docs m !! b
  = agg_rows (List.filter (λ d, bucketStart secs d =? b) docs) (m !! b).
Proof.
  revert m. induction docs as [|d docs IH]; intros m; [done|].
  change (aggregate (d :: docs) m) with (aggregate docs (<[bucketStart secs d := agg_update (m !! bucketStart secs d) d]> m)).
  rewrite IH. cbn [List.filter].
  destruct (Z.eqb_spec (bucketStart secs d) b) as [<-|Hne].
  - by rewrite lookup_insert_eq.
  - by rewrite lookup_insert_ne.
Qed.

Lemma agg_rows_none rows : agg_rows rows None = None ↔ rows = [].
Proof.
  destruct rows as [|r rows]; [done|]. split; [|done].
  destruct (agg_rows_some rows (agg_update None r)) as [a E]. intros H.
  change (agg_rows rows (Some (agg_update None r)) = None) in H. congruence.
Qed.

Definition bucket_lt (a b : Candle.t) : Prop := a.(Candle.Bucket) < b.(Candle.Bucket).

Lemma candle_of_bucket b a : Candle.Bucket (candle_of (b, a)) = b * second.
Proof. done. Qed.

(** The map of aggregates holds the bars of the buckets that occur. *)
Lemma map_bars rows :
  summable rows →
  candle_of <$> map_to_list (aggregate rows ∅)
  ≡ₚ (λ b, sql_bar b (List.filter (λ d, bucketStart secs d =? b) rows)) <$> remove_dups (bucketStart secs <$> rows).
Proof.
  intros Hs. set (m := aggregate rows ∅).
  set (row_of b := List.filter (λ d, bucketStart secs d =? b) rows).
  assert (∀ b, m !! b = agg_rows (row_of b) None) as Hm by (intros b; subst m; by rewrite bucket_fold, lookup_empty).
  assert (∀ b, summable (row_of b)) as Hsum.
  { intros b. exact (summable_sub _ _ (filter_sub _ _) Hs). }
  transitivity ((λ b, sql_bar b (row_of b)) <$> (map_to_list m).*1).
  - rewrite <- list_fmap_compose. erewrite list_fmap_ext; [reflexivity|]. intros i [b a] Hi. cbn.
    apply list_elem_of_lookup_2, elem_of_map_to_list in Hi. rewrite Hm in Hi. by apply agg_rows_bar.
  - apply fmap_Permutation. apply NoDup_Permutation; [apply NoDup_fst_map_to_list|apply NoDup_remove_dups|].
    intros b. rewrite elem_of_remove_dups, list_elem_of_fmap. split.
    + intros ([b' a] & -> & Hi%elem_of_map_to_list). cbn. rewrite Hm in Hi.
      destruct (row_of b') as [|r l] eqn:E; [done|].
      assert (r ∈ row_of b') as Hr by (rewrite E; by left). apply elem_of_filter_bool in Hr as [Hr Hb].
      apply Z.eqb_eq in Hb. rewrite <- Hb. by apply list_elem_of_fmap_2.
    + intros (r & -> & Hr)%list_elem_of_fmap. destruct (m !! bucketStart secs r) as [a|] eqn:E.
      * exists (bucketStart secs r, a). split; [done|]. by apply elem_of_map_to_list.
      * rewrite Hm in E. apply agg_rows_none in E.
        assert (r ∈ row_of (bucketStart secs r)) as H by (apply elem_of_filter_bool; by rewrite Z.eqb_refl).
        rewrite E in H. by apply elem_of_nil in H.
Qed.
End buckets.

Lemma fold_left_ext {A B} (f g : A → B → A) l a : (∀ a b, f a b = g a b) → fold_left f l a = fold_left g l a.
Proof. intros H. revert a. induction l as [|b l IH]; intros a; [done|]. cbn. by rewrite H, IH. Qed.

Lemma Forall_filter_bool {A} (P : A → Prop) (p : A → bool) l : Forall P l → Forall P (List.filter p l).
Proof. rewrite !Forall_forall. intros H x [Hx _]%elem_of_filter_bool. auto. Qed.

(** ** A day's candles are the SQL groups *)

Lemma bucketStart_sql secs d : 0 ≤ row_time d → 0 < secs → bucketStart secs d = sql_bucket secs d.
Proof.
  intros Ht Hs. unfold bucketStart, sql_bucket. rewrite Z.rem_mod_nonneg; [done| |done].
  unfold Unix. by apply Z.div_pos.
Qed.

Definition later (rows : list TradeRow.t) : Prop := Forall (λ r, 0 ≤ row_time r) rows.

Global Instance Zge_total : Total Z.ge.
Proof. intros a b. lia. Qed.
Global Instance Zge_trans : Transitive Z.ge.
Proof. intros a b c. lia. Qed.
Global Instance Zge_antisymm : AntiSymm (=) Z.ge.
Proof. intros a b. lia. Qed.

Lemma buckets_sorted {A} (f : Z → A) (R : A → A → Prop) l :
  (∀ a b, b ≤ a → R (f a) (f b)) → StronglySorted R (f <$> merge_sort Z.ge l).
Proof.
  intros H. apply StronglySorted_fmap with (R1 := Z.ge).
  - intros a b. intros ?. apply H. lia.
  - apply StronglySorted_merge_sort; apply _.
Qed.

Lemma sorted_bars secs rows :
  later rows → 0 < secs → summable rows →
  merge_sort bucket_after (candle_of <$> map_to_list (aggregate secs rows ∅)) = sql_group secs rows.
Proof.
  intros Ht Hs Hsum. assert (∀ d, d ∈ rows → bucketStart secs d = sql_bucket secs d) as Hb.
  { intros d Hd. unfold later in Ht. rewrite Forall_forall in Ht. apply bucketStart_sql; auto. }
  assert (bucketStart secs <$> rows = sql_bucket secs <$> rows) as Hbs.
  { apply list_fmap_ext. intros i d Hd. apply Hb. by eapply list_elem_of_lookup_2. }
  unfold sql_group. rewrite <- Hbs.
  assert (∀ b, List.filter (λ r, sql_bucket secs r =? b) rows = List.filter (λ r, bucketStart secs r =? b) rows) as Hf
    by (intros b; apply filter_ext_elem; intros d Hd; by rewrite Hb).
  rewrite (list_fmap_ext _ (λ b, sql_bar b (List.filter (λ r, bucketStart secs r =? b) rows))) by (intros; by rewrite Hf).
  set (bar b := sql_bar b _). set (bs := remove_dups (bucketStart secs <$> rows)).
  apply (StronglySorted_unique_strong bucket_after).
  - intros x y Hx Hy Hxy Hyx. rewrite merge_sort_Permutation, (map_bars secs rows Hsum) in Hx.
    apply list_elem_of_fmap in Hx as (b1 & -> & _). apply list_elem_of_fmap in Hy as (b2 & -> & _).
    unfold bucket_after in *. subst bar. cbn [sql_bar Candle.Bucket] in *. assert (b1 = b2) as -> by (unfold second in *; lia). done.
  - apply StronglySorted_merge_sort; intros ?; unfold bucket_after; lia.
  - apply buckets_sorted. intros a b Hab. unfold bucket_after. subst bar. cbn [sql_bar Candle.Bucket].
    unfold second. lia.
  - rewrite !merge_sort_Permutation. apply map_bars, Hsum.
Qed.

(** The rows the archive puts into buckets. *)
Definition below (secs : Z) (before : option Z) (d : TradeRow.t) : bool :=
  match before with Some t => bucketStart secs d <? Unix t | None => true end.
Definition picked (locate from to secs : Z) (before : option Z) (d : TradeRow.t) : bool :=
  selected locate from to d && below secs before d.

Lemma readDayCandles_group docs locate from to secs before :
  later docs → 0 < secs → summable (List.filter (picked locate from to secs before) docs) →
  readDayCandles (Some docs) locate from to secs before
  = Some (sql_group secs (List.filter (picked locate from to secs before) docs)).
Proof.
  intros Ht Hs Hsum. unfold readDayCandles. cbn [mbind option_bind]. f_equal.
  rewrite <- sorted_bars; [|by apply Forall_filter_bool|done|done]. do 3 f_equal.
  unfold bucket_docs, aggregate. rewrite <- fold_filter. apply fold_left_ext. intros m d.
  unfold picked, below. destruct (selected locate from to d); [|done]. cbn [andb].
  destruct before as [t|]; [|done]. rewrite Z.geb_leb. destruct (Z.leb_spec (Unix t) (bucketStart secs d)).
  - by rewrite (proj2 (Z.ltb_ge _ _)).
  - by rewrite (proj2 (Z.ltb_lt _ _)).
Qed.

(** ** Groups of disjoint stretches of time *)

Lemma sql_group_app secs rows1 rows2 :
  (∀ r1 r2, r1 ∈ rows1 → r2 ∈ rows2 → sql_bucket secs r1 < sql_bucket secs r2) →
  sql_group secs (rows1 ++ rows2) = sql_group secs rows2 ++ sql_group secs rows1.
Proof.
  intros Hlt. unfold sql_group.
  set (b1 := sql_bucket secs <$> rows1). set (b2 := sql_bucket secs <$> rows2).
  assert (∀ x y, x ∈ b1 → y ∈ b2 → x < y) as Hb.
  { intros x y (r1 & -> & H1)%list_elem_of_fmap (r2 & -> & H2)%list_elem_of_fmap. auto. }
  assert (merge_sort Z.ge (remove_dups (sql_bucket secs <$> rows1 ++ rows2))
    = merge_sort Z.ge (remove_dups b2) ++ merge_sort Z.ge (remove_dups b1)) as ->.
  { apply (StronglySorted_unique Z.ge).
    - apply StronglySorted_merge_sort; apply _.
    - apply StronglySorted_app_2; [|apply StronglySorted_merge_sort; apply _..].
      intros x y. rewrite !merge_sort_Permutation, !elem_of_remove_dups. intros H1 H2.
      specialize (Hb y x H2 H1). lia.
    - rewrite !merge_sort_Permutation. apply NoDup_Permutation; [apply NoDup_remove_dups| |].
      + apply NoDup_app. split_and!; [apply NoDup_remove_dups| |apply NoDup_remove_dups].
        intros x. rewrite !elem_of_remove_dups. intros H1 H2. specialize (Hb x x H2 H1). lia.
      + intros x. rewrite elem_of_app, !elem_of_remove_dups, fmap_app, elem_of_app. tauto. }
  rewrite fmap_app. f_equal; apply list_fmap_ext; intros i b Hi;
    apply list_elem_of_lookup_2 in Hi; rewrite merge_sort_Permutation, elem_of_remove_dups in Hi;
    rewrite List.filter_app.
  - rewrite (filter_nil _ rows1); [done|]. apply Forall_forall. intros r Hr. apply Z.eqb_neq.
    assert (sql_bucket secs r < b) by (apply Hb; [by apply list_elem_of_fmap_2|done]). lia.
  - rewrite (filter_nil _ rows2), app_nil_r; [done|]. apply Forall_forall. intros r Hr. apply Z.eqb_neq.
    assert (b < sql_bucket secs r) by (apply Hb; [done|by apply list_elem_of_fmap_2]). lia.
Qed.

(** An interval that divides the day: no bucket crosses midnight. *)
Lemma bucket_of_day secs D r :
  0 < secs → (secs | 86400) → (day_ns | D) →
  (D ≤ row_time r → D / second ≤ sql_bucket secs r) ∧ (row_time r < D → sql_bucket secs r < D / second).
Proof.
  intros Hs [k Hk] [d ->]. unfold sql_bucket, Unix. fold (row_time r).
  replace (d * day_ns / second) with (d * k * secs)
    by (unfold day_ns; rewrite Hk, !Z.mul_assoc, Z.div_mul by done; ring).
  assert (d * day_ns = d * k * secs * second) as Hd by (unfold day_ns; rewrite Hk; ring).
  rewrite Hd. set (e := row_time r / second). set (q := d * k).
  pose proof (Z.div_mod e secs ltac:(lia)). pose proof (Z.mod_pos_bound e secs Hs).
  split; intros H1.
  - assert (q * secs ≤ e) by (subst e; apply Z.div_le_lower_bound; [done|lia]).
    assert (q ≤ e / secs) by (apply Z.div_le_lower_bound; lia). nia.
  - assert (e < q * secs) by (subst e; apply Z.div_lt_upper_bound; [done|lia]). lia.
Qed.

Lemma row_in_day secs D r :
  0 < secs → (secs | 86400) → (day_ns | D) → D ≤ row_time r < D + day_ns →
  D / second ≤ sql_bucket secs r < (D + day_ns) / second.
Proof.
  intros Hs Hk HD [H1 H2]. split; [by apply bucket_of_day|].
  apply bucket_of_day; try done. apply Z.divide_add_r; [done|apply Z.divide_refl].
Qed.

Section days.
Context (secs : Z) (Hsecs : 0 < secs) (Hdiv : (secs | 86400)).

(** The groups of consecutive days, newest day first. *)
Lemma sql_group_days (p : TradeRow.t → bool) ds :
  Forall day_ok ds → StronglySorted (λ a b, a.(DayFile.Date) < b.(DayFile.Date)) ds →
  sql_group secs (List.filter p (concat (docs_of <$> ds)))
  = concat ((λ df, sql_group secs (List.filter p (docs_of df))) <$> reverse ds).
Proof using Hsecs Hdiv.
  intros Hok Hsort. induction Hsort as [|df ds Hs IH Hdf]; [done|].
  apply Forall_cons in Hok as [Hok1 Hok]. cbn [fmap list_fmap concat].
  rewrite List.filter_app, sql_group_app; [rewrite IH by done|].
  - rewrite reverse_cons, fmap_app, concat_app. cbn [fmap list_fmap concat]. by rewrite app_nil_r.
  - intros r1 r2 [H1 _]%elem_of_filter_bool [H2 _]%elem_of_filter_bool.
    apply elem_of_concat in H2 as (l & H2 & (df2 & -> & Hdf2)%list_elem_of_fmap).
    rewrite Forall_forall in Hdf, Hok. pose proof (dy_rows _ Hok1) as Hr1. pose proof (dy_rows _ (Hok _ Hdf2)) as Hr2.
    rewrite Forall_forall in Hr1, Hr2. specialize (Hdf _ Hdf2).
    destruct (Hr1 r1 H1) as [Ht1 _], (Hr2 r2 H2) as [Ht2 _].
    destruct (row_in_day secs _ r1 Hsecs Hdiv (dy_midnight _ Hok1) Ht1) as [_ Hb1].
    destruct (row_in_day secs _ r2 Hsecs Hdiv (dy_midnight _ (Hok _ Hdf2)) Ht2) as [Hb2 _].
    enough (DayFile.Date df + day_ns ≤ DayFile.Date df2) as Hle
      by (apply (Z.div_le_mono _ _ second) in Hle; [lia|done]).
    destruct (dy_midnight _ Hok1) as [k1 E1], (dy_midnight _ (Hok _ Hdf2)) as [k2 E2].
    rewrite E1, E2 in *. assert (k1 < k2) by (apply (Z.mul_lt_mono_pos_r day_ns); [done|lia]).
    replace (k1 * day_ns + day_ns) with ((k1 + 1) * day_ns) by ring.
    apply Z.mul_le_mono_nonneg_r; [done|lia].
Qed.

(** The loop over the days stops as soon as the page is full. *)
Lemma candle_days_take (g : DayFile.t → list Candle.t) ds locate from to before limit acc :
  (∀ df, df ∈ ds → readDayCandles df.(DayFile.Content) locate from to secs before = Some (g df)) →
  take (Z.to_nat limit) <$> candle_days ds locate from to secs before limit acc
  = Some (take (Z.to_nat limit) (acc ++ concat (g <$> ds))).
Proof.
  revert acc. induction ds as [|df ds IH]; intros acc Hg; cbn [candle_days].
  { cbn. by rewrite app_nil_r. }
  destruct (Z.ltb_spec (Z.of_nat (length acc)) limit) as [Hlt|Hge].
  - rewrite Hg by by left. cbn [mbind option_bind]. rewrite IH by (intros; apply Hg; by right).
    cbn. by rewrite app_assoc.
  - cbn. by rewrite !take_app_le by lia.
Qed.
End days.

(** ** The archive's candles *)

Lemma Resolve_sorted files lo hi :
  archive_ok files →
  Forall day_ok (Resolve (Some files) lo hi) ∧
  StronglySorted (λ a b, a.(DayFile.Date) < b.(DayFile.Date)) (Resolve (Some files) lo hi) ∧
  concat (docs_of <$> Resolve (Some files) lo hi) ⊆+ archived (Some files).
Proof.
  intros Hok. unfold Resolve. case_match; [split_and!; [constructor|constructor|apply submseteq_nil_l]|].
  split_and!; [by apply Forall_filter_bool, Days_ok|by apply ssorted_filter, Days_sorted|].
  unfold archived. induction (Days (Some files)) as [|df ds IH]; [done|]. cbn [List.filter].
  case_match; cbn; [by apply submseteq_skips_l|by apply submseteq_inserts_l].
Qed.

Lemma elem_concat_sub {A} (l : list A) ls : l ∈ ls → l ⊆+ concat ls.
Proof.
  induction 1 as [l ls|l x ls _ IH]; cbn; [by apply submseteq_inserts_r|by apply submseteq_inserts_l].
Qed.

Lemma ReadCandles_group files locate from to secs limit before :
  archive_ok files → later (archived (Some files)) → summable (archived (Some files)) →
  0 < secs → (secs | 86400) →
  ReadCandles (Some files) locate from to secs limit before
  = Some (take (Z.to_nat (ClampLimit limit))
      (sql_group secs (List.filter (picked locate from to secs before) (archived (Some files))))).
Proof.
  intros Hok Hlater Hsum Hs Hdiv. unfold ReadCandles. rewrite (proj2 (Z.leb_gt _ _) Hs).
  pose proof (resolve_filter (Some files) locate from to (Days_ok _ Hok)) as Hres.
  destruct (window from to) as [lo hi]. destruct (Resolve_sorted files lo hi Hok) as (Hd & Hsort & Hsub).
  set (ds := Resolve (Some files) lo hi) in *. set (pick := picked locate from to secs before).
  assert (List.filter pick (archived (Some files)) = List.filter pick (concat (docs_of <$> ds))) as ->.
  { subst pick. unfold picked. rewrite <- !filter_filter. by rewrite Hres. }
  rewrite (sql_group_days secs Hs Hdiv) by done.
  rewrite <- (app_nil_l (concat (_ <$> reverse ds))).
  rewrite <- (candle_days_take secs _ (reverse ds) locate from to before).
  { by destruct (candle_days _ _ _ _ _ _ _ _). }
  intros df Hdf. rewrite elem_of_reverse in Hdf. rewrite Forall_forall in Hd.
  assert (docs_of df ⊆+ concat (docs_of <$> ds)) as Hin by by apply elem_concat_sub, list_elem_of_fmap_2.
  assert (docs_of df ⊆+ archived (Some files)) as Hin' by by etrans.
  destruct (dy_readable _ (Hd _ Hdf)) as [docs E]. unfold docs_of in *. rewrite E in *. cbn in *.
  apply readDayCandles_group; [|done|].
  - unfold later in *. rewrite Forall_forall in Hlater |- *. intros x Hx. apply Hlater. by eapply elem_of_submseteq.
  - eapply summable_sub; [apply filter_sub|]. by eapply summable_sub.
Qed.

(** ** Candles across the live and cold stores *)

Lemma IntervalSeconds_ok s secs : IntervalSeconds s = Some secs → 0 < secs ∧ (secs | 86400).
Proof.
  unfold IntervalSeconds. destruct (List.find _ intervalSeconds) as [p|] eqn:E; [|done].
  intros [= <-]. apply List.find_some in E as [Hin _]. cbn in Hin.
  destruct_or! Hin; subst p; try done; cbn; (split; [lia|]);
    [by exists 1440|by exists 288|by exists 96|by exists 24|by exists 6].
Qed.

(** A pagination cursor is the start of a bucket. *)
Definition cursor_aligned (secs : Z) (before : option Z) : Prop :=
  match before with Some t => (secs * second | t) | None => True end.

Lemma below_aligned secs before r :
  0 < secs → 0 ≤ row_time r → cursor_aligned secs before →
  below secs before r = strictly_before before (row_time r).
Proof.
  intros Hs Ht Hb. unfold below, strictly_before. destruct before as [t|]; [|done].
  rewrite bucketStart_sql by done. destruct Hb as [k ->].
  unfold sql_bucket, Unix. fold (row_time r). rewrite Z.mul_assoc, Z.div_mul by done.
  set (e := row_time r / second).
  pose proof (Z.div_mod (row_time r) second ltac:(done)) as He. fold e in He.
  pose proof (Z.mod_pos_bound (row_time r) second ltac:(done)).
  pose proof (Z.div_mod e secs ltac:(lia)). pose proof (Z.mod_pos_bound e secs Hs).
  apply eq_true_iff_eq. rewrite !Z.ltb_lt. split; intros H'.
  - assert (e / secs < k) by nia. assert (e < k * secs) by nia. assert (e + 1 ≤ k * secs) by lia.
    assert ((e + 1) * second ≤ k * secs * second) by (apply Z.mul_le_mono_nonneg_r; [done|lia]). lia.
  - assert (e < k * secs) by (subst e; apply Z.div_lt_upper_bound; [done|lia]). lia.
Qed.

Lemma last_day_bound ds df :
  StronglySorted (λ a b, a.(DayFile.Date) < b.(DayFile.Date)) ds → df ∈ ds →
  df.(DayFile.Date) ≤ default 0 (DayFile.Date <$> last ds).
Proof.
  intros Hs. revert df. induction Hs as [|d ds Hs IH Hd]; [intros ? []%elem_of_nil|].
  intros df. destruct ds as [|d2 ds]; [intros ->%list_elem_of_singleton; done|].
  change (last (d :: d2 :: ds)) with (last (d2 :: ds)). intros [->|Hin]%elem_of_cons; [|by apply IH].
  etrans; [|apply (IH d2); by left]. rewrite Forall_forall in Hd. apply Z.lt_le_incl, Hd. by left.
Qed.

Lemma Bounds_last files mn mx :
  archive_ok files → Bounds (Some files) = Some (mn, mx) →
  (day_ns | mx) ∧ ∀ r, r ∈ archived (Some files) → row_time r < mx + day_ns.
Proof.
  intros Hok HB. pose proof (Days_sorted _ Hok) as Hs. pose proof (Days_ok _ Hok) as Hd.
  unfold Bounds in HB. destruct (Days (Some files)) as [|d ds] eqn:E; [done|]. injection HB as _ Hmx.
  assert (mx = default 0 (DayFile.Date <$> last (d :: ds))) as -> by done. rewrite Forall_forall in Hd. split.
  - destruct (last (d :: ds)) as [z|] eqn:El; [|by apply last_None in El]. cbn. apply dy_midnight, Hd.
    by apply last_Some_elem_of.
  - intros r Hr. unfold archived in Hr. rewrite E in Hr.
    apply elem_of_concat in Hr as (l & Hr & (df & -> & Hdf)%list_elem_of_fmap).
    pose proof (dy_rows _ (Hd _ Hdf)) as Hrows. rewrite Forall_forall in Hrows.
    destruct (Hrows r Hr) as [[_ H] _]. pose proof (last_day_bound _ _ Hs Hdf). unfold row_time. lia.
Qed.

Lemma fill_loop_length n m t lo step : (length (fill_loop n m t lo step) ≤ n)%nat.
Proof. revert t. induction n as [|n IH]; intros t; cbn; [lia|]. case_match; cbn; [|lia]. specialize (IH (t - step)). lia. Qed.

Lemma FillCandles_length candles f secs limit :
  (length candles ≤ Z.to_nat limit)%nat → (length (FillCandles candles f secs limit) ≤ Z.to_nat limit)%nat.
Proof.
  intros H. unfold FillCandles. destruct (fillBounds f secs candles) as [[hi lo]|]; [|done]. apply fill_loop_length.
Qed.

(** Rows of distinct times have one order by time. *)
Lemma sort_unique l l' :
  NoDup (row_time <$> l) → l' ≡ₚ l → StronglySorted older l' → merge_sort older l = l'.
Proof.
  intros Hnd Hp Hs. apply (StronglySorted_unique_strong older); [| |done|].
  - intros x y Hx Hy Hxy Hyx. rewrite merge_sort_Permutation in Hx. rewrite Hp in Hy.
    apply list_elem_of_lookup in Hx as [i Hi]. apply list_elem_of_lookup in Hy as [j Hj].
    assert (row_time x = row_time y) as Hxy' by (unfold older, row_time in *; lia).
    assert (i = j) as ->; [|congruence].
    eapply NoDup_lookup; [exact Hnd|by rewrite list_lookup_fmap, Hi|]. rewrite list_lookup_fmap, Hj. cbn. by rewrite Hxy'.
  - apply StronglySorted_merge_sort; apply _.
  - by rewrite merge_sort_Permutation.
Qed.


(** The rows a candle query aggregates. *)
Definition charted (f : CandleFilter.t) (r : TradeRow.t) : bool :=
  of_symbol f.(CandleFilter.SymbolLocate) r && in_range f.(CandleFilter.From) f.(CandleFilter.To) r &&
  strictly_before f.(CandleFilter.Before) r.(TradeRow.ExecutedAt).

Section candles.
Context (table : list TradeRow.t) (files : list file) (split : Z) (f : CandleFilter.t) (secs : Z).
Context (Hok : archive_ok files) (Hlater : later (archived (Some files))) (Hsum : summable (archived (Some files))).
Context (Htyped : Forall typed (archived (Some files))).
Context (Hsecs : 0 < secs) (Hdiv : (secs | 86400)) (Hsplit : (day_ns | split)).
Context (Hcold : ∀ r, r ∈ archived (Some files) → row_time r < split).
Context (Hsym : is_u 16 f.(CandleFilter.SymbolLocate)) (Hto : f.(CandleFilter.To) ≠ Some zero_time).
Context (Hbefore : cursor_aligned secs f.(CandleFilter.Before)).

Definition live_rows : list TradeRow.t :=
  merge_sort older (List.filter (λ r, charted f r && (split <=? row_time r)) table).
Definition cold_rows : list TradeRow.t := List.filter (charted f) (archived (Some files)).

Lemma live_candles limit :
  1 ≤ limit ≤ MaxLimit → IntervalSeconds f.(CandleFilter.Interval) = Some secs →
  (if match f.(CandleFilter.To) with None => true | Some t => negb (t <? split) end then
     QueryCandles (TradeReader := PgReader table)
       (CandleFilter.mk f.(CandleFilter.SymbolLocate) f.(CandleFilter.Interval) limit
         (Some (match f.(CandleFilter.From) with Some t => if t >? split then t else split | None => split end))
         f.(CandleFilter.To) f.(CandleFilter.Before) false)
   else Some [])
  = Some (take (Z.to_nat limit) (sql_group secs live_rows)).
Proof using Type.
  clear Hto. intros Hl Hint. destruct (match f.(CandleFilter.To) with None => true | Some t => negb (t <? split) end) eqn:E.
  - cbn [QueryCandles PgReader]. unfold Pg_QueryCandles. cbn [CandleFilter.Interval CandleFilter.Limit CandleFilter.Fill].
    rewrite Hint. cbn [mbind option_bind]. rewrite ClampLimit_id by done. do 3 f_equal.
    unfold candle_rows, live_rows. cbn. f_equal. apply filter_ext_elem. intros r _.
    unfold charted, in_range, at_or_after, row_time. set (t := TradeRow.ExecutedAt r).
    destruct (of_symbol _ r), (at_or_before f.(CandleFilter.To) t), (strictly_before f.(CandleFilter.Before) t),
      f.(CandleFilter.From) as [x|]; rewrite ?andb_false_r, ?andb_true_r; cbn; try done.
    destruct (Z.gtb_spec x split); apply eq_true_iff_eq; rewrite ?andb_true_iff, !Z.leb_le; lia.
  - unfold live_rows. rewrite filter_nil; [by rewrite (take_nil (A := Candle.t))|].
    apply Forall_forall. intros r _. destruct f.(CandleFilter.To) as [x|] eqn:Ex; [|done].
    apply negb_false_iff, Z.ltb_lt in E. unfold charted, in_range, at_or_before, row_time. rewrite Ex.
    destruct (Z.leb_spec (TradeRow.ExecutedAt r) x), (Z.leb_spec split (TradeRow.ExecutedAt r));
      rewrite ?andb_false_r; try done; lia.
Qed.

Lemma cold_picked :
  List.filter (picked f.(CandleFilter.SymbolLocate) (default zero_time f.(CandleFilter.From))
    (match f.(CandleFilter.To) with Some t => if t <? split - 1 then t else split - 1 | None => split - 1 end)
    secs f.(CandleFilter.Before)) (archived (Some files)) = cold_rows.
Proof using Hlater Hcold Htyped Hsecs Hsym Hto Hbefore.
  apply filter_ext_elem. intros r Hr. unfold picked, charted, selected. pose proof (Hcold r Hr) as Ht.
  unfold later in Hlater. rewrite Forall_forall in Hlater, Htyped. pose proof (Hlater r Hr) as H0.
  rewrite below_aligned, symbol_columns by auto. fold (row_time r).
  destruct (of_symbol _ r); [cbn|done]. f_equal. unfold in_range, at_or_after, at_or_before. fold (row_time r).
  set (t := row_time r) in *. unfold IsZero. rewrite negb_orb. f_equal.
  - destruct f.(CandleFilter.From) as [x|]; cbn [default from_option]; unfold id; [|by rewrite Z.eqb_refl].
    assert (zero_time < 0) by done.
    destruct (Z.eqb_spec x zero_time), (Z.leb_spec x t), (Z.ltb_spec t x); cbn; try done; lia.
  - destruct f.(CandleFilter.To) as [x|].
    + destruct (Z.ltb_spec x (split - 1)).
      * destruct (Z.eqb_spec x zero_time), (Z.gtb_spec t x), (Z.leb_spec t x); cbn; try done; lia || congruence.
      * destruct (Z.eqb_spec (split - 1) zero_time), (Z.gtb_spec t (split - 1)), (Z.leb_spec t x); cbn; try done; lia.
    + destruct (Z.eqb_spec (split - 1) zero_time), (Z.gtb_spec t (split - 1)); cbn; try done; lia.
Qed.

Lemma cold_candles limit :
  1 ≤ limit ≤ MaxLimit →
  ReadCandles (Some files) f.(CandleFilter.SymbolLocate) (default zero_time f.(CandleFilter.From))
    (match f.(CandleFilter.To) with Some t => if t <? split - 1 then t else split - 1 | None => split - 1 end)
    secs limit f.(CandleFilter.Before)
  = Some (take (Z.to_nat limit) (sql_group secs cold_rows)).
Proof using All.
  intros Hl. rewrite ReadCandles_group by done. by rewrite ClampLimit_id, cold_picked.
Qed.

Lemma no_cold_rows x : f.(CandleFilter.From) = Some x → split ≤ x → cold_rows = [].
Proof using Hcold.
  intros Hx Hle. unfold cold_rows. apply filter_nil, Forall_forall. intros r Hr. pose proof (Hcold r Hr).
  unfold charted, in_range, at_or_after. rewrite Hx. fold (row_time r). rewrite (proj2 (Z.leb_gt x (row_time r))) by lia.
  by rewrite andb_false_r.
Qed.

(** The bars of all rows are those of the live rows, then those of the cold. *)
Lemma merged_groups :
  sql_group secs (cold_rows ++ live_rows) = sql_group secs live_rows ++ sql_group secs cold_rows.
Proof using Hsecs Hdiv Hsplit Hcold.
  apply sql_group_app. intros r1 r2 [H1 _]%elem_of_filter_bool H2.
  unfold live_rows in H2. rewrite merge_sort_Permutation in H2.
  apply elem_of_filter_bool in H2 as [_ [_ H2%Z.leb_le]%andb_true_iff].
  destruct (bucket_of_day secs split r1 Hsecs Hdiv Hsplit) as [_ Hb1].
  destruct (bucket_of_day secs split r2 Hsecs Hdiv Hsplit) as [Hb2 _].
  specialize (Hb1 (Hcold r1 H1)). specialize (Hb2 H2). lia.
Qed.

(** In one table, the same rows come in the same order, as no two are equal in time. *)
Lemma rows_of_all all :
  all ≡ₚ List.filter (λ r, split <=? row_time r) table ++ archived (Some files) →
  NoDup (row_time <$> List.filter (charted f) all) →
  candle_rows all f = cold_rows ++ live_rows.
Proof using Hok Hcold.
  intros Hall Hnd. unfold candle_rows. fold (charted f).
  assert (cold_rows ++ live_rows ≡ₚ List.filter (charted f) all) as Hp.
  { rewrite (filter_perm _ _ _ Hall), List.filter_app, filter_filter. unfold live_rows, cold_rows.
    rewrite merge_sort_Permutation, Permutation_app_comm.
    erewrite (filter_ext_elem (λ x, charted f x && _)); [done|]. intros; apply andb_comm. }
  apply sort_unique; [done|done|].
  apply StronglySorted_app_2; [| |apply StronglySorted_merge_sort; apply _].
  - intros x y [Hx _]%elem_of_filter_bool Hy. unfold live_rows in Hy. rewrite merge_sort_Permutation in Hy.
    apply elem_of_filter_bool in Hy as [_ [_ Hy%Z.leb_le]%andb_true_iff]. pose proof (Hcold x Hx).
    unfold older, row_time in *. lia.
  - apply ssorted_filter. apply (ssorted_impl time_le); [done|]. by apply archived_sorted.
Qed.
End candles.

(** C21. Candles do not depend on where the trades are, for cursors that are bucket
    starts.  If the rows recorded are the archived rows and the live rows from the day
    after the newest archived day on, [History.QueryCandles] answers every query
    (interval, range, limit, zero fill, and a [before] that is absent or the start of a
    bucket, as the cursors the API hands out are; an unsupported interval is the same
    error) exactly as the live query would on one table of all rows.  Archiving is on
    and there are day-files, all of them whole; volumes do not overflow; [to] is not
    Go's zero time; and the rows charted have distinct times, which SQL needs for its
    own answer to be determined.  For a [before] inside a bucket the two differ:
    [unaligned_cursor_differs]. *)
Theorem History_QueryCandles_spec (table all : list TradeRow.t) (files : list file)
    (retentionDays mn mx : Z) (f : CandleFilter.t)
    (Hok : archive_ok files) (Hbounds : Bounds (Some files) = Some (mn, mx))
    (Hlater : later (archived (Some files))) (Hsum : summable (archived (Some files)))
    (Htyped : Forall typed (archived (Some files))) (Hactive : 0 < retentionDays)
    (Hsym : is_u 16 f.(CandleFilter.SymbolLocate)) (Hto : f.(CandleFilter.To) ≠ Some zero_time)
    (Hbefore : ∀ secs, IntervalSeconds f.(CandleFilter.Interval) = Some secs →
               cursor_aligned secs f.(CandleFilter.Before))
    (Hall : all ≡ₚ List.filter (λ r, mx + day_ns <=? row_time r) table ++ archived (Some files))
    (Hties : NoDup (row_time <$> List.filter (charted f) all)) :
  History_QueryCandles (PgReader table) (Some files) retentionDays f = Pg_QueryCandles all f.
Proof.
  unfold History_QueryCandles, archiveActive, Enabled. rewrite bool_decide_true by done.
  destruct (Z.gtb_spec retentionDays 0); [|lia]. cbn [andb negb]. unfold Pg_QueryCandles.
  destruct (IntervalSeconds f.(CandleFilter.Interval)) as [secs|] eqn:Hint; [|done].
  cbn [mbind option_bind]. rewrite Hbounds. destruct (IntervalSeconds_ok _ _ Hint) as [Hs Hdiv].
  destruct (Bounds_last _ _ _ Hok Hbounds) as [Hmx Hcold].
  assert (day_ns | mx + day_ns) as Hsplit by (apply Z.divide_add_r; [done|apply Z.divide_refl]).
  specialize (Hbefore secs eq_refl). set (split := mx + day_ns) in *.
  pose proof (ClampLimit_range f.(CandleFilter.Limit)) as Hlim. set (limit := ClampLimit _) in *.
  cbn zeta. rewrite (live_candles table split f secs) by done. cbn [mbind option_bind].
  rewrite (rows_of_all table files split f Hok Hcold all Hall Hties).
  rewrite (merged_groups table files split f secs) by done.
  set (L := sql_group secs (live_rows table split f)). set (C := sql_group secs (cold_rows files f)).
  match goal with |- ?m ≫= _ = _ => assert (m = Some (take (Z.to_nat limit) (L ++ C))) as -> end.
  { rewrite take_take_app, length_take.
    destruct (Z.ltb_spec (Z.of_nat (Z.to_nat limit `min` length L)) limit) as [Hlt|Hge]; cbn [andb].
    - destruct (match f.(CandleFilter.From) with None => true | Some t => t <? split end) eqn:E.
      + rewrite (cold_candles table files split f secs) by (done || lia). cbn [mbind option_bind]. do 4 f_equal. lia.
      + destruct f.(CandleFilter.From) as [t|] eqn:Ef; [|done]. apply Z.ltb_ge in E.
        subst C. rewrite (no_cold_rows files split f Hcold t Ef E). change (sql_group secs []) with (@nil Candle.t).
        by rewrite take_nil, app_nil_r.
    - replace (Z.to_nat limit - Z.to_nat limit `min` length L)%nat with 0%nat by lia.
      by rewrite take_0, app_nil_r. }
  cbn [mbind option_bind]. f_equal. apply take_ge.
  assert (length (take (Z.to_nat limit) (L ++ C)) ≤ Z.to_nat limit)%nat by (rewrite length_take; lia).
  destruct (CandleFilter.Fill f); [by apply FillCandles_length|done].
Qed.

Lemma History_QueryCandles_spec_witness :
  let f := CandleFilter.mk 7 "1h" 10 None None None true in
  History_QueryCandles (PgReader demo_table) (Some demo_files) 2 f
  = Pg_QueryCandles (demo_table ++ [demo_row 1 5; demo_row 2 9]) f.
Proof.
  apply (History_QueryCandles_spec demo_table _ demo_files 2 0 0
    (CandleFilter.mk 7 "1h" 10 None None None true));
    [apply demo_archive_ok|reflexivity|repeat constructor; vm_compute; congruence| |
     repeat constructor; vm_compute; congruence|lia|split; vm_compute; congruence|done|done|reflexivity|].
  - split; [repeat constructor; vm_compute; congruence|reflexivity|reflexivity].
  - change (NoDup [3 * day_ns; 5; 9]). apply (bool_decide_unpack _). vm_compute. exact I.
Defined.

(** A [before] inside a bucket is read in two ways.  For trades at 10 and 40 seconds,
    one-minute bars and 30 seconds for cursor, the live query cuts the bucket at the
    cursor and counts one trade; the archive keeps the bucket whole, since it starts
    before the cursor, and counts two. *)
Theorem unaligned_cursor_differs :
  let rows := [demo_row 1 (10 * second); demo_row 2 (40 * second)] in
  let f := CandleFilter.mk 7 "1m" 10 None None (Some (30 * second)) false in
  option_map (map Candle.Count) (Pg_QueryCandles rows f) = Some [1] ∧
  option_map (map Candle.Count)
    (History_QueryCandles (PgReader []) (Some [mkFile "1970/01/01.jsonl.gz" (Some rows)]) 2 f) = Some [2].
Proof. split; vm_compute; reflexivity. Qed.

(** ** Zero filling *)

(** The bars of [hi], [hi - step], … down to [lo]. *)
Lemma fill_loop_lookup room m t lo step i :
  0 < step →
  fill_loop room m t lo step !! i =
    if decide ((i < room)%nat ∧ lo ≤ t - Z.of_nat i * step)
    then Some (let b := t - Z.of_nat i * step in default (Candle.empty (b * second)) (m !! b)) else None.
Proof.
  intros Hs. revert t i. induction room as [|room IH]; intros t i; cbn [fill_loop].
  { rewrite decide_False by lia. by rewrite lookup_nil. }
  rewrite Z.geb_leb. destruct (Z.leb_spec lo t) as [Hle|Hgt].
  - destruct i as [|i]; cbn [lookup list_lookup].
    + rewrite decide_True by lia. cbn zeta. rewrite Z.mul_0_l, Z.sub_0_r. by destruct (m !! t).
    + rewrite IH. replace (t - step - Z.of_nat i * step) with (t - Z.of_nat (S i) * step) by lia.
      apply decide_ext. lia.
  - rewrite decide_False by nia. by rewrite lookup_nil.
Qed.

(** The last candle of a bucket, or an empty one. *)
Definition bar_at (candles : list Candle.t) (b : Z) : Candle.t :=
  default (Candle.empty (b * second)) (List.find (λ c, Unix c.(Candle.Bucket) =? b) (reverse candles)).

Lemma by_bucket_lookup candles b :
  by_bucket candles !! b = List.find (λ c, Unix c.(Candle.Bucket) =? b) (reverse candles).
Proof.
  induction candles as [|c candles IH] using rev_ind; [done|]. unfold by_bucket. rewrite fold_left_last.
  fold (by_bucket candles). rewrite reverse_app. cbn.
  destruct (Z.eqb_spec (Unix c.(Candle.Bucket)) b) as [<-|Hne].
  - by rewrite lookup_insert_eq.
  - by rewrite lookup_insert_ne, IH.
Qed.

(** Zero filling yields the contiguous series: entry [i] is the bar of the
    bucket [i] steps below [hi], empty where no candle falls into it, as far down
    as [lo] and never more than [limit] bars, the newest ones. *)
Theorem zeroFill_contiguous (candles : list Candle.t) (hi lo secs limit : Z) (i : nat) (Hsecs : 0 < secs) :
  let b := Unix hi - Z.of_nat i * secs in
  zeroFill candles hi lo secs limit !! i =
    if decide (Z.of_nat i < limit ∧ Unix lo ≤ b) then Some (bar_at candles b) else None.
Proof.
  intros b. unfold zeroFill. rewrite fill_loop_lookup by done. fold b. unfold bar_at.
  rewrite <- by_bucket_lookup. apply decide_ext. lia.
Qed.

Lemma zeroFill_contiguous_witness :
  let c := Candle.mk (60 * second) fzero fzero fzero fzero 5 1 in
  zeroFill [c] (180 * second) (60 * second) 60 10 !! 1%nat = Some (Candle.empty (120 * second)).
Proof. exact (zeroFill_contiguous [Candle.mk (60 * second) fzero fzero fzero fzero 5 1] (180 * second) (60 * second) 60 10 1 eq_refl). Defined.
