(* ===== verification/ApiProps.v ===== *)
(** * What the API promises

    Trade requests never fail in the reader; candle pages, followed by their
    cursor, tile the whole series. *)
From Stdlib Require Import Ascii.
From stdpp Require Import sorting.
From S2P Require Import Prelude Word Float64 Strconv Symbols Trades Archive ArchiveProps HistoryProps CandleProps Retention Rng Snapshot Market Api.

Local Open Scope Z_scope.

(** ** Pages of candles *)

(** A cursor at the start of a bucket separates rows as it separates buckets. *)
Lemma bucket_before secs c r :
  0 < secs → (secs * second | c) → row_time r < c ↔ sql_bucket secs r < c / second.
Proof.
  intros Hs [k ->]. unfold sql_bucket, Unix. fold (row_time r).
  rewrite Z.mul_assoc, Z.div_mul by done. set (e := row_time r / second).
  pose proof (Z.div_mod (row_time r) second ltac:(done)) as He. fold e in He.
  pose proof (Z.mod_pos_bound (row_time r) second ltac:(done)).
  pose proof (Z.div_mod e secs ltac:(lia)). pose proof (Z.mod_pos_bound e secs Hs). split; intros H'.
  - assert (e < k * secs) by (subst e; apply Z.div_lt_upper_bound; [done|lia]).
    assert (e / secs < k) by (apply Z.div_lt_upper_bound; lia). nia.
  - assert (e / secs < k) by nia. assert (e + 1 ≤ k * secs) by nia.
    assert ((e + 1) * second ≤ k * secs * second) by (apply Z.mul_le_mono_nonneg_r; [done|lia]). lia.
Qed.

Lemma sorted_cut (p : TradeRow.t → bool) l :
  NoDup (row_time <$> l) → (∀ x y, p x = true → p y = false → row_time x < row_time y) →
  merge_sort older l = merge_sort older (List.filter p l) ++ merge_sort older (List.filter (negb ∘ p) l).
Proof.
  intros Hnd Hlt. apply sort_unique; [done| |].
  - by rewrite !merge_sort_Permutation, filter_split.
  - apply StronglySorted_app_2; [|apply StronglySorted_merge_sort; apply _..].
    intros x y Hx Hy. rewrite merge_sort_Permutation in Hx, Hy.
    apply elem_of_filter_bool in Hx as [_ Hx], Hy as [_ Hy%negb_true_iff]. specialize (Hlt x y Hx Hy).
    unfold older, row_time in *. lia.
Qed.

(** The buckets of a series: whole, multiples of the interval, newest first. *)
Lemma sql_group_buckets secs rows :
  Candle.Bucket <$> sql_group secs rows = (λ b, b * second) <$> merge_sort Z.ge (remove_dups (sql_bucket secs <$> rows)).
Proof. unfold sql_group. rewrite <- list_fmap_compose. done. Qed.

Lemma sql_group_bucket_of secs rows c :
  c ∈ sql_group secs rows → ∃ r, r ∈ rows ∧ c.(Candle.Bucket) = sql_bucket secs r * second.
Proof.
  intros Hc. apply (list_elem_of_fmap_2 Candle.Bucket) in Hc. rewrite sql_group_buckets in Hc.
  apply list_elem_of_fmap in Hc as (b & -> & Hb).
  rewrite merge_sort_Permutation, elem_of_remove_dups in Hb. apply list_elem_of_fmap in Hb as (r & -> & Hr). eauto.
Qed.

Lemma sql_group_desc secs rows i j c1 c2 :
  sql_group secs rows !! i = Some c1 → sql_group secs rows !! j = Some c2 → (i < j)%nat →
  c2.(Candle.Bucket) < c1.(Candle.Bucket).
Proof.
  intros H1 H2 Hij. set (bs := merge_sort Z.ge (remove_dups (sql_bucket secs <$> rows))).
  assert (NoDup bs) as Hnd by (unfold bs; rewrite merge_sort_Permutation; apply NoDup_remove_dups).
  assert (StronglySorted Z.ge bs) as Hs by (apply StronglySorted_merge_sort; apply _).
  assert (∀ k c, sql_group secs rows !! k = Some c → ∃ b, bs !! k = Some b ∧ c.(Candle.Bucket) = b * second) as Hb.
  { intros k c Hk. apply (f_equal (fmap Candle.Bucket)) in Hk. cbn in Hk. rewrite <- list_lookup_fmap, sql_group_buckets in Hk.
    apply list_lookup_fmap_Some in Hk as (b & Hk & E). exists b. by split. }
  destruct (Hb _ _ H1) as (b1 & Hb1 & ->), (Hb _ _ H2) as (b2 & Hb2 & ->).
  assert (b1 ≠ b2) as Hne. { intros ->. pose proof (NoDup_lookup _ _ _ _ Hnd Hb1 Hb2). lia. }
  assert (b1 >= b2) as Hge by (eapply (ssorted_lookup Z.ge); eauto).
  apply Z.mul_lt_mono_pos_r; [done|lia].
Qed.

(** The cursor of a full page cuts the series right after the page. *)
Section cursor.
Context (table : list TradeRow.t) (f : CandleFilter.t) (secs : Z) (Hsecs : 0 < secs).
Context (Hties : NoDup (row_time <$> List.filter (charted f) table)).

(** The filter of the next page's request. *)
Definition with_before (c : Z) : CandleFilter.t :=
  CandleFilter.mk f.(CandleFilter.SymbolLocate) f.(CandleFilter.Interval) f.(CandleFilter.Limit)
    f.(CandleFilter.From) f.(CandleFilter.To) (Some c) f.(CandleFilter.Fill).

Lemma charted_before c l :
  (match f.(CandleFilter.Before) with Some b => c ≤ b | None => True end) →
  List.filter (charted (with_before c)) l = List.filter (λ r, row_time r <? c) (List.filter (charted f) l).
Proof using Type.
  intros Hc. rewrite filter_filter. apply filter_ext_elem. intros r _. unfold charted, with_before, strictly_before. cbn.
  fold (row_time r). destruct f.(CandleFilter.Before) as [b|]; [|by rewrite andb_true_r].
  destruct (of_symbol _ r && in_range _ _ r); cbn; [|done].
  destruct (Z.ltb_spec (row_time r) b), (Z.ltb_spec (row_time r) c); done || lia.
Qed.

Lemma series_cut c :
  (secs * second | c) → (match f.(CandleFilter.Before) with Some b => c ≤ b | None => True end) →
  ∃ newer_part, sql_group secs (candle_rows table f)
    = newer_part ++ sql_group secs (candle_rows table (with_before c)) ∧
  Forall (λ x, c ≤ x.(Candle.Bucket)) newer_part ∧
  Forall (λ x, x.(Candle.Bucket) < c) (sql_group secs (candle_rows table (with_before c))).
Proof using Hsecs Hties.
  intros Hc Hle. destruct Hc as [k Hk]. assert (secs * second | c) as Hc by (by exists k).
  assert (c = c / second * second) as Ec.
  { rewrite Hk at 2. rewrite Z.mul_assoc, Z.div_mul by done. rewrite Hk. ring. }
  unfold candle_rows. fold (charted f). fold (charted (with_before c)). rewrite charted_before by done.
  set (l := List.filter (charted f) table) in *. set (p := λ r, row_time r <? c).
  rewrite (sorted_cut p l Hties).
  2: { intros x y Hx%Z.ltb_lt Hy%Z.ltb_ge. lia. }
  set (lo := merge_sort older (List.filter p l)). set (hi := merge_sort older (List.filter (negb ∘ p) l)).
  assert (∀ r, r ∈ lo → sql_bucket secs r < c / second) as Hlo.
  { intros r Hr. unfold lo in Hr. rewrite merge_sort_Permutation in Hr.
    apply elem_of_filter_bool in Hr as [_ Hr%Z.ltb_lt]. by apply (bucket_before secs c). }
  assert (∀ r, r ∈ hi → c / second ≤ sql_bucket secs r) as Hhi.
  { intros r Hr. unfold hi in Hr. rewrite merge_sort_Permutation in Hr.
    apply elem_of_filter_bool in Hr as [_ Hr%negb_true_iff]. apply Z.ltb_ge in Hr.
    apply Z.nlt_ge. rewrite <- (bucket_before secs c) by done. lia. }
  exists (sql_group secs hi). split_and!.
  - apply sql_group_app. intros r1 r2 H1%Hlo H2%Hhi. lia.
  - apply Forall_forall. intros x (r & Hr & ->)%sql_group_bucket_of. rewrite Ec.
    apply Z.mul_le_mono_nonneg_r; [done|]. by apply Hhi.
  - apply Forall_forall. intros x (r & Hr & ->)%sql_group_bucket_of. rewrite Ec.
    apply Z.mul_lt_mono_pos_r; [done|]. by apply Hlo.
Qed.

Lemma next_page n c :
  length (take n (sql_group secs (candle_rows table f))) = n →
  last (take n (sql_group secs (candle_rows table f))) = Some c →
  sql_group secs (candle_rows table (with_before c.(Candle.Bucket)))
  = drop n (sql_group secs (candle_rows table f)).
Proof using Hsecs Hties.
  set (G := sql_group secs (candle_rows table f)). intros Hlen Hlast.
  assert (0 < n)%nat as Hn. { destruct n; [|lia]. by rewrite take_0 in Hlast. }
  assert (G !! pred n = Some c) as Hc.
  { rewrite last_lookup, Hlen in Hlast. by rewrite lookup_take_lt in Hlast by lia. }
  destruct (sql_group_bucket_of secs _ c ltac:(eapply list_elem_of_lookup_2; exact Hc)) as (r & Hr & Eb).
  destruct (series_cut c.(Candle.Bucket)) as (H & EG & Hge & Hlt).
  { rewrite Eb. unfold sql_bucket. set (e := Unix _). pose proof (Z.div_mod e secs ltac:(lia)).
    exists (e / secs). replace (e - e mod secs) with (secs * (e / secs)) by lia. ring. }
  { destruct f.(CandleFilter.Before) as [b|] eqn:E; [|done].
    unfold candle_rows in Hr. rewrite merge_sort_Permutation in Hr.
    apply elem_of_filter_bool in Hr as [_ Hr]. rewrite E in Hr. apply andb_true_iff in Hr as [_ Hr%Z.ltb_lt].
    rewrite Eb. unfold sql_bucket, Unix. fold (row_time r) in *.
    pose proof (Z.mod_pos_bound (row_time r / second) secs Hsecs).
    pose proof (Z.mul_div_le (row_time r) second ltac:(done)).
    transitivity (row_time r / second * second); [apply Z.mul_le_mono_nonneg_r; [done|lia]|lia]. }
  fold G in EG. rewrite EG. set (lo := sql_group secs (candle_rows table (with_before _))) in *.
  assert (length H = n) as EH; [|by rewrite <- EH, drop_app_length].
  rewrite Forall_lookup in Hge, Hlt. destruct (Nat.lt_trichotomy (length H) n) as [Hl|[|Hl]]; [exfalso|done|exfalso].
  - rewrite EG, lookup_app_r in Hc by lia. specialize (Hlt _ _ Hc). lia.
  - destruct (lookup_lt_is_Some_2 H n Hl) as [x Hx]. pose proof (Hge _ _ Hx) as Hge'.
    assert (G !! n = Some x) as Hx' by (rewrite EG, lookup_app_l by lia; done).
    pose proof (sql_group_desc secs _ _ _ _ _ Hc Hx' ltac:(lia)). lia.
Qed.
End cursor.

(** Every limit parsed is clamped to a page of 1 to 1000. *)
Lemma ClampLimit_bounds n : 1 ≤ ClampLimit n ≤ MaxLimit.
Proof. apply ClampLimit_range. Qed.

(** ** The handlers *)

(** The query a candle request asks for, or the error it is refused with. *)
Definition candle_filter (parse : string → option Z) (s : Server) (r : request)
    : CandleFilter.t + (Z * apiError) :=
  match resolveTicker s r.(path_ticker) with
  | inr e => inr (StatusNotFound, e)
  | inl sym =>
      let interval := r.(query) "interval" in
      if decide (interval ≠ EmptyString ∧ ValidInterval interval = false)
      then inr (StatusBadRequest, ErrInterval interval)
      else match parseIntParam r "limit" DefaultLimit, parseTimeParam parse r "from", parseTimeParam parse r "to",
                 parseTimeParam parse r "before", parseFill r with
           | inl limit, inl from, inl to, inl before, inl fill =>
               inl (CandleFilter.mk sym.(Symbol.LocateCode)
                 (if decide (interval = EmptyString) then "1m"%string else interval)
                 (ClampLimit limit) from to before fill)
           | inr e, _, _, _, _ | _, inr e, _, _, _ | _, _, inr e, _, _ | _, _, _, inr e, _ | _, _, _, _, inr e =>
               inr (StatusBadRequest, e)
           end
  end.

Lemma handleCandles_filter parse format s r :
  handleCandles parse format s r =
  match candle_filter parse s r with
  | inr (st, e) => writeError st e
  | inl f => match s.(reader).(qCandles) f with
             | None => writeError StatusBadRequest ErrReader
             | Some candles => reply_candles format f.(CandleFilter.Limit) candles
             end
  end.
Proof.
  unfold handleCandles, candle_filter. destruct (resolveTicker s (path_ticker r)); [|done].
  set (interval := query r "interval").
  destruct (decide (interval = EmptyString)) as [E|Hne];
    [rewrite decide_False by tauto|destruct (ValidInterval interval) eqn:Ev;
      [rewrite decide_False by (intros []; congruence)|rewrite decide_True by done; done]]; cbn [or_badRequest].
  all: destruct (parseIntParam r "limit" DefaultLimit); [cbn|done].
  all: destruct (parseTimeParam parse r "from"); [cbn|done].
  all: destruct (parseTimeParam parse r "to"); [cbn|done].
  all: destruct (parseTimeParam parse r "before"); [cbn|done].
  all: by destruct (parseFill r).
Qed.

(** The same request with another cursor. *)
Lemma candle_filter_before parse s r1 r2 f cur c :
  candle_filter parse s r1 = inl f → r2.(path_ticker) = r1.(path_ticker) →
  (∀ k, k ≠ "before"%string → r2.(query) k = r1.(query) k) →
  r2.(query) "before" = cur → cur ≠ EmptyString → parse cur = Some c →
  candle_filter parse s r2 = inl (with_before f c).
Proof.
  unfold candle_filter, parseIntParam, parseTimeParam, parseFill. intros Hf Hp Hq Hc Hne Hparse.
  rewrite Hp, Hc, !Hq, Hparse by done. destruct (resolveTicker s (path_ticker r1)); [|done].
  case_decide; [done|]. rewrite (decide_False (P := cur = EmptyString)) by done.
  repeat (case_match; simplify_eq); done.
Qed.

Lemma filter_nodup {A B} (g : A → B) (p : A → bool) l : NoDup (g <$> l) → NoDup (g <$> List.filter p l).
Proof.
  induction l as [|x l IH]; [done|]. cbn. intros [Hx Hl]%NoDup_cons. destruct (p x); [|by apply IH].
  cbn. apply NoDup_cons. split; [|by apply IH]. intros (y & E & [Hy _]%elem_of_filter_bool)%list_elem_of_fmap.
  apply Hx. rewrite E. by apply list_elem_of_fmap_2.
Qed.

(** The buckets of times in the calendar are in it. *)
Lemma bucket_in_calendar secs r :
  0 < secs → (secs | 86400) → earliest ≤ row_time r ≤ latest → earliest ≤ sql_bucket secs r * second ≤ latest.
Proof.
  intros Hs [q Hq] [H1 H2]. unfold sql_bucket, Unix. fold (row_time r). set (e := row_time r / second).
  pose proof (Z.mod_pos_bound e secs Hs). assert (-62104060800 ≤ e ∧ e ≤ 253402300799) as [He1 He2].
  { unfold e, earliest, latest in *. split; [by apply Z.div_le_lower_bound|].
    change 253402300799 with (253402300799 * second / second). by apply Z.div_le_mono. }
  assert (-62104060800 ≤ e - e mod secs) as He.
  { pose proof (Z.div_mod e secs ltac:(lia)). replace (-62104060800) with (secs * (-718797 * q)) in * by lia.
    assert (-718797 * q ≤ e / secs) by (apply Z.div_le_lower_bound; lia). nia. }
  unfold earliest, latest. split; apply Z.mul_le_mono_nonneg_r; (done || lia).
Qed.

Lemma candle_rows_sub table f r : r ∈ candle_rows table f → r ∈ table.
Proof. unfold candle_rows. rewrite merge_sort_Permutation. by intros [? _]%elem_of_filter_bool. Qed.

(** C28. Candle pages tile the series, without zero filling, over the live table: when
    a page comes with a cursor, it is the first [limit] bars of the series its request
    selects, and the same request with that cursor as [before] answers the next [limit]
    bars and their cursor, so that following the cursors leaves no gap and repeats no
    bar.  The rows of the symbol have distinct times, all of years RFC 3339 can write,
    and such times survive printing and parsing.  With [fill=zero] the pages need not
    end: [filled_pages_run_on]. *)
Theorem candle_pages (parse : string → option Z) (format : Z → string) (s : Server)
    (table : list TradeRow.t) (r1 r2 : request) (f : CandleFilter.t) (secs : Z) (cur : string) (page : list Candle.t)
    (Hreader : s.(reader).(qCandles) = Pg_QueryCandles table)
    (Hformat : ∀ t, (second | t) → earliest ≤ t ≤ latest → format t ≠ EmptyString ∧ parse (format t) = Some t)
    (Hcal : Forall (λ r, earliest ≤ row_time r ≤ latest) table)
    (Hties : NoDup (row_time <$> List.filter (of_symbol f.(CandleFilter.SymbolLocate)) table))
    (Hf : candle_filter parse s r1 = inl f) (Hfill : f.(CandleFilter.Fill) = false)
    (Hsecs : IntervalSeconds f.(CandleFilter.Interval) = Some secs)
    (Hpage : handleCandles parse format s r1 = mkResponse StatusOK (Some cur) (BCandles page))
    (Hpath : r2.(path_ticker) = r1.(path_ticker))
    (Hquery : ∀ k, k ≠ "before"%string → r2.(query) k = r1.(query) k)
    (Hcur : r2.(query) "before" = cur) :
  let series := sql_group secs (candle_rows table f) in
  let n := Z.to_nat f.(CandleFilter.Limit) in
  page = take n series ∧
  handleCandles parse format s r2 = reply_candles format f.(CandleFilter.Limit) (take n (drop n series)).
Proof.
  intros series n. destruct (IntervalSeconds_ok _ _ Hsecs) as [Hpos Hdiv].
  assert (∃ l, f.(CandleFilter.Limit) = ClampLimit l) as [l Hl].
  { unfold candle_filter in Hf. repeat (case_match; simplify_eq); eauto. }
  assert (ClampLimit f.(CandleFilter.Limit) = f.(CandleFilter.Limit)) as Hclamp
    by (rewrite Hl; apply ClampLimit_id, ClampLimit_range).
  assert (∀ g, g.(CandleFilter.Interval) = f.(CandleFilter.Interval) → g.(CandleFilter.Limit) = f.(CandleFilter.Limit) →
    g.(CandleFilter.Fill) = false → s.(reader).(qCandles) g = Some (take n (sql_group secs (candle_rows table g)))) as Hq.
  { intros g Ei El Ef. rewrite Hreader. unfold Pg_QueryCandles. rewrite Ei, Hsecs, Ef, El, Hclamp. done. }
  rewrite handleCandles_filter, Hf, Hq in Hpage by done. fold series in Hpage. unfold reply_candles in Hpage.
  assert (page = take n series ∧ length (take n series) = n ∧
    ∃ c, last (take n series) = Some c ∧ cur = format c.(Candle.Bucket)) as (-> & Hlen & c & Hlast & ->).
  { destruct (_ && _) eqn:Eb in Hpage; [|done]. apply andb_true_iff in Eb as [Elen%Z.eqb_eq _].
    destruct (last (take n series)) as [c|]; [|done]. injection Hpage as <- <-.
    split; [done|]. split; [subst n; lia|]. by exists c. }
  split; [done|].
  assert (NoDup (row_time <$> List.filter (charted f) table)) as Hnd.
  { rewrite (filter_ext_elem _ (λ r, of_symbol f.(CandleFilter.SymbolLocate) r && charted f r)).
    - rewrite <- filter_filter. by apply filter_nodup.
    - intros r _. unfold charted. by destruct (of_symbol _ r). }
  destruct (sql_group_bucket_of secs (candle_rows table f) c) as (r & Hr & Eb).
  { apply list_elem_of_lookup. exists (pred n). rewrite last_lookup, Hlen in Hlast.
    rewrite lookup_take_lt in Hlast; [done|]. destruct n; [|lia]. by rewrite take_0 in Hlast. }
  destruct (Hformat c.(Candle.Bucket)) as [Hne Hparse]; [rewrite Eb; apply Z.divide_factor_r| |].
  { rewrite Eb. apply bucket_in_calendar; [done..|]. rewrite Forall_forall in Hcal. apply Hcal.
    by eapply candle_rows_sub. }
  rewrite handleCandles_filter, (candle_filter_before _ _ _ _ _ _ _ Hf Hpath Hquery Hcur Hne Hparse), Hq by done.
  by rewrite (next_page table f secs Hpos Hnd n c Hlen Hlast).
Qed.

(** A concrete format of times that can be parsed back. *)
Fixpoint digits_of (p : positive) : string :=
  match p with
  | xH => EmptyString
  | xO p => String "0"%char (digits_of p)
  | xI p => String "1"%char (digits_of p)
  end.
Fixpoint of_digits (s : string) : positive :=
  match s with
  | EmptyString => xH
  | String c s => if Ascii.eqb c "0"%char then xO (of_digits s) else xI (of_digits s)
  end.
Definition demo_format (t : Z) : string :=
  match t with
  | 0 => "Z"%string
  | Z.pos p => String "+"%char (digits_of p)
  | Z.neg p => String "-"%char (digits_of p)
  end.
Definition demo_parse (s : string) : option Z :=
  match s with
  | String c s => Some (if Ascii.eqb c "Z"%char then 0
                        else if Ascii.eqb c "+"%char then Z.pos (of_digits s) else Z.neg (of_digits s))
  | EmptyString => None
  end.
Lemma of_digits_of p : of_digits (digits_of p) = p.
Proof. induction p as [p IH|p IH|]; cbn; by rewrite ?IH. Qed.
Lemma demo_times t : demo_format t ≠ EmptyString ∧ demo_parse (demo_format t) = Some t.
Proof. destruct t; cbn; by rewrite ?of_digits_of. Qed.

(** Three trades in three minutes, asked for two bars at a time. *)
Definition demo_table : list TradeRow.t :=
  (λ k, TradeRow.mk k 1 "NEXO" (dec (18500 + k) 2) 100 "B" ((10 + 60 * k) * second)) <$> [0; 1; 2].
Definition demo_world : world := mkWorld ∅ 0 0 ∅ (NewMarketEngine (mkRNG 0 1 false fzero) AllSymbols).
Definition demo_server : Server :=
  mkServer (mkReader (Pg_QueryTrades demo_table) (Pg_QueryTradesMulti demo_table) (Pg_QueryCandles demo_table)
              (Some (Pg_QueryTradeStats demo_table)) None None) demo_world 0 AllSymbols 0.
Definition demo_request (before : string) : request :=
  mkRequest "NEXO" (λ k, if decide (k = "limit"%string) then "2"%string
                         else if decide (k = "before"%string) then before else EmptyString).
Definition demo_filter : CandleFilter.t := CandleFilter.mk 1 "1m" 2 None None None false.

Lemma candle_pages_witness :
  let series := sql_group 60 (candle_rows demo_table demo_filter) in
  length series = 3%nat ∧
  take 2 series = take 2 series ∧
  handleCandles demo_parse demo_format demo_server (demo_request (demo_format (60 * second)))
  = reply_candles demo_format 2 (take 2 (drop 2 series)).
Proof.
  split; [vm_compute; reflexivity|].
  apply (candle_pages demo_parse demo_format demo_server demo_table (demo_request EmptyString)
    (demo_request (demo_format (60 * second))) demo_filter 60 (demo_format (60 * second))).
  - reflexivity.
  - intros t _ _. apply demo_times.
  - apply (bool_decide_unpack _). vm_compute. exact I.
  - apply (bool_decide_unpack _). vm_compute. exact I.
  - vm_compute. reflexivity.
  - reflexivity.
  - reflexivity.
  - vm_compute. reflexivity.
  - reflexivity.
  - intros k Hk. cbn. destruct (decide (k = "limit"%string)); [done|]. by destruct (decide (k = "before"%string)).
  - reflexivity.
Defined.

(** Zero-filled pages run on for ever.  For one trade, in the first minute, asked for
    one zero-filled one-minute bar at a time, the page after the last bar is an empty
    bar of the minute before, the next is of the minute before that, each with a
    cursor to go on from, although there is nothing older. *)
Definition filled_request (before : string) : request :=
  mkRequest "NEXO" (λ k, if decide (k = "limit"%string) then "1"%string
                         else if decide (k = "fill"%string) then "zero"%string
                         else if decide (k = "before"%string) then before else EmptyString).
Definition one_trade_server : Server :=
  let table := take 1 demo_table in
  mkServer (mkReader (Pg_QueryTrades table) (Pg_QueryTradesMulti table) (Pg_QueryCandles table)
              (Some (Pg_QueryTradeStats table)) None None) demo_world 0 AllSymbols 0.

Theorem filled_pages_run_on :
  let page cur := handleCandles demo_parse demo_format one_trade_server (filled_request cur) in
  let at_ t := demo_format (t * second) in
  (∃ bar, page EmptyString = mkResponse StatusOK (Some (at_ 0)) (BCandles [bar]) ∧ bar.(Candle.Count) = 1) ∧
  page (at_ 0) = mkResponse StatusOK (Some (at_ (-60))) (BCandles [Candle.empty (-60 * second)]) ∧
  page (at_ (-60)) = mkResponse StatusOK (Some (at_ (-120))) (BCandles [Candle.empty (-120 * second)]) ∧
  page (at_ (-120)) = mkResponse StatusOK (Some (at_ (-180))) (BCandles [Candle.empty (-180 * second)]).
Proof. split_and!; [eexists; split|..]; vm_compute; reflexivity. Qed.

(** ** Trades *)

Definition malformed (parse : string → option Z) (r : request) : Prop :=
  (∃ key, (key = "limit"%string ∨ key = "offset"%string) ∧ r.(query) key ≠ EmptyString ∧ Atoi (r.(query) key) = None) ∨
  (∃ key, (key = "from"%string ∨ key = "to"%string) ∧ r.(query) key ≠ EmptyString ∧ parse (r.(query) key) = None).

Definition int_param (r : request) (key : string) (def : Z) : Z :=
  if decide (r.(query) key = EmptyString) then def else default def (Atoi (r.(query) key)).
Definition time_param (parse : string → option Z) (r : request) (key : string) : option Z :=
  if decide (r.(query) key = EmptyString) then None else parse (r.(query) key).

Lemma parseIntParam_spec r key def :
  parseIntParam r key def =
  if decide (r.(query) key ≠ EmptyString ∧ Atoi (r.(query) key) = None)
  then inr (ErrNotInteger key (r.(query) key)) else inl (int_param r key def).
Proof.
  unfold parseIntParam, int_param. destruct (decide (query r key = EmptyString)) as [E|Hne].
  - by rewrite decide_False by tauto.
  - destruct (Atoi (query r key)) as [n|] eqn:Ea; [rewrite decide_False by (intros []; done)|rewrite decide_True by done]; done.
Qed.

Lemma parseTimeParam_spec parse r key :
  parseTimeParam parse r key =
  if decide (r.(query) key ≠ EmptyString ∧ parse (r.(query) key) = None)
  then inr (ErrNotTime key (r.(query) key)) else inl (time_param parse r key).
Proof.
  unfold parseTimeParam, time_param. destruct (decide (query r key = EmptyString)) as [E|Hne].
  - by rewrite decide_False by tauto.
  - destruct (parse (query r key)) as [n|] eqn:Ea; [rewrite decide_False by (intros []; done)|rewrite decide_True by done]; done.
Qed.

(** C38. Trade requests over the database: a request with a malformed [limit],
    [offset], [from] or [to] is refused with 400 before anything else; otherwise
    a known single ticker gets 200 and the page of its newest-first trades that
    the clamped limit and the floored offset select, at most 1000, an unknown one
    gets 404, and no request at all fails in the reader. *)
Theorem handleTrades_spec (parse : string → option Z) (s : Server) (table : list TradeRow.t) (r : request)
    (Hone : s.(reader).(qTrades) = Pg_QueryTrades table)
    (Hmulti : s.(reader).(qTradesMulti) = Pg_QueryTradesMulti table) :
  let resp := handleTrades parse s r in
  resp.(status) ≠ StatusInternalServerError ∧
  (malformed parse r → resp.(status) = StatusBadRequest) ∧
  (¬ malformed parse r → isMultiTicker r.(path_ticker) = false →
   match byTick s !! r.(path_ticker) with
   | None => resp.(status) = StatusNotFound
   | Some sym =>
       let rows := List.filter (λ x, of_symbol sym.(Symbol.LocateCode) x &&
                     in_range (time_param parse r "from") (time_param parse r "to") x) table in
       let l := TradeRow.to_Trade <$> page (ClampLimit (int_param r "limit" DefaultLimit))
                  (Z.max (int_param r "offset" 0) 0) (merge_sort newer rows) in
       resp.(status) = StatusOK ∧ resp.(content) = BTrades l ∧ Z.of_nat (length l) ≤ MaxLimit
   end).
Proof.
  unfold handleTrades. rewrite !parseIntParam_spec, !parseTimeParam_spec.
  destruct (decide _) as [Hl|Hl]; [|destruct (decide _) as [Ho|Ho]; [|destruct (decide _) as [Hf|Hf]; [|destruct (decide _) as [Ht|Ht]]]].
  1-4: split; [done|split; [done|]]; intros Hm; destruct Hm; unfold malformed; naive_solver.
  assert (¬ malformed parse r) as Hwf.
  { intros [(key & [-> | ->] & H)|(key & [-> | ->] & H)]; tauto. }
  cbn [or_badRequest]. set (limit := int_param r "limit" DefaultLimit). set (offset := int_param r "offset" 0).
  pose proof (ClampLimit_range limit) as Hlim.
  assert (ClampLimit (ClampLimit limit) = ClampLimit limit) as Hcc by by apply ClampLimit_id.
  split; [|split; [done|]].
  - rewrite Hone, Hmulti. destruct (isMultiTicker (path_ticker r)).
    + destruct (resolveTickers s (path_ticker r)) as [locs|[st e]] eqn:E.
      * unfold Pg_QueryTradesMulti. cbn. destruct locs; [done|]. by rewrite (proj2 (Z.ltb_ge _ _)) by lia.
      * cbn. unfold resolveTickers in E. repeat (case_match; simplify_eq); done.
    + unfold resolveTicker. destruct (byTick s !! path_ticker r); [|done].
      unfold Pg_QueryTrades. cbn. by rewrite (proj2 (Z.ltb_ge _ _)) by lia.
  - intros _ ->. unfold resolveTicker. destruct (byTick s !! path_ticker r) as [sym|]; [|done].
    rewrite Hone. unfold Pg_QueryTrades. cbn [TradeFilter.Offset TradeFilter.SymbolLocate TradeFilter.Limit TradeFilter.From TradeFilter.To].
    rewrite (proj2 (Z.ltb_ge _ _)), Hcc by lia. cbn. split_and!; [done|done|].
    rewrite length_fmap. unfold page. rewrite length_take. unfold MaxLimit in *. lia.
Qed.

Lemma handleTrades_spec_witness :
  let r := demo_request EmptyString in
  let resp := handleTrades demo_parse demo_server r in
  resp.(status) ≠ StatusInternalServerError ∧
  (malformed demo_parse r → resp.(status) = StatusBadRequest) ∧
  (¬ malformed demo_parse r → isMultiTicker r.(path_ticker) = false →
   match byTick demo_server !! r.(path_ticker) with
   | None => resp.(status) = StatusNotFound
   | Some sym =>
       let rows := List.filter (λ x, of_symbol sym.(Symbol.LocateCode) x &&
                     in_range (time_param demo_parse r "from") (time_param demo_parse r "to") x) demo_table in
       let l := TradeRow.to_Trade <$> page (ClampLimit (int_param r "limit" DefaultLimit))
                  (Z.max (int_param r "offset" 0) 0) (merge_sort newer rows) in
       resp.(status) = StatusOK ∧ resp.(content) = BTrades l ∧ Z.of_nat (length l) ≤ MaxLimit
   end).
Proof. apply (handleTrades_spec demo_parse demo_server demo_table (demo_request EmptyString)); reflexivity. Defined.
