(* ===== verification/Whole.v ===== *)
(** * The life of a trade

    The process with the archiver and the pruner, which share the trades table
    with it: from the action that makes a trade to the table and the day-files. *)
From S2P Require Import Prelude Word Float64 Rng Gaussian Symbols Market Stress Book BookSpec Itch Simulator SimFrame SimProps.
From S2P Require Import ItchJson Session Snapshot SnapshotProps Trades Archive ArchiveProps HistoryProps Archiver ArchiverProps Lifecycle Services Feed FeedProps World Process RunnerProps ProcessInv ProcessProps ProcessTrades ProcessDemo.

Local Open Scope Z_scope.

Definition with_store (st : store) (p : process) : process :=
  mkProcess p.(p_feed) p.(p_ctrl) p.(p_pcs) p.(p_held) st p.(p_snap) p.(p_db) p.(p_conns).

(** The process, the clock, and when the last cycle without failures ran. *)
Record whole := mkWhole { wh_proc : process; wh_now : Z; wh_last : Z }.

Section whole.
Context (math_Exp math_Log math_Sin : float64 → float64) (marshal : gmap string jval → option frame).
Context (config : StressConfig) (syms : list Symbol.t) (bufferSize : nat).
Context (file_size : list TradeRow.t → Z) (maxBytes maxAge interval retentionDays : Z).

Abbreviation step := (step math_Exp math_Log math_Sin marshal config syms bufferSize).
Abbreviation run := (run math_Exp math_Log math_Sin marshal config syms bufferSize).
Abbreviation service_step := (service_step file_size maxBytes maxAge interval retentionDays).
Abbreviation cycle := (cycle file_size).

(** What a step of the process does to the table. *)
Definition store_after (e : event) (st : store) : store := match e with EvSave now r => SaveTrade syms now r st | _ => st end.

(** A step of the process; a save is stamped by the clock, which does not go
    back.  A cycle of the archiver, whatever fails in it; one in which nothing
    does; a prune, at most [interval] after the last such. *)
Inductive whole_step : whole → option event → whole → Prop :=
  | wl_step p now last e q :
      limited p → step p e q → saves_of e = [] → whole_step (mkWhole p now last) (Some e) (mkWhole q now last)
  | wl_save p now last t r q :
      limited p → step p (EvSave t r) q → now ≤ t → whole_step (mkWhole p now last) (Some (EvSave t r)) (mkWhole q t last)
  | wl_cycle p now last t e flt saved :
      now ≤ t → whole_step (mkWhole p now last) None (mkWhole (with_store (cycle e flt saved maxBytes maxAge t p.(p_store)) p) t last)
  | wl_complete p now last t e :
      now ≤ t → whole_step (mkWhole p now last) None
        (mkWhole (with_store (cycle e (λ _, NoFault) (λ _, true) maxBytes maxAge t p.(p_store)) p) t t)
  | wl_prune p now last t :
      now ≤ t → t ≤ last + interval →
      whole_step (mkWhole p now last) None (mkWhole (with_store (prune retentionDays t p.(p_store)) p) t last).

Inductive whole_run (x0 : whole) : list event → whole → Prop :=
  | wr_start : whole_run x0 [] x0
  | wr_more tr x e y : whole_run x0 tr x → whole_step x e y → whole_run x0 (tr ++ option_list e) y.

(** ** Nobody else reads the table *)

Lemma step_store p e q st : step p e q → step (with_store st p) e (with_store (store_after e st) q) ∧ q.(p_store) = store_after e p.(p_store).
Proof.
  intros H. destruct H; (split; [|reflexivity]); cbn [store_after].
  - by eapply (st_run _ _ _ _ _ _ _ (with_store st p)).
  - by eapply (st_take _ _ _ _ _ _ _ (with_store st p)).
  - by eapply (st_save _ _ _ _ _ _ _ (with_store st p)).
  - by eapply (st_lost _ _ _ _ _ _ _ (with_store st p)).
  - by eapply (st_connect _ _ _ _ _ _ _ (with_store st p)).
  - by eapply (st_pump _ _ _ _ _ _ _ (with_store st p)).
  - by eapply (st_control _ _ _ _ _ _ _ (with_store st p)).
  - by eapply (st_handle _ _ _ _ _ _ _ (with_store st p)).
  - by eapply (st_handled _ _ _ _ _ _ _ (with_store st p)).
  - by eapply (st_read_error _ _ _ _ _ _ _ (with_store st p)).
  - by eapply (st_unregister _ _ _ _ _ _ _ (with_store st p)).
  - by eapply (st_close _ _ _ _ _ _ _ (with_store st p)).
  - by eapply (st_snap_begin _ _ _ _ _ _ _ (with_store st p)).
  - by eapply (st_snap_book _ _ _ _ _ _ _ (with_store st p)).
  - by eapply (st_snap_collected _ _ _ _ _ _ _ (with_store st p)).
  - by eapply (st_snap_row _ _ _ _ _ _ _ (with_store st p)).
  - by eapply (st_snap_copied _ _ _ _ _ _ _ (with_store st p)).
  - by eapply (st_snap_rng _ _ _ _ _ _ _ (with_store st p)).
  - by eapply (st_snap_id _ _ _ _ _ _ _ (with_store st p)).
  - by eapply (st_snap_match _ _ _ _ _ _ _ (with_store st p)).
  - by eapply (st_snap_error _ _ _ _ _ _ _ (with_store st p)).
  - by eapply (st_snap_commit _ _ _ _ _ _ _ (with_store st p)).
Qed.

Lemma with_own_store p : with_store p.(p_store) p = p.
Proof. by destruct p. Qed.

Lemma limited_store st p : limited p → limited (with_store st p).
Proof. intros []. by split. Qed.

(** The process alone makes the same run, with a table of its own. *)
Lemma whole_process x0 tr x : whole_run x0 tr x → ∃ st, run x0.(wh_proc) tr (with_store st x.(wh_proc)).
Proof.
  induction 1 as [|tr x e y _ [st IH] Hs].
  { exists x0.(wh_proc).(p_store). rewrite with_own_store. constructor. }
  destruct Hs as [p now last e q Hl Hs He|p now last t r q Hl Hs Ht|p now last t e flt saved Ht|p now last t e Ht|p now last t Ht Hi];
    cbn [wh_proc option_list] in *; rewrite ?app_nil_r; try (by exists st).
  - eexists. eapply run_more; [exact IH|by apply limited_store|]. by apply step_store.
  - eexists. eapply run_more; [exact IH|by apply limited_store|]. by apply step_store.
Qed.

(** The table and the day-files see the services of Services. *)
Abbreviation seen x := (x.(wh_now), x.(wh_last), x.(wh_proc).(p_store)).

Lemma whole_service x e y :
  whole_step x e y → seen x = seen y ∨ service_step (seen x) (seen y).
Proof.
  intros Hs. destruct Hs as [p now last e q Hl Hs He|p now last t r q Hl Hs Ht|p now last t e flt saved Ht|p now last t e Ht|p now last t Ht Hi]; cbn.
  - left. destruct (step_store p e q p.(p_store) Hs) as [_ ->]. by destruct e.
  - right. destruct (step_store _ _ _ p.(p_store) Hs) as [_ ->].
    apply (sv_insert file_size maxBytes maxAge interval retentionDays now last p.(p_store) (trade_row syms t r) Ht).
  - right. by apply sv_cycle.
  - right. by apply sv_complete.
  - right. by apply sv_prune.
Qed.

(** ** Where the trades are *)

(** A service only takes rows out of the table. *)
Lemma archiveDay_sub flt D next s : (archiveDay flt D next s).1.(trades) ⊆ s.(trades).
Proof.
  unfold archiveDay. destruct (decide _); [by destruct flt|]. destruct flt; cbn; try done.
  intros r [H _]%elem_of_filter_bool. exact H.
Qed.

Lemma cycle_loop_sub fuel flt saved D cut s : (cycle_loop fuel flt saved D cut s).1.(trades) ⊆ s.(trades).
Proof.
  revert D s. induction fuel as [|fuel IH]; intros D s; cbn; [by case_match|]. destruct (D <? cut); [|done].
  pose proof (archiveDay_sub (flt D) D (D + day_ns) s) as Ha. destruct (archiveDay (flt D) D (D + day_ns) s) as [s1 [n|]]; cbn in *; [|done].
  etrans; [apply IH|]. etrans; [|exact Ha]. unfold saveCursor. by case_match.
Qed.

Lemma cycle_sub e flt saved t s : (cycle e flt saved maxBytes maxAge t s).(trades) ⊆ s.(trades).
Proof.
  assert ((cycle_days flt saved maxAge t s).1.(trades) ⊆ s.(trades)) as H.
  { unfold cycle_days. destruct (startDay s) as [day|]; [apply cycle_loop_sub|done]. }
  unfold Archiver.cycle. destruct (cycle_days _ _ _ _ _) as [s' []]; [|exact H]. by rewrite (proj1 (rotate_rest _ _ _ _)).
Qed.

Lemma prune_sub t s : (prune retentionDays t s).(trades) ⊆ s.(trades).
Proof. intros r [H _]%elem_of_filter_bool. exact H. Qed.

Definition wstep (x y : whole) : Prop := ∃ e, whole_step x e y.

(** On the way from [x0] to [x], a rotation of a full archive deleted the day-file of [row]. *)
Definition rotated_away (x0 : whole) (row : TradeRow.t) (x : whole) : Prop :=
  ∃ u v, rtc wstep x0 u ∧ wstep u v ∧ rotation_of file_size maxBytes maxAge row (seen u) (seen v) ∧ rtc wstep v x.

Lemma rotated_away_more x0 row x e y : whole_step x e y → rotated_away x0 row x → rotated_away x0 row y.
Proof. intros Hs (u & v & H1 & H2 & H3 & H4). exists u, v. split_and!; [done..|]. eapply rtc_r; [exact H4|by exists e]. Qed.

(** Every row of the table is an old one or a save's; every save's row is stored, or was
    rotated out. *)
Record kept (x0 : whole) (tr : list event) (x : whole) : Prop := mk_kept {
  kp_reach : rtc wstep x0 x;
  kp_rows : ∀ row, row ∈ x.(wh_proc).(p_store).(trades) →
    row ∈ x0.(wh_proc).(p_store).(trades) ∨ ∃ s, s ∈ saves tr ∧ row = trade_row syms s.1 s.2;
  kp_saves : ∀ s, s ∈ saves tr →
    stored (trade_row syms s.1 s.2) x.(wh_proc).(p_store) ∨ rotated_away x0 (trade_row syms s.1 s.2) x;
}.

(** A step that saves nothing. *)
Lemma kept_quiet x0 tr x e y :
  kept x0 tr x → whole_step x e y → service_ok maxAge (seen x) →
  0 ≤ maxAge → maxAge + day_ns + interval ≤ retentionDays * day_ns →
  y.(wh_proc).(p_store).(trades) ⊆ x.(wh_proc).(p_store).(trades) → kept x0 tr y.
Proof.
  intros [H0 H1 H2] Hs Hok Hage Hset Hsub. split.
  - eapply rtc_r; [exact H0|by exists e].
  - intros row Hr. by apply H1, Hsub.
  - intros s Hr. destruct (H2 s Hr) as [Hst|Hro]; [|right; by eapply rotated_away_more].
    destruct (whole_service x e y Hs) as [E|Hsv]; [left; by injection E as _ _ <-|].
    destruct (service_step_ok file_size maxBytes maxAge interval retentionDays Hage Hset _ _ Hsv Hok) as [_ H].
    destruct (H _ Hst) as [Hst'|Hro]; [by left|right]. exists x, y. split_and!; [exact H0|by exists e|exact Hro|apply rtc_refl].
Qed.

(** The number of a save is new: no earlier save's, and none of the table at the start. *)
Lemma save_fresh (Hsyms : syms_ok syms) p0 tr t r p :
  proc_ok syms p0 → idle p0 → p0.(p_feed).(f_trades) = [] → p0.(p_held) = [] →
  (∀ n, n ∈ row_numbers p0.(p_store) → 0 ≤ n ≤ p0.(p_feed).(f_world).(w_match)) →
  run p0 (tr ++ [EvSave t r]) p →
  to_i64 (number r) ∉ row_numbers p0.(p_store) ∧ ∀ s, s ∈ saves tr → to_i64 (number s.2) ≠ to_i64 (number r).
Proof.
  intros H0 Hidle Hch Hheld Hold Hrun.
  destruct (offered_fresh _ _ _ _ _ _ _ Hsyms _ _ _ H0 Hidle Hrun Hold) as [Hnd Hnew].
  destruct (run_accounts _ _ _ _ _ _ _ _ _ _ Hch Hheld Hrun) as (dr & Hall & _).
  rewrite saves_more, fmap_app in Hall. cbn [saves_of fmap list_fmap snd] in Hall. split.
  - apply Hnew. rewrite Hall, !elem_of_app. do 3 right. left. right. by left.
  - intros s Hs E. rewrite Hall, !fmap_app in Hnd. apply NoDup_app in Hnd as (_ & _ & Hnd).
    apply NoDup_app in Hnd as (_ & _ & Hnd). apply NoDup_app in Hnd as (_ & _ & Hnd). apply NoDup_app in Hnd as (Hnd & _ & _).
    apply NoDup_app in Hnd as (_ & Hdis & _). apply (Hdis (to_i64 (number s.2))).
    + apply list_elem_of_fmap. exists s.2. split; [done|by apply list_elem_of_fmap_2].
    + rewrite E. by left.
Qed.

(** A save puts its row into the table. *)
Lemma kept_save x0 tr p now last t r q :
  kept x0 tr (mkWhole p now last) → whole_step (mkWhole p now last) (Some (EvSave t r)) (mkWhole q t last) →
  q.(p_store) = SaveTrade syms t r p.(p_store) →
  to_i64 (number r) ∉ row_numbers x0.(wh_proc).(p_store) → (∀ s, s ∈ saves tr → to_i64 (number s.2) ≠ to_i64 (number r)) →
  kept x0 (tr ++ [EvSave t r]) (mkWhole q t last).
Proof.
  intros [H0 H1 H2] Hs E Hold Hnew. cbn [wh_proc] in *.
  assert (q.(p_store) = mkStore (trade_row syms t r :: p.(p_store).(trades)) p.(p_store).(cursor) p.(p_store).(day_file)) as Eq.
  { rewrite E. unfold SaveTrade. destruct (insert_trade_cases (trade_row syms t r) p.(p_store)) as [[_ Hin]|[-> _]]; [|done].
    apply list_elem_of_fmap in Hin as (row & En & Hrow). destruct (H1 row Hrow) as [Hr0|(s & Hs' & ->)].
    - destruct Hold. rewrite (En : to_i64 (number r) = _). by apply list_elem_of_fmap_2.
    - by destruct (Hnew s Hs'). }
  split; cbn [wh_proc]; rewrite ?Eq, ?saves_more; cbn [trades saves_of].
  - eapply rtc_r; [exact H0|by exists (Some (EvSave t r))].
  - intros row [->|Hr]%elem_of_cons.
    + right. exists (t, r). split; [apply elem_of_app; right; by left|done].
    + destruct (H1 row Hr) as [?|(s & ? & ->)]; [by left|right]. exists s. split; [apply elem_of_app; by left|done].
  - intros s [Hs'| ->%list_elem_of_singleton]%elem_of_app; [|left; left; by left].
    destruct (H2 s Hs') as [[Hst|Hst]|Hro]; [left; left; by right|left; by right|right; by eapply rotated_away_more].
Qed.

Lemma seen_run_ok x0 tr x :
  whole_run x0 tr x → 0 ≤ maxAge → maxAge + day_ns + interval ≤ retentionDays * day_ns →
  service_ok maxAge (seen x0) → service_ok maxAge (seen x).
Proof.
  intros Hr Hage Hset H0. induction Hr as [|tr x e y _ IH Hs]; [done|].
  destruct (whole_service x e y Hs) as [<-|Hsv]; [done|]. by eapply service_step_ok.
Qed.

Lemma whole_kept (Hsyms : syms_ok syms) x0 tr x :
  0 ≤ maxAge → maxAge + day_ns + interval ≤ retentionDays * day_ns → service_ok maxAge (seen x0) →
  proc_ok syms x0.(wh_proc) → idle x0.(wh_proc) → x0.(wh_proc).(p_feed).(f_trades) = [] → x0.(wh_proc).(p_held) = [] →
  (∀ n, n ∈ row_numbers x0.(wh_proc).(p_store) → 0 ≤ n ≤ x0.(wh_proc).(p_feed).(f_world).(w_match)) →
  whole_run x0 tr x → kept x0 tr x.
Proof.
  intros Hage Hset Hsv H0 Hidle Hch Hheld Hold Hrun. induction Hrun as [|tr x e y Hrun IH Hs].
  { split; [apply rtc_refl|by left|]. by intros s ?%elem_of_nil. }
  pose proof (seen_run_ok _ _ _ Hrun Hage Hset Hsv) as Hok.
  destruct (whole_process _ _ _ (wr_more _ _ _ _ _ Hrun Hs)) as [st Hproc].
  pose proof Hs as Hs'. destruct Hs' as [p now last e q Hl Hst He|p now last t r q Hl Hst Ht|p now last t e flt saved Ht|p now last t e Ht|p now last t Ht Hi];
    [change (option_list (Some e)) with [e] in *|change (option_list (Some (EvSave t r))) with [EvSave t r] in *|rewrite app_nil_r..].
  - destruct (step_store p e q p.(p_store) Hst) as [_ E].
    assert (kept x0 tr (mkWhole q now last)) as [K1 K2 K3].
    { eapply kept_quiet; [exact IH|exact Hs|done..|]. cbn. rewrite E. by destruct e. }
    split; [done|..]; rewrite saves_more, He, app_nil_r; done.
  - destruct (step_store p _ q p.(p_store) Hst) as [_ E].
    destruct (save_fresh Hsyms _ _ _ _ _ H0 Hidle Hch Hheld Hold Hproc) as [Hf1 Hf2]. by eapply kept_save.
  - eapply kept_quiet; [exact IH|exact Hs|done..|]. apply cycle_sub.
  - eapply kept_quiet; [exact IH|exact Hs|done..|]. apply cycle_sub.
  - eapply kept_quiet; [exact IH|exact Hs|done..|]. apply prune_sub.
Qed.

(** The life of a trade, with everything running at once: the runners, the trade
    writers, the snapshotter, the clients, the archiver failing anywhere and the
    pruner, in any interleaving.  The trades made since the start carry consecutive
    match numbers, each exactly once.  Each is held by a runner, in the channel, with a
    writer, refused by a full channel, lost to an error of its save, or saved; and the
    row of each that was saved is in the table or in its day's file, unless a rotation
    deleted that file when the archive was over its size.  The settings and the start
    are as in [services_keep_trades] and [process_trades]. *)
Theorem trade_life (Hsyms : syms_ok syms) (x0 x : whole) (tr : list event)
    (Hage : 0 ≤ maxAge) (Hset : maxAge + day_ns + interval ≤ retentionDays * day_ns)
    (Hsv : service_ok maxAge (seen x0)) (H0 : proc_ok syms x0.(wh_proc)) (Hidle : idle x0.(wh_proc))
    (Hch : x0.(wh_proc).(p_feed).(f_trades) = []) (Hheld : x0.(wh_proc).(p_held) = [])
    (Hold : ∀ n, n ∈ row_numbers x0.(wh_proc).(p_store) → 0 ≤ n ≤ x0.(wh_proc).(p_feed).(f_world).(w_match))
    (Hrun : whole_run x0 tr x) :
  let p := x.(wh_proc) in
  let m0 := x0.(wh_proc).(p_feed).(f_world).(w_match) in let m := p.(p_feed).(f_world).(w_match) in
  number <$> (pool p.(p_pcs) ++ offered_all tr) ≡ₚ seqZ (m0 + 1) (m - m0) ∧
  (∃ dropped,
    offered_all tr ≡ₚ p.(p_feed).(f_trades) ++ p.(p_held) ++ dropped ++ (saves tr).*2 ++ losses tr ∧
    ∀ r, r ∈ dropped → refused math_Exp math_Log math_Sin marshal config syms bufferSize x0.(wh_proc) tr r) ∧
  ∀ s, s ∈ saves tr → stored (trade_row syms s.1 s.2) p.(p_store) ∨ rotated_away x0 (trade_row syms s.1 s.2) x.
Proof.
  intros p m0 m. destruct (whole_process _ _ _ Hrun) as [st Hproc].
  destruct (run_numbered _ _ _ _ _ _ _ Hsyms _ _ _ H0 Hidle Hproc) as [_ Hnum].
  destruct (run_accounts _ _ _ _ _ _ _ _ _ _ Hch Hheld Hproc) as (dr & Hall & Hdr).
  split; [|split; [by exists dr|]].
  - by rewrite (Permutation_app_comm (pool _)).
  - by apply (whole_kept Hsyms x0 tr x).
Qed.

End whole.

(** A run of the process in which nothing is saved is one of the whole. *)
Lemma run_whole math_Exp math_Log math_Sin marshal config syms bufferSize file_size maxBytes maxAge interval retentionDays p0 tr p now last :
  run math_Exp math_Log math_Sin marshal config syms bufferSize p0 tr p → saves tr = [] →
  whole_run math_Exp math_Log math_Sin marshal config syms bufferSize file_size maxBytes maxAge interval retentionDays
    (mkWhole p0 now last) tr (mkWhole p now last).
Proof.
  induction 1 as [|tr p e q _ IH Hl Hs]; intros E; [constructor|]. rewrite saves_more in E. apply app_nil in E as [E1 E2].
  apply (wr_more _ _ _ _ _ _ _ _ _ _ _ _ _ tr _ (Some e) _ (IH E1)). by apply wl_step.
Qed.

(** The trade of [trade_trace], saved at noon of a day and archived three days later. *)
Lemma trade_life_witness :
  let size rows := 1000 * Z.of_nat (length rows) in
  let x := mkWhole (with_store (cycle size clean (λ _, NoFault) (λ _, true) 5000 day_ns (4 * day_ns) trade_end.(p_store)) trade_end)
    (4 * day_ns) (4 * day_ns) in
  let p := x.(wh_proc) in
  number <$> (pool p.(p_pcs) ++ offered_all trade_trace) ≡ₚ [1] ∧
  (∃ dropped,
    offered_all trade_trace ≡ₚ p.(p_feed).(f_trades) ++ p.(p_held) ++ dropped ++ (saves trade_trace).*2 ++ losses trade_trace ∧
    ∀ r, r ∈ dropped → refused (λ _, one) (λ _, float_of_Z (-1)) (λ _, fzero) (λ _, None) DefaultStressConfig demo_syms 16 trade_start trade_trace r) ∧
  ∀ s, s ∈ saves trade_trace → stored (trade_row demo_syms s.1 s.2) p.(p_store) ∨
    rotated_away (λ _, one) (λ _, float_of_Z (-1)) (λ _, fzero) (λ _, None) DefaultStressConfig demo_syms 16
      size 5000 day_ns (6 * hour) 3 (mkWhole trade_start 0 0) (trade_row demo_syms s.1 s.2) x.
Proof.
  intros size x p.
  apply (trade_life (λ _, one) (λ _, float_of_Z (-1)) (λ _, fzero) (λ _, None) DefaultStressConfig demo_syms 16
    size 5000 day_ns (6 * hour) 3 demo_syms_ok (mkWhole trade_start 0 0) x trade_trace).
  - done.
  - vm_compute. discriminate.
  - apply service_start_ok.
  - exact trade_proc_ok.
  - exact trade_idle.
  - reflexivity.
  - reflexivity.
  - by intros n ?%elem_of_nil.
  - apply (wr_more _ _ _ _ _ _ _ _ _ _ _ _ _ trade_trace (mkWhole trade_end 7 0) None); [|by apply wl_complete].
    apply (wr_more _ _ _ _ _ _ _ _ _ _ _ _ _ (take 5 trade_trace) (mkWhole trade_taken 0 0) (Some (EvSave 7 trade_saved))).
    + apply run_whole; [exact trade_run_taken|reflexivity].
    + apply wl_save; [exact trade_taken_limited| |done]. by apply (st_save _ _ _ _ _ _ _ trade_taken 7 [] trade_saved []).
Defined.
